(* ===== verification/_CoqProject ===== *)
-Q . S2P
Prelude.v
GoStrings.v
Regex.v
Errors.v
Values.v
Glob.v
Types.v
Ids.v
Merge.v
Extends.v
Validate.v
Normalize.v
LastWriter.v
JsonText.v
Render.v
Canonical.v
Alike.v
Sha256.v
Hash.v
Kernel.v
Registry.v
ErrorText.v
RegistrySpec.v
Sync.v
RegistryLock.v
MemoCells.v
Budget.v
Chains.v
Expand.v
Resolve.v
Manifest.v
Build.v
Forge.v
Safety.v
Completeness.v
McpFactory.v
Factories.v
Filepath.v
FsStore.v
Overlay.v
RegexReplace.v
Payloads.v
Filters.v
Policies.v
Leaves.v
Sessions.v
SessionCode.v
SharedSessions.v
SessionIsolation.v
Programs.v
Demo.v
Scenarios.v
