(* ===== verification/Prelude.v ===== *)
(** * Verification of praxis-forge

    praxis-forge turns a declarative agent specification into a governed agent of
    the praxis kernel.  A YAML spec, its parents (extends) and overlays are composed
    into one normalised spec; a frozen registry of component factories resolves every
    reference of it, skills inject the components they require, and the build wires
    the kernel's orchestrator and records a manifest.  This development models that
    pipeline function by function (source paths are relative to the repository) and
    proves what makes each part correct.

    ** How the parts interact

    forge.Build = Normalize (spec/) ; Freeze (registry/) ; build.Build (build/), and
    build.Build = expandSkills ; resolveOutputContract ; resolve ; resolveMCPBindings ;
    materialize ; buildManifest.  The registry holds factories, the concrete ones of
    factories/ among them; the built agent runs the composed hooks of build/ around
    the kernel.

    ** Files

    Shared vocabulary:
    - [Prelude]: results ([res], Go's [(T, error)]), slices (nil or a list), maps (nil
      or entries in one iteration order), loops that may return, the hint databases
      and tactics;
    - [GoStrings], [Regex], [RegexReplace], [Glob], [Filepath], [JsonText], [Sha256]:
      the parts of Go's standard library the code uses (strings, sort, regexp,
      path/filepath, encoding/json, crypto/sha256), executable;
    - [Errors]: the sentinels, fmt.Errorf wrapping, errors.Is, spec.Errors;
    - [Render]: the text of errors (fmt's verbs, strconv.Quote, the Error methods of
      spec/errors.go and spec/normalize.go);
    - [Values]: dynamic values of configs, and JSON trees;
    - [Sync]: sync.RWMutex and the objects it guards, as interleavings of single
      accesses, with the simulation by atomic calls.

    The spec package:
    - [Types] (types.go, overlay.go, provenance.go): the records;
    - [Ids] (ids.go, registry/id.go): component ids;
    - [Extends] (normalize.go, store.go): resolveExtendsChain over the [SpecStore]
      interface ([Holds] is its contract) and the in-memory store, whose map may hold
      nil pointers (the walk of one panics);
    - [FsStore] (store.go): FilesystemSpecStore, an instance of the same contract;
    - [Merge] (merge.go, normalize.go): mergeChain, applyOverlays, provenance;
    - [Validate] (validate.go, validate_mcp.go), [Normalize] (normalize.go, locked.go,
      provenance.go): validation and the whole of Normalize; [ErrorText]: the text of
      their errors; [LastWriter]: a reference composition, each field looked up in the
      list of its writers, that Normalize is shown to compute;
    - [Overlay] (overlay.go): decoding of overlay bodies;
    - [Canonical], [Hash] (canonical.go): canonical JSON, pruning, memoised hashes;
      [Alike]: when two JSON trees say the same, without reference to pruning;
      [MemoCells]: the sync.Once of the memos under concurrent callers.

    The registry and the kernel:
    - [Kernel]: the types and functions of the praxis kernel as a class, and effectful
      calls ([IO]: a world in, a result and a world out);
    - [Registry] (registry/): kinds, products, the typed maps; [RegistrySpec]: the
      history-based specification that the registry refines; [RegistryLock]: its
      methods, access by access under its mutex, over [Sync].

    The build package:
    - [Budget] (budget.go), [Chains] (policy_chain.go, filter_chains.go,
      tool_router.go), [Expand] (expand.go, expanded_hash.go), [Resolve] (resolver.go,
      mcp.go), [Manifest] (capabilities.go, manifest/), [Build] (build.go);
    - [Forge] (forge.go, spec/load.go, spec/load_overlay.go, internal/version): entry
      points, loaders, the version;
    - about the whole pipeline: [Safety] (how it fails: without a panic, with a text),
      [Completeness] (when a build completes).

    The factories and the examples:
    - [McpFactory] (factories/mcpbinding), [Factories] (promptassetliteral,
      outputcontractjsonschema, skillstructuredoutput);
    - [Payloads]: the fields of messages, calls, results and decisions, as a class over
      [Kernel]; [Filters] (filterpathescape, filteroutputtruncate, filtersecretscrubber,
      examples/sliding-window-filter), [Policies] (policypackpiiredact and the gate of
      examples/session-pattern), [Leaves] (budgetprofiledefault, credresolverenv,
      toolpackhttpget, identitysignered25519, telemetryprofileslog,
      provideranthropic);
    - [Sessions] (examples/session-pattern/session.go): the [Store] interface, the
      in-memory store, Turn, Resume, called in sequence; [SessionCode]: the same methods
      access by access, shown to be those of [Sessions] when run alone;
      [SharedSessions]: their interleavings by many goroutines and the specification,
      independent conversations; [SessionIsolation]: that it holds when a session has
      one call at a time, and what happens otherwise;
    - [Programs]: what the programs of examples/ share (filling a registry, building a
      spec without parents, overlays and skills); [Demo] (examples/demo): the registry
      made of the repository's own factories, the three specs beside it, the run by
      flags; [Scenarios] (the main functions of examples/session-pattern and
      examples/sliding-window-filter, internal/testutil/fakeprovider).

    ** What the theorems show

    - Composition: the composed spec and all of its provenance are those of the reference
      composition, where every field comes from the last layer or overlay that says it;
      overlays are attributed in order; identity is never rebranded; the
      result is valid; locked drift is refused; normalisation is idempotent; the extends walk terminates, accepts exactly finite
      chains without repetition, and classifies its errors.
    - Validation is equivalent to a declarative specification; overlay decoding keeps
      absent, null and list apart and is strict; store references cannot leave the root.
    - Canonical JSON is a complete invariant of specs up to map order, nulls and empty
      collections; hashes are fixed at the first call.
    - The registry refines its history-based specification, called in sequence; used by
      many goroutines it is linearizable with respect to it, free of data races and of
      deadlocks, and a freeze settles its content for all of them.  The memoised
      accessors of a spec give every goroutine the same answer.
    - Every failure of Normalize and of forge.Build has a text without fmt's markers
      of a mismatched argument, which shows the sentinels it wraps.
    - Build: expansion adds exactly the missing requirements and attributes them;
      resolution builds every reference; chains short-circuit; the router dispatches;
      manifests list the composition and agree with their capabilities; the kernel
      gets the options of the parts present, in the order of the source; a budget
      override never exceeds a positive default; the build never panics; a build whose
      parts fit completes.
    - Factories: decoders accept exactly well-formed configs; scrubbing leaves no
      secret; truncation, windows, lifetimes and budgets keep their bounds; the HTTP tool
      starts only at allow-listed hosts (redirects lead anywhere); no
      part of the input escapes the PII detectors.
    - Sessions refine a two-state conversation (idle or paused) that is never stuck; a
      reply is returned only once it is saved.  Called by many goroutines, one call per
      session at a time, they are independent conversations, without races, and every
      call returns; two calls on one session race or lose an exchange.
    - Programs, end to end: the demo builds agent.yaml and agent-mcp.yaml from the
      repository's factories and can never build agent-structured.yaml; the session
      program pauses and resumes as it prints.

    ** Conventions and bounds

    Strings are byte sequences.  An int is a [Z] where its width can matter (durations
    and budgets are int64: [Leaves.wrap64], [Budget.two63]); indices are [nat].  A panic
    is the error [EPanic].  The iteration order of a Go map is the order of its entries;
    [Hash.hash_ignores_map_order] shows that hashes do not depend on it.  Fuel:
    [Extends.walk_fuel] is [MaxExtendsDepth + 2], one more than the deepest call
    ([Extends.extends_walk_terminates]); scans of strings use their length, and read at
    least one byte per turn ([Glob.chunks_ok_fuel], [RegexReplace.pieces_scanned]).
    Executions of concurrent calls are sequences of steps without a bound; those that
    start no new call end within 6 steps per registry call in flight (at most three
    accesses, three steps to take and release the lock and return), 10 per memo accessor
    and 18 per Turn or Resume (at most 17 accesses and the return).
    float64 to int conversion outside the int range is the platform's and is a
    parameter where it can occur.

    ** Assumptions

    Code outside the repository is a parameter: the kernel ([Kernel.Kernel],
    [Build.Orchestration], [Payloads.Payloads], [Sessions.Approvals],
    [Scenarios.Offline], [Demo.Services], each with a concrete instance), yaml.v3, the
    file system, the environment, HTTP. A factory's Build and a hook are functions of
    their arguments and the world that do not change the config they are given. A
    factory may answer a nil value without an error: the places that test for it ask
    [Resolver_nil] and [Signer_nil] of [Kernel], and the theorems that need it assume it
    does not happen ([builds_no_nil]). Concurrent accesses are sequentially consistent
    (the lock orders them, as the theorems on races show), and the lock may be granted
    in any order that excludes writers (a waiting Go writer holds back new readers,
    which allows fewer). A call of the agent is one step of the world. Slices are
    values: no two of them share an array. The client of net/http follows redirects as
    documented; which response redirects where is a parameter. The texts of errors made
    outside the repository, and the table of printable characters strconv.Quote reads,
    are parameters.

    ** Not modelled

    - printing: the programs of examples/ return what they print as data, and only
      when they end without an error;
    - flags and widths of fmt's verbs, which no error of the repository uses;
    - symbolic links: [FsStore] confines the path that is opened;
    - the text of HTTP requests, and how the client's timeout ends them. *)

From stdpp Require Export base tactics option list fin_maps gmap strings pretty sorting.
From Stdlib Require Export ZArith Lia.
From Stdlib Require Import Ascii.
Export Stdlib.Strings.Ascii (ascii(..)).
Export (notations) Stdlib.Strings.Ascii.
From stdpp Require Import options.

#[export] Set Warnings "-clear-no-such-hyp,-register-all".


(** ** Results: a Go function returning [(T, error)]

    A Go function of this repository returns either a value and a nil error
    or a zero value and a non-nil error; [res] keeps exactly one of the two. *)
Inductive res (E A : Type) : Type :=
| Ok (a : A)
| Err (e : E).
Arguments Ok {E A} a.
Arguments Err {E A} e.

#[global] Instance res_ret {E} : MRet (res E) := λ A a, Ok a.
#[global] Instance res_bind {E} : MBind (res E) := λ A B f m,
  match m with Ok a => f a | Err e => Err e end.
#[global] Instance res_fmap {E} : FMap (res E) := λ A B f m,
  match m with Ok a => Ok (f a) | Err e => Err e end.

(** [map_err f m] is the [if err != nil { return fmt.Errorf(..., err) }] idiom. *)
Definition map_err {E F A} (f : E → F) (m : res E A) : res F A :=
  match m with Ok a => Ok a | Err e => Err (f e) end.

Definition is_ok {E A} (m : res E A) : bool :=
  match m with Ok _ => true | Err _ => false end.

Section res_lemmas.
Context {E : Type}.

Lemma bind_Ok {A B} (f : A → res E B) m b :
  m ≫= f = Ok b ↔ ∃ a, m = Ok a ∧ f a = Ok b.
Proof. destruct m; naive_solver. Qed.

Lemma bind_Err {A B} (f : A → res E B) m e :
  m ≫= f = Err e ↔ m = Err e ∨ ∃ a, m = Ok a ∧ f a = Err e.
Proof. destruct m; naive_solver. Qed.

Lemma fmap_Ok {A B} (f : A → B) (m : res E A) b :
  f <$> m = Ok b ↔ ∃ a, m = Ok a ∧ f a = b.
Proof. destruct m; naive_solver. Qed.

Lemma map_err_Ok {F A} (f : E → F) (m : res E A) a :
  map_err f m = Ok a ↔ m = Ok a.
Proof. destruct m; naive_solver. Qed.

Lemma map_err_Err {F A} (f : E → F) (m : res E A) e' :
  map_err f m = Err e' ↔ ∃ e, m = Err e ∧ f e = e'.
Proof. destruct m; naive_solver. Qed.

Lemma is_ok_spec {A} (m : res E A) : is_ok m = true ↔ ∃ a, m = Ok a.
Proof. destruct m; naive_solver. Qed.
End res_lemmas.

(** [foldM f acc l]: a [for _, x := range l] loop whose body may return an
    error; [foldMi] also passes the index of the iteration. *)
Fixpoint foldM {E St A} (f : St → A → res E St) (acc : St) (l : list A) : res E St :=
  match l with
  | [] => Ok acc
  | x :: l' => f acc x ≫= λ acc', foldM f acc' l'
  end.

Fixpoint foldMi {E St A} (f : nat → St → A → res E St) (i : nat) (acc : St) (l : list A)
    : res E St :=
  match l with
  | [] => Ok acc
  | x :: l' => f i acc x ≫= λ acc', foldMi f (S i) acc' l'
  end.

(** [mapM_res f l]: a loop that appends [f x] to its result or returns. *)
Section mapM_res.
Context {E A B : Type} (f : A → res E B).
Fixpoint mapM_res (l : list A) : res E (list B) :=
  match l with
  | [] => Ok []
  | x :: l' => f x ≫= λ y, mapM_res l' ≫= λ ys, Ok (y :: ys)
  end.
End mapM_res.

(** ** Slices and maps

    A Go slice is [nil] or a (possibly empty) sequence: the merge rules of the
    spec package tell the two apart, so a slice is an [option] of a list.  A
    Go map is [nil] or a finite collection of entries; the entries are kept as
    a list whose order stands for one iteration order of the map. *)
Abbreviation slice A := (option (list A)).
Abbreviation gomap A := (option (list (string * A))).

Definition elems {A} (s : slice A) : list A := default [] s.
Definition entries {A} (m : gomap A) : list (string * A) := default [] m.

(** [append(s, xs...)]: appending nothing to a nil slice leaves it nil. *)
Definition append_slice {A} (s : slice A) (xs : list A) : slice A :=
  match s, xs with
  | None, [] => None
  | _, _ => Some (elems s ++ xs)
  end.

(** [v, ok := m[k]] on the entries of a map. *)
Fixpoint assoc {A} (k : string) (l : list (string * A)) : option A :=
  match l with
  | [] => None
  | (k', v) :: l' => if decide (k = k') then Some v else assoc k l'
  end.

Definition map_at {A} (m : gomap A) (k : string) : option A := assoc k (entries m).

Lemma elems_Some {A} (l : list A) : elems (Some l) = l.
Proof. done. Qed.

Lemma elems_append_slice {A} (s : slice A) xs :
  elems (append_slice s xs) = elems s ++ xs.
Proof. by destruct s, xs. Qed.

Lemma append_slice_nil {A} (s : slice A) : append_slice s [] = s.
Proof. destruct s; simpl; [|done]. by rewrite app_nil_r. Qed.

Lemma append_slice_app {A} (s : slice A) xs ys :
  append_slice (append_slice s xs) ys = append_slice s (xs ++ ys).
Proof.
  destruct s as [l|], xs as [|x xs]; simpl; rewrite ?app_nil_r; try done.
  by rewrite <-(assoc_L (++)).
Qed.

Lemma assoc_Some_elem {A} k (l : list (string * A)) v :
  assoc k l = Some v → (k, v) ∈ l.
Proof.
  induction l as [|[k' v'] l IH]; simpl; [done|].
  case_decide; intros; simplify_eq; [left|right; auto].
Qed.

Lemma assoc_None {A} k (l : list (string * A)) :
  assoc k l = None ↔ k ∉ l.*1.
Proof.
  induction l as [|[k' v'] l IH]; csimpl; [set_solver|].
  case_decide; set_solver.
Qed.

Lemma elem_assoc {A} k v (l : list (string * A)) :
  NoDup l.*1 → (k, v) ∈ l → assoc k l = Some v.
Proof.
  induction l as [|[k' v'] l IH]; csimpl; [set_solver|].
  intros [Hni Hnd]%NoDup_cons [?|Hin]%elem_of_cons; simplify_eq.
  - by rewrite decide_True.
  - case_decide; [|auto]. subst. destruct Hni.
    apply list_elem_of_fmap. by exists (k', v).
Qed.

(** Lookups do not depend on the iteration order of the map. *)
Lemma assoc_perm {A} k (l1 l2 : list (string * A)) :
  NoDup l1.*1 → l1 ≡ₚ l2 → assoc k l1 = assoc k l2.
Proof.
  intros Hnd Hp. destruct (assoc k l1) as [v|] eqn:H1.
  - symmetry. apply elem_assoc; [by rewrite <-Hp|].
    rewrite <-Hp. by apply assoc_Some_elem.
  - symmetry. apply assoc_None. rewrite <-Hp. by apply assoc_None.
Qed.

(** ** Hint database and tactics of the development *)
Create HintDb forge.
Create Rewrite HintDb forge_rw.
#[export] Hint Rewrite @bind_Ok @fmap_Ok @map_err_Ok @is_ok_spec : forge_rw.
#[export] Hint Resolve assoc_Some_elem : forge.

(** [inv_res]: turn every hypothesis [m ≫= f = Ok b] (and [fmap]/[map_err]) of
    the context into the equations of its intermediate results. *)
Ltac inv_res :=
  repeat match goal with
  | H : mbind _ _ = Ok _ |- _ => apply bind_Ok in H as (? & ? & ?)
  | H : fmap _ _ = Ok _ |- _ => apply fmap_Ok in H as (? & ? & ?)
  | H : map_err _ _ = Ok _ |- _ => apply map_err_Ok in H
  | H : Ok _ = Ok _ |- _ => injection H as H; subst
  | H : Err _ = Ok _ |- _ => discriminate H
  | H : mret _ = Ok _ |- _ => injection H as H; subst
  end.

(** [split_ifs]: split every [if]/[match] of the goal on its scrutinee. *)
Ltac split_ifs := repeat (case_match || case_decide); simplify_eq/=.

Lemma mapM_res_Ok {E A B} (f : A → res E B) l ys :
  mapM_res f l = Ok ys ↔ Forall2 (λ x y, f x = Ok y) l ys.
Proof.
  revert ys. induction l as [|x l IH]; intros ys; simpl.
  - split; [intros [= <-]; constructor|by inversion 1].
  - rewrite bind_Ok. split.
    + intros (y & ? & (ys' & ?%IH & [= <-])%bind_Ok). by constructor.
    + inversion 1 as [|? y ? ys']; subst. exists y. split; [done|].
      apply bind_Ok. exists ys'. by rewrite IH.
Qed.

Lemma Forall2_fmap_eq {A B C} (f : A → C) (g : B → C) l k :
  Forall2 (λ x y, g y = f x) l k → g <$> k = f <$> l.
Proof. induction 1 as [|x y l k Hxy _ IH]; [done|]. csimpl. by rewrite Hxy, IH. Qed.

Section fold_lemmas.
Context {E St A : Type}.

(** Invariant rule for an error-returning loop. *)
Lemma foldM_inv (P : St → Prop) (f : St → A → res E St) l acc acc' :
  (∀ s x s', x ∈ l → P s → f s x = Ok s' → P s') →
  P acc → foldM f acc l = Ok acc' → P acc'.
Proof.
  revert acc. induction l as [|x l IH]; intros acc Hstep Hacc Hf; simpl in Hf.
  - by simplify_eq.
  - inv_res. eapply IH; [|eapply Hstep; eauto; left|done].
    intros; eapply Hstep; eauto; by right.
Qed.

Lemma foldM_app (f : St → A → res E St) l1 l2 acc :
  foldM f acc (l1 ++ l2) = foldM f acc l1 ≫= λ s, foldM f s l2.
Proof.
  revert acc. induction l1 as [|x l1 IH]; intros acc; simpl; [done|].
  destruct (f acc x); simpl; [apply IH|done].
Qed.

Lemma foldMi_inv (P : St → Prop) (f : nat → St → A → res E St) l i acc acc' :
  (∀ j s x s', x ∈ l → P s → f j s x = Ok s' → P s') →
  P acc → foldMi f i acc l = Ok acc' → P acc'.
Proof.
  revert i acc. induction l as [|x l IH]; intros i acc Hstep Hacc Hf; simpl in Hf.
  - by simplify_eq.
  - inv_res. eapply IH; [|eapply Hstep; eauto; left|done].
    intros; eapply Hstep; eauto; by right.
Qed.
End fold_lemmas.

Section fold_prefix.
Context {E St A : Type}.

(** The same rule when the invariant also tells of the elements done. *)
Lemma foldM_prefix (P : list A → St → Prop) (f : St → A → res E St) done l acc acc' :
  (∀ pre x s s', x ∈ l → P pre s → f s x = Ok s' → P (pre ++ [x]) s') →
  P done acc → foldM f acc l = Ok acc' → P (done ++ l) acc'.
Proof.
  revert done acc. induction l as [|x l IH]; intros pre acc Hstep Hacc Hf; simpl in Hf.
  - simplify_eq. by rewrite app_nil_r.
  - inv_res. change (x :: l) with ([x] ++ l). rewrite (assoc_L (++)).
    eapply IH; [|eapply Hstep; eauto; left|done]. intros. eapply Hstep; eauto. by right.
Qed.
End fold_prefix.

Lemma filter_all {A} (P : A → Prop) `{∀ x, Decision (P x)} l : Forall P l → filter P l = l.
Proof. induction 1 as [|x l Hx _ IH]; [done|]. by rewrite filter_cons_True, IH. Qed.

Lemma filter_none {A} (P : A → Prop) `{∀ x, Decision (P x)} l :
  Forall (λ x, ¬ P x) l → filter P l = [].
Proof. induction 1 as [|x l Hx _ IH]; [done|]. by rewrite filter_cons_False, IH. Qed.
