(* ===== verification/GoStrings.v ===== *)
(** Go strings are byte sequences: a [string] here, one [ascii] per byte.

    This file holds the pieces of the packages [strings], [sort],
    [strconv.Itoa] and [unicode/utf8] that praxis-forge uses, with the lemmas
    the other files share. *)

From S2P Require Import Prelude.
From stdpp Require Import options.

(** ** Bytes *)

Definition code (c : ascii) : N := Ascii.N_of_ascii c.
Definition in_range (lo hi : N) (c : ascii) : bool :=
  (N.leb lo (code c) && N.leb (code c) hi)%bool.

Definition is_lower (c : ascii) : bool := in_range 97 122 c.   (* a-z *)
Definition is_upper (c : ascii) : bool := in_range 65 90 c.    (* A-Z *)
Definition is_digit (c : ascii) : bool := in_range 48 57 c.    (* 0-9 *)
Definition is_char (d c : ascii) : bool := bool_decide (d = c).

(** The double quote, which cannot be written inside a string literal here. *)
Definition dquote : ascii := Ascii.ascii_of_N 34.
Definition byte (n : N) : ascii := Ascii.ascii_of_N n.
Definition str1 (c : ascii) : string := String c "".

Fixpoint all_chars (p : ascii → bool) (s : string) : bool :=
  match s with "" => true | String c s' => (p c && all_chars p s')%bool end.

Lemma code_byte n : (n < 256)%N → code (byte n) = n.
Proof. apply Ascii.N_ascii_embedding. Qed.

Lemma byte_code c : byte (code c) = c.
Proof. apply Ascii.ascii_N_embedding. Qed.

Lemma code_bounded c : (code c < 256)%N.
Proof. apply Ascii.N_ascii_bounded. Qed.

(** ** Concatenation *)

Lemma app_nil_r_str s : s +:+ "" = s.
Proof. induction s as [|c s IH]; [done|]. change (String c (s +:+ "") = String c s). by rewrite IH. Qed.

Lemma app_assoc_str s1 s2 s3 : (s1 +:+ s2) +:+ s3 = s1 +:+ s2 +:+ s3.
Proof.
  induction s1 as [|c s IH]; [done|].
  change (String c ((s +:+ s2) +:+ s3) = String c (s +:+ s2 +:+ s3)). by rewrite IH.
Qed.

Lemma app_cons_str c s1 s2 : String c s1 +:+ s2 = String c (s1 +:+ s2).
Proof. done. Qed.

Lemma app_nil_l_str s : "" +:+ s = s.
Proof. done. Qed.

#[export] Hint Rewrite app_nil_r_str app_assoc_str app_cons_str app_nil_l_str : forge_rw.

Lemma length_app_str s1 s2 :
  String.length (s1 +:+ s2) = String.length s1 + String.length s2.
Proof. induction s1 as [|c s IH]; [done|]. rewrite app_cons_str. simpl. by rewrite IH. Qed.

Lemma all_chars_app p s1 s2 :
  all_chars p (s1 +:+ s2) = (all_chars p s1 && all_chars p s2)%bool.
Proof.
  induction s1 as [|c s IH]; [done|]. rewrite app_cons_str. simpl.
  by rewrite IH, andb_assoc.
Qed.

(** A string splits in one way around a byte its head does not contain. *)
Lemma split_at_unique p d s1 s2 t1 t2 :
  p d = false → all_chars p s1 = true → all_chars p t1 = true →
  s1 +:+ String d s2 = t1 +:+ String d t2 → s1 = t1 ∧ s2 = t2.
Proof.
  intros Hd. revert t1. induction s1 as [|c s IH]; intros [|c' t] Hs Ht Heq;
    rewrite ?app_cons_str, ?app_nil_l_str in Heq; simplify_eq/=; [done|..].
  - apply andb_true_iff in Ht as [? _]; congruence.
  - apply andb_true_iff in Hs as [? _]; congruence.
  - apply andb_true_iff in Hs as [_ ?]. apply andb_true_iff in Ht as [_ ?].
    destruct (IH t) as [-> ->]; auto.
Qed.

(** ** strings.HasPrefix, strings.Contains, strings.Join *)

Fixpoint HasPrefix (s prefix : string) {struct prefix} : bool :=
  match prefix, s with
  | "", _ => true
  | String _ _, "" => false
  | String c p', String c' s' => (bool_decide (c = c') && HasPrefix s' p')%bool
  end.

Lemma HasPrefix_spec s p : HasPrefix s p = true ↔ ∃ t, s = p +:+ t.
Proof.
  revert s. induction p as [|c p IH]; intros s.
  - split; [intros _; by exists s|done].
  - destruct s as [|c' s]; simpl; [split; [done|intros [t Ht]; done]|].
    rewrite andb_true_iff, bool_decide_eq_true, IH. split.
    + intros [-> [t ->]]. by exists t.
    + intros [t Ht]. rewrite app_cons_str in Ht. naive_solver.
Qed.

Fixpoint Contains (s sub : string) : bool :=
  (HasPrefix s sub || match s with "" => false | String _ s' => Contains s' sub end)%bool.

Lemma Contains_spec s sub :
  Contains s sub = true ↔ ∃ a b, s = a +:+ sub +:+ b.
Proof.
  induction s as [|c s IH]; simpl; rewrite orb_true_iff, HasPrefix_spec.
  - split.
    + intros [[t Ht]|]; [by exists "", t|done].
    + intros (a & b & H). destruct a; [|done]. left; by exists b.
  - rewrite IH. split.
    + intros [[t ->]|(a & b & ->)]; [by exists "", t|by exists (String c a), b].
    + intros ([|c' a] & b & H).
      * left. by exists b.
      * right. exists a, b. rewrite app_cons_str in H. by simplify_eq.
Qed.

Fixpoint Join (l : list string) (sep : string) : string :=
  match l with
  | [] => ""
  | [s] => s
  | s :: l' => s +:+ sep +:+ Join l' sep
  end.

(** [strconv.Itoa] of a non-negative int, and [fmt.Sprintf("p[%d]", i)]. *)
Definition Itoa (n : nat) : string := pretty n.
Definition indexed (p : string) (i : nat) (suffix : string) : string :=
  p +:+ "[" +:+ Itoa i +:+ "]" +:+ suffix.

(** ** sort.Strings: the byte-wise lexicographic order *)

Definition sort_strings (l : list string) : list string := merge_sort String.le l.

Lemma sort_strings_sorted l : Sorted String.le (sort_strings l).
Proof. apply Sorted_merge_sort, _. Qed.

Lemma sort_strings_perm l : sort_strings l ≡ₚ l.
Proof. apply merge_sort_Permutation. Qed.

(** Sorting forgets the order of its input: the reason sorted map keys give
    one encoding whatever the iteration order of the map. *)
Lemma sort_strings_canonical l1 l2 : l1 ≡ₚ l2 → sort_strings l1 = sort_strings l2.
Proof.
  intros Hp. apply (Sorted_unique String.le); [apply sort_strings_sorted..|].
  by rewrite !sort_strings_perm.
Qed.

(** ** utf8.DecodeRuneInString

    [decode_rune b s] decodes the rune at the head of [String b s]; [None]
    stands for [(RuneError, 1)], an encoding that is not valid UTF-8. *)
Definition cont_byte (lo hi : N) (c : ascii) : option N :=
  if in_range lo hi c then Some (N.land (code c) 63) else None.

Definition decode_rune (b : ascii) (s : string) : option (N * string) :=
  let x := code b in
  if N.ltb x 128 then Some (x, s)
  else match s with
  | "" => None
  | String b1 s1 =>
    if in_range 194 223 b then
      (λ c1, (N.lor (N.shiftl (N.land x 31) 6) c1, s1)) <$> cont_byte 128 191 b1
    else match s1 with
    | "" => None
    | String b2 s2 =>
      if in_range 224 239 b then
        let lo := if N.eqb x 224 then 160%N else 128%N in
        let hi := if N.eqb x 237 then 159%N else 191%N in
        c1 ← cont_byte lo hi b1; c2 ← cont_byte 128 191 b2;
        Some (N.lor (N.lor (N.shiftl (N.land x 15) 12) (N.shiftl c1 6)) c2, s2)
      else match s2 with
      | "" => None
      | String b3 s3 =>
        if in_range 240 244 b then
          let lo := if N.eqb x 240 then 144%N else 128%N in
          let hi := if N.eqb x 244 then 143%N else 191%N in
          c1 ← cont_byte lo hi b1; c2 ← cont_byte 128 191 b2; c3 ← cont_byte 128 191 b3;
          Some (N.lor (N.lor (N.lor (N.shiftl (N.land x 7) 18) (N.shiftl c1 12))
                             (N.shiftl c2 6)) c3, s3)
        else None
      end
    end
  end.

Lemma decode_rune_shorter b s r rest :
  decode_rune b s = Some (r, rest) → String.length rest ≤ String.length s.
Proof.
  unfold decode_rune. intros H.
  repeat (case_match; simplify_option_eq); simpl in *; lia.
Qed.

Example decode_rune_euro :
  decode_rune (byte 226) (String (byte 130) (str1 (byte 172))) = Some (8364%N, "").
Proof. vm_compute. reflexivity. Qed.
