(* ===== verification/Regex.v ===== *)
(** Regular expressions as the Go package [regexp] runs them.

    praxis-forge compiles a handful of RE2 expressions over ASCII classes.
    [regex] is their syntax; [ends] is a backtracking matcher that lists the
    places a match can stop, in the preference order of Perl and Go (leftmost
    alternative first, repetition greedy); [rmatch] is the declarative meaning
    and [ends_spec] shows that the two agree.  [\b] looks at the byte before
    the current place, so a place is a pair of that byte and the rest of the
    text. *)

From S2P Require Import Prelude GoStrings.
From stdpp Require Import options.

Inductive regex : Type :=
| REps
| RChar (p : ascii → bool)
| RWordB
| RSeq (r1 r2 : regex)
| RAlt (r1 r2 : regex)
| RStar (r : regex).

(** A place in the text: the byte before it (if any) and the bytes after it. *)
Abbreviation place := (option ascii * string)%type.

Definition start (s : string) : place := (None, s).

Definition is_word (c : ascii) : bool :=
  (is_digit c || is_lower c || is_upper c || is_char "_"%char c)%bool.

Definition at_word_boundary (x : place) : bool :=
  let before := from_option is_word false x.1 in
  let after := match x.2 with "" => false | String c _ => is_word c end in
  xorb before after.

(** Greedy repetition: one more turn of [step] first, stopping here last; a
    turn that consumes nothing is not repeated. *)
Fixpoint iter_star (step : place → list place) (fuel : nat) (x : place) : list place :=
  match fuel with
  | 0 => [x]
  | S fuel' =>
    (y ← step x;
     if Nat.ltb (String.length y.2) (String.length x.2) then iter_star step fuel' y else [])
    ++ [x]
  end.

Fixpoint ends (r : regex) (x : place) : list place :=
  match r with
  | REps => [x]
  | RChar p => match x.2 with
               | "" => []
               | String c s => if p c then [(Some c, s)] else []
               end
  | RWordB => if at_word_boundary x then [x] else []
  | RSeq r1 r2 => y ← ends r1 x; ends r2 y
  | RAlt r1 r2 => ends r1 x ++ ends r2 x
  | RStar r => iter_star (ends r) (String.length x.2) x
  end.

(** Derived forms: [r+], [r?], [r{n}], [r{n,}], [r{n,m}], a literal. *)
Definition RPlus (r : regex) : regex := RSeq r (RStar r).
Definition ROpt (r : regex) : regex := RAlt r REps.
Fixpoint RTimes (n : nat) (r : regex) : regex :=
  match n with 0 => REps | S n' => RSeq r (RTimes n' r) end.
Definition RAtLeast (n : nat) (r : regex) : regex := RSeq (RTimes n r) (RStar r).
Fixpoint RUpTo (n : nat) (r : regex) : regex :=
  match n with 0 => REps | S n' => ROpt (RSeq r (RUpTo n' r)) end.
Definition RBetween (n m : nat) (r : regex) : regex := RSeq (RTimes n r) (RUpTo (m - n) r).
Fixpoint RLit (s : string) : regex :=
  match s with "" => REps | String c s' => RSeq (RChar (is_char c)) (RLit s') end.

(** ** Meaning *)

Inductive rmatch : regex → place → place → Prop :=
| M_eps x : rmatch REps x x
| M_char p b c s : p c = true → rmatch (RChar p) (b, String c s) (Some c, s)
| M_wordb x : at_word_boundary x = true → rmatch RWordB x x
| M_seq r1 r2 x y z : rmatch r1 x y → rmatch r2 y z → rmatch (RSeq r1 r2) x z
| M_altl r1 r2 x y : rmatch r1 x y → rmatch (RAlt r1 r2) x y
| M_altr r1 r2 x y : rmatch r2 x y → rmatch (RAlt r1 r2) x y
| M_star_nil r x : rmatch (RStar r) x x
| M_star_cons r x y z : rmatch r x y → rmatch (RStar r) y z → rmatch (RStar r) x z.
#[export] Hint Constructors rmatch : forge.

(** [follows x y]: [y] is reached from [x] by reading zero or more bytes. *)
Inductive follows : place → place → Prop :=
| F_refl x : follows x x
| F_read b c s y : follows (Some c, s) y → follows (b, String c s) y.
#[export] Hint Constructors follows : forge.

Lemma follows_trans x y z : follows x y → follows y z → follows x z.
Proof. induction 1; eauto with forge. Qed.

Lemma follows_length x y : follows x y → String.length y.2 ≤ String.length x.2.
Proof. induction 1; simpl in *; lia. Qed.

Lemma follows_same x y : follows x y → String.length y.2 = String.length x.2 → y = x.
Proof. induction 1 as [|b c s y H _]; [done|]. apply follows_length in H. simpl in *. lia. Qed.

Lemma follows_consumed x y : follows x y → ∃ t, x.2 = t +:+ y.2.
Proof.
  induction 1 as [x|b c s y H [t Ht]]; [by exists ""|].
  exists (String c t). simpl in *. by rewrite Ht.
Qed.

Lemma rmatch_follows r x y : rmatch r x y → follows x y.
Proof. induction 1; eauto using follows_trans with forge. Qed.

Section star.
Context (step : place → list place) (r : regex).
Hypothesis Hstep : ∀ x y, y ∈ step x ↔ rmatch r x y.

Lemma iter_star_sound fuel x y : y ∈ iter_star step fuel x → rmatch (RStar r) x y.
Proof using Hstep.
  revert x y. induction fuel as [|fuel IH]; intros x y; simpl.
  - intros ->%list_elem_of_singleton. constructor.
  - rewrite elem_of_app, list_elem_of_bind, list_elem_of_singleton.
    intros [(z & Hin & Hz)| ->]; [|constructor].
    case_match; [|set_solver]. econstructor; [by apply Hstep|by apply IH].
Qed.

Lemma iter_star_complete x y fuel :
  rmatch (RStar r) x y → String.length x.2 ≤ fuel → y ∈ iter_star step fuel x.
Proof using Hstep.
  intros H. remember (RStar r) as rs eqn:Hrs. revert fuel.
  induction H as [| | | | | | |r' x y z H1 _ H2 IH]; simplify_eq; intros fuel Hf.
  - destruct fuel; simpl; set_solver.
  - destruct (decide (String.length y.2 < String.length x.2)) as [Hlt|Hge].
    + destruct fuel as [|fuel]; [lia|]. simpl.
      rewrite elem_of_app, list_elem_of_bind. left. exists y.
      rewrite (proj2 (Nat.ltb_lt _ _) Hlt).
      split; [apply IH; [done|lia]|by apply Hstep].
    + assert (y = x) as ->; [|by apply IH].
      apply rmatch_follows in H1. apply follows_same; [done|].
      apply follows_length in H1. lia.
Qed.
End star.

Lemma ends_spec r x y : y ∈ ends r x ↔ rmatch r x y.
Proof.
  revert x y. induction r as [|p| |r1 IH1 r2 IH2|r1 IH1 r2 IH2|r IH]; intros [b s] y; simpl.
  - rewrite list_elem_of_singleton. split; [intros ->|inversion 1]; eauto with forge.
  - destruct s as [|c s]; [split; [set_solver|inversion 1]|].
    destruct (p c) eqn:Hp; rewrite ?list_elem_of_singleton; split.
    + intros ->. eauto with forge.
    + by inversion 1.
    + set_solver.
    + inversion 1; congruence.
  - case_match; rewrite ?list_elem_of_singleton; split.
    + intros ->. eauto with forge.
    + by inversion 1.
    + set_solver.
    + inversion 1; congruence.
  - rewrite list_elem_of_bind. setoid_rewrite IH1. setoid_rewrite IH2.
    split; [intros (z & ? & ?)|inversion 1]; eauto with forge.
  - rewrite elem_of_app, IH1, IH2.
    split; [intros [?|?]|inversion 1]; eauto with forge.
  - split; intros H.
    + eapply iter_star_sound, H. apply IH.
    + eapply iter_star_complete; eauto.
Qed.

(** ** Matching *)

(** The bytes read between two places. *)
Definition consumed (x y : place) : string :=
  String.substring 0 (String.length x.2 - String.length y.2) x.2.

Definition at_end (y : place) : bool := bool_decide (y.2 = "").

(** [regexp.MustCompile("^r$").MatchString(s)]. *)
Definition full_match (r : regex) (s : string) : bool := existsb at_end (ends r (start s)).

(** [regexp.MustCompile("r").MatchString(s)]: try every place of the text. *)
Fixpoint search_from (r : regex) (b : option ascii) (s : string) : bool :=
  match ends r (b, s) with
  | _ :: _ => true
  | [] => match s with "" => false | String c s' => search_from r (Some c) s' end
  end.
Definition search (r : regex) (s : string) : bool := search_from r None s.

Lemma full_match_spec r s :
  full_match r s = true ↔ ∃ b, rmatch r (start s) (b, "").
Proof.
  unfold full_match. rewrite existsb_exists. split.
  - intros ([b t] & Hin%list_elem_of_In & He%bool_decide_eq_true). simpl in He. subst.
    exists b. by apply ends_spec.
  - intros [b H]. exists (b, ""). split; [|done].
    apply list_elem_of_In. by apply ends_spec.
Qed.

Lemma search_from_spec r b s :
  search_from r b s = true ↔ ∃ x y, follows (b, s) x ∧ rmatch r x y.
Proof.
  revert b. induction s as [|c s IH]; intros b; simpl;
    destruct (ends r _) as [|y l] eqn:He.
  - split; [done|]. intros (x & y & Hf & Hm). inversion Hf; subst.
    apply ends_spec in Hm. rewrite He in Hm. set_solver.
  - split; [|done]. intros _. exists (b, ""), y. split; [constructor|].
    apply ends_spec. rewrite He. left.
  - rewrite IH. split.
    + intros (x & y & ? & ?). exists x, y. eauto with forge.
    + intros (x & y & Hf & Hm). inversion Hf; subst; [|eauto].
      apply ends_spec in Hm. rewrite He in Hm. set_solver.
  - split; [|done]. intros _. exists (b, String c s), y. split; [constructor|].
    apply ends_spec. rewrite He. left.
Qed.

(** [search] answers whether some part of the text matches. *)
Lemma search_spec r s :
  search r s = true ↔ ∃ x y, follows (start s) x ∧ rmatch r x y.
Proof. apply search_from_spec. Qed.

(** What a greedy run of one class reads. *)
Lemma rmatch_star_char p x y :
  rmatch (RStar (RChar p)) x y ↔
  ∃ t, x.2 = t +:+ y.2 ∧ all_chars p t = true ∧ follows x y.
Proof.
  split.
  - intros H. remember (RStar (RChar p)) as r eqn:Hr.
    induction H as [| | | | | |r' x|r' x y z H1 _ H2 IH]; simplify_eq.
    + exists "". eauto with forge.
    + inversion H1; subst. destruct (IH eq_refl) as (t & Ht & Hall & Hf).
      exists (String c t). simpl in *. rewrite Ht.
      split_and!; [done|by apply andb_true_iff|]. rewrite <-Ht. eauto with forge.
  - intros (t & Ht & Hall & Hf). revert t Ht Hall.
    induction Hf as [x|b c s y Hf IH]; intros t Ht Hall; [constructor|].
    destruct t as [|c' t]; simpl in Ht, Hall.
    + apply follows_length in Hf. rewrite app_nil_l_str in Ht.
      rewrite <-Ht in Hf. simpl in Hf. lia.
    + rewrite app_cons_str in Ht. simplify_eq.
      apply andb_true_iff in Hall as [? ?].
      eapply M_star_cons; [by constructor|]. by eapply IH.
Qed.

(** ** Expressions without [\b] as sets of strings

    [Reads r P]: [r] matches between two places exactly when the bytes between
    them satisfy [P].  The instances follow the syntax. *)
Class Reads (r : regex) (P : string → Prop) :=
  reads : ∀ x y, rmatch r x y ↔ ∃ t, x.2 = t +:+ y.2 ∧ P t ∧ follows x y.

Definition cat (P Q : string → Prop) (s : string) : Prop :=
  ∃ s1 s2, s = s1 +:+ s2 ∧ P s1 ∧ Q s2.
Definition one (p : ascii → bool) (s : string) : Prop := ∃ c, s = str1 c ∧ p c = true.
Definition many (p : ascii → bool) (s : string) : Prop := all_chars p s = true.

Lemma follows_split x z t1 t2 :
  follows x z → x.2 = t1 +:+ t2 +:+ z.2 →
  ∃ y, follows x y ∧ follows y z ∧ x.2 = t1 +:+ y.2 ∧ y.2 = t2 +:+ z.2.
Proof.
  intros Hf. revert t1. induction Hf as [x|b c s z Hf IH]; intros t1 Ht; simpl in *.
  - destruct t1 as [|c t1].
    + exists x. eauto with forge.
    + apply (f_equal String.length) in Ht.
      rewrite !length_app_str in Ht. simpl in Ht. lia.
  - destruct t1 as [|c' t1].
    + exists (b, String c s). eauto with forge.
    + autorewrite with forge_rw in Ht. simplify_eq.
      destruct (IH t1) as (y & ? & ? & ? & ?); [done|].
      exists y. split_and!; auto with forge. simpl in *.
      rewrite app_cons_str. congruence.
Qed.

Lemma follows_unique x y z : follows x y → follows x z → y.2 = z.2 → y = z.
Proof.
  induction 1 as [x|b c s y Hf IH]; intros Hz Heq.
  - symmetry. apply follows_same; [done|]. by rewrite Heq.
  - inversion Hz; subst; [|auto]. apply follows_length in Hf. rewrite Heq in Hf.
    simpl in Hf. lia.
Qed.

#[export] Instance reads_eps : Reads REps (λ s, s = "").
Proof.
  intros x y. split.
  - inversion 1. exists "". eauto with forge.
  - intros (t & Ht & -> & Hf). rewrite app_nil_l_str in Ht.
    apply follows_same in Hf as ->; [constructor|]. by rewrite Ht.
Qed.

#[export] Instance reads_char p : Reads (RChar p) (one p).
Proof.
  intros x y. split.
  - inversion 1; subst. exists (str1 c). split_and!; [done|by exists c|auto with forge].
  - intros (t & Ht & (c & -> & Hp) & Hf).
    inversion Hf as [x' Hx|b c' s z Hf' Hx]; subst; simpl in *.
    + apply (f_equal String.length) in Ht.
      rewrite length_app_str in Ht. simpl in Ht. lia.
    + unfold str1 in Ht. rewrite app_cons_str, app_nil_l_str in Ht. simplify_eq.
      apply follows_same in Hf' as ->; [by constructor|done].
Qed.

#[export] Instance reads_star_char p : Reads (RStar (RChar p)) (many p).
Proof. intros x y. apply rmatch_star_char. Qed.

#[export] Instance reads_seq r1 r2 P1 P2 :
  Reads r1 P1 → Reads r2 P2 → Reads (RSeq r1 r2) (cat P1 P2).
Proof.
  intros H1 H2 x z. split.
  - inversion 1 as [| | |? ? ? y ? Hm1 Hm2| | | |]; subst.
    apply H1 in Hm1 as (t1 & Ht1 & ? & ?). apply H2 in Hm2 as (t2 & Ht2 & ? & ?).
    exists (t1 +:+ t2). rewrite app_assoc_str, Ht1, Ht2.
    split_and!; [done|by exists t1, t2|by eapply follows_trans].
  - intros (t & Ht & (t1 & t2 & -> & ? & ?) & Hf). rewrite app_assoc_str in Ht.
    apply follows_split in Ht as (y & ? & ? & ? & ?); [|done].
    eapply M_seq; [apply H1|apply H2]; eauto.
Qed.

#[export] Instance reads_alt r1 r2 P1 P2 :
  Reads r1 P1 → Reads r2 P2 → Reads (RAlt r1 r2) (λ s, P1 s ∨ P2 s).
Proof.
  intros H1 H2 x z. split.
  - inversion 1 as [| | | |? ? ? ? Hm|? ? ? ? Hm| |]; subst;
      [apply H1 in Hm as (t & ? & ? & ?)|apply H2 in Hm as (t & ? & ? & ?)]; eauto.
  - intros (t & Ht & [?|?] & Hf); [apply M_altl, H1|apply M_altr, H2]; eauto.
Qed.

Lemma consumed_app x y t : x.2 = t +:+ y.2 → consumed x y = t.
Proof.
  destruct x as [b s], y as [b' s']. unfold consumed. simpl. intros ->.
  rewrite length_app_str, Nat.add_sub. clear b b'.
  induction t as [|c t IH]; simpl; [by destruct s'|].
  change (String c (String.substring 0 (String.length t) (t +:+ s')) = String c t).
  by rewrite IH.
Qed.

(** The match at the end of the text: [^r$] over [r] with a language. *)
Lemma full_match_reads r P s : Reads r P → full_match r s = true ↔ P s.
Proof.
  intros Hr. rewrite full_match_spec. split.
  - intros [b Hm]. apply Hr in Hm as (t & Ht & HP & _). simpl in Ht.
    rewrite app_nil_r_str in Ht. by subst.
  - intros HP.
    assert (∃ b, follows (start s) (b, "")) as [b Hb].
    { clear. unfold start. generalize (@None ascii).
      induction s as [|c s IH]; intros b; [eauto with forge|].
      destruct (IH (Some c)) as [b' ?]. eauto with forge. }
    exists b. apply Hr. exists s. simpl. by rewrite app_nil_r_str.
Qed.

(** ** Repeated groups *)

Inductive rep (P : string → Prop) : string → Prop :=
| rep_nil : rep P ""
| rep_cons s1 s2 : P s1 → rep P s2 → rep P (s1 +:+ s2).

Lemma reads_star r P : Reads r P → Reads (RStar r) (rep P).
Proof.
  intros Hr x y. split.
  - intros H. remember (RStar r) as r' eqn:Hr'.
    induction H as [| | | | | |r' x|r' x y z H1 _ H2 IH]; simplify_eq.
    + exists "". eauto using rep_nil with forge.
    + apply Hr in H1 as (t1 & Ht1 & ? & ?). destruct (IH eq_refl) as (t2 & Ht2 & ? & ?).
      exists (t1 +:+ t2). rewrite app_assoc_str, <-Ht2.
      split_and!; [done|by constructor|by eapply follows_trans].
  - intros (t & Ht & Hrep & Hf). revert x Ht Hf.
    induction Hrep as [|s1 s2 ? ? IH]; intros x Ht Hf.
    + rewrite app_nil_l_str in Ht. apply follows_same in Hf as ->; [constructor|by rewrite Ht].
    + rewrite app_assoc_str in Ht. apply follows_split in Ht as (z & ? & ? & ? & ?); [|done].
      eapply M_star_cons; [apply Hr|]; eauto.
Qed.

(** ** Languages up to extensional equality *)

#[export] Instance cat_proper :
  Proper (pointwise_relation _ iff ==> pointwise_relation _ iff ==> pointwise_relation _ iff) cat.
Proof. intros P P' HP Q Q' HQ s. unfold cat. by setoid_rewrite (HP _); setoid_rewrite (HQ _). Qed.

Lemma cat_assoc P Q R :
  pointwise_relation _ iff (cat (cat P Q) R) (cat P (cat Q R)).
Proof.
  intros s. unfold cat. split.
  - intros (? & u & -> & (t1 & t2 & -> & ? & ?) & ?).
    exists t1, (t2 +:+ u). rewrite app_assoc_str. eauto 8.
  - intros (t1 & ? & -> & ? & t2 & u & -> & ? & ?).
    exists (t1 +:+ t2), u. rewrite app_assoc_str. eauto 8.
Qed.
