(* ===== verification/Errors.v ===== *)
(** Error values: the sentinels of the packages [spec], [registry] and
    [build], the wrapping that [fmt.Errorf] does, [errors.Is], and the
    aggregator [spec.Errors].

    A message is kept as the call to [fmt.Sprintf] that makes it (format and
    arguments), so no text is lost; the rendering is [fmt]'s. *)

From S2P Require Import Prelude GoStrings.
From stdpp Require Import options.

Inductive spec_sentinel :=
| ErrValidation
| ErrNoSpecStore
| ErrSpecNotFound
| ErrExtendsInvalid
| ErrLockedFieldOverride
| ErrPhaseGatedInOverlay
| ErrCompositionLimit.

Inductive registry_sentinel :=
| ErrRegistryFrozen
| ErrDuplicate
| ErrNotFound
| ErrKindMismatch.

Inductive build_sentinel :=
| ErrBudgetLoosening
| ErrToolNameCollision
| ErrToolNotFound
| ErrToolNameReservedPrefix
| ErrFilterBlocked.

Inductive sentinel :=
| SpecErr (s : spec_sentinel)
| RegistryErr (s : registry_sentinel)
| BuildErr (s : build_sentinel).
Coercion SpecErr : spec_sentinel >-> sentinel.
Coercion RegistryErr : registry_sentinel >-> sentinel.
Coercion BuildErr : build_sentinel >-> sentinel.

#[export] Instance spec_sentinel_eq_dec : EqDecision spec_sentinel.
Proof. solve_decision. Defined.
#[export] Instance registry_sentinel_eq_dec : EqDecision registry_sentinel.
Proof. solve_decision. Defined.
#[export] Instance build_sentinel_eq_dec : EqDecision build_sentinel.
Proof. solve_decision. Defined.
#[export] Instance sentinel_eq_dec : EqDecision sentinel.
Proof. solve_decision. Defined.

(** [ESentinel]: an [errors.New] value; [EText]: [fmt.Errorf] without [%w];
    [EWrap m e]: [fmt.Errorf] whose [%w] argument is [e] (the arguments of [m]
    are the other ones); [EExtends]: a [*spec.ExtendsError]; [ESpec]: a
    [spec.Errors]; [EOpaque]: an error made by code outside the repository;
    [EPanic]: a run-time panic, which no caller in the repository recovers. *)
Inductive error : Type :=
| ESentinel (s : sentinel)
| EText (m : fmsg)
| EWrap (m : fmsg) (e : error)
| EExtends (Chain : list string) (Reason : string)
| ESpec (msgs : list fmsg) (sentinels : list error)
| EOpaque (name : string)
| EPanic (what : string)
with fmsg : Type :=
| Sprintf (format : string) (args : list farg)
with farg : Type :=
| FS (s : string)
| FD (z : Z)
| FErr (e : error).

Definition FN (n : nat) : farg := FD (Z.of_nat n).

(** [errors.Is(e, target)]: the target itself, the [Is] methods of
    [*ExtendsError] and [Errors], and the chain of wrapped errors. *)
Fixpoint errors_is (e : error) (target : sentinel) : bool :=
  match e with
  | ESentinel s => bool_decide (s = target)
  | EText _ => false
  | EWrap _ e' => errors_is e' target
  | EExtends _ _ => bool_decide (target = SpecErr ErrExtendsInvalid)
  | ESpec _ ss =>
    if bool_decide (target = SpecErr ErrValidation) then true
    else existsb (λ s, errors_is s target) ss
  | EOpaque _ => false
  | EPanic _ => false
  end.

(** ** spec.Errors *)

Record Errors := mkErrors { msgs : list fmsg; sentinels : list error }.

Definition no_errors : Errors := mkErrors [] [].

Definition Addf (e : Errors) (m : fmsg) : Errors :=
  mkErrors (msgs e ++ [m]) (sentinels e).

Definition Wrap (e : Errors) (sentinel : error) (m : fmsg) : Errors :=
  mkErrors (msgs e ++ [m]) (sentinels e ++ [sentinel]).

Definition Len (e : Errors) : nat := length (msgs e).

Definition OrNil (e : Errors) : option error :=
  match msgs e with
  | [] => None
  | _ => Some (ESpec (msgs e) (sentinels e))
  end.

(** [errs_app e1 e2]: the violations of [e1] followed by those of [e2]. *)
Definition errs_app (e1 e2 : Errors) : Errors :=
  mkErrors (msgs e1 ++ msgs e2) (sentinels e1 ++ sentinels e2).

Lemma OrNil_None e : OrNil e = None ↔ msgs e = [].
Proof. unfold OrNil. by destruct (msgs e). Qed.

Lemma OrNil_Some e err :
  OrNil e = Some err ↔ msgs e ≠ [] ∧ err = ESpec (msgs e) (sentinels e).
Proof. unfold OrNil. destruct (msgs e); naive_solver. Qed.

(** ** Loops that only add violations *)

(** A check is a function on the aggregator that appends to it: it can be run
    from the empty aggregator and its violations appended. *)
Class Appends (f : Errors → Errors) :=
  appends : ∀ e, f e = errs_app e (f no_errors).

Lemma errs_app_nil_l e : errs_app no_errors e = e.
Proof. by destruct e. Qed.

Lemma errs_app_nil_r e : errs_app e no_errors = e.
Proof. destruct e. unfold errs_app. simpl. by rewrite !app_nil_r. Qed.

Lemma errs_app_assoc e1 e2 e3 :
  errs_app (errs_app e1 e2) e3 = errs_app e1 (errs_app e2 e3).
Proof. unfold errs_app. simpl. by rewrite !(assoc_L (++)). Qed.

#[export] Instance appends_id : Appends id.
Proof. intros e. by rewrite errs_app_nil_r. Qed.

#[export] Instance appends_Addf m : Appends (λ e, Addf e m).
Proof. intros e. unfold Addf, errs_app. simpl. by rewrite app_nil_r. Qed.

#[export] Instance appends_Wrap s m : Appends (λ e, Wrap e s m).
Proof. done. Qed.

Lemma appends_compose f g : Appends f → Appends g → Appends (λ e, g (f e)).
Proof.
  intros Hf Hg e. rewrite (Hg (f e)), (Hg (f no_errors)), (Hf e).
  by rewrite errs_app_assoc.
Qed.

Lemma appends_if (b : bool) f g :
  Appends f → Appends g → Appends (λ e, if b then f e else g e).
Proof. by destruct b. Qed.

#[export] Hint Resolve appends_id appends_Addf appends_Wrap : forge.

Lemma Addf_not_empty e m : msgs (Addf e m) ≠ [].
Proof. unfold Addf. simpl. by destruct (msgs e). Qed.

(** After a check, no violation means none before and none from the check. *)
Lemma appends_msgs_nil f e :
  Appends f → msgs (f e) = [] ↔ msgs e = [] ∧ msgs (f no_errors) = [].
Proof. intros Hf. rewrite Hf. simpl. apply app_nil. Qed.
