(* ===== verification/Values.v ===== *)
(** Dynamic values: what a component's [config] map holds (Go's [any]) and the
    tree a JSON decoder with [UseNumber] builds. *)

From S2P Require Import Prelude GoStrings.
From Stdlib Require Import SpecFloat.
From stdpp Require Import options.

(** The tree [json.Decoder.Decode(&tree)] builds under [UseNumber]: [nil],
    [bool], [json.Number], [string], [[]any] and [map[string]any]. *)
Inductive json : Type :=
| JNull
| JBool (b : bool)
| JNumber (lit : string)
| JString (s : string)
| JArray (l : list json)
| JObject (kvs : list (string * json)).

(** A Go value of type [any], by its dynamic type: the types the type switches
    of the repository name, and any other type with the name [%T] prints and
    the tree its [json.Marshal] stands for ([None]: Marshal fails, as it does
    for channels, functions and [map[any]any]). *)
Inductive any : Type :=
| ANil
| ABool (b : bool)
| AInt (z : Z)
| AInt64 (z : Z)
| AFloat64 (f : spec_float)
| AString (s : string)
| AList (l : slice any)
| AStrings (l : slice string)
| AMap (m : gomap any)
| AOther (tname : string) (enc : option json).

Abbreviation config := (gomap any).

(** Induction principles that reach the elements of arrays and objects. *)
Section json_ind.
Context (P : json → Prop).
Context (Hnull : P JNull) (Hbool : ∀ b, P (JBool b)) (Hnum : ∀ s, P (JNumber s)).
Context (Hstr : ∀ s, P (JString s)).
Context (Harr : ∀ l, Forall P l → P (JArray l)).
Context (Hobj : ∀ kvs, Forall (λ kv, P kv.2) kvs → P (JObject kvs)).

Fixpoint json_nested_ind (t : json) : P t :=
  match t with
  | JNull => Hnull
  | JBool b => Hbool b
  | JNumber s => Hnum s
  | JString s => Hstr s
  | JArray l => Harr l
      ((fix go l := match l return Forall P l with
        | [] => Forall_nil_2 _
        | x :: l' => Forall_cons_2 _ _ _ (json_nested_ind x) (go l')
        end) l)
  | JObject kvs => Hobj kvs
      ((fix go l := match l return Forall (λ kv, P kv.2) l with
        | [] => Forall_nil_2 _
        | x :: l' => Forall_cons_2 _ _ _ (json_nested_ind x.2) (go l')
        end) kvs)
  end.
End json_ind.

Section any_ind.
Context (P : any → Prop).
Context (Hnil : P ANil) (Hbool : ∀ b, P (ABool b)) (Hint : ∀ z, P (AInt z)).
Context (Hint64 : ∀ z, P (AInt64 z)) (Hfloat : ∀ f, P (AFloat64 f)).
Context (Hstr : ∀ s, P (AString s)) (Hstrs : ∀ l, P (AStrings l)).
Context (Hlist0 : P (AList None)) (Hlist : ∀ l, Forall P l → P (AList (Some l))).
Context (Hmap0 : P (AMap None)) (Hmap : ∀ m, Forall (λ kv, P kv.2) m → P (AMap (Some m))).
Context (Hother : ∀ n e, P (AOther n e)).

Fixpoint any_nested_ind (v : any) : P v :=
  match v with
  | ANil => Hnil
  | ABool b => Hbool b
  | AInt z => Hint z
  | AInt64 z => Hint64 z
  | AFloat64 f => Hfloat f
  | AString s => Hstr s
  | AStrings l => Hstrs l
  | AList None => Hlist0
  | AList (Some l) => Hlist l
      ((fix go l := match l return Forall P l with
        | [] => Forall_nil_2 _
        | x :: l' => Forall_cons_2 _ _ _ (any_nested_ind x) (go l')
        end) l)
  | AMap None => Hmap0
  | AMap (Some m) => Hmap m
      ((fix go l := match l return Forall (λ kv, P kv.2) l with
        | [] => Forall_nil_2 _
        | x :: l' => Forall_cons_2 _ _ _ (any_nested_ind x.2) (go l')
        end) m)
  | AOther n e => Hother n e
  end.
End any_ind.

(** The name [fmt]'s [%T] prints. *)
Definition type_name (v : any) : string :=
  match v with
  | ANil => "<nil>"
  | ABool _ => "bool"
  | AInt _ => "int"
  | AInt64 _ => "int64"
  | AFloat64 _ => "float64"
  | AString _ => "string"
  | AList _ => "[]interface {}"
  | AStrings _ => "[]string"
  | AMap _ => "map[string]interface {}"
  | AOther n _ => n
  end.

(** [v, ok := m[k]]; a missing key reads as the nil value. *)
Definition at_key (m : config) (k : string) : any := default ANil (map_at m k).

(** [s, ok := v.(string)], with the zero value when the assertion fails. *)
Definition as_string (v : any) : option string :=
  match v with AString s => Some s | _ => None end.
Definition as_map (v : any) : option (gomap any) :=
  match v with AMap m => Some m | _ => None end.

(** [int(x)] of a float64: truncation toward zero; out of the int64 range (and
    for NaN and the infinities) the result depends on the platform. *)
Definition float_trunc (f : spec_float) : option Z :=
  match f with
  | S754_zero _ => Some 0%Z
  | S754_finite sg m e =>
    let mag := if Z.leb 0 e then Z.shiftl (Zpos m) e else Z.shiftr (Zpos m) (- e) in
    let z := if sg then Z.opp mag else mag in
    if (Z.leb (- 2 ^ 63) z && Z.ltb z (2 ^ 63))%bool then Some z else None
  | _ => None
  end.
