(* ===== verification/Glob.v ===== *)
(** [filepath.Match(pattern, "")] on Unix, which praxis-forge calls only to
    learn whether a glob pattern is well formed.

    Against the empty name every chunk of the pattern fails to match at once,
    so the call walks the rest of the pattern checking its syntax. *)

From S2P Require Import Prelude GoStrings.
From stdpp Require Import options.

Definition backslash : ascii := "\"%char.

(** [scanChunk]: the chunk up to the next star outside a class, and the rest. *)
Fixpoint scan (inrange : bool) (s : string) : string * string :=
  match s with
  | "" => ("", "")
  | String c s' =>
    if bool_decide (c = backslash) then
      match s' with
      | "" => (str1 c, "")
      | String d s'' => let r := scan inrange s'' in (String c (String d r.1), r.2)
      end
    else if bool_decide (c = "["%char) then let r := scan true s' in (String c r.1, r.2)
    else if bool_decide (c = "]"%char) then let r := scan false s' in (String c r.1, r.2)
    else if (bool_decide (c = "*"%char) && negb inrange)%bool then ("", s)
    else let r := scan inrange s' in (String c r.1, r.2)
  end.

Fixpoint strip_stars (s : string) : string :=
  match s with
  | String c s' => if bool_decide (c = "*"%char) then strip_stars s' else s
  | "" => ""
  end.

Definition scanChunk (pattern : string) : string * string := scan false (strip_stars pattern).

(** [getEsc]: one possibly escaped character of a class; [None] is
    ErrBadPattern. *)
Definition getEsc (chunk : string) : option string :=
  let after (b : ascii) (s : string) :=
    match decode_rune b s with
    | None => None
    | Some (_, "") => None
    | Some (_, rest) => Some rest
    end in
  match chunk with
  | "" => None
  | String c s =>
    if (bool_decide (c = "-"%char) || bool_decide (c = "]"%char))%bool then None
    else if bool_decide (c = backslash) then
      match s with "" => None | String d s' => after d s' end
    else after c s
  end.

(** The ranges of a class, up to and including its closing bracket. *)
Fixpoint ranges (fuel nrange : nat) (chunk : string) : option string :=
  match fuel with
  | 0 => None
  | S fuel' =>
    match chunk with
    | String "]" rest =>
      if Nat.ltb 0 nrange then Some rest else None
    | _ =>
      lo ← getEsc chunk;
      match lo with
      | String "-" rest => hi ← getEsc rest; ranges fuel' (S nrange) hi
      | _ => ranges fuel' (S nrange) lo
      end
    end
  end.

(** The optional negation sign of a class. *)
Definition strip_caret (s : string) : string :=
  match s with String "^" s' => s' | _ => s end.

(** [matchChunk] once the match has failed: does the chunk parse? *)
Fixpoint chunk_ok (fuel : nat) (chunk : string) : bool :=
  match fuel with
  | 0 => false
  | S fuel' =>
    match chunk with
    | "" => true
    | String c s =>
      if bool_decide (c = "["%char) then
        match ranges (S (String.length (strip_caret s))) 0 (strip_caret s) with
        | None => false
        | Some rest => chunk_ok fuel' rest
        end
      else if bool_decide (c = backslash) then
        match s with "" => false | String _ s' => chunk_ok fuel' s' end
      else chunk_ok fuel' s
    end
  end.

Fixpoint chunks_ok (fuel : nat) (pattern : string) : bool :=
  match fuel with
  | 0 => false
  | S fuel' =>
    match pattern with
    | "" => true
    | _ =>
      let r := scanChunk pattern in
      (chunk_ok (S (String.length r.1)) r.1 && chunks_ok fuel' r.2)%bool
    end
  end.

(** [_, err := filepath.Match(pattern, ""); err == nil]. *)
Definition glob_ok (pattern : string) : bool := chunks_ok (S (String.length pattern)) pattern.

(** ** Fuel: every turn consumes a byte *)

Lemma getEsc_shorter chunk rest :
  getEsc chunk = Some rest → String.length rest < String.length chunk.
Proof.
  unfold getEsc. destruct chunk as [|c s]; [done|]. intros H.
  repeat (case_match; simplify_eq/=);
    match goal with D : decode_rune _ _ = Some _ |- _ => apply decode_rune_shorter in D end;
    simpl in *; lia.
Qed.

Lemma ranges_fuel f1 f2 n chunk :
  String.length chunk < f1 → String.length chunk < f2 → ranges f1 n chunk = ranges f2 n chunk.
Proof.
  revert f2 n chunk. induction f1 as [|f1 IH]; intros [|f2] n chunk H1 H2; [lia..|].
  cbn [ranges].
  assert (Hstep : (lo ← getEsc chunk; match lo with
              | String "-" rest => hi ← getEsc rest; ranges f1 (S n) hi
              | _ => ranges f1 (S n) lo end) =
            (lo ← getEsc chunk; match lo with
              | String "-" rest => hi ← getEsc rest; ranges f2 (S n) hi
              | _ => ranges f2 (S n) lo end)).
  { destruct (getEsc chunk) as [lo|] eqn:Hlo; [|done]. apply getEsc_shorter in Hlo. simpl.
    repeat (case_match; try (apply IH; simpl in *; lia)).
    destruct (getEsc _) as [hi|] eqn:Hhi; [|done]. apply getEsc_shorter in Hhi. simpl in *.
    apply IH; lia. }
  repeat case_match; auto.
Qed.

Lemma ranges_shorter f n chunk rest :
  ranges f n chunk = Some rest → String.length rest < String.length chunk.
Proof.
  revert n chunk. induction f as [|f IH]; intros n chunk; [done|]. cbn [ranges].
  assert (Hstep : (lo ← getEsc chunk; match lo with
              | String "-" rest => hi ← getEsc rest; ranges f (S n) hi
              | _ => ranges f (S n) lo end) = Some rest →
            String.length rest < String.length chunk).
  { intros (lo & Hlo & H)%bind_Some. apply getEsc_shorter in Hlo.
    repeat (case_match; try (apply IH in H; simpl in *; lia)).
    apply bind_Some in H as (hi & Hhi & H). apply getEsc_shorter in Hhi. apply IH in H.
    simpl in *. lia. }
  repeat case_match; auto. intros. simplify_eq. simpl. lia.
Qed.

Lemma strip_caret_le s : String.length (strip_caret s) ≤ String.length s.
Proof. unfold strip_caret. repeat case_match; simpl; lia. Qed.

Lemma chunk_ok_fuel f1 f2 chunk :
  String.length chunk < f1 → String.length chunk < f2 → chunk_ok f1 chunk = chunk_ok f2 chunk.
Proof.
  revert f2 chunk. induction f1 as [|f1 IH]; intros [|f2] chunk H1 H2; [lia..|].
  cbn [chunk_ok]. destruct chunk as [|c s]; [done|]. simpl in H1, H2.
  case_bool_decide.
  - pose proof (strip_caret_le s).
    destruct (ranges (S (String.length (strip_caret s))) 0 (strip_caret s)) as [rest|] eqn:Hr; [|done].
    apply ranges_shorter in Hr. apply IH; lia.
  - case_bool_decide; [|apply IH; lia]. destruct s; simpl in *; [done|]. apply IH; lia.
Qed.

Lemma strip_stars_le s : String.length (strip_stars s) ≤ String.length s.
Proof. induction s as [|c s IH]; simpl; [done|]. case_bool_decide; simpl; lia. Qed.

Lemma scan_le n b t : String.length t ≤ n → String.length (scan b t).2 ≤ String.length t.
Proof.
  revert b t. induction n as [|n IH]; intros b t Hn; destruct t as [|c t]; simpl in *; try lia.
  repeat (case_bool_decide; simpl); try (etrans; [apply IH|]; lia);
    try (destruct b; simpl; [etrans; [apply IH|]|]; lia).
  destruct t; simpl in *; [lia|]. etrans; [apply IH|]; lia.
Qed.

Lemma strip_stars_head s c t : strip_stars s = String c t → c ≠ "*"%char.
Proof.
  induction s as [|d s IH]; simpl; [done|]. case_bool_decide; [auto|]. congruence.
Qed.

Lemma scan_shorter c t :
  c ≠ "*"%char → String.length (scan false (String c t)).2 < String.length (String c t).
Proof.
  intros Hc. pose proof (λ b, scan_le (String.length t) b t (le_n _)) as Hle. simpl.
  repeat (case_bool_decide; simplify_eq); cbn [fst snd andb negb];
    try (specialize (Hle true); lia); try (specialize (Hle false); lia).
  destruct t as [|d t]; cbn [fst snd String.length]; [lia|].
  pose proof (scan_le (String.length t) false t (le_n _)). lia.
Qed.

Lemma scan_nonempty s :
  strip_stars s ≠ "" → String.length (scan false (strip_stars s)).2 < String.length (strip_stars s).
Proof.
  intros Hne. destruct (strip_stars s) as [|c t] eqn:Hs; [done|].
  by eapply scan_shorter, strip_stars_head.
Qed.

Lemma chunks_ok_fuel f1 f2 p :
  String.length p < f1 → String.length p < f2 → chunks_ok f1 p = chunks_ok f2 p.
Proof.
  revert f2 p. induction f1 as [|f1 IH]; intros [|f2] p H1 H2; [lia..|].
  cbn [chunks_ok]. destruct p as [|c s] eqn:Hp; [done|]. rewrite <-Hp in *.
  f_equal. unfold scanChunk.
  pose proof (strip_stars_le p). destruct (decide (strip_stars p = "")) as [He|He].
  - rewrite He. simpl. apply IH; subst; simpl in *; lia.
  - apply scan_nonempty in He. apply IH; lia.
Qed.

Example glob_star : glob_ok "fs.*" = true. Proof. reflexivity. Qed.
Example glob_class : glob_ok "fs.[a-z^\]]?" = true. Proof. vm_compute. reflexivity. Qed.
Example glob_open : glob_ok "fs.[a-" = false. Proof. vm_compute. reflexivity. Qed.
Example glob_escape_end : glob_ok "fs.\" = false. Proof. vm_compute. reflexivity. Qed.
