(* ===== verification/Types.v ===== *)
(** The declarative data: [AgentSpec] and its parts (spec/types.go), overlays
    (spec/overlay.go) and provenance (spec/provenance.go). *)

From S2P Require Import Prelude GoStrings Values.
From stdpp Require Import options.

(** ** spec/types.go *)

Record Owner := mkOwner { ow_Team : string; ow_Contact : string }.

Record Metadata := mkMetadata {
  md_ID : string;
  md_Version : string;
  md_DisplayName : string;
  md_Description : string;
  md_Owners : slice Owner;
  md_Labels : gomap string;
}.

Record ComponentRef := mkComponentRef { cr_Ref : string; cr_Config : config }.

Record PromptBlock := mkPromptBlock {
  pb_System : option ComponentRef;
  pb_User : option ComponentRef;
}.

Record FilterBlock := mkFilterBlock {
  fb_PreLLM : slice ComponentRef;
  fb_PreTool : slice ComponentRef;
  fb_PostTool : slice ComponentRef;
}.

Record BudgetOverrides := mkBudgetOverrides {
  bo_MaxWallClock : string;
  bo_MaxInputTokens : Z;
  bo_MaxOutputTokens : Z;
  bo_MaxToolCalls : Z;
  bo_MaxCostMicrodollars : Z;
}.

Record BudgetRef := mkBudgetRef { br_Ref : string; br_Overrides : BudgetOverrides }.

Record CredRef := mkCredRef { cd_Ref : string; cd_Scopes : slice string }.

Record AgentSpec := mkAgentSpec {
  APIVersion : string;
  Kind : string;
  Meta : Metadata;
  Provider : ComponentRef;
  Prompt : PromptBlock;
  Tools : slice ComponentRef;
  Policies : slice ComponentRef;
  Filters : FilterBlock;
  Budget : option BudgetRef;
  Telemetry : option ComponentRef;
  Credentials : option CredRef;
  Identity : option ComponentRef;
  Extends : slice string;
  Skills : slice ComponentRef;
  MCPImports : slice ComponentRef;
  OutputContract : option ComponentRef;
}.

(** The zero values of Go. *)
Definition zeroMetadata : Metadata := mkMetadata "" "" "" "" None None.
Definition zeroAgentSpec : AgentSpec :=
  mkAgentSpec "" "" zeroMetadata (mkComponentRef "" None) (mkPromptBlock None None)
    None None (mkFilterBlock None None None) None None None None None None None None.

(** [merged.Extends = nil]. *)
Definition clear_Extends (s : AgentSpec) : AgentSpec :=
  mkAgentSpec (APIVersion s) (Kind s) (Meta s) (Provider s) (Prompt s) (Tools s)
    (Policies s) (Filters s) (Budget s) (Telemetry s) (Credentials s) (Identity s)
    None (Skills s) (MCPImports s) (OutputContract s).

(** ** spec/overlay.go *)

(** A replaceable list: absent ([Set_ = false]), or present with any contents. *)
Record RefList := mkRefList { Set_ : bool; Items : slice ComponentRef; Line : Z }.

Record OverlayMetadata := mkOverlayMetadata {
  om_ID : string;
  om_Version : string;
  om_DisplayName : string;
  om_Description : string;
  om_Owners : slice Owner;
  om_Labels : gomap string;
}.

Record FilterOverlay := mkFilterOverlay {
  fo_PreLLM : RefList;
  fo_PreTool : RefList;
  fo_PostTool : RefList;
}.

Record AgentOverlayBody := mkAgentOverlayBody {
  ob_Metadata : option OverlayMetadata;
  ob_Provider : option ComponentRef;
  ob_Prompt : option PromptBlock;
  ob_Tools : RefList;
  ob_Policies : RefList;
  ob_Filters : option FilterOverlay;
  ob_Budget : option BudgetRef;
  ob_Telemetry : option ComponentRef;
  ob_Credentials : option CredRef;
  ob_Identity : option ComponentRef;
}.

Record AgentOverlay := mkAgentOverlay {
  ov_APIVersion : string;
  ov_Kind : string;
  ov_Name : string;               (* Metadata.Name *)
  ov_Spec : AgentOverlayBody;
  ov_File : string;
}.

Definition zeroRefList : RefList := mkRefList false None 0.
Definition zeroBody : AgentOverlayBody :=
  mkAgentOverlayBody None None None zeroRefList zeroRefList None None None None None.

(** ** spec/provenance.go *)

Inductive Role := RoleBase | RoleParent | RoleOverlay.

#[export] Instance Role_eq_dec : EqDecision Role.
Proof. solve_decision. Defined.

Record Provenance := mkProvenance {
  pv_File : string;
  pv_Line : Z;
  pv_Role : Role;
  pv_Step : Z;
}.

#[export] Instance Provenance_eq_dec : EqDecision Provenance.
Proof. solve_decision. Defined.

Definition baseProvenance : Provenance := mkProvenance "" 0 RoleBase 0.

Record OverlayAttribution := mkOverlayAttribution { oa_Name : string; oa_File : string }.

Record provenanceFields := mkProvenanceFields {
  pf_APIVersion : Provenance;
  pf_Kind : Provenance;
  pf_Metadata : Provenance;
  pf_Provider : Provenance;
  pf_Prompt : Provenance;
  pf_Tools : Provenance;
  pf_Policies : Provenance;
  pf_Filters : Provenance;
  pf_Budget : Provenance;
  pf_Telemetry : Provenance;
  pf_Credentials : Provenance;
  pf_Identity : Provenance;
  pf_Skills : Provenance;
  pf_OutputContract : Provenance;
  pf_MCPImports : Provenance;
}.

Record NormalizedSpec := mkNormalizedSpec {
  ns_Spec : AgentSpec;
  ns_ExtendsChain : list string;
  ns_Overlays : list OverlayAttribution;
  ns_fields : provenanceFields;
}.
