(* ===== verification/Ids.v ===== *)
(** Component references [<dotted>@<semver>] (spec/ids.go, registry/id.go). *)

From S2P Require Import Prelude GoStrings Regex Errors.
From stdpp Require Import options.

(** ** The reference expression: a dotted lower-case name, an at sign and
    three dot-separated decimal numbers, each part captured. *)

Definition name_char (c : ascii) : bool :=
  (is_lower c || is_digit c || is_char "."%char c || is_char "-"%char c)%bool.

Definition idName : regex := RSeq (RChar is_lower) (RStar (RChar name_char)).
Definition rDigits : regex := RPlus (RChar is_digit).
Definition rDot : regex := RChar (is_char "."%char).
Definition idVersion : regex :=
  RSeq rDigits (RSeq rDot (RSeq rDigits (RSeq rDot rDigits))).

(** The submatches [m[1]] and [m[2]] of every way the expression matches the
    whole of [s], the preferred one first. *)
Definition idSubmatches (s : string) : list (string * string) :=
  y1 ← ends idName (start s);
  y2 ← ends (RChar (is_char "@"%char)) y1;
  y3 ← ends idVersion y2;
  if at_end y3 then [(consumed (start s) y1, consumed y2 y3)] else [].

(** spec.ParseID *)
Definition ParseID (s : string) : res error (string * string) :=
  match idSubmatches s with
  | [] => Err (EText (Sprintf "invalid component id %q: want <dotted-name>@<semver>" [FS s]))
  | m :: _ => Ok m
  end.

(** registry.ParseID: an [ID] is the reference string itself. *)
Abbreviation ID := string.
Definition registry_ParseID (s : string) : res error ID :=
  match ParseID s with Err e => Err e | Ok _ => Ok s end.

(** ** What a reference is *)

Definition valid_name (n : string) : Prop :=
  ∃ c t, n = String c t ∧ is_lower c = true ∧ all_chars name_char t = true.

Definition valid_number (d : string) : Prop := d ≠ "" ∧ all_chars is_digit d = true.

Definition valid_version (v : string) : Prop :=
  ∃ a b c, v = a +:+ "." +:+ b +:+ "." +:+ c ∧
           valid_number a ∧ valid_number b ∧ valid_number c.

Definition valid_id (s : string) : Prop :=
  ∃ n v, s = n +:+ "@" +:+ v ∧ valid_name n ∧ valid_version v.

(** ** The expression reads exactly the valid references *)

Lemma idName_reads : Reads idName (cat (one is_lower) (many name_char)).
Proof. unfold idName. apply _. Qed.

Lemma idVersion_reads :
  Reads idVersion
    (cat (cat (one is_digit) (many is_digit))
      (cat (one (is_char "."%char))
        (cat (cat (one is_digit) (many is_digit))
          (cat (one (is_char "."%char)) (cat (one is_digit) (many is_digit)))))).
Proof. unfold idVersion, rDigits, rDot, RPlus. apply _. Qed.

Lemma one_is_char d s : one (is_char d) s ↔ s = str1 d.
Proof.
  unfold one, is_char. split.
  - by intros (c & -> & ->%bool_decide_eq_true).
  - intros ->. exists d. by rewrite bool_decide_true.
Qed.

Lemma cat_one_many p q s :
  cat (one p) (many q) s ↔ ∃ c t, s = String c t ∧ p c = true ∧ all_chars q t = true.
Proof.
  unfold cat, one, many. split.
  - intros (? & t & -> & (c & -> & ?) & ?). by exists c, t.
  - intros (c & t & -> & ? & ?). exists (str1 c), t. split_and!; [done|by exists c|done].
Qed.

Lemma valid_name_lang n : valid_name n ↔ cat (one is_lower) (many name_char) n.
Proof. by rewrite cat_one_many. Qed.

Lemma valid_number_lang d : valid_number d ↔ cat (one is_digit) (many is_digit) d.
Proof.
  rewrite cat_one_many. unfold valid_number. split.
  - intros [? Hall]. destruct d as [|c t]; [done|]. simpl in Hall.
    apply andb_true_iff in Hall as [? ?]. by exists c, t.
  - intros (c & t & -> & Hc & Ht). simpl. by rewrite Hc, Ht.
Qed.

Lemma valid_version_lang v :
  valid_version v ↔
  cat (cat (one is_digit) (many is_digit))
    (cat (one (is_char "."%char))
      (cat (cat (one is_digit) (many is_digit))
        (cat (one (is_char "."%char)) (cat (one is_digit) (many is_digit))))) v.
Proof.
  unfold valid_version. split.
  - intros (a & b & c & -> & Ha%valid_number_lang & Hb%valid_number_lang & Hc%valid_number_lang).
    exists a, ("." +:+ b +:+ "." +:+ c). split_and!; [done..|].
    exists ".", (b +:+ "." +:+ c). split_and!; [done|by apply one_is_char|].
    exists b, ("." +:+ c). split_and!; [done..|].
    exists ".", c. split_and!; [done|by apply one_is_char|done].
  - intros (a & ? & -> & Ha & ? & ? & -> & ->%one_is_char & b & ? & -> & Hb & ? & c & -> &
      ->%one_is_char & Hc).
    exists a, b, c. by rewrite !valid_number_lang.
Qed.

Lemma idSubmatches_elem s n v :
  (n, v) ∈ idSubmatches s ↔ s = n +:+ "@" +:+ v ∧ valid_name n ∧ valid_version v.
Proof.
  unfold idSubmatches. rewrite list_elem_of_bind. split.
  - intros (y1 & (y2 & (y3 & Hin & Hy3)%list_elem_of_bind & Hy2)%list_elem_of_bind & Hy1).
    apply ends_spec, idName_reads in Hy1 as (t1 & Ht1 & ? & _).
    apply ends_spec, reads_char in Hy2 as (t2 & Ht2 & ->%one_is_char & _).
    apply ends_spec, idVersion_reads in Hy3 as (t3 & Ht3 & ? & _).
    unfold at_end in Hin. case_bool_decide as He; [|set_solver].
    apply list_elem_of_singleton in Hin.
    rewrite (consumed_app _ _ t1 Ht1), (consumed_app _ _ t3 Ht3) in Hin. simplify_eq.
    rewrite valid_name_lang, valid_version_lang. split_and!; [|done..].
    simpl in Ht1. by rewrite Ht1, Ht2, Ht3, He, app_nil_r_str.
  - intros (-> & Hn%valid_name_lang & Hv%valid_version_lang).
    assert (Hm : full_match (RSeq idName (RSeq (RChar (is_char "@"%char)) idVersion))
              (n +:+ "@" +:+ v) = true).
    { eapply full_match_reads.
      - apply reads_seq; [apply idName_reads|].
        apply reads_seq; [apply _|apply idVersion_reads].
      - exists n, ("@" +:+ v). split_and!; [done..|].
        exists "@", v. split_and!; [done|by apply one_is_char|done]. }
    apply full_match_spec in Hm as [b Hm].
    assert (Hsplit : ∃ y1 y2, rmatch idName (start (n +:+ "@" +:+ v)) y1 ∧
              y1.2 = "@" +:+ v ∧ rmatch (RChar (is_char "@"%char)) y1 y2 ∧ y2.2 = v ∧
              rmatch idVersion y2 (b, "")).
    { assert (Hf := rmatch_follows _ _ _ Hm). clear Hm.
      destruct (follows_split (start (n +:+ "@" +:+ v)) (b, "") n ("@" +:+ v))
        as (y1 & Hf1 & Hf1' & H1 & H1'); [done|simpl; by rewrite app_nil_r_str|].
      simpl in H1'. rewrite app_nil_r_str in H1'.
      destruct (follows_split y1 (b, "") "@" v)
        as (y2 & Hf2 & Hf2' & H2 & H2'); [done|by rewrite H1', app_nil_r_str|].
      simpl in H2'. rewrite app_nil_r_str in H2'.
      exists y1, y2. split_and!; [apply idName_reads; eauto|done| |done|].
      - apply reads_char. exists "@". split_and!; [done|by apply one_is_char|done].
      - apply idVersion_reads. exists v. by rewrite H2', app_nil_r_str. }
    destruct Hsplit as (y1 & y2 & ? & H1 & ? & H2 & ?).
    exists y1. split; [|by apply ends_spec]. apply list_elem_of_bind.
    exists y2. split; [|by apply ends_spec]. apply list_elem_of_bind.
    exists (b, ""). split; [|by apply ends_spec]. simpl.
    apply list_elem_of_singleton. f_equal; symmetry; apply consumed_app; simpl.
    + by rewrite H1.
    + by rewrite H2, app_nil_r_str.
Qed.

Lemma valid_name_chars n : valid_name n → all_chars name_char n = true.
Proof.
  intros (c & t & -> & Hc & Ht). simpl. rewrite Ht, andb_true_r.
  unfold name_char. by rewrite Hc.
Qed.

Lemma id_split_unique n v n' v' :
  valid_name n → valid_name n' → n +:+ "@" +:+ v = n' +:+ "@" +:+ v' → n = n' ∧ v = v'.
Proof.
  intros Hn%valid_name_chars Hn'%valid_name_chars Heq.
  by apply (split_at_unique name_char "@"%char).
Qed.

Lemma ParseID_Ok s n v :
  ParseID s = Ok (n, v) ↔ s = n +:+ "@" +:+ v ∧ valid_name n ∧ valid_version v.
Proof.
  unfold ParseID. rewrite <-idSubmatches_elem.
  destruct (idSubmatches s) as [|[n' v'] l] eqn:Hl; [split; [done|set_solver]|].
  split; [intros; simplify_eq; left|]. intros Hin. rewrite <-Hl in Hin.
  assert (Hin' : (n', v') ∈ idSubmatches s) by (rewrite Hl; left).
  apply idSubmatches_elem in Hin as (-> & ? & ?).
  apply idSubmatches_elem in Hin' as (Heq & ? & ?).
  destruct (id_split_unique n v n' v') as [-> ->]; auto.
Qed.

Lemma ParseID_is_ok s : is_ok (ParseID s) = true ↔ valid_id s.
Proof.
  rewrite is_ok_spec. unfold valid_id. split.
  - intros [[n v] H%ParseID_Ok]. eauto.
  - intros (n & v & H). exists (n, v). by apply ParseID_Ok.
Qed.

Lemma ParseID_Err s e :
  ParseID s = Err e ↔ ¬ valid_id s ∧
    e = EText (Sprintf "invalid component id %q: want <dotted-name>@<semver>" [FS s]).
Proof.
  rewrite <-ParseID_is_ok. unfold ParseID. destruct (idSubmatches s); naive_solver.
Qed.

#[export] Instance valid_id_dec s : Decision (valid_id s).
Proof. refine (cast_if (decide (is_ok (ParseID s) = true))); by rewrite <-ParseID_is_ok. Defined.

Example ParseID_ex : ParseID "toolpack.http-get@1.0.12" = Ok ("toolpack.http-get", "1.0.12").
Proof. vm_compute. reflexivity. Qed.

Example ParseID_bad : is_ok (ParseID "toolpack.http-get@1.0") = false.
Proof. vm_compute. reflexivity. Qed.
