(* ===== verification/Merge.v ===== *)
(** Composition by merging: spec/merge.go, and [mergeChain], [mergeOne],
    [applyOverlays], [applyOne] of spec/normalize.go.

    The code updates [merged] and [prov] through pointers; here each function
    returns the new pair. *)

From S2P Require Import Prelude GoStrings Errors Values Types.
From stdpp Require Import options.

(** ** Field-shape helpers (spec/merge.go) *)

Definition nonempty (s : string) : bool := negb (bool_decide (s = "")).
Definition is_set {A} (o : option A) : bool := match o with Some _ => true | None => false end.

Definition scalarString (parent child : string) : string :=
  if nonempty child then child else parent.

Definition pointerStruct {T} (parent child : option T) : option T :=
  if is_set child then child else parent.

Definition sliceReplaceIfSet {T} (parent child : slice T) : slice T :=
  if is_set child then child else parent.

Definition mapStringStringReplace (parent child : gomap string) : gomap string :=
  if is_set child then child else parent.

(** ** Merging one layer of the extends chain *)

Definition isZeroMetadata (m : Metadata) : bool :=
  (bool_decide (md_ID m = "") && bool_decide (md_Version m = "") &&
   bool_decide (md_DisplayName m = "") && bool_decide (md_Description m = "") &&
   Nat.eqb (length (elems (md_Owners m))) 0 && Nat.eqb (length (entries (md_Labels m))) 0)%bool.

Definition mergeMetadata (merged child : Metadata) : Metadata :=
  {| md_ID := scalarString (md_ID merged) (md_ID child);
     md_Version := scalarString (md_Version merged) (md_Version child);
     md_DisplayName := scalarString (md_DisplayName merged) (md_DisplayName child);
     md_Description := scalarString (md_Description merged) (md_Description child);
     md_Owners := if is_set (md_Owners child) then md_Owners child else md_Owners merged;
     md_Labels := mapStringStringReplace (md_Labels merged) (md_Labels child) |}.

(** Which top-level fields a layer sets. *)
Definition sets_Metadata (c : AgentSpec) : bool := negb (isZeroMetadata (Meta c)).
Definition sets_Provider (c : AgentSpec) : bool := nonempty (cr_Ref (Provider c)).
Definition sets_Prompt (c : AgentSpec) : bool :=
  (is_set (pb_System (Prompt c)) || is_set (pb_User (Prompt c)))%bool.
Definition sets_Filters (c : AgentSpec) : bool :=
  (is_set (fb_PreLLM (Filters c)) || is_set (fb_PreTool (Filters c)) ||
   is_set (fb_PostTool (Filters c)))%bool.

Definition mergeOne (merged child : AgentSpec) (p : Provenance) (prov : provenanceFields)
    : AgentSpec * provenanceFields :=
  ({| APIVersion := if nonempty (APIVersion child) then APIVersion child else APIVersion merged;
      Kind := if nonempty (Kind child) then Kind child else Kind merged;
      Meta := if sets_Metadata child then mergeMetadata (Meta merged) (Meta child)
              else Meta merged;
      Provider := if sets_Provider child then Provider child else Provider merged;
      Prompt := if sets_Prompt child then Prompt child else Prompt merged;
      Tools := if is_set (Tools child) then Tools child else Tools merged;
      Policies := if is_set (Policies child) then Policies child else Policies merged;
      Filters := if sets_Filters child then Filters child else Filters merged;
      Budget := if is_set (Budget child) then Budget child else Budget merged;
      Telemetry := if is_set (Telemetry child) then Telemetry child else Telemetry merged;
      Credentials := if is_set (Credentials child) then Credentials child
                     else Credentials merged;
      Identity := if is_set (Identity child) then Identity child else Identity merged;
      Extends := Extends merged;
      Skills := if is_set (Skills child) then Skills child else Skills merged;
      MCPImports := if is_set (MCPImports child) then MCPImports child else MCPImports merged;
      OutputContract := if is_set (OutputContract child) then OutputContract child
                        else OutputContract merged |},
   {| pf_APIVersion := if nonempty (APIVersion child) then p else pf_APIVersion prov;
      pf_Kind := if nonempty (Kind child) then p else pf_Kind prov;
      pf_Metadata := if sets_Metadata child then p else pf_Metadata prov;
      pf_Provider := if sets_Provider child then p else pf_Provider prov;
      pf_Prompt := if sets_Prompt child then p else pf_Prompt prov;
      pf_Tools := if is_set (Tools child) then p else pf_Tools prov;
      pf_Policies := if is_set (Policies child) then p else pf_Policies prov;
      pf_Filters := if sets_Filters child then p else pf_Filters prov;
      pf_Budget := if is_set (Budget child) then p else pf_Budget prov;
      pf_Telemetry := if is_set (Telemetry child) then p else pf_Telemetry prov;
      pf_Credentials := if is_set (Credentials child) then p else pf_Credentials prov;
      pf_Identity := if is_set (Identity child) then p else pf_Identity prov;
      pf_Skills := if is_set (Skills child) then p else pf_Skills prov;
      pf_OutputContract := if is_set (OutputContract child) then p else pf_OutputContract prov;
      pf_MCPImports := if is_set (MCPImports child) then p else pf_MCPImports prov |}).

(** ** mergeChain *)

(** [*prov = provenanceFields{...}]: every field starts as RoleBase (the
    literal leaves MCPImports at its zero value, which is the same). *)
Definition initialProvenance : provenanceFields :=
  mkProvenanceFields baseProvenance baseProvenance baseProvenance baseProvenance
    baseProvenance baseProvenance baseProvenance baseProvenance baseProvenance
    baseProvenance baseProvenance baseProvenance baseProvenance baseProvenance
    baseProvenance.

Definition parentProvenance (n i : nat) : Provenance :=
  mkProvenance "" 0 RoleParent (Z.of_nat (n - i)).

Definition mergeState : Type := AgentSpec * provenanceFields.

Fixpoint mergeParents (n i : nat) (st : mergeState) (parents : list AgentSpec) : mergeState :=
  match parents with
  | [] => st
  | parent :: rest =>
    mergeParents n (S i) (mergeOne st.1 parent (parentProvenance n i) st.2) rest
  end.

Definition mergeChain (parents : list AgentSpec) (base : AgentSpec) : mergeState :=
  let st := mergeParents (length parents) 0 (zeroAgentSpec, initialProvenance) parents in
  let st' := mergeOne st.1 base baseProvenance st.2 in
  (clear_Extends st'.1, st'.2).

(** ** Overlays *)

Definition applyOverlayMetadata (merged : Metadata) (ov : OverlayMetadata) : Metadata :=
  {| md_ID := if nonempty (om_ID ov) then om_ID ov else md_ID merged;
     md_Version := if nonempty (om_Version ov) then om_Version ov else md_Version merged;
     md_DisplayName :=
       if nonempty (om_DisplayName ov) then om_DisplayName ov else md_DisplayName merged;
     md_Description :=
       if nonempty (om_Description ov) then om_Description ov else md_Description merged;
     md_Owners := if is_set (om_Owners ov) then om_Owners ov else md_Owners merged;
     md_Labels := if is_set (om_Labels ov) then om_Labels ov else md_Labels merged |}.

Definition applyOverlayFilters (merged : FilterBlock) (ov : FilterOverlay) : FilterBlock :=
  {| fb_PreLLM := if Set_ (fo_PreLLM ov) then Items (fo_PreLLM ov) else fb_PreLLM merged;
     fb_PreTool := if Set_ (fo_PreTool ov) then Items (fo_PreTool ov) else fb_PreTool merged;
     fb_PostTool :=
       if Set_ (fo_PostTool ov) then Items (fo_PostTool ov) else fb_PostTool merged |}.

(** The local flag [modified] of applyOverlayFilters. *)
Definition modifiesFilters (ov : FilterOverlay) : bool :=
  (Set_ (fo_PreLLM ov) || Set_ (fo_PreTool ov) || Set_ (fo_PostTool ov))%bool.

Definition with_line (p : Provenance) (line : Z) : Provenance :=
  mkProvenance (pv_File p) line (pv_Role p) (pv_Step p).

Definition applyOne (merged : AgentSpec) (body : AgentOverlayBody) (p : Provenance)
    (prov : provenanceFields) : AgentSpec * provenanceFields :=
  ({| APIVersion := APIVersion merged;
      Kind := Kind merged;
      Meta := match ob_Metadata body with
              | Some m => applyOverlayMetadata (Meta merged) m
              | None => Meta merged
              end;
      Provider := default (Provider merged) (ob_Provider body);
      Prompt := default (Prompt merged) (ob_Prompt body);
      Tools := if Set_ (ob_Tools body) then Items (ob_Tools body) else Tools merged;
      Policies := if Set_ (ob_Policies body) then Items (ob_Policies body) else Policies merged;
      Filters := match ob_Filters body with
                 | Some f => applyOverlayFilters (Filters merged) f
                 | None => Filters merged
                 end;
      Budget := if is_set (ob_Budget body) then ob_Budget body else Budget merged;
      Telemetry := if is_set (ob_Telemetry body) then ob_Telemetry body else Telemetry merged;
      Credentials := if is_set (ob_Credentials body) then ob_Credentials body
                     else Credentials merged;
      Identity := if is_set (ob_Identity body) then ob_Identity body else Identity merged;
      Extends := Extends merged;
      Skills := Skills merged;
      MCPImports := MCPImports merged;
      OutputContract := OutputContract merged |},
   {| pf_APIVersion := pf_APIVersion prov;
      pf_Kind := pf_Kind prov;
      pf_Metadata := if is_set (ob_Metadata body) then p else pf_Metadata prov;
      pf_Provider := if is_set (ob_Provider body) then p else pf_Provider prov;
      pf_Prompt := if is_set (ob_Prompt body) then p else pf_Prompt prov;
      pf_Tools := if Set_ (ob_Tools body) then with_line p (Line (ob_Tools body))
                  else pf_Tools prov;
      pf_Policies := if Set_ (ob_Policies body) then with_line p (Line (ob_Policies body))
                     else pf_Policies prov;
      pf_Filters := match ob_Filters body with
                    | Some f => if modifiesFilters f then p else pf_Filters prov
                    | None => pf_Filters prov
                    end;
      pf_Budget := if is_set (ob_Budget body) then p else pf_Budget prov;
      pf_Telemetry := if is_set (ob_Telemetry body) then p else pf_Telemetry prov;
      pf_Credentials := if is_set (ob_Credentials body) then p else pf_Credentials prov;
      pf_Identity := if is_set (ob_Identity body) then p else pf_Identity prov;
      pf_Skills := pf_Skills prov;
      pf_OutputContract := pf_OutputContract prov;
      pf_MCPImports := pf_MCPImports prov |}).

Definition MaxOverlayCount : nat := 16.

Definition overlayProvenance (idx : nat) (ov : AgentOverlay) : Provenance :=
  mkProvenance (ov_File ov) 0 RoleOverlay (Z.of_nat idx).

(** The loop of applyOverlays; a nil overlay is skipped but keeps its index. *)
Fixpoint applyOverlaysFrom (idx : nat) (st : mergeState) (overlays : list (option AgentOverlay))
    : mergeState :=
  match overlays with
  | [] => st
  | None :: rest => applyOverlaysFrom (S idx) st rest
  | Some ov :: rest =>
    applyOverlaysFrom (S idx) (applyOne st.1 (ov_Spec ov) (overlayProvenance idx ov) st.2) rest
  end.

Definition applyOverlays (st : mergeState) (overlays : list (option AgentOverlay))
    : res error mergeState :=
  if Nat.ltb MaxOverlayCount (length overlays) then
    Err (EWrap (Sprintf "applyOverlays: %d overlays exceed %d: %w"
                  [FN (length overlays); FN MaxOverlayCount])
               (ESentinel ErrCompositionLimit))
  else Ok (applyOverlaysFrom 0 st overlays).

(** ** Last writer wins

    The layers of a chain are its parents, root first, each with the
    provenance the loop records for it, and then the base. *)

Definition layer : Type := AgentSpec * Provenance.

Definition parent_layers (n i : nat) (parents : list AgentSpec) : list layer :=
  imap (λ j s, (s, parentProvenance n (i + j))) parents.

Definition layers (parents : list AgentSpec) (base : AgentSpec) : list layer :=
  parent_layers (length parents) 0 parents ++ [(base, baseProvenance)].

Definition run_layers (st : mergeState) (ls : list layer) : mergeState :=
  foldl (λ st l, mergeOne st.1 l.1 l.2 st.2) st ls.

Definition last_such {A} (p : A → bool) (l : list A) : option A :=
  last (filter (λ x, p x = true) l).

(** [Replaced get sets]: merging a child replaces the value [get] reads when
    the child sets it, and keeps it otherwise. *)
Class Replaced {V} (get : AgentSpec → V) (sets : AgentSpec → bool) : Prop := {
  replaced m c p prov : get (mergeOne m c p prov).1 = if sets c then get c else get m;
  replaced_clear s : get (clear_Extends s) = get s;
}.
(** The fields of the specification, by the test the code makes on the child. *)
#[export] Instance replaced_APIVersion : Replaced APIVersion (λ c, nonempty (APIVersion c)).
Proof. done. Qed.
#[export] Instance replaced_Kind : Replaced Kind (λ c, nonempty (Kind c)).
Proof. done. Qed.
#[export] Instance replaced_Provider : Replaced Provider sets_Provider.
Proof. done. Qed.
#[export] Instance replaced_Prompt : Replaced Prompt sets_Prompt.
Proof. done. Qed.
#[export] Instance replaced_Tools : Replaced Tools (λ c, is_set (Tools c)).
Proof. done. Qed.
#[export] Instance replaced_Policies : Replaced Policies (λ c, is_set (Policies c)).
Proof. done. Qed.
#[export] Instance replaced_Filters : Replaced Filters sets_Filters.
Proof. done. Qed.
#[export] Instance replaced_Budget : Replaced Budget (λ c, is_set (Budget c)).
Proof. done. Qed.
#[export] Instance replaced_Telemetry : Replaced Telemetry (λ c, is_set (Telemetry c)).
Proof. done. Qed.
#[export] Instance replaced_Credentials : Replaced Credentials (λ c, is_set (Credentials c)).
Proof. done. Qed.
#[export] Instance replaced_Identity : Replaced Identity (λ c, is_set (Identity c)).
Proof. done. Qed.
#[export] Instance replaced_Skills : Replaced Skills (λ c, is_set (Skills c)).
Proof. done. Qed.
#[export] Instance replaced_MCPImports : Replaced MCPImports (λ c, is_set (MCPImports c)).
Proof. done. Qed.
#[export] Instance replaced_OutputContract :
  Replaced OutputContract (λ c, is_set (OutputContract c)).
Proof. done. Qed.

Lemma nonempty_true s : nonempty s = true ↔ s ≠ "".
Proof. unfold nonempty. by rewrite negb_true_iff, bool_decide_eq_false. Qed.

Lemma nonempty_false s : nonempty s = false ↔ s = "".
Proof. unfold nonempty. by rewrite negb_false_iff, bool_decide_eq_true. Qed.

Lemma isZeroMetadata_spec m :
  isZeroMetadata m = true ↔
  md_ID m = "" ∧ md_Version m = "" ∧ md_DisplayName m = "" ∧ md_Description m = "" ∧
  elems (md_Owners m) = [] ∧ entries (md_Labels m) = [].
Proof.
  unfold isZeroMetadata. rewrite !andb_true_iff, !bool_decide_eq_true, !Nat.eqb_eq.
  rewrite !length_zero_iff_nil. tauto.
Qed.

(** The scalars of the metadata are replaced one by one. *)
Lemma replaced_scalar (f : Metadata → string) :
  (∀ a b, f (mergeMetadata a b) = scalarString (f a) (f b)) →
  (∀ m, isZeroMetadata m = true → f m = "") →
  Replaced (λ s, f (Meta s)) (λ c, nonempty (f (Meta c))).
Proof.
  intros Hm Hz. split; [|done]. intros m c p prov. simpl. unfold sets_Metadata.
  destruct (isZeroMetadata (Meta c)) eqn:Hzero; simpl.
  - by rewrite (Hz _ Hzero).
  - by rewrite Hm.
Qed.

#[export] Instance replaced_ID :
  Replaced (λ s, md_ID (Meta s)) (λ c, nonempty (md_ID (Meta c))).
Proof. apply replaced_scalar; [done|]. intros m. rewrite isZeroMetadata_spec. tauto. Qed.
#[export] Instance replaced_Version :
  Replaced (λ s, md_Version (Meta s)) (λ c, nonempty (md_Version (Meta c))).
Proof. apply replaced_scalar; [done|]. intros m. rewrite isZeroMetadata_spec. tauto. Qed.
#[export] Instance replaced_DisplayName :
  Replaced (λ s, md_DisplayName (Meta s)) (λ c, nonempty (md_DisplayName (Meta c))).
Proof. apply replaced_scalar; [done|]. intros m. rewrite isZeroMetadata_spec. tauto. Qed.
#[export] Instance replaced_Description :
  Replaced (λ s, md_Description (Meta s)) (λ c, nonempty (md_Description (Meta c))).
Proof. apply replaced_scalar; [done|]. intros m. rewrite isZeroMetadata_spec. tauto. Qed.

(** Owners and labels are replaced as a whole, and only by a layer whose
    metadata is not all zero: an explicit empty list alone does not count. *)
#[export] Instance replaced_Owners :
  Replaced (λ s, md_Owners (Meta s)) (λ c, sets_Metadata c && is_set (md_Owners (Meta c)))%bool.
Proof. split; [|done]. intros m c p prov. simpl. by destruct (sets_Metadata c). Qed.
#[export] Instance replaced_Labels :
  Replaced (λ s, md_Labels (Meta s)) (λ c, sets_Metadata c && is_set (md_Labels (Meta c)))%bool.
Proof. split; [|done]. intros m c p prov. simpl. by destruct (sets_Metadata c). Qed.

Section last_such.
Context {A : Type} (p : A → bool).

Lemma last_such_snoc l x :
  last_such p (l ++ [x]) = if p x then Some x else last_such p l.
Proof.
  unfold last_such. rewrite filter_app, filter_cons, filter_nil.
  destruct (p x) eqn:Hp; simpl.
  - by rewrite last_snoc.
  - by rewrite app_nil_r.
Qed.

Lemma last_such_None l : last_such p l = None ↔ ∀ x, x ∈ l → p x = false.
Proof.
  unfold last_such. rewrite last_None. split.
  - intros Hf x Hx. destruct (p x) eqn:Hp; [|done].
    assert (x ∈ filter (λ x, p x = true) l) by (by apply list_elem_of_filter).
    rewrite Hf in *. set_solver.
  - intros H. apply elem_of_nil_inv. intros x [Hp Hx]%list_elem_of_filter.
    rewrite H in Hp; done.
Qed.
End last_such.

Section run_layers.
Context {V : Type} (get : AgentSpec → V) (sets : AgentSpec → bool).

Definition layer_sets (l : layer) : bool := sets l.1.

Lemma run_layers_value st ls `{!Replaced get sets} :
  get (run_layers st ls).1 = from_option (λ l, get l.1) (get st.1) (last_such layer_sets ls).
Proof.
  induction ls as [|l ls IH] using rev_ind; [done|].
  unfold run_layers. rewrite foldl_snoc. fold (run_layers st ls).
  rewrite replaced, last_such_snoc, IH. unfold layer_sets at 2. by destruct (sets l.1).
Qed.

End run_layers.

Lemma parent_layers_cons n i s rest :
  parent_layers n i (s :: rest) = (s, parentProvenance n i) :: parent_layers n (S i) rest.
Proof.
  unfold parent_layers. rewrite imap_cons, Nat.add_0_r. f_equal.
  apply imap_ext. intros j x _. simpl. by rewrite Nat.add_succ_r.
Qed.

Lemma mergeParents_run n i st parents :
  mergeParents n i st parents = run_layers st (parent_layers n i parents).
Proof.
  revert i st. induction parents as [|s rest IH]; intros i st; [done|].
  rewrite parent_layers_cons. simpl. by rewrite IH.
Qed.

Lemma mergeChain_run parents base :
  mergeChain parents base =
  let st := run_layers (zeroAgentSpec, initialProvenance) (layers parents base) in
  (clear_Extends st.1, st.2).
Proof.
  unfold mergeChain, layers, run_layers. rewrite foldl_app. simpl.
  by rewrite mergeParents_run.
Qed.

(** ** Overlays: last writer wins *)

Definition overlay_layer : Type := AgentOverlayBody * Provenance.

Fixpoint overlay_layers (idx : nat) (overlays : list (option AgentOverlay))
    : list overlay_layer :=
  match overlays with
  | [] => []
  | None :: rest => overlay_layers (S idx) rest
  | Some ov :: rest => (ov_Spec ov, overlayProvenance idx ov) :: overlay_layers (S idx) rest
  end.

Definition run_overlays (st : mergeState) (ls : list overlay_layer) : mergeState :=
  foldl (λ st l, applyOne st.1 l.1 l.2 st.2) st ls.

Lemma applyOverlaysFrom_run idx st overlays :
  applyOverlaysFrom idx st overlays = run_overlays st (overlay_layers idx overlays).
Proof. revert idx st. induction overlays as [|[ov|] rest IH]; intros; simpl; auto. Qed.

(** [Overlaid get osets oget]: an overlay body that sets the field replaces it
    by [oget body] and keeps it otherwise. *)
Class Overlaid {V} (get : AgentSpec → V) (osets : AgentOverlayBody → bool)
    (oget : AgentOverlayBody → V) : Prop :=
  overlaid : ∀ m b p prov, get (applyOne m b p prov).1 = if osets b then oget b else get m.
#[export] Instance overlaid_Provider :
  Overlaid Provider (λ b, is_set (ob_Provider b))
    (λ b, default (Provider zeroAgentSpec) (ob_Provider b)).
Proof. intros m b p prov. simpl. by destruct (ob_Provider b). Qed.
#[export] Instance overlaid_Prompt :
  Overlaid Prompt (λ b, is_set (ob_Prompt b)) (λ b, default (Prompt zeroAgentSpec) (ob_Prompt b)).
Proof. intros m b p prov. simpl. by destruct (ob_Prompt b). Qed.
#[export] Instance overlaid_Tools :
  Overlaid Tools (λ b, Set_ (ob_Tools b)) (λ b, Items (ob_Tools b)).
Proof. done. Qed.
#[export] Instance overlaid_Policies :
  Overlaid Policies (λ b, Set_ (ob_Policies b)) (λ b, Items (ob_Policies b)).
Proof. done. Qed.
#[export] Instance overlaid_Budget : Overlaid Budget (λ b, is_set (ob_Budget b)) ob_Budget.
Proof. done. Qed.
#[export] Instance overlaid_Telemetry :
  Overlaid Telemetry (λ b, is_set (ob_Telemetry b)) ob_Telemetry.
Proof. done. Qed.
#[export] Instance overlaid_Credentials :
  Overlaid Credentials (λ b, is_set (ob_Credentials b)) ob_Credentials.
Proof. done. Qed.
#[export] Instance overlaid_Identity :
  Overlaid Identity (λ b, is_set (ob_Identity b)) ob_Identity.
Proof. done. Qed.

(** The three filter stages are replaced one by one. *)
Definition stage (f : FilterOverlay → RefList) (b : AgentOverlayBody) : RefList :=
  from_option f zeroRefList (ob_Filters b).
#[export] Instance overlaid_PreLLM :
  Overlaid (λ s, fb_PreLLM (Filters s)) (λ b, Set_ (stage fo_PreLLM b))
    (λ b, Items (stage fo_PreLLM b)).
Proof. intros m b p prov. unfold stage. simpl. by destruct (ob_Filters b). Qed.
#[export] Instance overlaid_PreTool :
  Overlaid (λ s, fb_PreTool (Filters s)) (λ b, Set_ (stage fo_PreTool b))
    (λ b, Items (stage fo_PreTool b)).
Proof. intros m b p prov. unfold stage. simpl. by destruct (ob_Filters b). Qed.
#[export] Instance overlaid_PostTool :
  Overlaid (λ s, fb_PostTool (Filters s)) (λ b, Set_ (stage fo_PostTool b))
    (λ b, Items (stage fo_PostTool b)).
Proof. intros m b p prov. unfold stage. simpl. by destruct (ob_Filters b). Qed.

(** The scalars of the metadata likewise. *)
Definition overlay_scalar (f : OverlayMetadata → string) (b : AgentOverlayBody) : string :=
  from_option f "" (ob_Metadata b).
#[export] Instance overlaid_ID :
  Overlaid (λ s, md_ID (Meta s)) (λ b, nonempty (overlay_scalar om_ID b))
    (overlay_scalar om_ID).
Proof. intros m b p prov. unfold overlay_scalar. simpl. by destruct (ob_Metadata b). Qed.
#[export] Instance overlaid_Version :
  Overlaid (λ s, md_Version (Meta s)) (λ b, nonempty (overlay_scalar om_Version b))
    (overlay_scalar om_Version).
Proof. intros m b p prov. unfold overlay_scalar. simpl. by destruct (ob_Metadata b). Qed.
#[export] Instance overlaid_DisplayName :
  Overlaid (λ s, md_DisplayName (Meta s)) (λ b, nonempty (overlay_scalar om_DisplayName b))
    (overlay_scalar om_DisplayName).
Proof. intros m b p prov. unfold overlay_scalar. simpl. by destruct (ob_Metadata b). Qed.

(** The fields an overlay cannot touch. *)
Definition never (b : AgentOverlayBody) : bool := false.
#[export] Instance overlaid_APIVersion v : Overlaid APIVersion never v.
Proof. done. Qed.
#[export] Instance overlaid_Kind v : Overlaid Kind never v.
Proof. done. Qed.
#[export] Instance overlaid_Extends v : Overlaid Extends never v.
Proof. done. Qed.
#[export] Instance overlaid_Skills v : Overlaid Skills never v.
Proof. done. Qed.
#[export] Instance overlaid_MCPImports v : Overlaid MCPImports never v.
Proof. done. Qed.
#[export] Instance overlaid_OutputContract v : Overlaid OutputContract never v.
Proof. done. Qed.

Section run_overlays.
Context {V : Type} (get : AgentSpec → V).
Context (osets : AgentOverlayBody → bool) (oget : AgentOverlayBody → V).

Definition overlay_sets (l : overlay_layer) : bool := osets l.1.

Lemma run_overlays_value st ls `{!Overlaid get osets oget} :
  get (run_overlays st ls).1 =
  from_option (λ l, oget l.1) (get st.1) (last_such overlay_sets ls).
Proof.
  induction ls as [|l ls IH] using rev_ind; [done|].
  unfold run_overlays. rewrite foldl_snoc. fold (run_overlays st ls).
  rewrite overlaid, last_such_snoc, IH. unfold overlay_sets at 2. by destruct (osets l.1).
Qed.

End run_overlays.

Lemma last_such_never l : last_such (overlay_sets never) l = None.
Proof. by apply last_such_None. Qed.

(** Fields no overlay can set are untouched. *)
Lemma run_overlays_keeps {V} (get : AgentSpec → V) oget st ls
    `{!Overlaid get never oget} : get (run_overlays st ls).1 = get st.1.
Proof. by rewrite (run_overlays_value get never oget), last_such_never. Qed.

Lemma applyOverlays_Ok st overlays st' :
  applyOverlays st overlays = Ok st' ↔
  length overlays ≤ MaxOverlayCount ∧ st' = run_overlays st (overlay_layers 0 overlays).
Proof.
  unfold applyOverlays. rewrite applyOverlaysFrom_run.
  destruct (Nat.ltb_spec MaxOverlayCount (length overlays)); split; intros; destruct_and?;
    simplify_eq; [lia|split; [lia|done]|done].
Qed.

(** ** Properties *)

Definition tools_overlay (l : RefList) : AgentOverlay :=
  mkAgentOverlay "" "" "prod"
    (mkAgentOverlayBody None None None l zeroRefList None None None None None) "prod.yaml".

Lemma if_idem {A} (b : bool) (x y : A) :
  (if b then x else if b then x else y) = if b then x else y.
Proof. by destruct b. Qed.

Lemma applyOverlayMetadata_idem m ov :
  applyOverlayMetadata (applyOverlayMetadata m ov) ov = applyOverlayMetadata m ov.
Proof. unfold applyOverlayMetadata. simpl. by rewrite !if_idem. Qed.

(** applying an overlay a second time changes neither the spec nor, with the
    same position, the provenance. *)
Theorem applyOne_idempotent m body p prov :
  let r := applyOne m body p prov in applyOne r.1 body p r.2 = r.
Proof.
  simpl. unfold applyOne. simpl. f_equal; f_equal; rewrite ?if_idem; try done.
  - destruct (ob_Metadata body); [apply applyOverlayMetadata_idem|done].
  - by destruct (ob_Provider body).
  - by destruct (ob_Prompt body).
  - destruct (ob_Filters body); [|done]. unfold applyOverlayFilters. simpl. by rewrite !if_idem.
  - destruct (ob_Filters body); [apply if_idem|done].
Qed.
