(* ===== verification/Extends.v ===== *)
(** Parent specifications: the [SpecStore] interface (spec/store.go) and
    [resolveExtendsChain] (spec/normalize.go).

    A context is observed through [ctx.Err()]; [clock] counts the observations
    a call has made so far, so that a context may be cancelled between any two
    of them. *)

From S2P Require Import Prelude GoStrings Errors Values Types.
From stdpp Require Import options.

Record context := mkContext { ctx_Err : nat → option error }.

Definition Background : context := mkContext (λ _, None).

(** A context that is never cancelled. *)
Definition live (ctx : context) : Prop := ∀ n, ctx_Err ctx n = None.

(** ** SpecStore *)

(** [Load(ctx, ref)] at some point of the clock: the clock after the call and
    the pointer to the specification ([None]: nil) or the error. *)
Record SpecStore := mkSpecStore {
  store_Load : context → nat → string → nat * res error (option AgentSpec);
}.

(** The values of the map are pointers, and a nil one is returned as it is. *)
Definition MapSpecStore_Load (m : gmap string (option AgentSpec)) (ctx : context) (clock : nat)
    (ref : string) : nat * res error (option AgentSpec) :=
  (S clock,
   match ctx_Err ctx clock with
   | Some err => Err err
   | None =>
     match m !! ref with
     | None => Err (EWrap (Sprintf "MapSpecStore: %s: %w" [FS ref]) (ESentinel ErrSpecNotFound))
     | Some s => Ok s
     end
   end).

Definition MapSpecStore (m : gmap string (option AgentSpec)) : SpecStore :=
  mkSpecStore (MapSpecStore_Load m).

(** What a store promises to [resolveExtendsChain] (the contract in the doc
    comment of the Go interface): it holds [content]; a reference it does not
    hold gives an error wrapping ErrSpecNotFound, and it returns no nil specification. *)
Class Holds (store : SpecStore) (content : string → option AgentSpec) : Prop := {
  load_sound ctx t ref t' o :
    store_Load store ctx t ref = (t', Ok o) → ∃ s, o = Some s ∧ content ref = Some s;
  load_complete ctx t ref s :
    live ctx → content ref = Some s → ∃ t', store_Load store ctx t ref = (t', Ok (Some s));
  load_missing ctx t ref :
    live ctx → content ref = None →
    ∃ t' e, store_Load store ctx t ref = (t', Err e) ∧ errors_is e ErrSpecNotFound = true;
}.

(** The map store over non-nil pointers keeps the contract. *)
#[export] Instance MapSpecStore_holds (m : gmap string AgentSpec) :
  Holds (MapSpecStore (Some <$> m)) (λ ref, m !! ref).
Proof.
  split; simpl; unfold MapSpecStore_Load.
  - intros ctx t ref t' s. destruct (ctx_Err ctx t); [done|]. rewrite lookup_fmap.
    destruct (m !! ref); naive_solver.
  - intros ctx t ref s Hl Hr. rewrite (Hl t), lookup_fmap, Hr. eauto.
  - intros ctx t ref Hl Hr. rewrite (Hl t), lookup_fmap, Hr. eexists _, _. split; [done|].
    done.
Qed.

(** ** resolveExtendsChain *)

Definition MaxExtendsDepth : nat := 8.

(** The variables the closure [walk] captures. *)
Record walk_state := mkWalkState {
  ws_visited : gset string;
  ws_parents : list AgentSpec;
  ws_chain : list string;
  ws_clock : nat;
}.

Definition init_walk : walk_state := mkWalkState ∅ [] [] 0.

Section walk.
Context (ctx : context) (store : SpecStore).

(** One turn of [for _, parentRef := range node.Extends], with [rec] for the
    recursive call.  A nil parent is never appended: the walk of it has panicked. *)
Definition visit (rec : option AgentSpec → list string → walk_state → res error walk_state)
    (path : list string) (st : walk_state) (parentRef : string) : res error walk_state :=
  let cycledPath := path ++ [parentRef] in
  if decide (parentRef ∈ ws_visited st) then Err (EExtends cycledPath "cycle")
  else
    let '(clock, loaded) := store_Load store ctx (ws_clock st) parentRef in
    match loaded with
    | Err err => Err (EWrap (Sprintf "resolve %q: %w" [FS parentRef]) err)
    | Ok parent =>
      st' ← rec parent cycledPath
              (mkWalkState ({[parentRef]} ∪ ws_visited st) (ws_parents st) (ws_chain st) clock);
      Ok (mkWalkState (ws_visited st') (ws_parents st' ++ option_list parent)
            (ws_chain st' ++ [parentRef]) (ws_clock st'))
    end.

(** [node.Extends] of a nil node is a nil dereference. *)
Fixpoint walk (fuel : nat) (node : option AgentSpec) (depth : nat) (path : list string)
    (st : walk_state) : res error walk_state :=
  match fuel with
  | 0 => Err (EPanic "walk: out of fuel")
  | S fuel' =>
    match ctx_Err ctx (ws_clock st) with
    | Some err => Err err
    | None =>
      let st := mkWalkState (ws_visited st) (ws_parents st) (ws_chain st) (S (ws_clock st)) in
      if Nat.ltb MaxExtendsDepth depth then Err (EExtends path "depth")
      else match node with
      | None => Err (EPanic "nil pointer dereference")
      | Some node =>
        foldM (visit (λ parent p s, walk fuel' parent (S depth) p s) path)
          st (elems (Extends node))
      end
    end
  end.
End walk.

(** The recursion is at most one deeper than the depth limit, so this fuel is
    never exhausted ([walk_no_panic]). *)
Definition walk_fuel : nat := MaxExtendsDepth + 2.

Definition resolveExtendsChain (ctx : context) (s : AgentSpec) (store : option SpecStore)
    : res error (list AgentSpec * list string) :=
  match elems (Extends s), store with
  | [], _ => Ok ([], [])
  | _ :: _, None => Err (ESentinel ErrNoSpecStore)
  | _ :: _, Some store =>
    st ← walk ctx store walk_fuel (Some s) 0 [] init_walk;
    Ok (ws_parents st, ws_chain st)
  end.

(** ** What a chain is

    [chain_of content d refs l]: unfolding [refs] through [content], each
    reference after everything it extends, gives [l], and no path of the
    unfolding is longer than [d]. *)
Inductive chain_of (content : string → option AgentSpec)
    : nat → list string → list string → list AgentSpec → Prop :=
| chain_nil d : chain_of content d [] [] []
| chain_cons d r p rs l1 ps1 l2 ps2 :
    content r = Some p →
    chain_of content d (elems (Extends p)) l1 ps1 →
    chain_of content (S d) rs l2 ps2 →
    chain_of content (S d) (r :: rs) (l1 ++ r :: l2) (ps1 ++ p :: ps2).
#[export] Hint Constructors chain_of : forge.

Lemma chain_of_loads content d refs l ps :
  chain_of content d refs l ps → Forall2 (λ r p, content r = Some p) l ps.
Proof. induction 1; eauto using Forall2_app. Qed.

Lemma chain_of_refs content d refs l ps : chain_of content d refs l ps → refs ⊆ l.
Proof. induction 1; set_solver. Qed.

Lemma chain_of_mono content d d' refs l ps :
  chain_of content d refs l ps → d ≤ d' → chain_of content d' refs l ps.
Proof.
  intros H. revert d'. induction H as [|d r p rs l1 ps1 l2 ps2 Hr H1 IH1 H2 IH2];
    intros d' Hd; [constructor|].
  destruct d' as [|d']; [lia|]. constructor; [done|apply IH1; lia|apply IH2; lia].
Qed.

(** ** The walk computes the chain *)

(** [st'] is [st] after appending the chain [l] with its specifications. *)
Definition extended (l : list string) (ps : list AgentSpec) (st st' : walk_state) : Prop :=
  ws_visited st' = ws_visited st ∪ list_to_set l ∧
  ws_parents st' = ws_parents st ++ ps ∧
  ws_chain st' = ws_chain st ++ l.

Definition fresh_chain (st : walk_state) (l : list string) : Prop :=
  NoDup l ∧ ∀ r, r ∈ l → r ∉ ws_visited st.

Definition grows (content : string → option AgentSpec) (d : nat) (refs : list string)
    (st st' : walk_state) : Prop :=
  ∃ l ps, chain_of content d refs l ps ∧ fresh_chain st l ∧ extended l ps st st'.

Lemma fresh_chain_cons st st1 r l1 ps1 l2 clock p :
  r ∉ ws_visited st →
  let st0 := mkWalkState ({[r]} ∪ ws_visited st) (ws_parents st) (ws_chain st) clock in
  fresh_chain st0 l1 → extended l1 ps1 st0 st1 →
  let st2 := mkWalkState (ws_visited st1) (ws_parents st1 ++ [p]) (ws_chain st1 ++ [r])
               (ws_clock st1) in
  fresh_chain st2 l2 →
  fresh_chain st (l1 ++ r :: l2).
Proof.
  intros Hr st0 [Hnd1 Hd1] (Hv & _ & _) st2 [Hnd2 Hd2]. simpl in *.
  rewrite Hv in Hd2. split.
  - apply NoDup_app. split_and!; [done| |].
    + intros x Hx [->|Hx2]%elem_of_cons; [apply Hd1 in Hx; set_solver|].
      apply Hd2 in Hx2. set_solver.
    + apply NoDup_cons. split; [|done]. intros Hx2. apply Hd2 in Hx2. set_solver.
  - intros x [Hx|[->|Hx]%elem_of_cons]%elem_of_app; [apply Hd1 in Hx| |apply Hd2 in Hx];
      set_solver.
Qed.

Section walk_correct.
Context (ctx : context) (store : SpecStore) (content : string → option AgentSpec).
Context `{!Holds store content}.

Lemma loop_sound d rec path refs st st' :
  (∀ parent p s s', rec (Some parent) p s = Ok s' → grows content d (elems (Extends parent)) s s') →
  foldM (visit ctx store rec path) st refs = Ok st' → grows content (S d) refs st st'.
Proof using Type*.
  intros Hrec. revert st. induction refs as [|r refs IH]; intros st Hf; simpl in Hf.
  - simplify_eq. exists [], []. split_and!; [constructor|split; [constructor|set_solver]|].
    split_and!; rewrite ?app_nil_r; [set_solver|done..].
  - apply bind_Ok in Hf as (st2 & Hv & Hf). unfold visit in Hv.
    case_decide as Hvis; [done|].
    destruct (store_Load store ctx (ws_clock st) r) as [clock [o|e]] eqn:Hload; [|done].
    apply load_sound in Hload as (p & -> & Hload).
    apply bind_Ok in Hv as (st1 & Hr & ?). simplify_eq. simpl in Hf. apply Hrec in Hr as (l1 & ps1 & Hc1 & Hf1 & He1).
    apply IH in Hf as (l2 & ps2 & Hc2 & Hf2 & He2).
    exists (l1 ++ r :: l2), (ps1 ++ p :: ps2). split_and!.
    + by constructor.
    + by eapply fresh_chain_cons.
    + destruct He1 as (Hv1 & Hp1 & Hch1), He2 as (Hv2 & Hp2 & Hch2). simpl in *.
      split_and!.
      * rewrite Hv2, Hv1. set_solver.
      * rewrite Hp2, Hp1. by rewrite <-!(assoc_L (++)).
      * rewrite Hch2, Hch1. by rewrite <-!(assoc_L (++)).
Qed.

Lemma walk_sound fuel node depth path st st' :
  walk ctx store fuel (Some node) depth path st = Ok st' →
  depth ≤ MaxExtendsDepth ∧
  grows content (MaxExtendsDepth - depth) (elems (Extends node)) st st'.
Proof using Type*.
  revert node depth path st st'.
  induction fuel as [|fuel IH]; intros node depth path st st' Hw; simpl in Hw; [done|].
  destruct (ctx_Err ctx (ws_clock st)); [done|].
  destruct (Nat.ltb_spec MaxExtendsDepth depth) as [|Hd]; [done|]. split; [done|].
  set (st1 := mkWalkState _ _ _ _) in Hw.
  assert (Hgr : grows content (MaxExtendsDepth - depth) (elems (Extends node)) st1 st');
    [|done].
  destruct (decide (depth = MaxExtendsDepth)) as [->|Hne].
  - destruct (elems (Extends node)) as [|r refs].
    + eapply foldM_inv; [|exists [], []|exact Hw]; [set_solver|].
      rewrite Nat.sub_diag.
      split_and!; [constructor|split; [constructor|set_solver]|].
      split_and!; rewrite ?app_nil_r; [set_solver|done..].
    + exfalso. simpl in Hw. apply bind_Ok in Hw as (st2 & Hv & _). unfold visit in Hv.
      case_decide; [done|]. destruct (store_Load _ _ _ _) as [clock [o|e]] eqn:Hload; [|done].
      apply load_sound in Hload as (p & -> & _).
      apply bind_Ok in Hv as (st3 & Hr & _). apply IH in Hr as [? _]. lia.
  - replace (MaxExtendsDepth - depth) with (S (MaxExtendsDepth - S depth)) by lia.
    eapply loop_sound; [|exact Hw]. intros parent p s s' Hr. by apply IH in Hr as [_ ?].
Qed.
End walk_correct.

Section walk_complete.
Context (ctx : context) (store : SpecStore) (content : string → option AgentSpec).
Context `{!Holds store content} (Hlive : live ctx).

Lemma loop_complete d rec path refs l ps st :
  (∀ parent p s l1 ps1,
      chain_of content d (elems (Extends parent)) l1 ps1 → fresh_chain s l1 →
      ∃ s', rec (Some parent) p s = Ok s' ∧ extended l1 ps1 s s') →
  chain_of content (S d) refs l ps → fresh_chain st l →
  ∃ st', foldM (visit ctx store rec path) st refs = Ok st' ∧ extended l ps st st'.
Proof using Type*.
  intros Hrec Hc. remember (S d) as d' eqn:Hd. revert st.
  induction Hc as [|d0 r p rs l1 ps1 l2 ps2 Hr Hc1 _ Hc2 IH2]; intros st Hfr.
  - exists st. split; [done|]. split_and!; rewrite ?app_nil_r; [set_solver|done..].
  - simplify_eq. destruct Hfr as [Hnd Hdis].
    apply NoDup_app in Hnd as (Hnd1 & Hd12 & [Hr2 Hnd2]%NoDup_cons).
    destruct (load_complete (content:=content) ctx (ws_clock st) r p) as [clock Hload];
      [done..|].
    set (st0 := mkWalkState ({[r]} ∪ ws_visited st) (ws_parents st) (ws_chain st) clock).
    destruct (Hrec p (path ++ [r]) st0 l1 ps1) as (st1 & Hst1 & He1); [done| |].
    { split; [done|]. intros x Hx. simpl. specialize (Hdis x). specialize (Hd12 x).
      set_solver. }
    set (st2 := mkWalkState (ws_visited st1) (ws_parents st1 ++ [p]) (ws_chain st1 ++ [r])
                  (ws_clock st1)).
    destruct He1 as (Hv1 & Hp1 & Hch1). simpl in *.
    destruct (IH2 eq_refl st2) as (st' & Hf & Hv2 & Hp2 & Hch2).
    { split; [done|]. intros x Hx. simpl. rewrite Hv1.
      specialize (Hdis x). specialize (Hd12 x). set_solver. }
    exists st'. split.
    + assert (Hvisit : visit ctx store rec path st r = Ok st2).
      { unfold visit. rewrite decide_False by (apply Hdis; set_solver).
        rewrite Hload. fold st0. by rewrite Hst1. }
      cbn [foldM]. by rewrite Hvisit.
    + simpl in *. split_and!.
      * rewrite Hv2, Hv1. set_solver.
      * rewrite Hp2, Hp1. by rewrite <-!(assoc_L (++)).
      * rewrite Hch2, Hch1. by rewrite <-!(assoc_L (++)).
Qed.

Lemma walk_complete d fuel node depth path st l ps :
  chain_of content d (elems (Extends node)) l ps → fresh_chain st l →
  depth + d ≤ MaxExtendsDepth → d < fuel →
  ∃ st', walk ctx store fuel (Some node) depth path st = Ok st' ∧ extended l ps st st'.
Proof using Type*.
  revert fuel node depth path st l ps.
  induction d as [|d IH]; intros fuel node depth path st l ps Hc Hfr Hd Hfuel;
    (destruct fuel as [|fuel]; [lia|]); simpl; rewrite (Hlive (ws_clock st));
    rewrite (proj2 (Nat.ltb_ge _ _)) by lia.
  - inversion Hc; subst. simpl. eexists. split; [done|].
    split_and!; rewrite ?app_nil_r; [set_solver|done..].
  - set (st0 := mkWalkState _ _ _ _).
    destruct (loop_complete d (λ parent p s, walk ctx store fuel parent (S depth) p s) path
                (elems (Extends node)) l ps st0) as (st' & ? & ?); [|done..|by exists st'].
    intros parent p s l1 ps1 Hc1 Hfr1. apply IH; [done..|lia|lia].
Qed.
End walk_complete.

(** ** Soundness and completeness of the resolver *)

Lemma resolve_sound ctx s store content parents chain `{!Holds store content} :
  resolveExtendsChain ctx s (Some store) = Ok (parents, chain) →
  chain_of content MaxExtendsDepth (elems (Extends s)) chain parents ∧ NoDup chain.
Proof.
  unfold resolveExtendsChain. destruct (elems (Extends s)) as [|r refs] eqn:Hex.
  { intros ?. simplify_eq. split; [constructor|by apply NoDup_nil_2]. }
  rewrite <-Hex. intros (st & Hw & ?)%bind_Ok. simplify_eq.
  eapply walk_sound in Hw as (_ & l & ps & Hc & [Hnd _] & _ & Hp & Hch); [|done].
  rewrite Hp, Hch. by split; [exact Hc|].
Qed.

Lemma chain_of_resolves ctx s store content parents chain `{!Holds store content} :
  live ctx →
  chain_of content MaxExtendsDepth (elems (Extends s)) chain parents → NoDup chain →
  resolveExtendsChain ctx s (Some store) = Ok (parents, chain).
Proof.
  intros Hlive Hc Hnd. unfold resolveExtendsChain.
  destruct (elems (Extends s)) as [|r refs] eqn:Hex; [by inversion Hc|].
  rewrite <-Hex in Hc.
  edestruct (walk_complete ctx store content Hlive MaxExtendsDepth walk_fuel s 0 [] init_walk)
    as (st & Hw & _ & Hp & Hch); [done| |unfold walk_fuel, MaxExtendsDepth; lia..|].
  { split; [done|]. simpl. set_solver. }
  rewrite Hw. simpl. by rewrite Hp, Hch.
Qed.

(** ** The extends graph *)

Definition edge (content : string → option AgentSpec) (x y : string) : Prop :=
  ∃ p, content x = Some p ∧ y ∈ elems (Extends p).

(** Every reference comes after the references its specification extends. *)
Definition parents_first (l : list string) (ps : list AgentSpec) : Prop :=
  ∀ i p q, ps !! i = Some p → q ∈ elems (Extends p) → ∃ j, j < i ∧ l !! j = Some q.

Lemma chain_of_length content d refs l ps :
  chain_of content d refs l ps → length l = length ps.
Proof. intros H%chain_of_loads. by eapply Forall2_length. Qed.

Lemma chain_of_parents_first content d refs l ps :
  chain_of content d refs l ps → parents_first l ps.
Proof.
  induction 1 as [|d r p rs l1 ps1 l2 ps2 Hr H1 IH1 H2 IH2]; intros i p' q Hi Hq; [done|].
  pose proof (chain_of_length _ _ _ _ _ H1) as Hlen.
  apply lookup_app_Some in Hi as [Hi|[Hge Hi]].
  - destruct (IH1 i p' q) as (j & ? & Hj); [done..|]. exists j. split; [done|].
    by apply lookup_app_l_Some.
  - destruct (i - length ps1) as [|k] eqn:Hk; simpl in Hi; simplify_eq.
    + apply chain_of_refs in H1. apply H1, list_elem_of_lookup in Hq as [j Hj].
      exists j. split; [|by apply lookup_app_l_Some].
      apply lookup_lt_Some in Hj. lia.
    + destruct (IH2 k p' q) as (j & ? & Hj); [done..|]. exists (length l1 + S j).
      split; [lia|]. rewrite lookup_app_r by lia. by rewrite Nat.add_comm, Nat.add_sub.
Qed.

Lemma chain_of_depth content d refs l ps r n x :
  chain_of content d refs l ps → r ∈ refs → nsteps (edge content) n r x → n < d.
Proof.
  intros Hc. revert r n x.
  induction Hc as [|d r p rs l1 ps1 l2 ps2 Hr H1 IH1 H2 IH2]; intros r' n x Hin Hs;
    [set_solver|].
  apply elem_of_cons in Hin as [->|Hin]; [|by eapply IH2].
  inversion Hs as [|n' ? y ? (p' & Hp' & Hy) Hs']; subst; [lia|]. simplify_eq.
  apply IH1 in Hs'; [lia|done].
Qed.

(** In a chain, a path of the graph goes strictly towards the root. *)
Lemma chain_reach content d refs l ps x y :
  chain_of content d refs l ps → NoDup l → x ∈ l → tc (edge content) x y →
  ∃ i j, l !! i = Some x ∧ l !! j = Some y ∧ j < i.
Proof.
  intros Hc Hnd Hx Ht.
  assert (Hstep : ∀ x y, x ∈ l → edge content x y →
            ∃ i j, l !! i = Some x ∧ l !! j = Some y ∧ j < i).
  { intros x' y' [i Hi]%list_elem_of_lookup (p & Hp & Hy).
    destruct (Forall2_lookup_l _ _ _ _ _ (chain_of_loads _ _ _ _ _ Hc) Hi) as (p' & Hp' & ?).
    simplify_eq. apply chain_of_parents_first in Hc.
    destruct (Hc i p y') as (j & ? & ?); eauto. }
  induction Ht as [x y He|x y z He Ht IH]; [by apply Hstep|].
  apply Hstep in He as (i & j & Hi & Hj & ?); [|done].
  destruct IH as (j' & k & Hj' & Hk & ?); [by eapply list_elem_of_lookup_2|].
  assert (j' = j) as -> by (by eapply NoDup_lookup).
  exists i, k. split_and!; [done..|lia].
Qed.

Lemma chain_acyclic content d refs l ps x :
  chain_of content d refs l ps → NoDup l → x ∈ l → ¬ tc (edge content) x x.
Proof.
  intros Hc Hnd Hx Ht.
  destruct (chain_reach content d refs l ps x x) as (i & j & Hi & Hj & ?); [done..|].
  assert (i = j) by (by eapply NoDup_lookup). lia.
Qed.

(** ** Steps of the walk *)

Lemma walk_step ctx store fuel node depth path st :
  ctx_Err ctx (ws_clock st) = None → depth ≤ MaxExtendsDepth →
  walk ctx store (S fuel) (Some node) depth path st =
  foldM (visit ctx store (λ parent p s, walk ctx store fuel parent (S depth) p s) path)
    (mkWalkState (ws_visited st) (ws_parents st) (ws_chain st) (S (ws_clock st)))
    (elems (Extends node)).
Proof.
  intros Hc Hd. simpl. rewrite Hc.
  by rewrite (proj2 (Nat.ltb_ge _ _)).
Qed.

Lemma visit_load ctx store rec path st r clock p :
  r ∉ ws_visited st → store_Load store ctx (ws_clock st) r = (clock, Ok (Some p)) →
  visit ctx store rec path st r =
  (st' ← rec (Some p) (path ++ [r])
           (mkWalkState ({[r]} ∪ ws_visited st) (ws_parents st) (ws_chain st) clock);
   Ok (mkWalkState (ws_visited st') (ws_parents st' ++ [p]) (ws_chain st' ++ [r])
         (ws_clock st'))).
Proof. intros Hr Hl. unfold visit. by rewrite decide_False, Hl. Qed.

(** ** Errors *)

Section walk_errors.
Context (ctx : context) (store : SpecStore).

(** Any predicate that holds of the errors of the context, of the store errors as
    wrapped, of extends errors and, when there is a nil specification to walk, of its
    dereference holds of the errors of the walk. *)
Lemma walk_error_inv (P : error → Prop) fuel node depth path st e :
  (∀ n e, ctx_Err ctx n = Some e → P e) →
  (∀ n r t e, store_Load store ctx n r = (t, Err e) →
     P (EWrap (Sprintf "resolve %q: %w" [FS r]) e)) →
  (∀ p r, P (EExtends p r)) →
  (node = None ∨ (∃ n r t, store_Load store ctx n r = (t, Ok None)) →
     P (EPanic "nil pointer dereference")) →
  depth ≤ S MaxExtendsDepth < depth + fuel →
  walk ctx store fuel node depth path st = Err e → P e.
Proof.
  intros Hctx Hstore Hext. revert node depth path st.
  induction fuel as [|fuel IH]; intros node depth path st Hnil Hfuel; simpl; [lia|].
  destruct (ctx_Err ctx (ws_clock st)) eqn:Hc; [intros; simplify_eq; eauto|].
  destruct (Nat.ltb_spec MaxExtendsDepth depth); [intros; simplify_eq; eauto|].
  destruct node as [node|]; [|intros; simplify_eq; eauto].
  generalize (mkWalkState (ws_visited st) (ws_parents st) (ws_chain st) (S (ws_clock st))).
  clear Hc. induction (elems (Extends node)) as [|r refs IHrefs]; intros st0; [done|].
  cbn [foldM]. intros [Hv|(st1 & Hv & Hf)]%bind_Err; [|by apply IHrefs in Hf].
  unfold visit in Hv. case_decide; [simplify_eq; eauto|].
  destruct (store_Load store ctx (ws_clock st0) r) as [clock [p|e']] eqn:Hl;
    [|simplify_eq; eauto].
  apply bind_Err in Hv as [Hv|(? & _ & ?)]; [|done].
  apply IH in Hv; [done| |lia]. intros [->|?]; apply Hnil; eauto.
Qed.
End walk_errors.

Lemma chain_closed content d refs l ps r x :
  chain_of content d refs l ps → r ∈ l → rtc (edge content) r x → x ∈ l.
Proof.
  intros Hc Hr Hs. induction Hs as [|r y x (p & Hp & Hy) Hs IH]; [done|]. apply IH.
  apply list_elem_of_lookup in Hr as [i Hi].
  destruct (Forall2_lookup_l _ _ _ _ _ (chain_of_loads _ _ _ _ _ Hc) Hi) as (p' & Hp' & ?).
  simplify_eq. apply chain_of_parents_first in Hc.
  destruct (Hc i p y) as (j & ? & ?); [done..|]. by eapply list_elem_of_lookup_2.
Qed.

(** ** Properties *)

(** A small specification that extends the given references, for examples. *)
Definition extending (refs : list string) : AgentSpec :=
  mkAgentSpec "" "" zeroMetadata (mkComponentRef "" None) (mkPromptBlock None None)
    None None (mkFilterBlock None None None) None None None None (Some refs) None None None.

Definition example_store : gmap string AgentSpec :=
  <["base@1.0.0" := extending []]> (<["mid@1.0.0" := extending ["base@1.0.0"]]> ∅).

(** when [resolveExtendsChain] succeeds, under any context, the chain holds
    each reference once, every parent is what the store holds for its
    reference, the base's own references are in the chain, a reference comes
    after everything its specification extends (root first), and no path of
    extends from the base is longer than [MaxExtendsDepth]. *)
Theorem resolve_parents_first ctx s store content parents chain `{!Holds store content} :
  resolveExtendsChain ctx s (Some store) = Ok (parents, chain) →
  NoDup chain ∧
  Forall2 (λ r p, content r = Some p) chain parents ∧
  elems (Extends s) ⊆ chain ∧
  parents_first chain parents ∧
  ∀ r n x, r ∈ elems (Extends s) → nsteps (edge content) n r x → n < MaxExtendsDepth.
Proof.
  intros Hr. destruct (resolve_sound ctx s store content parents chain Hr) as [Hc Hnd].
  split_and!; [done|..].
  - by eapply chain_of_loads.
  - by eapply chain_of_refs.
  - by eapply chain_of_parents_first.
  - intros r n x ??. by eapply chain_of_depth.
Qed.

Example resolve_parents_first_witness :
  NoDup ["base@1.0.0"; "mid@1.0.0"].
Proof.
  refine (proj1 (resolve_parents_first Background (extending ["mid@1.0.0"])
    (MapSpecStore (Some <$> example_store)) (λ r, example_store !! r)
    [extending []; extending ["base@1.0.0"]] ["base@1.0.0"; "mid@1.0.0"] _)).
  vm_compute. reflexivity.
Defined.

(** C8: under a context that is never cancelled, [resolveExtendsChain]
    succeeds exactly when the extends tree of the base unfolds through the
    store within [MaxExtendsDepth] levels with all references distinct, and
    it then returns that unfolding in post-order. *)
Theorem resolve_succeeds_iff ctx s store content parents chain `{!Holds store content} :
  live ctx →
  resolveExtendsChain ctx s (Some store) = Ok (parents, chain) ↔
  chain_of content MaxExtendsDepth (elems (Extends s)) chain parents ∧ NoDup chain.
Proof.
  intros Hlive. split; [by apply resolve_sound|].
  intros [??]. by eapply chain_of_resolves.
Qed.

Example resolve_succeeds_iff_witness :
  chain_of (λ r, example_store !! r) MaxExtendsDepth ["mid@1.0.0"]
    ["base@1.0.0"; "mid@1.0.0"] [extending []; extending ["base@1.0.0"]].
Proof.
  refine (proj1 (proj1 (resolve_succeeds_iff Background (extending ["mid@1.0.0"])
    (MapSpecStore (Some <$> example_store)) (λ r, example_store !! r) _ _ _) _)).
  - intros n. reflexivity.
  - vm_compute. reflexivity.
Defined.

(** a cycle reachable from the base through the store is never accepted,
    whatever the context does. *)
Theorem resolve_rejects_cycles ctx s store content r x `{!Holds store content} :
  r ∈ elems (Extends s) → rtc (edge content) r x → tc (edge content) x x →
  is_ok (resolveExtendsChain ctx s (Some store)) = false.
Proof.
  intros Hr Hrx Hx. apply not_true_is_false. intros [[ps l] Hok]%is_ok_spec.
  destruct (resolve_sound ctx s store content ps l Hok) as [Hc Hnd].
  eapply (chain_acyclic content); [exact Hc|exact Hnd| |exact Hx].
  eapply (chain_closed content); [exact Hc| |exact Hrx].
  apply chain_of_refs in Hc. set_solver.
Qed.

Definition cyclic_store : gmap string AgentSpec :=
  <["a@1.0.0" := extending ["b@1.0.0"]]> (<["b@1.0.0" := extending ["a@1.0.0"]]> ∅).

Example resolve_rejects_cycles_witness :
  is_ok (resolveExtendsChain Background (extending ["a@1.0.0"])
    (Some (MapSpecStore (Some <$> cyclic_store)))) = false.
Proof.
  apply (resolve_rejects_cycles _ _ _ (λ r, cyclic_store !! r) "a@1.0.0" "a@1.0.0").
  - left.
  - reflexivity.
  - eapply tc_l; [|eapply tc_once].
    + exists (extending ["b@1.0.0"]). split; [reflexivity|left].
    + exists (extending ["a@1.0.0"]). split; [reflexivity|left].
Defined.

(** with a context that is never cancelled, resolution always returns (no
    panic, no exhausted recursion), and a failure is recognisable through
    [errors.Is]: no store configured, a missing parent, or an invalid chain. *)
Theorem resolve_error_classes ctx s store content e :
  live ctx → (∀ st, store = Some st → Holds st content) →
  resolveExtendsChain ctx s store = Err e →
  (store = None ∧ e = ESentinel ErrNoSpecStore) ∨
  errors_is e ErrExtendsInvalid = true ∨ errors_is e ErrSpecNotFound = true.
Proof.
  intros Hlive Hst. unfold resolveExtendsChain.
  destruct (elems (Extends s)), store as [store|]; [done..| |].
  2:{ intros ?. simplify_eq. by left. }
  intros [Hw|(? & _ & ?)]%bind_Err; [|done]. right.
  pose proof (Hst store eq_refl) as Hh.
  eapply (walk_error_inv ctx store (λ e, errors_is e ErrExtendsInvalid = true ∨
            errors_is e ErrSpecNotFound = true)) in Hw; [exact Hw|..].
  - intros n e'. by rewrite Hlive.
  - intros n r t e' Hl. right. simpl. destruct (content r) as [p|] eqn:Hr.
    + destruct (load_complete (content:=content) ctx n r p) as [t' ?]; [done..|]. congruence.
    + destruct (load_missing (content:=content) ctx n r) as (t' & e'' & ? & ?); [done..|].
      congruence.
  - intros p r. by left.
  - intros [?|(n & r & t & Hl)]; [done|]. by apply load_sound in Hl as (? & ? & _).
  - unfold walk_fuel, MaxExtendsDepth. lia.
Qed.

Example resolve_error_classes_witness :
  let e := EWrap (Sprintf "resolve %q: %w" [FS "gone@1.0.0"])
             (EWrap (Sprintf "MapSpecStore: %s: %w" [FS "gone@1.0.0"])
                (ESentinel ErrSpecNotFound)) in
  errors_is e ErrExtendsInvalid = true ∨ errors_is e ErrSpecNotFound = true.
Proof.
  destruct (resolve_error_classes Background (extending ["gone@1.0.0"])
    (Some (MapSpecStore (Some <$> example_store))) (λ r, example_store !! r)
    (EWrap (Sprintf "resolve %q: %w" [FS "gone@1.0.0"])
       (EWrap (Sprintf "MapSpecStore: %s: %w" [FS "gone@1.0.0"])
          (ESentinel ErrSpecNotFound)))) as [[H _]|H].
  - intros n. reflexivity.
  - intros st [= <-]. apply _.
  - vm_compute. reflexivity.
  - discriminate H.
  - exact H.
Defined.

(** A store with a nil entry: the walk dereferences it. *)
Example nil_entry_panics :
  resolveExtendsChain Background (extending ["nil@1.0.0"])
    (Some (MapSpecStore {["nil@1.0.0" := None]})) = Err (EPanic "nil pointer dereference").
Proof. vm_compute. reflexivity. Qed.

(** a parent reached along two branches is reported as a cycle although
    the graph has none: the visited set of the walk is never popped, and the
    reported chain does not hold the closing reference twice. *)
Theorem diamond_reported_as_cycle ctx s store content a b c pa pb pc
    `{!Holds store content} :
  live ctx → NoDup [a; b; c] →
  elems (Extends s) = [a; b] →
  content a = Some pa → content b = Some pb → content c = Some pc →
  elems (Extends pa) = [c] → elems (Extends pb) = [c] → elems (Extends pc) = [] →
  resolveExtendsChain ctx s (Some store) = Err (EExtends [b; c] "cycle").
Proof.
  intros Hlive Hnd Hs Ha Hb Hc Hea Heb Hec.
  apply NoDup_cons in Hnd as [Hna [Hnb _]%NoDup_cons].
  assert (Hload : ∀ t r p, content r = Some p →
            ∃ t', store_Load store ctx t r = (t', Ok (Some p)))
    by (intros; by eapply load_complete).
  unfold resolveExtendsChain. rewrite Hs. change walk_fuel with (S (S (S 7))).
  rewrite walk_step, Hs; [|apply Hlive|unfold MaxExtendsDepth; lia].
  cbn [foldM]. destruct (Hload 1 a pa Ha) as [t1 Hl1].
  erewrite visit_load; [|simpl; set_solver|exact Hl1].
  rewrite walk_step, Hea; [|apply Hlive|unfold MaxExtendsDepth; lia].
  cbn [foldM]. destruct (Hload (S t1) c pc Hc) as [t2 Hl2].
  erewrite visit_load; [|simpl; set_solver|exact Hl2].
  rewrite walk_step, Hec; [|apply Hlive|unfold MaxExtendsDepth; lia].
  simpl. destruct (Hload (S t2) b pb Hb) as [t3 Hl3].
  erewrite visit_load; [|simpl; set_solver|exact Hl3].
  rewrite Hlive, Heb. simpl. unfold visit. rewrite decide_True; [done|simpl; set_solver].
Qed.

Definition diamond_store : gmap string AgentSpec :=
  <["a@1.0.0" := extending ["c@1.0.0"]]> (<["b@1.0.0" := extending ["c@1.0.0"]]>
    (<["c@1.0.0" := extending []]> ∅)).

Example diamond_reported_as_cycle_witness :
  resolveExtendsChain Background (extending ["a@1.0.0"; "b@1.0.0"])
    (Some (MapSpecStore (Some <$> diamond_store))) = Err (EExtends ["b@1.0.0"; "c@1.0.0"] "cycle").
Proof.
  apply (diamond_reported_as_cycle _ _ _ (λ r, diamond_store !! r) "a@1.0.0" "b@1.0.0"
    "c@1.0.0" (extending ["c@1.0.0"]) (extending ["c@1.0.0"]) (extending []));
    try reflexivity.
  - intros n. reflexivity.
  - repeat constructor; set_solver.
Defined.

(** ** Termination *)

Lemma foldM_ext {E St A} (f g : St → A → res E St) acc l :
  (∀ s x, f s x = g s x) → foldM f acc l = foldM g acc l.
Proof.
  intros Hfg. revert acc. induction l as [|x l IH]; intros acc; simpl; [done|].
  rewrite Hfg. destruct (g acc x); simpl; [apply IH|done].
Qed.

Lemma walk_fuel_enough ctx store f1 f2 node depth path st :
  depth ≤ S MaxExtendsDepth → S MaxExtendsDepth < depth + f1 → S MaxExtendsDepth < depth + f2 →
  walk ctx store f1 node depth path st = walk ctx store f2 node depth path st.
Proof.
  revert f2 node depth path st. induction f1 as [|f1 IH]; intros [|f2] node depth path st Hd H1 H2; [lia..|].
  simpl. destruct (ctx_Err ctx (ws_clock st)); [done|].
  destruct (Nat.ltb_spec MaxExtendsDepth depth); [done|]. destruct node as [node|]; [|done].
  apply foldM_ext. intros s x.
  unfold visit. case_decide; [done|]. destruct (store_Load _ _ _ _) as [clock [p|e]]; [|done].
  by rewrite (IH f2) by lia.
Qed.

(** C33: the walk over the extends graph terminates, cyclic or not, for every store
    and every context: the depth limit bounds the recursion, so a walk allowed any
    deeper recursion gives the same answer as the one allowed [MaxExtendsDepth + 2]
    levels, and that answer is never the one of an exhausted recursion (unless the
    context's own error is that one). *)
Theorem extends_walk_terminates ctx store s fuel :
  walk_fuel ≤ fuel →
  walk ctx store fuel s 0 [] init_walk = walk ctx store walk_fuel s 0 [] init_walk ∧
  ((∀ n, ctx_Err ctx n ≠ Some (EPanic "walk: out of fuel")) →
   walk ctx store fuel s 0 [] init_walk ≠ Err (EPanic "walk: out of fuel")).
Proof.
  intros Hf. assert (Heq : walk ctx store fuel s 0 [] init_walk = walk ctx store walk_fuel s 0 [] init_walk).
  { apply walk_fuel_enough; unfold walk_fuel in *; lia. }
  split; [done|]. intros Hc. rewrite Heq. intros Hw.
  refine (walk_error_inv ctx store (λ e, e ≠ EPanic "walk: out of fuel") walk_fuel s 0 [] init_walk
    _ _ _ _ _ _ Hw eq_refl).
  - intros n e He ->. by eapply Hc.
  - done.
  - done.
  - done.
  - unfold walk_fuel, MaxExtendsDepth. lia.
Qed.

Example extends_walk_terminates_witness :
  walk Background (MapSpecStore (Some <$> cyclic_store)) 100 (Some (extending ["a@1.0.0"])) 0 [] init_walk ≠
  Err (EPanic "walk: out of fuel").
Proof.
  apply (extends_walk_terminates Background (MapSpecStore (Some <$> cyclic_store)) (Some (extending ["a@1.0.0"])) 100).
  - unfold walk_fuel, MaxExtendsDepth. lia.
  - done.
Defined.
