(* ===== verification/Validate.v ===== *)
(** The method [Validate] of AgentSpec (spec/validate.go) and the structural checks of MCP
    imports (spec/validate_mcp.go).

    Each check appends to the aggregator; [Adds e0 e P] states that [e] is [e0]
    followed by the violations of a check, which are none exactly when [P]
    holds.  The relation composes along the code, up to [validateErrors_adds]. *)

From S2P Require Import Prelude GoStrings Regex Errors Values Glob Types Ids.
From stdpp Require Import options.

Definition expectedAPIVersion : string := "forge.praxis-os.dev/v0".
Definition expectedKind : string := "AgentSpec".

(** ** Regular expressions of the header *)

Definition is_alnum_lower (c : ascii) : bool := (is_lower c || is_digit c)%bool.
Definition id_tail_char (c : ascii) : bool := (is_alnum_lower c || is_char "."%char c)%bool.
Definition pre_char (c : ascii) : bool :=
  (is_digit c || is_upper c || is_lower c || is_char "."%char c || is_char "-"%char c)%bool.

(** A lower-case label, dotted lower-case labels, an optional dashed tail. *)
Definition metadataIDRegexp : regex :=
  RSeq (RChar is_lower)
    (RSeq (RStar (RChar is_alnum_lower))
      (RSeq (RStar (RSeq rDot (RPlus (RChar is_alnum_lower))))
        (ROpt (RSeq (RChar (is_char "-"%char)) (RPlus (RChar id_tail_char)))))).

(** Three dotted numbers and an optional dashed pre-release. *)
Definition semverRegexp : regex :=
  RSeq rDigits (RSeq rDot (RSeq rDigits (RSeq rDot (RSeq rDigits
    (ROpt (RSeq (RChar (is_char "-"%char)) (RPlus (RChar pre_char)))))))).

(** ** References *)

Definition validateRef (errs : Errors) (field ref : string) : Errors :=
  if bool_decide (ref = "") then Addf errs (Sprintf "%s: required" [FS field])
  else match ParseID ref with
       | Err err => Addf errs (Sprintf "%s: %s" [FS field; FErr err])
       | Ok _ => errs
       end.

Definition validateKindPrefixedRef (errs : Errors) (field ref prefix : string) : Errors :=
  if bool_decide (ref = "") then Addf errs (Sprintf "%s: required" [FS field])
  else match ParseID ref with
       | Err err => Addf errs (Sprintf "%s: %s" [FS field; FErr err])
       | Ok _ =>
         if negb (HasPrefix ref prefix)
         then Addf errs (Sprintf "%s: must start with %q" [FS field; FS prefix])
         else errs
       end.

(** [for i, x := range l { f(&errs, i, x) }]. *)
Fixpoint range {A} (f : nat → Errors → A → Errors) (i : nat) (l : list A) (errs : Errors)
    : Errors :=
  match l with
  | [] => errs
  | x :: l' => range f (S i) l' (f i errs x)
  end.

Definition validateRefs (prefix : string) (l : list ComponentRef) (errs : Errors) : Errors :=
  range (λ i errs t, validateRef errs (indexed prefix i ".ref") (cr_Ref t)) 0 l errs.

(** ** Typed access to a config map (spec/validate_mcp.go, small helpers) *)

Definition stringAt (m : config) (k : string) : string := default "" (as_string (at_key m k)).
Definition mapAt (m : config) (k : string) : config := default None (as_map (at_key m k)).
Definition anyListAt (m : config) (k : string) : list any :=
  match at_key m k with
  | AList v => elems v
  | AStrings v => AString <$> elems v
  | _ => []
  end.

(** ** MCP imports *)

Definition validateMCPConnection (errs : Errors) (field : string) (conn : config) : Errors :=
  if negb (bool_decide (is_Some conn)) then
    Addf errs (Sprintf "%s: mcp_transport_invalid: connection required" [FS field])
  else
    let transport := stringAt conn "transport" in
    if bool_decide (transport = "stdio") then
      let errs := if Nat.eqb (length (anyListAt conn "command")) 0 then
          Addf errs (Sprintf "%s: mcp_transport_field_mismatch: stdio requires command" [FS field])
        else errs in
      if negb (bool_decide (stringAt conn "url" = "")) then
        Addf errs (Sprintf "%s: mcp_transport_field_mismatch: stdio must not set url" [FS field])
      else errs
    else if bool_decide (transport = "http") then
      let errs := if bool_decide (stringAt conn "url" = "") then
          Addf errs (Sprintf "%s: mcp_transport_field_mismatch: http requires url" [FS field])
        else errs in
      if Nat.ltb 0 (length (anyListAt conn "command")) then
        Addf errs (Sprintf "%s: mcp_transport_field_mismatch: http must not set command"
                     [FS field])
      else errs
    else
      Addf errs (Sprintf "%s.transport %q: mcp_transport_invalid (want stdio|http)"
                   [FS field; FS transport]).

Definition on_new_tool_values : list string :=
  ["block"; "allow-if-match-allowlist"; "require-reapproval"].

Definition validateMCPOnNewTool (errs : Errors) (field v : string) : Errors :=
  if bool_decide (v = "") then errs
  else if bool_decide (v ∈ on_new_tool_values) then errs
  else Addf errs (Sprintf "%s %q: mcp_on_new_tool_invalid (want block|allow-if-match-allowlist|require-reapproval)"
                    [FS field; FS v]).

Definition validateMCPAuth (errs : Errors) (field : string) (auth : config) : Errors :=
  if negb (bool_decide (is_Some auth)) then errs
  else
    let errs := if bool_decide (stringAt auth "credentialRef" = "") then
        Addf errs (Sprintf "%s.credentialRef: mcp_missing_credential_ref" [FS field])
      else errs in
    let scheme := stringAt auth "scheme" in
    let errs := if bool_decide (scheme = "") then
        Addf errs (Sprintf "%s.scheme: mcp_missing_auth_scheme" [FS field])
      else errs in
    if (bool_decide (scheme = "api-key") && bool_decide (stringAt auth "headerName" = ""))%bool
    then Addf errs (Sprintf "%s.headerName: mcp_missing_header_name (required for scheme api-key)"
                      [FS field])
    else errs.

Definition ErrBadPattern : error := EOpaque "path/filepath: syntax error in pattern".

Definition validateGlobList (errs : Errors) (field : string) (patterns : list any) : Errors :=
  range (λ i errs p,
    match as_string p with
    | None => Addf errs (Sprintf "%s[%d]: mcp_invalid_glob: want string, got %T"
                           [FS field; FN i; FS (type_name p)])
    | Some s =>
      if glob_ok s then errs
      else Addf errs (Sprintf "%s[%d] %q: mcp_invalid_glob: %s"
                        [FS field; FN i; FS s; FErr ErrBadPattern])
    end) 0 patterns errs.

(** One turn of the loop over the imports, after the id check. *)
Definition validateMCPFields (errs : Errors) (field : string) (cfg : config) : Errors :=
  let errs := validateMCPConnection errs (field +:+ ".connection") (mapAt cfg "connection") in
  let errs := validateMCPOnNewTool errs (field +:+ ".onNewTool") (stringAt cfg "onNewTool") in
  let errs := validateMCPAuth errs (field +:+ ".auth") (mapAt cfg "auth") in
  let errs := validateGlobList errs (field +:+ ".allow") (anyListAt cfg "allow") in
  validateGlobList errs (field +:+ ".deny") (anyListAt cfg "deny").

(** [seenID] is the map from an id to the import that declared it first. *)
Fixpoint validateMCPImportsFrom (i : nat) (seenID : gmap string nat) (errs : Errors)
    (imports : list ComponentRef) : Errors :=
  match imports with
  | [] => errs
  | ref :: rest =>
    let field := indexed "mcpImports" i ".config" in
    let cfg := cr_Config ref in
    if negb (bool_decide (is_Some cfg)) then
      validateMCPImportsFrom (S i) seenID
        (Addf errs (Sprintf "%s: mcp_missing_id: config required" [FS field])) rest
    else
      let id := stringAt cfg "id" in
      if bool_decide (id = "") then
        validateMCPImportsFrom (S i) seenID
          (validateMCPFields (Addf errs (Sprintf "%s.id: mcp_missing_id" [FS field])) field cfg)
          rest
      else match seenID !! id with
      | Some prev =>
        validateMCPImportsFrom (S i) seenID
          (validateMCPFields
             (Addf errs (Sprintf "%s.id %q: mcp_duplicate_id of mcpImports[%d]"
                           [FS field; FS id; FN prev])) field cfg) rest
      | None =>
        validateMCPImportsFrom (S i) (<[id := i]> seenID) (validateMCPFields errs field cfg) rest
      end
  end.

Definition validateMCPImportsStructure (errs : Errors) (imports : list ComponentRef) : Errors :=
  validateMCPImportsFrom 0 ∅ errs imports.

(** ** Duplicate tool refs *)

Fixpoint duplicateToolsFrom (i : nat) (seen : gmap string nat) (errs : Errors)
    (tools : list ComponentRef) : Errors :=
  match tools with
  | [] => errs
  | t :: rest =>
    match seen !! cr_Ref t with
    | Some prev =>
      duplicateToolsFrom (S i) seen
        (Addf errs (Sprintf "tools[%d]: duplicate of tools[%d] (ref=%s)"
                      [FN i; FN prev; FS (cr_Ref t)])) rest
    | None => duplicateToolsFrom (S i) (<[cr_Ref t := i]> seen) errs rest
    end
  end.

(** ** Validate *)

Definition validateHeader (s : AgentSpec) (errs : Errors) : Errors :=
  let errs := if bool_decide (APIVersion s = expectedAPIVersion) then errs
    else Addf errs (Sprintf "apiVersion: want %q, got %q"
                      [FS expectedAPIVersion; FS (APIVersion s)]) in
  let errs := if bool_decide (Kind s = expectedKind) then errs
    else Addf errs (Sprintf "kind: want %q, got %q" [FS expectedKind; FS (Kind s)]) in
  let errs := if full_match metadataIDRegexp (md_ID (Meta s)) then errs
    else Addf errs (Sprintf "metadata.id %q: must be dotted-lowercase" [FS (md_ID (Meta s))]) in
  if full_match semverRegexp (md_Version (Meta s)) then errs
  else Addf errs (Sprintf "metadata.version %q: must be semver MAJOR.MINOR.PATCH"
                    [FS (md_Version (Meta s))]).

Definition validatePromptSystem (s : AgentSpec) (errs : Errors) : Errors :=
  match pb_System (Prompt s) with
  | None => Addf errs (Sprintf "prompt.system: required" [])
  | Some c =>
    if bool_decide (cr_Ref c = "") then Addf errs (Sprintf "prompt.system: required" [])
    else validateRef errs "prompt.system.ref" (cr_Ref c)
  end.

(** [if s.X != nil { validateRef(&errs, field, s.X.Ref) }]. *)
Definition validateOptional {T} (ref : T → string) (field : string) (o : option T)
    (errs : Errors) : Errors :=
  match o with Some t => validateRef errs field (ref t) | None => errs end.

Definition validatePrefixed (what prefix : string) (l : list ComponentRef) (errs : Errors)
    : Errors :=
  range (λ i errs c, validateKindPrefixedRef errs (indexed what i ".ref") (cr_Ref c) prefix)
    0 l errs.

Definition validateErrors (s : AgentSpec) : Errors :=
  let errs := validateHeader s no_errors in
  let errs := validateRef errs "provider.ref" (cr_Ref (Provider s)) in
  let errs := validatePromptSystem s errs in
  let errs := validateRefs "tools" (elems (Tools s)) errs in
  let errs := validateRefs "policies" (elems (Policies s)) errs in
  let errs := validateRefs "filters.preLLM" (elems (fb_PreLLM (Filters s))) errs in
  let errs := validateRefs "filters.preTool" (elems (fb_PreTool (Filters s))) errs in
  let errs := validateRefs "filters.postTool" (elems (fb_PostTool (Filters s))) errs in
  let errs := validateOptional br_Ref "budget.ref" (Budget s) errs in
  let errs := validateOptional cr_Ref "telemetry.ref" (Telemetry s) errs in
  let errs := validateOptional cd_Ref "credentials.ref" (Credentials s) errs in
  let errs := validateOptional cr_Ref "identity.ref" (Identity s) errs in
  let errs := if Nat.ltb 0 (length (elems (Extends s))) then
      Addf errs (Sprintf "extends: phase-gated (Phase 2); must be empty in v0" [])
    else errs in
  let errs := validatePrefixed "mcpImports" "mcp." (elems (MCPImports s)) errs in
  let errs := validateMCPImportsStructure errs (elems (MCPImports s)) in
  let errs := validatePrefixed "skills" "skill." (elems (Skills s)) errs in
  let errs := match OutputContract s with
    | Some c => validateKindPrefixedRef errs "outputContract.ref" (cr_Ref c) "outputcontract."
    | None => errs
    end in
  duplicateToolsFrom 0 ∅ errs (elems (Tools s)).

Definition Validate (s : AgentSpec) : option error := OrNil (validateErrors s).

(** ** What a valid spec is *)

(** Dotted lower-case segments, with an optional dashed tail. *)
Definition dotted (segs : list string) : string := foldr (λ x acc, "." +:+ x +:+ acc) "" segs.

Definition nonempty_of (p : ascii → bool) (s : string) : Prop := s ≠ "" ∧ all_chars p s = true.

Definition dashed_tail (p : ascii → bool) (s : string) : Prop :=
  s = "" ∨ ∃ t, s = "-" +:+ t ∧ nonempty_of p t.

Definition valid_metadata_id (s : string) : Prop :=
  ∃ c h segs tail, s = String c h +:+ dotted segs +:+ tail ∧
    is_lower c = true ∧ all_chars is_alnum_lower h = true ∧
    Forall (nonempty_of is_alnum_lower) segs ∧ dashed_tail id_tail_char tail.

Definition valid_semver (s : string) : Prop :=
  ∃ v pre, s = v +:+ pre ∧ valid_version v ∧ dashed_tail pre_char pre.

Definition valid_prefixed (prefix ref : string) : Prop := valid_id ref ∧ HasPrefix ref prefix = true.

Definition valid_connection (conn : config) : Prop :=
  is_Some conn ∧
  ((stringAt conn "transport" = "stdio" ∧ anyListAt conn "command" ≠ [] ∧
    stringAt conn "url" = "") ∨
   (stringAt conn "transport" = "http" ∧ anyListAt conn "command" = [] ∧
    stringAt conn "url" ≠ "")).

Definition valid_auth (auth : config) : Prop :=
  is_Some auth → stringAt auth "credentialRef" ≠ "" ∧ stringAt auth "scheme" ≠ "" ∧
    (stringAt auth "scheme" = "api-key" → stringAt auth "headerName" ≠ "").

Definition valid_glob (v : any) : Prop := ∃ p, v = AString p ∧ glob_ok p = true.

Record valid_mcp_config (cfg : config) : Prop := {
  vm_some : is_Some cfg;
  vm_id : stringAt cfg "id" ≠ "";
  vm_connection : valid_connection (mapAt cfg "connection");
  vm_onNewTool : stringAt cfg "onNewTool" ∈ "" :: on_new_tool_values;
  vm_auth : valid_auth (mapAt cfg "auth");
  vm_allow : Forall valid_glob (anyListAt cfg "allow");
  vm_deny : Forall valid_glob (anyListAt cfg "deny");
}.

Definition mcp_id (c : ComponentRef) : string := stringAt (cr_Config c) "id".
Definition refs_valid (l : slice ComponentRef) : Prop := Forall (λ c, valid_id (cr_Ref c)) (elems l).
Definition optional_valid {T} (ref : T → string) (o : option T) : Prop :=
  ∀ t, o = Some t → valid_id (ref t).
Definition all_prefixed (prefix : string) (l : slice ComponentRef) : Prop :=
  Forall (λ c, valid_prefixed prefix (cr_Ref c)) (elems l).

Record valid_header (s : AgentSpec) : Prop := {
  vh_APIVersion : APIVersion s = expectedAPIVersion;
  vh_Kind : Kind s = expectedKind;
  vh_ID : valid_metadata_id (md_ID (Meta s));
  vh_Version : valid_semver (md_Version (Meta s));
}.

Record valid_spec (s : AgentSpec) : Prop := {
  vs_header : valid_header s;
  vs_Provider : valid_id (cr_Ref (Provider s));
  vs_System : ∃ c, pb_System (Prompt s) = Some c ∧ valid_id (cr_Ref c);
  vs_Tools : refs_valid (Tools s);
  vs_Policies : refs_valid (Policies s);
  vs_PreLLM : refs_valid (fb_PreLLM (Filters s));
  vs_PreTool : refs_valid (fb_PreTool (Filters s));
  vs_PostTool : refs_valid (fb_PostTool (Filters s));
  vs_Budget : optional_valid br_Ref (Budget s);
  vs_Telemetry : optional_valid cr_Ref (Telemetry s);
  vs_Credentials : optional_valid cd_Ref (Credentials s);
  vs_Identity : optional_valid cr_Ref (Identity s);
  vs_Extends : elems (Extends s) = [];
  vs_MCPImports : all_prefixed "mcp." (MCPImports s);
  vs_MCPConfigs : Forall (λ c, valid_mcp_config (cr_Config c)) (elems (MCPImports s));
  vs_MCPIDs : NoDup (mcp_id <$> elems (MCPImports s));
  vs_Skills : all_prefixed "skill." (Skills s);
  vs_OutputContract :
    ∀ c, OutputContract s = Some c → valid_prefixed "outputcontract." (cr_Ref c);
  vs_distinct : NoDup (cr_Ref <$> elems (Tools s));
}.

(** ** The languages of the two header expressions *)

Lemma nonempty_of_plus p s : cat (one p) (many p) s ↔ nonempty_of p s.
Proof.
  rewrite cat_one_many. unfold nonempty_of. split.
  - intros (c & t & -> & Hc & Ht). simpl. by rewrite Hc, Ht.
  - intros [? H]. destruct s as [|c t]; [done|]. simpl in H.
    apply andb_true_iff in H as [? ?]. by exists c, t.
Qed.

Lemma cat_one_is_char d P s : cat (one (is_char d)) P s ↔ ∃ t, s = String d t ∧ P t.
Proof.
  unfold cat. split.
  - intros (? & t & -> & ->%one_is_char & ?). by exists t.
  - intros (t & -> & ?). exists (str1 d), t. by rewrite one_is_char.
Qed.

Lemma dashed_tail_reads p s :
  cat (one (is_char "-"%char)) (cat (one p) (many p)) s ∨ s = "" ↔ dashed_tail p s.
Proof.
  unfold dashed_tail. rewrite cat_one_is_char. setoid_rewrite nonempty_of_plus. naive_solver.
Qed.

Lemma rep_dotted p s :
  rep (cat (one (is_char "."%char)) (cat (one p) (many p))) s ↔
  ∃ segs, s = dotted segs ∧ Forall (nonempty_of p) segs.
Proof.
  split.
  - induction 1 as [|s1 s2 H1 _ (segs & -> & IH)]; [by exists []|].
    apply cat_one_is_char in H1 as (t & -> & Ht%nonempty_of_plus).
    exists (t :: segs). split; [done|by constructor].
  - intros (segs & -> & Hall). induction Hall as [|x segs ? ? IH]; [constructor|].
    apply (rep_cons _ (String "." x) (dotted segs)); [|done].
    apply cat_one_is_char. exists x. by rewrite nonempty_of_plus.
Qed.

Lemma metadataID_spec s : full_match metadataIDRegexp s = true ↔ valid_metadata_id s.
Proof.
  assert (Reads (RStar (RSeq rDot (RPlus (RChar is_alnum_lower)))) (rep (cat
    (one (is_char "."%char)) (cat (one is_alnum_lower) (many is_alnum_lower)))))
    by (apply reads_star; unfold rDot, RPlus; apply _).
  unfold metadataIDRegexp.
  erewrite full_match_reads; [|unfold ROpt; unfold RPlus at 2; apply _].
  unfold valid_metadata_id. split.
  - intros (? & ? & -> & (c & -> & ?) & h & ? & -> & ? & ? & tail & -> & Hs & Ht).
    apply rep_dotted in Hs as (segs & -> & ?). apply dashed_tail_reads in Ht.
    by exists c, h, segs, tail.
  - intros (c & h & segs & tail & -> & ? & ? & ? & ?).
    exists (str1 c), (h +:+ dotted segs +:+ tail). split_and!; [done|by exists c|].
    exists h, (dotted segs +:+ tail). split_and!; [done..|].
    exists (dotted segs), tail. split_and!; [done|apply rep_dotted; eauto|].
    by apply dashed_tail_reads.
Qed.

Lemma semver_spec s : full_match semverRegexp s = true ↔ valid_semver s.
Proof.
  unfold semverRegexp. erewrite full_match_reads; [|unfold rDigits, rDot, ROpt, RPlus; apply _].
  transitivity (cat valid_version (dashed_tail pre_char) s); [|done].
  rewrite (cat_proper _ _ valid_version_lang _ _ (reflexivity _) s).
  do 4 (etransitivity; [|symmetry; apply cat_assoc];
        apply cat_proper; [done|]; intros ?).
  apply cat_proper; [done|]. intros t. apply dashed_tail_reads.
Qed.

(** ** Violations added by a check *)

Definition Adds (e0 e : Errors) (P : Prop) : Prop :=
  ∃ ms, e = errs_app e0 (mkErrors ms []) ∧ (ms = [] ↔ P).

#[export] Instance adds_proper : Proper (eq ==> eq ==> iff ==> iff) Adds.
Proof. intros ? e0 -> ? e -> P Q HPQ. unfold Adds. by setoid_rewrite HPQ. Qed.

Lemma adds_refl e : Adds e e True.
Proof. exists []. split; [|done]. symmetry. apply errs_app_nil_r. Qed.

Lemma adds_Addf e m : Adds e (Addf e m) False.
Proof. exists [m]. split; [|done]. unfold errs_app, Addf. simpl. by rewrite app_nil_r. Qed.

Lemma adds_trans e1 e2 e3 P Q : Adds e1 e2 P → Adds e2 e3 Q → Adds e1 e3 (P ∧ Q).
Proof.
  intros (ms & -> & HP) (ms' & -> & HQ). exists (ms ++ ms').
  unfold errs_app. simpl. rewrite !app_nil_r, (assoc_L (++)), app_nil, HP, HQ. done.
Qed.

Lemma adds_iff e0 e P Q : Adds e0 e P → (P ↔ Q) → Adds e0 e Q.
Proof. intros H <-. done. Qed.

(** A check that is silent when [P] holds and adds one message otherwise. *)
Lemma adds_true e (P : Prop) : P → Adds e e P.
Proof. intros. eapply adds_iff; [apply adds_refl|done]. Qed.
Lemma adds_false e m (P : Prop) : ¬ P → Adds e (Addf e m) P.
Proof. intros. eapply adds_iff; [apply adds_Addf|tauto]. Qed.

Lemma adds_unless e (b : bool) m (P : Prop) :
  (b = true ↔ P) → Adds e (if b then e else Addf e m) P.
Proof. intros Hb. destruct b; [apply adds_true|apply adds_false]; naive_solver. Qed.

Lemma adds_when e (b : bool) m (P : Prop) :
  (b = true ↔ ¬ P) → (b = false → P) → Adds e (if b then Addf e m else e) P.
Proof. intros Hb Hf. destruct b; [apply adds_false|apply adds_true]; naive_solver. Qed.

Lemma adds_range {A} (f : nat → Errors → A → Errors) (P : A → Prop) i l e :
  (∀ i e x, Adds e (f i e x) (P x)) → Adds e (range f i l e) (Forall P l).
Proof.
  intros Hf. revert i e. induction l as [|x l IH]; intros i e; simpl.
  - apply adds_true. constructor.
  - eapply adds_iff; [eapply adds_trans; [apply Hf|apply IH]|].
    by rewrite Forall_cons.
Qed.

Lemma valid_id_not_empty ref : valid_id ref → ref ≠ "".
Proof. by intros (n & v & -> & (c & t & -> & _) & _). Qed.

Lemma validateRef_adds e field ref : Adds e (validateRef e field ref) (valid_id ref).
Proof.
  unfold validateRef. case_bool_decide as Hr.
  - apply adds_false. intros ?%valid_id_not_empty. done.
  - destruct (ParseID ref) eqn:He.
    + apply adds_true, ParseID_is_ok. by rewrite He.
    + apply adds_false. by apply ParseID_Err in He as [? _].
Qed.

Lemma validateKindPrefixedRef_adds e field ref prefix :
  Adds e (validateKindPrefixedRef e field ref prefix) (valid_prefixed prefix ref).
Proof.
  unfold validateKindPrefixedRef, valid_prefixed. case_bool_decide as Hr.
  - apply adds_false. by intros [?%valid_id_not_empty _].
  - destruct (ParseID ref) eqn:He.
    + assert (valid_id ref) by (apply ParseID_is_ok; by rewrite He).
      destruct (HasPrefix ref prefix); simpl; [by apply adds_true|].
      apply adds_false. naive_solver.
    + apply adds_false. apply ParseID_Err in He. naive_solver.
Qed.

Lemma validateRefs_adds e what (l : slice ComponentRef) :
  Adds e (validateRefs what (elems l) e) (refs_valid l).
Proof. apply adds_range. intros. apply validateRef_adds. Qed.

Lemma validatePrefixed_adds e what prefix (l : slice ComponentRef) :
  Adds e (validatePrefixed what prefix (elems l) e) (all_prefixed prefix l).
Proof. apply adds_range. intros. apply validateKindPrefixedRef_adds. Qed.

Lemma validateOptional_adds {T} e (ref : T → string) field o :
  Adds e (validateOptional ref field o e) (optional_valid ref o).
Proof.
  unfold optional_valid. destruct o as [t|]; simpl.
  - eapply adds_iff; [apply validateRef_adds|naive_solver].
  - by apply adds_true.
Qed.

Lemma validatePromptSystem_adds e s :
  Adds e (validatePromptSystem s e) (∃ c, pb_System (Prompt s) = Some c ∧ valid_id (cr_Ref c)).
Proof.
  unfold validatePromptSystem. destruct (pb_System (Prompt s)) as [c|].
  - case_bool_decide as Hc.
    + apply adds_false. intros (? & [= <-] & ?%valid_id_not_empty). done.
    + eapply adds_iff; [apply validateRef_adds|naive_solver].
  - apply adds_false. naive_solver.
Qed.

Lemma validateHeader_adds e s : Adds e (validateHeader s e) (valid_header s).
Proof.
  unfold validateHeader. eapply adds_iff.
  - eapply adds_trans; [eapply adds_trans; [eapply adds_trans|]|]; apply adds_unless;
      rewrite ?bool_decide_eq_true; [done|done|apply metadataID_spec|apply semver_spec].
  - split; [by intros [[[? ?] ?] ?]|by intros []].
Qed.

Lemma bool_decide_eq_not (x y : string) : bool_decide (x = y) = true ↔ ¬ x ≠ y.
Proof. rewrite bool_decide_eq_true. destruct (decide (x = y)); naive_solver. Qed.

Lemma validateMCPConnection_adds e field conn :
  Adds e (validateMCPConnection e field conn) (valid_connection conn).
Proof.
  unfold validateMCPConnection, valid_connection.
  destruct conn as [m|]; simpl; [|apply adds_false; intros [[? ?] _]; done].
  set (conn := Some m). assert (is_Some conn) by done.
  assert (Hlen : ∀ (l : list any), Nat.eqb (length l) 0 = true ↔ ¬ l ≠ []).
  { intros []; simpl; naive_solver. }
  case_bool_decide as Ht; [|case_bool_decide as Ht'].
  - eapply adds_iff; [eapply adds_trans; cycle 1|].
    + apply (adds_when _ _ _ (stringAt conn "url" = "")); case_bool_decide; naive_solver.
    + apply (adds_when _ _ _ (anyListAt conn "command" ≠ [])); [apply Hlen|].
      by destruct (anyListAt conn "command").
    + rewrite Ht. naive_solver.
  - eapply adds_iff; [eapply adds_trans; cycle 1|].
    + apply (adds_when _ _ _ (anyListAt conn "command" = []));
        destruct (anyListAt conn "command"); naive_solver.
    + apply (adds_when _ _ _ (stringAt conn "url" ≠ "")); [apply bool_decide_eq_not|].
      by intros ?%bool_decide_eq_false.
    + rewrite Ht'. naive_solver.
  - apply adds_false. naive_solver.
Qed.

Lemma validateMCPOnNewTool_adds e field v :
  Adds e (validateMCPOnNewTool e field v) (v ∈ "" :: on_new_tool_values).
Proof.
  unfold validateMCPOnNewTool. rewrite elem_of_cons.
  case_bool_decide; [apply adds_true; auto|].
  case_bool_decide; [apply adds_true; auto|apply adds_false; naive_solver].
Qed.

Lemma validateMCPAuth_adds e field auth : Adds e (validateMCPAuth e field auth) (valid_auth auth).
Proof.
  unfold validateMCPAuth, valid_auth.
  destruct auth as [m|]; simpl; [|apply adds_true; intros [? ?]; done].
  set (auth := Some m). assert (is_Some auth) by done.
  eapply adds_iff; [eapply adds_trans; cycle 1|].
  - apply (adds_when _ _ _ (stringAt auth "scheme" = "api-key" → stringAt auth "headerName" ≠ ""));
      rewrite ?andb_true_iff, ?andb_false_iff, ?bool_decide_eq_true, ?bool_decide_eq_false;
      [|naive_solver].
    destruct (decide (stringAt auth "headerName" = "")), (decide (stringAt auth "scheme" = "api-key"));
      naive_solver.
  - eapply adds_trans; cycle 1.
    + apply (adds_when _ _ _ (stringAt auth "scheme" ≠ "")); [apply bool_decide_eq_not|].
      by intros ?%bool_decide_eq_false.
    + apply (adds_when _ _ _ (stringAt auth "credentialRef" ≠ "")); [apply bool_decide_eq_not|].
      by intros ?%bool_decide_eq_false.
  - naive_solver.
Qed.

Lemma validateGlobList_adds e field l :
  Adds e (validateGlobList e field l) (Forall valid_glob l).
Proof.
  apply adds_range. intros i e' v. unfold valid_glob. destruct v; simpl;
    try (apply adds_false; naive_solver).
  apply adds_unless. naive_solver.
Qed.

Record valid_mcp_fields (cfg : config) : Prop := {
  vf_connection : valid_connection (mapAt cfg "connection");
  vf_onNewTool : stringAt cfg "onNewTool" ∈ "" :: on_new_tool_values;
  vf_auth : valid_auth (mapAt cfg "auth");
  vf_allow : Forall valid_glob (anyListAt cfg "allow");
  vf_deny : Forall valid_glob (anyListAt cfg "deny");
}.

Lemma validateMCPFields_adds e field cfg :
  Adds e (validateMCPFields e field cfg) (valid_mcp_fields cfg).
Proof.
  unfold validateMCPFields. eapply adds_iff.
  - do 2 (eapply adds_trans; [|apply validateGlobList_adds]).
    eapply adds_trans; [|apply validateMCPAuth_adds].
    eapply adds_trans; [|apply validateMCPOnNewTool_adds].
    apply validateMCPConnection_adds.
  - split; [by intros [[[[? ?] ?] ?] ?]|by intros []].
Qed.

Lemma valid_mcp_config_fields cfg :
  valid_mcp_config cfg ↔ is_Some cfg ∧ stringAt cfg "id" ≠ "" ∧ valid_mcp_fields cfg.
Proof. split; [by intros []|by intros (? & ? & [])]. Qed.

Lemma validateMCPImportsFrom_adds i seen e l :
  Adds e (validateMCPImportsFrom i seen e l)
    (Forall (λ c, valid_mcp_config (cr_Config c)) l ∧ NoDup (mcp_id <$> l) ∧
     Forall (λ c, seen !! mcp_id c = None) l).
Proof.
  revert i seen e. induction l as [|c l IH]; intros i seen e; cbn [validateMCPImportsFrom].
  { apply adds_true. repeat constructor. }
  rewrite fmap_cons, !Forall_cons, NoDup_cons, valid_mcp_config_fields.
  destruct (cr_Config c) as [m|] eqn:Hc; simpl; cycle 1.
  { eapply adds_iff; [eapply adds_trans; [apply adds_Addf|apply IH]|].
    split; [by intros []|]. by intros (([[? ?] _] & _) & _). }
  assert (Hid : stringAt (Some m) "id" = mcp_id c) by (unfold mcp_id; by rewrite Hc).
  rewrite Hid. case_bool_decide as Hid0.
  { eapply adds_iff; [eapply adds_trans; [eapply adds_trans;
      [apply adds_Addf|apply validateMCPFields_adds]|apply IH]|]. naive_solver. }
  destruct (seen !! mcp_id c) as [prev|] eqn:Hseen.
  { eapply adds_iff; [eapply adds_trans; [eapply adds_trans;
      [apply adds_Addf|apply validateMCPFields_adds]|apply IH]|]. naive_solver. }
  eapply adds_iff; [eapply adds_trans; [apply validateMCPFields_adds|apply IH]|].
  assert (Hins : Forall (λ c', <[mcp_id c := i]> seen !! mcp_id c' = None) l ↔
    Forall (λ c', seen !! mcp_id c' = None) l ∧ mcp_id c ∉ (mcp_id <$> l)).
  { setoid_rewrite lookup_insert_None. rewrite Forall_and, !Forall_forall.
    setoid_rewrite list_elem_of_fmap. naive_solver. }
  rewrite Hins. assert (is_Some (Some m)) by done. tauto.
Qed.

Lemma duplicateToolsFrom_adds i seen e l :
  Adds e (duplicateToolsFrom i seen e l)
    (NoDup (cr_Ref <$> l) ∧ Forall (λ c, seen !! cr_Ref c = None) l).
Proof.
  revert i seen e. induction l as [|c l IH]; intros i seen e; cbn [duplicateToolsFrom].
  { apply adds_true. repeat constructor. }
  rewrite fmap_cons, !Forall_cons, NoDup_cons.
  destruct (seen !! cr_Ref c) as [prev|] eqn:Hseen.
  { eapply adds_iff; [eapply adds_trans; [apply adds_Addf|apply IH]|]. naive_solver. }
  eapply adds_iff; [apply IH|].
  setoid_rewrite lookup_insert_None. rewrite Forall_and, !Forall_forall.
  setoid_rewrite list_elem_of_fmap. naive_solver.
Qed.

Lemma validateErrors_adds s : Adds no_errors (validateErrors s) (valid_spec s).
Proof.
  unfold validateErrors, validateMCPImportsStructure. eapply adds_iff.
  - eapply adds_trans; [|apply duplicateToolsFrom_adds].
    eapply adds_trans; cycle 1.
    { instantiate (1 := ∀ c, OutputContract s = Some c → valid_prefixed "outputcontract." (cr_Ref c)).
      destruct (OutputContract s) as [c|]; [|by apply adds_true].
      eapply adds_iff; [apply validateKindPrefixedRef_adds|naive_solver]. }
    eapply adds_trans; [|apply validatePrefixed_adds].
    eapply adds_trans; [|apply validateMCPImportsFrom_adds].
    eapply adds_trans; [|apply validatePrefixed_adds].
    eapply adds_trans; cycle 1.
    { apply (adds_when _ _ _ (elems (Extends s) = [])); destruct (elems (Extends s)); naive_solver. }
    do 4 (eapply adds_trans; [|apply validateOptional_adds]).
    do 5 (eapply adds_trans; [|apply validateRefs_adds]).
    eapply adds_trans; [|apply validatePromptSystem_adds].
    eapply adds_trans; [|apply validateRef_adds].
    apply validateHeader_adds.
  - split.
    + intros H. decompose [and] H. by constructor.
    + intros []. split_and!; try done; by apply Forall_true.
Qed.

(** ** The index a duplicate is reported against *)

Definition first_index (refs : list string) (r : string) (j : nat) : Prop :=
  refs !! j = Some r ∧ ∀ k, k < j → refs !! k ≠ Some r.

Lemma first_index_app refs rest r j :
  j < length refs → first_index (refs ++ rest) r j ↔ first_index refs r j.
Proof.
  intros Hj. unfold first_index. rewrite lookup_app_l by done.
  split; intros [? H]; (split; [done|]); intros k Hk.
  - rewrite <-(lookup_app_l _ rest) by lia. auto.
  - rewrite lookup_app_l by lia. auto.
Qed.

Lemma first_index_snoc refs r r' j :
  first_index (refs ++ [r']) r j ↔
  first_index refs r j ∨ (j = length refs ∧ r = r' ∧ r ∉ refs).
Proof.
  destruct (decide (j < length refs)) as [Hj|Hj].
  - rewrite first_index_app by done. split; [auto|]. intros [?|[? _]]; [done|lia].
  - split.
    + intros [H1 H2]. right. assert (j < length (refs ++ [r'])) as Hlt by eauto using lookup_lt_Some.
      rewrite length_app in Hlt. simpl in Hlt. assert (j = length refs) as -> by lia.
      rewrite lookup_app_r, Nat.sub_diag in H1 by lia. simpl in H1. split_and!; [done|congruence|].
      intros [k Hk]%list_elem_of_lookup. specialize (H2 k). rewrite lookup_app_l in H2;
        eauto using lookup_lt_Some. apply H2; eauto using lookup_lt_Some.
    + intros [[H%lookup_lt_Some _]|(-> & -> & Hni)]; [lia|]. split.
      * by rewrite lookup_app_r, Nat.sub_diag by lia.
      * intros k Hk Hl. rewrite lookup_app_l in Hl by lia. apply Hni.
        by eapply list_elem_of_lookup_2.
Qed.

(** [seen] maps each ref of [refs] to its first index. *)
Definition indexes (seen : gmap string nat) (refs : list string) : Prop :=
  ∀ r j, seen !! r = Some j ↔ first_index refs r j.

Lemma first_index_exists refs r : r ∈ refs → ∃ j, first_index refs r j.
Proof.
  induction refs as [|x refs IH] using rev_ind; [set_solver|].
  intros Hin. destruct (decide (r ∈ refs)) as [H|H].
  - destruct (IH H) as [j ?]. exists j. apply first_index_snoc. auto.
  - exists (length refs). apply first_index_snoc. set_solver.
Qed.

Lemma indexes_None seen refs r : indexes seen refs → seen !! r = None ↔ r ∉ refs.
Proof.
  intros Hs. split.
  - intros Hr [j Hj]%first_index_exists. apply Hs in Hj. congruence.
  - intros Hr. destruct (seen !! r) as [j|] eqn:Hj; [|done].
    apply Hs in Hj as [? _]. destruct Hr. by eapply list_elem_of_lookup_2.
Qed.

Lemma indexes_keep seen refs r j : indexes seen refs → seen !! r = Some j → indexes seen (refs ++ [r]).
Proof.
  intros Hs Hr r' j'. rewrite first_index_snoc, <-(Hs r' j'). split; [auto|].
  intros [?|(_ & -> & Hni)]; [done|]. apply indexes_None with (seen := seen) in Hni; [|done].
  congruence.
Qed.

Lemma indexes_insert seen refs r :
  indexes seen refs → seen !! r = None → indexes (<[r := length refs]> seen) (refs ++ [r]).
Proof.
  intros Hs Hr r' j'. rewrite first_index_snoc, <-(Hs r' j'), lookup_insert_Some.
  apply (indexes_None _ refs) in Hr as Hni; [|done]. split.
  - intros [[<- <-]|[? ?]]; auto.
  - intros [?|(-> & -> & _)]; [|auto]. right. split; [congruence|done].
Qed.

Definition duplicate_message (i j : nat) (r : string) : fmsg :=
  Sprintf "tools[%d]: duplicate of tools[%d] (ref=%s)" [FN i; FN j; FS r].

(** [m] reports an entry of [l], read after [pre], against its first index. *)
Definition reports_duplicate (pre : list string) (l : list ComponentRef) (m : fmsg) : Prop :=
  ∃ l1 c l2 j, l = l1 ++ c :: l2 ∧ first_index (pre ++ (cr_Ref <$> l1)) (cr_Ref c) j ∧
    m = duplicate_message (length pre + length l1) j (cr_Ref c).

Lemma reports_duplicate_cons pre c l m :
  reports_duplicate pre (c :: l) m ↔
  (∃ j, first_index pre (cr_Ref c) j ∧ m = duplicate_message (length pre) j (cr_Ref c)) ∨
  reports_duplicate (pre ++ [cr_Ref c]) l m.
Proof.
  unfold reports_duplicate. split.
  - intros ([|c0 l1] & c' & l2 & j & [= -> ->] & Hf & ->); csimpl in *.
    + left. exists j. by rewrite app_nil_r in Hf; rewrite Nat.add_0_r.
    + right. exists l1, c', l2, j. rewrite <-(assoc_L (++)), length_app, <-Nat.add_assoc. done.
  - intros [(j & Hf & ->)|(l1 & c' & l2 & j & -> & Hf & ->)].
    + exists [], c, l, j. csimpl. by rewrite app_nil_r, Nat.add_0_r.
    + exists (c :: l1), c', l2, j. csimpl. rewrite <-(assoc_L (++)) in Hf.
      by rewrite length_app, <-Nat.add_assoc.
Qed.

Lemma duplicateToolsFrom_messages pre seen e l m :
  indexes seen pre →
  m ∈ msgs (duplicateToolsFrom (length pre) seen e l) ↔ m ∈ msgs e ∨ reports_duplicate pre l m.
Proof.
  revert pre seen e. induction l as [|c l IH]; intros pre seen e Hs; cbn [duplicateToolsFrom].
  { split; [auto|]. intros [?|([] & ? & ? & ? & ? & _)]; done. }
  assert (Hlen : S (length pre) = length (pre ++ [cr_Ref c])) by (rewrite length_app; simpl; lia).
  rewrite reports_duplicate_cons, Hlen. destruct (seen !! cr_Ref c) as [j|] eqn:Hc.
  - rewrite IH by (by eapply indexes_keep). unfold Addf. simpl.
    rewrite elem_of_app, list_elem_of_singleton. apply Hs in Hc as Hf. split.
    + intros [[?| ->]|?]; eauto.
    + intros [?|[(j' & Hj'%Hs & ->)|?]]; auto. left. right.
      by rewrite Hc in Hj'; injection Hj' as <-.
  - rewrite IH by (by apply indexes_insert). split; [naive_solver|].
    intros [?|[(j' & Hj'%Hs & ->)|?]]; auto. congruence.
Qed.

(** ** Properties *)

(** What the later stages need of a validated spec: a system prompt. *)
Lemma Validate_system s : Validate s = None → is_Some (pb_System (Prompt s)).
Proof.
  unfold Validate. destruct (validateErrors_adds s) as (ms & Hms & HP). rewrite OrNil_None, Hms.
  intros Hn%HP. destruct (vs_System _ Hn) as (c & -> & _). by eexists.
Qed.

(** C7: Validate accepts a spec exactly when every rule holds at once: the
    fixed header, the two header languages, well-formed references, required
    and prefixed references, the structure of each MCP import, distinct import
    ids and tool references, and an empty extends list. *)
Theorem Validate_accepts_iff s : Validate s = None ↔ valid_spec s.
Proof.
  unfold Validate. destruct (validateErrors_adds s) as (ms & Hms & HP).
  by rewrite OrNil_None, Hms, <-HP.
Qed.

(** the error of Validate is one aggregate of all violations, it carries no
    other sentinel than ErrValidation, and the violations of one spec are never
    empty. *)
Theorem Validate_error_aggregates s e :
  Validate s = Some e →
  ¬ valid_spec s ∧ (∃ ms, ms ≠ [] ∧ e = ESpec ms []) ∧
  ∀ t, errors_is e t = true ↔ t = SpecErr ErrValidation.
Proof.
  intros He. destruct (validateErrors_adds s) as (ms & Hms & HP).
  apply OrNil_Some in He as [Hne ->]. rewrite Hms in Hne |- *. simpl in *.
  split_and!; [by rewrite <-HP|by exists ms|].
  intros t. simpl. case_bool_decide; naive_solver.
Qed.

Definition bad_tools : AgentSpec :=
  mkAgentSpec expectedAPIVersion expectedKind
    (mkMetadata "acme.demo" "1.0.0" "" "" None None)
    (mkComponentRef "provider.fake@1.0.0" None)
    (mkPromptBlock (Some (mkComponentRef "prompt.sys@1.0.0" None)) None)
    (Some [mkComponentRef "toolpack.a@1.0.0" None; mkComponentRef "toolpack.b@1.0.0" None;
           mkComponentRef "toolpack.a@1.0.0" None]) None
    (mkFilterBlock None None None) None None None None None None None None.

Example Validate_error_aggregates_witness :
  ∃ e, Validate bad_tools = Some e ∧
    ∀ t, errors_is e t = true ↔ t = SpecErr ErrValidation.
Proof.
  eexists. split; [vm_compute; reflexivity|].
  apply (Validate_error_aggregates bad_tools). vm_compute. reflexivity.
Defined.

(** the duplicate check reports every tool entry that repeats an earlier
    ref, and only those, each against the first entry with that ref. *)
Theorem duplicate_tools_reported_at_first_use tools m :
  m ∈ msgs (duplicateToolsFrom 0 ∅ no_errors tools) ↔
  ∃ l1 c l2 j, tools = l1 ++ c :: l2 ∧
    (cr_Ref <$> l1) !! j = Some (cr_Ref c) ∧ (∀ k, k < j → (cr_Ref <$> l1) !! k ≠ Some (cr_Ref c)) ∧
    m = duplicate_message (length l1) j (cr_Ref c).
Proof.
  assert (Hs : indexes ∅ []).
  { intros r j. rewrite lookup_empty. split; [done|]. by intros [? _]. }
  rewrite (duplicateToolsFrom_messages []) by done. unfold reports_duplicate, first_index.
  simpl. rewrite elem_of_nil. naive_solver.
Qed.
