(* ===== verification/Normalize.v ===== *)
(** [Normalize] (spec/normalize.go), the locked-field scan (spec/locked.go) and
    the provenance accessors (spec/provenance.go). *)

From S2P Require Import Prelude GoStrings Errors Values Types Ids Merge Extends Validate.
From stdpp Require Import options.

(** ** spec/locked.go *)

Definition lockedMsg (field : string) (idx : nat) (name got base : string) : fmsg :=
  if negb (bool_decide (name = "")) then
    Sprintf "%s: locked, overlay #%d (%s) set %q (base = %q)"
      [FS field; FN idx; FS name; FS got; FS base]
  else Sprintf "%s: locked, overlay #%d set %q (base = %q)" [FS field; FN idx; FS got; FS base].

(** [if got != "" && got != base { errs.Wrap(ErrLockedFieldOverride, ...) }]. *)
Definition scanField (field : string) (i : nat) (name got base : string) (errs : Errors) : Errors :=
  if (negb (bool_decide (got = "")) && negb (bool_decide (got = base)))%bool
  then Wrap errs (ESentinel ErrLockedFieldOverride) (lockedMsg field i name got base)
  else errs.

Definition scanOverlay (base : AgentSpec) (i : nat) (ov : AgentOverlay) (errs : Errors) : Errors :=
  let errs := scanField "apiVersion" i (ov_Name ov) (ov_APIVersion ov) (APIVersion base) errs in
  match ob_Metadata (ov_Spec ov) with
  | None => errs
  | Some m =>
    let errs := scanField "metadata.id" i (ov_Name ov) (om_ID m) (md_ID (Meta base)) errs in
    scanField "metadata.version" i (ov_Name ov) (om_Version m) (md_Version (Meta base)) errs
  end.

Definition scanLockedDrift (base : AgentSpec) (overlays : list (option AgentOverlay))
    (errs : Errors) : Errors :=
  range (λ i errs o, match o with None => errs | Some ov => scanOverlay base i ov errs end)
    0 overlays errs.

(** ** spec/provenance.go *)

Definition Role_String (r : Role) : string :=
  match r with RoleBase => "base" | RoleParent => "parent" | RoleOverlay => "overlay" end.

Definition describe (p : Provenance) : fmsg :=
  match pv_Role p with
  | RoleBase => Sprintf "base" []
  | RoleParent =>
    if negb (bool_decide (pv_File p = "")) then
      Sprintf "%s #%d at %s:%d" [FS "parent"; FD (pv_Step p); FS (pv_File p); FD (pv_Line p)]
    else Sprintf "%s #%d" [FS "parent"; FD (pv_Step p)]
  | RoleOverlay =>
    if negb (bool_decide (pv_File p = "")) then
      Sprintf "%s #%d at %s:%d" [FS "overlay"; FD (pv_Step p); FS (pv_File p); FD (pv_Line p)]
    else Sprintf "%s #%d" [FS "overlay"; FD (pv_Step p)]
  end.

(** The part of the path before the first dot. *)
Fixpoint top_of (fieldPath : string) : string :=
  match fieldPath with
  | "" => ""
  | String c rest => if is_char "."%char c then "" else String c (top_of rest)
  end.

(** The switch of [Provenance] and of [setFieldProvenance]. *)
Definition field_table : list (string * (provenanceFields → Provenance)) :=
  [("apiVersion", pf_APIVersion); ("kind", pf_Kind); ("metadata", pf_Metadata);
   ("provider", pf_Provider); ("prompt", pf_Prompt); ("tools", pf_Tools);
   ("policies", pf_Policies); ("filters", pf_Filters); ("budget", pf_Budget);
   ("telemetry", pf_Telemetry); ("credentials", pf_Credentials); ("identity", pf_Identity)].

Definition zeroProvenance : Provenance := mkProvenance "" 0 RoleBase 0.

Definition NormalizedSpec_Provenance (n : NormalizedSpec) (fieldPath : string) : Provenance * bool :=
  match assoc (top_of fieldPath) field_table with
  | Some get => (get (ns_fields n), true)
  | None => (zeroProvenance, false)
  end.

(** The assignment the switch of [setFieldProvenance] makes, by the field's name. *)
Definition set_field (field : string) (p : Provenance) (f : provenanceFields) : provenanceFields :=
  {| pf_APIVersion := if bool_decide (field = "apiVersion") then p else pf_APIVersion f;
     pf_Kind := if bool_decide (field = "kind") then p else pf_Kind f;
     pf_Metadata := if bool_decide (field = "metadata") then p else pf_Metadata f;
     pf_Provider := if bool_decide (field = "provider") then p else pf_Provider f;
     pf_Prompt := if bool_decide (field = "prompt") then p else pf_Prompt f;
     pf_Tools := if bool_decide (field = "tools") then p else pf_Tools f;
     pf_Policies := if bool_decide (field = "policies") then p else pf_Policies f;
     pf_Filters := if bool_decide (field = "filters") then p else pf_Filters f;
     pf_Budget := if bool_decide (field = "budget") then p else pf_Budget f;
     pf_Telemetry := if bool_decide (field = "telemetry") then p else pf_Telemetry f;
     pf_Credentials := if bool_decide (field = "credentials") then p else pf_Credentials f;
     pf_Identity := if bool_decide (field = "identity") then p else pf_Identity f;
     pf_Skills := pf_Skills f;
     pf_OutputContract := pf_OutputContract f;
     pf_MCPImports := pf_MCPImports f |}.

Definition setFieldProvenance (field : string) (p : Provenance) (n : NormalizedSpec)
    : res error NormalizedSpec :=
  match assoc field field_table with
  | Some _ => Ok (mkNormalizedSpec (ns_Spec n) (ns_ExtendsChain n) (ns_Overlays n) (set_field field p (ns_fields n)))
  | None => Err (EPanic ("setFieldProvenance: unknown field " +:+ field))
  end.

(** ** Normalize *)

Definition attribution (ov : AgentOverlay) : OverlayAttribution :=
  mkOverlayAttribution (ov_Name ov) (ov_File ov).

Definition attributions (overlays : list (option AgentOverlay)) : list OverlayAttribution :=
  omap (λ o, attribution <$> o) overlays.

Definition Normalize (ctx : context) (s : AgentSpec) (overlays : list (option AgentOverlay))
    (store : option SpecStore) : res error NormalizedSpec :=
  '(parents, chain) ← resolveExtendsChain ctx s store;
  st ← applyOverlays (mergeChain parents s) overlays;
  match Validate st.1 with
  | Some err => Err err
  | None =>
    match OrNil (scanLockedDrift s overlays no_errors) with
    | Some err => Err err
    | None => Ok (mkNormalizedSpec st.1 chain (attributions overlays) st.2)
    end
  end.

(** ** Provenance accessors *)

Lemma field_table_set field p f get :
  assoc field field_table = Some get → get (set_field field p f) = p.
Proof.
  unfold field_table. simpl. repeat case_decide; subst; intros [= <-]; reflexivity.
Qed.

Lemma field_table_keep field field' p f get :
  field ≠ field' → assoc field' field_table = Some get → get (set_field field p f) = get f.
Proof.
  unfold field_table. simpl. intros Hne.
  repeat case_decide; subst; intros [= <-]; simpl; by rewrite bool_decide_false.
Qed.

(** What is recorded for a field is what the accessor gives for it and for every path
    below it, and nothing else changes; a name the accessor does not know is a panic,
    so skills, outputContract and mcpImports, which the merge records, are not
    reachable through the accessor. *)
Theorem provenance_roundtrip field p n path :
  match setFieldProvenance field p n with
  | Ok n' =>
    NormalizedSpec_Provenance n' path =
      (if decide (top_of path = field) then (p, true) else NormalizedSpec_Provenance n path) ∧
    ns_Spec n' = ns_Spec n
  | Err e => e = EPanic ("setFieldProvenance: unknown field " +:+ field) ∧ field ∉ field_table.*1
  end.
Proof.
  unfold setFieldProvenance. destruct (assoc field field_table) as [g|] eqn:Hg; [|by apply assoc_None in Hg].
  split; [|done]. unfold NormalizedSpec_Provenance. case_decide as Hp.
  - rewrite Hp, Hg. simpl. by rewrite (field_table_set _ _ _ _ Hg).
  - destruct (assoc (top_of path) field_table) as [g'|] eqn:Hg'; [|done]. simpl.
    by rewrite (field_table_keep _ _ _ _ _ (not_eq_sym Hp) Hg').
Qed.

(** ** Locked drift *)

Definition locked : error := ESentinel ErrLockedFieldOverride.

(** [e] is [e0] followed by wrapped violations, none exactly when [P] holds. *)
Definition Wraps (e0 e : Errors) (P : Prop) : Prop :=
  ∃ ms, e = errs_app e0 (mkErrors ms (replicate (length ms) locked)) ∧ (ms = [] ↔ P).

#[export] Instance wraps_proper : Proper (eq ==> eq ==> iff ==> iff) Wraps.
Proof. intros ? e0 -> ? e -> P Q HPQ. unfold Wraps. by setoid_rewrite HPQ. Qed.

Lemma wraps_iff e0 e P Q : Wraps e0 e P → (P ↔ Q) → Wraps e0 e Q.
Proof. intros H <-. done. Qed.

Lemma wraps_refl e (P : Prop) : P → Wraps e e P.
Proof. exists []. split; [symmetry; apply errs_app_nil_r|done]. Qed.

Lemma wraps_trans e1 e2 e3 P Q : Wraps e1 e2 P → Wraps e2 e3 Q → Wraps e1 e3 (P ∧ Q).
Proof.
  intros (ms & -> & HP) (ms' & -> & HQ). exists (ms ++ ms').
  unfold errs_app. simpl. rewrite length_app, replicate_add, !(assoc_L (++)), app_nil, HP, HQ. done.
Qed.

Lemma wraps_range {A} (f : nat → Errors → A → Errors) (P : A → Prop) i l e :
  (∀ i e x, Wraps e (f i e x) (P x)) → Wraps e (range f i l e) (Forall P l).
Proof.
  intros Hf. revert i e. induction l as [|x l IH]; intros i e; simpl.
  - apply wraps_refl. constructor.
  - rewrite Forall_cons. by eapply wraps_trans.
Qed.

(** An overlay agrees with the base on a locked field when it does not set it
    or sets it to the base's value. *)
Definition agrees_on (got base : string) : Prop := got = "" ∨ got = base.

Definition agrees (base : AgentSpec) (o : option AgentOverlay) : Prop :=
  match o with
  | None => True
  | Some ov =>
    agrees_on (ov_APIVersion ov) (APIVersion base) ∧
    agrees_on (overlay_scalar om_ID (ov_Spec ov)) (md_ID (Meta base)) ∧
    agrees_on (overlay_scalar om_Version (ov_Spec ov)) (md_Version (Meta base))
  end.

Lemma scanField_wraps field i name got base e :
  Wraps e (scanField field i name got base e) (agrees_on got base).
Proof.
  unfold scanField, agrees_on. case_bool_decide; [apply wraps_refl; auto|].
  case_bool_decide; [apply wraps_refl; auto|]. simpl.
  exists [lockedMsg field i name got base]. split; [done|]. naive_solver.
Qed.

Lemma scanLockedDrift_wraps base overlays e :
  Wraps e (scanLockedDrift base overlays e) (Forall (agrees base) overlays).
Proof.
  apply wraps_range. intros i e' [ov|]; [|by apply wraps_refl].
  unfold scanOverlay, agrees, overlay_scalar.
  destruct (ob_Metadata (ov_Spec ov)) as [m|]; simpl.
  - eapply wraps_iff; [do 2 (eapply wraps_trans; [|apply scanField_wraps]);
      apply scanField_wraps|tauto].
  - eapply wraps_iff; [apply scanField_wraps|]. unfold agrees_on. tauto.
Qed.

Lemma scan_None base overlays :
  OrNil (scanLockedDrift base overlays no_errors) = None ↔ Forall (agrees base) overlays.
Proof.
  destruct (scanLockedDrift_wraps base overlays no_errors) as (ms & Hms & HP).
  by rewrite OrNil_None, Hms, <-HP.
Qed.

(** ** Normalize as the composition of its stages *)

Record normalizes (ctx : context) (s : AgentSpec) (overlays : list (option AgentOverlay))
    (store : option SpecStore) (parents : list AgentSpec) (n : NormalizedSpec) : Prop := {
  nz_resolved : resolveExtendsChain ctx s store = Ok (parents, ns_ExtendsChain n);
  nz_merged : (ns_Spec n, ns_fields n) =
    run_overlays (mergeChain parents s) (overlay_layers 0 overlays);
  nz_limit : length overlays ≤ MaxOverlayCount;
  nz_valid : valid_spec (ns_Spec n);
  nz_agrees : Forall (agrees s) overlays;
  nz_attributed : ns_Overlays n = attributions overlays;
}.

Lemma Validate_None s : Validate s = None ↔ valid_spec s.
Proof.
  unfold Validate. destruct (validateErrors_adds s) as (ms & Hms & HP).
  by rewrite OrNil_None, Hms, <-HP.
Qed.

Lemma Normalize_Ok ctx s overlays store n :
  Normalize ctx s overlays store = Ok n ↔ ∃ parents, normalizes ctx s overlays store parents n.
Proof.
  unfold Normalize. split.
  - intros H. apply bind_Ok in H as ([parents chain] & Hr & H).
    apply bind_Ok in H as ([s' f] & Ho & H). simpl in H.
    destruct (Validate s') eqn:Hv; [done|].
    destruct (OrNil _) eqn:Hs; [done|]. injection H as <-.
    apply applyOverlays_Ok in Ho as [Hl Ho].
    exists parents. split; simpl; auto.
    + by apply Validate_None.
    + by apply scan_None.
  - intros (parents & [Hr Hm Hl Hv Ha Hat]). rewrite Hr. simpl.
    rewrite (proj2 (applyOverlays_Ok _ _ (ns_Spec n, ns_fields n)) (conj Hl Hm)). simpl.
    rewrite (proj2 (Validate_None _) Hv), (proj2 (scan_None _ _) Ha), <-Hat. by destruct n.
Qed.

(** A field the base sets and no overlay sets comes from the base. *)
Lemma mergeChain_base {V} (get : AgentSpec → V) sets parents base `{!Replaced get sets} :
  sets base = true → get (mergeChain parents base).1 = get base.
Proof.
  intros Hs. rewrite mergeChain_run. simpl. rewrite (replaced_clear (sets := sets)) by apply _.
  rewrite (run_layers_value get sets) by apply _. unfold layers.
  rewrite last_such_snoc. unfold layer_sets. simpl. by rewrite Hs.
Qed.

(** Overlays that agree with the base leave a locked scalar as it was, once the
    base sets it. *)
Lemma run_overlays_locked (get : AgentSpec → string) (oget : AgentOverlayBody → string) st overlays
    `{!Overlaid get (λ b, nonempty (oget b)) oget} idx :
  Forall (λ o, from_option (λ ov, agrees_on (oget (ov_Spec ov)) (get st.1)) True o) overlays →
  get (run_overlays st (overlay_layers idx overlays)).1 = get st.1.
Proof.
  intros Hall. rewrite (run_overlays_value get (λ b, nonempty (oget b)) oget) by apply _.
  destruct (last_such _ _) as [[b p]|] eqn:Hl; [|done]. simpl.
  unfold last_such in Hl. apply last_Some_elem_of, list_elem_of_filter in Hl as [Hset Hin].
  revert idx Hin. induction Hall as [|o l Ho _ IH]; intros idx Hin; simpl in Hin; [set_solver|].
  destruct o as [ov|]; [|eauto].
  apply elem_of_cons in Hin as [Heq|Hin]; [|eauto]. injection Heq as -> ->.
  unfold overlay_sets in Hset. simpl in Hset, Ho. apply nonempty_true in Hset.
  destruct Ho as [Ho|Ho]; [done|by rewrite Ho].
Qed.

(** A valid spec with no chain is its own merge. *)
Lemma mergeMetadata_zero m : mergeMetadata zeroMetadata m = m.
Proof.
  destruct m as [i v d ds o l]. unfold mergeMetadata, scalarString, mapStringStringReplace.
  simpl. f_equal.
  - destruct (nonempty i) eqn:H; [done|by apply nonempty_false in H].
  - destruct (nonempty v) eqn:H; [done|by apply nonempty_false in H].
  - destruct (nonempty d) eqn:H; [done|by apply nonempty_false in H].
  - destruct (nonempty ds) eqn:H; [done|by apply nonempty_false in H].
  - by destruct o.
  - by destruct l.
Qed.

Lemma valid_metadata_id_not_empty i : valid_metadata_id i → i ≠ "".
Proof. by intros (c & h & segs & tail & -> & _). Qed.

Lemma if_is_set {A} (o : option A) : (if is_set o then o else None) = o.
Proof. by destruct o. Qed.

Lemma if_nonempty s : (if nonempty s then s else "") = s.
Proof. destruct (nonempty s) eqn:H; [done|by apply nonempty_false in H]. Qed.

Lemma if_same {A} (b : bool) (x : A) : (if b then x else x) = x.
Proof. by destruct b. Qed.

Lemma mergeChain_nil s :
  valid_spec s → Extends s = None → mergeChain [] s = (s, initialProvenance).
Proof.
  intros Hv He. unfold mergeChain, mergeOne, clear_Extends, initialProvenance. simpl.
  assert (sets_Metadata s = true) as ->.
  { unfold sets_Metadata. apply negb_true_iff. destruct (isZeroMetadata (Meta s)) eqn:Hz; [|done].
    apply isZeroMetadata_spec in Hz as [Hid _]. destruct Hv as [[_ _ Hid' _] _].
    by apply valid_metadata_id_not_empty in Hid'. }
  assert (sets_Provider s = true) as ->.
  { apply nonempty_true, valid_id_not_empty. by destruct Hv. }
  assert (sets_Prompt s = true) as ->.
  { destruct Hv as [_ _ (c & Hc & _)]. unfold sets_Prompt. by rewrite Hc. }
  rewrite mergeMetadata_zero, !if_is_set, !if_nonempty, !if_same.
  destruct s as [a k m pr pm t po [f1 f2 f3] b te cr id ex sk mi oc]. simpl in *. subst ex.
  unfold sets_Filters. simpl. by destruct f1, f2, f3.
Qed.

Lemma Normalize_own ctx s store :
  valid_spec s → Extends s = None →
  Normalize ctx s [] store = Ok (mkNormalizedSpec s [] [] initialProvenance).
Proof.
  intros Hv He. apply Normalize_Ok. exists []. split; simpl; auto using le_0_n.
  - unfold resolveExtendsChain. by rewrite He.
  - by rewrite mergeChain_nil.
Qed.

Lemma normalizes_Extends ctx s overlays store parents n :
  normalizes ctx s overlays store parents n → Extends (ns_Spec n) = None.
Proof.
  intros [_ Hm _ _ _ _].
  assert (He : Extends (ns_Spec n, ns_fields n).1 = None); [|done].
  rewrite Hm, (run_overlays_keeps Extends (λ _, None)) by apply _. done.
Qed.

Lemma attributions_in_order overlays :
  attributions overlays =
  (λ ov, mkOverlayAttribution (ov_Name ov) (ov_File ov)) <$> omap id overlays.
Proof. induction overlays as [|[ov|] l IH]; [done| |done]. csimpl. by f_equal. Qed.

(** ** Properties *)

(** C2: what Normalize promises of its result: the merged spec passes every rule
    of Validate, its extends list is cleared and the resolved chain is recorded
    instead, and the overlays (at most sixteen) are attributed by name and file, one
    by one, in the order they were given, nil overlays left out. *)
Theorem Normalize_result ctx s overlays store n :
  Normalize ctx s overlays store = Ok n →
  valid_spec (ns_Spec n) ∧ Extends (ns_Spec n) = None ∧
  (∃ parents, resolveExtendsChain ctx s store = Ok (parents, ns_ExtendsChain n)) ∧
  ns_Overlays n =
    (λ ov, mkOverlayAttribution (ov_Name ov) (ov_File ov)) <$> omap id overlays ∧
  length overlays ≤ MaxOverlayCount.
Proof.
  intros [parents Hn]%Normalize_Ok. apply normalizes_Extends in Hn as He.
  destruct Hn as [? _ ? ? _ Ha]. rewrite Ha, attributions_in_order. eauto 10.
Qed.

Definition demo_base (extends : slice string) : AgentSpec :=
  mkAgentSpec expectedAPIVersion expectedKind
    (mkMetadata "acme.demo" "1.0.0" "" "" None None)
    (mkComponentRef "provider.fake@1.0.0" None)
    (mkPromptBlock (Some (mkComponentRef "prompt.sys@1.0.0" None)) None)
    None None (mkFilterBlock None None None) None None None None extends None None None.

Definition demo_parent : AgentSpec :=
  mkAgentSpec expectedAPIVersion expectedKind
    (mkMetadata "acme.base" "2.0.0" "Base" "" None None)
    (mkComponentRef "provider.other@1.0.0" None)
    (mkPromptBlock (Some (mkComponentRef "prompt.other@1.0.0" None)) None)
    (Some [mkComponentRef "toolpack.a@1.0.0" None]) None (mkFilterBlock None None None)
    None None None None None None None None.

Definition demo_store : SpecStore := MapSpecStore {["acme.base@2.0.0" := Some demo_parent]}.

Definition demo_overlay (id : string) (tools : RefList) : AgentOverlay :=
  mkAgentOverlay "forge.praxis-os.dev/v0" "AgentOverlay" "prod"
    (mkAgentOverlayBody (Some (mkOverlayMetadata id "" "Demo" "" None None)) None None
       tools zeroRefList None None None None None) "prod.yaml".

Definition demo_overlays : list (option AgentOverlay) :=
  [None; Some (demo_overlay "acme.demo"
     (mkRefList true (Some [mkComponentRef "toolpack.b@1.0.0" None]) 9))].

Definition demo_normalized : NormalizedSpec :=
  match Normalize Background (demo_base (Some ["acme.base@2.0.0"])) demo_overlays (Some demo_store) with
  | Ok n => n
  | Err _ => mkNormalizedSpec zeroAgentSpec [] [] initialProvenance
  end.

Lemma demo_normalizes :
  Normalize Background (demo_base (Some ["acme.base@2.0.0"])) demo_overlays (Some demo_store) =
  Ok demo_normalized.
Proof. vm_compute. reflexivity. Qed.

(** Two overlays, with a nil one before them and one between. *)
Definition attributed_overlays : list (option AgentOverlay) :=
  [None; Some (tools_overlay (mkRefList true (Some []) 7)); None;
   Some (demo_overlay "acme.demo" zeroRefList);
   Some (mkAgentOverlay "" "" "dev" zeroBody "dev.yaml")].

Example Normalize_result_witness :
  ∃ n, Normalize Background (demo_base (Some ["acme.base@2.0.0"])) attributed_overlays
         (Some demo_store) = Ok n ∧
    valid_spec (ns_Spec n) ∧ Extends (ns_Spec n) = None ∧
    ns_Overlays n = [mkOverlayAttribution "prod" "prod.yaml"; mkOverlayAttribution "prod" "prod.yaml";
                     mkOverlayAttribution "dev" "dev.yaml"].
Proof.
  eexists. split; [vm_compute; reflexivity|].
  edestruct (Normalize_result Background (demo_base (Some ["acme.base@2.0.0"])) attributed_overlays
    (Some demo_store)) as (Hv & He & _ & Ho & _); [vm_compute; reflexivity|].
  split; [exact Hv|]. split; [exact He|exact Ho].
Defined.

(** C17: composition never rebrands an agent: whatever the chain and the overlays
    set, the API version, the kind, the id and the version of the result are the
    base's own wherever the base sets them. *)
Theorem Normalize_keeps_identity ctx s overlays store n :
  Normalize ctx s overlays store = Ok n →
  (APIVersion s ≠ "" → APIVersion (ns_Spec n) = APIVersion s) ∧
  (Kind s ≠ "" → Kind (ns_Spec n) = Kind s) ∧
  (md_ID (Meta s) ≠ "" → md_ID (Meta (ns_Spec n)) = md_ID (Meta s)) ∧
  (md_Version (Meta s) ≠ "" → md_Version (Meta (ns_Spec n)) = md_Version (Meta s)).
Proof.
  intros [parents [_ Hm _ _ Ha _]]%Normalize_Ok.
  change (ns_Spec n) with (ns_Spec n, ns_fields n).1. rewrite Hm.
  split_and!; intros Hne%nonempty_true.
  - rewrite (run_overlays_keeps APIVersion (λ _, "")) by apply _.
    by apply (mergeChain_base APIVersion (λ c, nonempty (APIVersion c))); [apply _|].
  - rewrite (run_overlays_keeps Kind (λ _, "")) by apply _.
    by apply (mergeChain_base Kind (λ c, nonempty (Kind c))); [apply _|].
  - pose proof (mergeChain_base (λ s, md_ID (Meta s)) _ parents s Hne) as Hb. simpl in Hb.
    rewrite <-Hb. apply (run_overlays_locked (λ s, md_ID (Meta s)) (overlay_scalar om_ID)); [apply _|].
    simpl. rewrite Hb. eapply Forall_impl; [exact Ha|]. intros [ov|]; simpl; tauto.
  - pose proof (mergeChain_base (λ s, md_Version (Meta s)) _ parents s Hne) as Hb. simpl in Hb.
    rewrite <-Hb.
    apply (run_overlays_locked (λ s, md_Version (Meta s)) (overlay_scalar om_Version)); [apply _|].
    simpl. rewrite Hb. eapply Forall_impl; [exact Ha|]. intros [ov|]; simpl; tauto.
Qed.

Example Normalize_keeps_identity_witness :
  md_ID (Meta (ns_Spec demo_normalized)) = "acme.demo".
Proof.
  destruct (Normalize_keeps_identity _ _ _ _ _ demo_normalizes) as (_ & _ & Hid & _).
  apply Hid. vm_compute. discriminate.
Defined.

(** a valid stand-alone spec normalises to itself, with every field
    attributed to the base. *)
Theorem Normalize_standalone ctx s store :
  valid_spec s → Extends s = None →
  Normalize ctx s [] store = Ok (mkNormalizedSpec s [] [] initialProvenance).
Proof. apply Normalize_own. Qed.

Lemma demo_base_valid : valid_spec (demo_base None).
Proof. apply Validate_None. vm_compute. reflexivity. Qed.

Example Normalize_standalone_witness :
  Normalize Background (demo_base None) [] None =
  Ok (mkNormalizedSpec (demo_base None) [] [] initialProvenance).
Proof. apply Normalize_standalone; [exact demo_base_valid|reflexivity]. Defined.

(** normalisation is idempotent: the spec of any result normalises, with no
    store at all, to the same spec. *)
Theorem Normalize_idempotent ctx ctx' s overlays store store' n :
  Normalize ctx s overlays store = Ok n →
  Normalize ctx' (ns_Spec n) [] store' =
  Ok (mkNormalizedSpec (ns_Spec n) [] [] initialProvenance).
Proof.
  intros [parents Hn]%Normalize_Ok. apply normalizes_Extends in Hn as He.
  apply Normalize_own; [by destruct Hn|done].
Qed.

Example Normalize_idempotent_witness :
  Normalize Background (ns_Spec demo_normalized) [] None =
  Ok (mkNormalizedSpec (ns_Spec demo_normalized) [] [] initialProvenance).
Proof. exact (Normalize_idempotent Background Background _ _ _ None _ demo_normalizes). Defined.

(** C31: an overlay that drifts on a locked field is always refused: when the
    chain resolves and the composed spec is otherwise valid, Normalize fails with
    an aggregate that matches ErrLockedFieldOverride and ErrValidation, exactly
    when some overlay sets the API version, the id or the version to another value
    than the base's. *)
Theorem Normalize_refuses_locked_drift ctx s overlays store parents chain :
  resolveExtendsChain ctx s store = Ok (parents, chain) →
  length overlays ≤ MaxOverlayCount →
  valid_spec (run_overlays (mergeChain parents s) (overlay_layers 0 overlays)).1 →
  (¬ Forall (agrees s) overlays ↔
   ∃ e, Normalize ctx s overlays store = Err e ∧
     errors_is e ErrLockedFieldOverride = true ∧ errors_is e ErrValidation = true).
Proof.
  intros Hr Hl Hv. unfold Normalize. rewrite Hr. simpl.
  rewrite (proj2 (applyOverlays_Ok _ _ _) (conj Hl eq_refl)). simpl.
  rewrite (proj2 (Validate_None _) Hv), <-scan_None.
  destruct (OrNil _) as [e|] eqn:He; [|naive_solver].
  split; [|done]. intros _. exists e. split; [done|].
  apply OrNil_Some in He as [Hne ->].
  destruct (scanLockedDrift_wraps s overlays no_errors) as (ms & Hms & _).
  rewrite Hms in Hne |- *. simpl in *. by destruct ms.
Qed.

Example Normalize_refuses_locked_drift_witness :
  ∃ e, Normalize Background (demo_base None) [Some (demo_overlay "acme.other" zeroRefList)] None
         = Err e ∧
    errors_is e ErrLockedFieldOverride = true ∧ errors_is e ErrValidation = true.
Proof.
  apply (Normalize_refuses_locked_drift Background (demo_base None)
    [Some (demo_overlay "acme.other" zeroRefList)] None [] []).
  - reflexivity.
  - vm_compute. lia.
  - apply Validate_None. vm_compute. reflexivity.
  - rewrite Forall_singleton. intros (_ & Hid & _). destruct Hid as [Hid|Hid];
      vm_compute in Hid; discriminate.
Defined.
