(* ===== verification/LastWriter.v ===== *)
(** What spec.Normalize composes, said field by field without the merge code: the
    writers of a spec, the strongest first, and for every field the first of them
    that says something about it.

    The definitions here are a specification; the merge itself (mergeOne, applyOne
    and their loops) is in [Merge], its composition in [Normalize]. *)

From S2P Require Import Prelude GoStrings Errors Values Types Ids Merge Extends Validate Normalize.
From stdpp Require Import options.

(** ** The writers of a spec *)

(** The overlays, the last one first, each with its file and its index; a nil
    overlay writes nothing but keeps its index. *)
Definition overlay_writers (overlays : list (option AgentOverlay))
    : list (AgentOverlayBody * Provenance) :=
  reverse (omap id (imap (λ i o,
    (λ ov, (ov_Spec ov, mkProvenance (ov_File ov) 0 RoleOverlay (Z.of_nat i))) <$> o) overlays)).

(** The provenance of what a writer writes at a given line. *)
Definition at_line (p : Provenance) (line : Z) : Provenance :=
  mkProvenance (pv_File p) line (pv_Role p) (pv_Step p).

(** The spec itself, and then its ancestors, the nearest first and numbered from
    one. *)
Definition layer_writers (parents : list AgentSpec) (s : AgentSpec)
    : list (AgentSpec * Provenance) :=
  (s, mkProvenance "" 0 RoleBase 0) ::
  imap (λ k parent, (parent, mkProvenance "" 0 RoleParent (Z.of_nat (S k)))) (reverse parents).

(** ** What a writer says *)

Definition said (text : string) : option string := if decide (text = "") then None else Some text.
Definition given {A} (value : option A) : option (option A) :=
  match value with Some _ => Some value | None => None end.
Definition once (P : Prop) `{!Decision P} {A} (x : A) : option A :=
  if decide P then Some x else None.

(** A layer mentions its metadata when one of the scalars is not empty or one of
    the collections has an element, its prompt when it has one of the two parts,
    and its filters when one of the three lists is not nil. *)
Definition mentions_metadata (m : Metadata) : Prop :=
  ¬ (md_ID m = "" ∧ md_Version m = "" ∧ md_DisplayName m = "" ∧ md_Description m = "" ∧
     length (elems (md_Owners m)) = 0 ∧ length (entries (md_Labels m)) = 0).
#[export] Instance mentions_metadata_dec m : Decision (mentions_metadata m) := _.
Definition mentions_prompt (p : PromptBlock) : Prop := ¬ (pb_System p = None ∧ pb_User p = None).
#[export] Instance mentions_prompt_dec p : Decision (mentions_prompt p) := _.
Definition mentions_filters (f : FilterBlock) : Prop :=
  ¬ (fb_PreLLM f = None ∧ fb_PreTool f = None ∧ fb_PostTool f = None).
#[export] Instance mentions_filters_dec f : Decision (mentions_filters f) := _.

(** What an overlay says in its metadata, its filters and its replaceable lists. *)
Definition of_metadata {V} (f : OverlayMetadata → option V) (b : AgentOverlayBody) : option V :=
  ob_Metadata b ≫= f.
Definition of_list (l : RefList) : option (slice ComponentRef) :=
  if Set_ l then Some (Items l) else None.
Definition of_filters (f : FilterOverlay → RefList) (b : AgentOverlayBody)
    : option (slice ComponentRef) :=
  ob_Filters b ≫= λ o, of_list (f o).

(** The line an overlay is quoted with: that of the list, and none elsewhere. *)
Definition no_line {A} (o : option A) : option Z := (λ _, 0%Z) <$> o.
Definition list_line (l : RefList) : option Z := if Set_ l then Some (Line l) else None.
Definition mentions_stage (f : FilterOverlay) : Prop :=
  Set_ (fo_PreLLM f) = true ∨ Set_ (fo_PreTool f) = true ∨ Set_ (fo_PostTool f) = true.
#[export] Instance mentions_stage_dec f : Decision (mentions_stage f) := _.

Definition nothing {A V} (x : A) : option V := None.

(** ** The composed spec *)

Section composed.
Context (overlays : list (option AgentOverlay)) (parents : list AgentSpec) (s : AgentSpec).

(** The value of a field: the strongest overlay that says something about it, else
    the strongest layer, else the zero value; and the provenance of that writer. *)
Definition field {V} (of_overlay : AgentOverlayBody → option V) (of_layer : AgentSpec → option V)
    (zero : V) : V :=
  default zero (head (omap (λ w, of_overlay w.1) (overlay_writers overlays) ++
                      omap (λ w, of_layer w.1) (layer_writers parents s))).

Definition writer {V} (line_of : AgentOverlayBody → option Z) (of_layer : AgentSpec → option V)
    : Provenance :=
  default (mkProvenance "" 0 RoleBase 0)
    (head (omap (λ w, at_line w.2 <$> line_of w.1) (overlay_writers overlays) ++
           omap (λ w, (λ _, w.2) <$> of_layer w.1) (layer_writers parents s))).

Definition composed_metadata : Metadata := {|
  md_ID := field (of_metadata (λ m, said (om_ID m))) (λ c, said (md_ID (Meta c))) "";
  md_Version := field (of_metadata (λ m, said (om_Version m))) (λ c, said (md_Version (Meta c))) "";
  md_DisplayName :=
    field (of_metadata (λ m, said (om_DisplayName m))) (λ c, said (md_DisplayName (Meta c))) "";
  md_Description :=
    field (of_metadata (λ m, said (om_Description m))) (λ c, said (md_Description (Meta c))) "";
  md_Owners := field (of_metadata (λ m, given (om_Owners m)))
    (λ c, once (mentions_metadata (Meta c)) (Meta c) ≫= λ m, given (md_Owners m)) None;
  md_Labels := field (of_metadata (λ m, given (om_Labels m)))
    (λ c, once (mentions_metadata (Meta c)) (Meta c) ≫= λ m, given (md_Labels m)) None;
|}.

Definition layer_filters (stage : FilterBlock → slice ComponentRef) (c : AgentSpec)
    : option (slice ComponentRef) :=
  once (mentions_filters (Filters c)) (stage (Filters c)).

Definition composed_spec : AgentSpec := {|
  APIVersion := field nothing (λ c, said (APIVersion c)) "";
  Kind := field nothing (λ c, said (Kind c)) "";
  Meta := composed_metadata;
  Provider := field ob_Provider (λ c, once (cr_Ref (Provider c) ≠ "") (Provider c))
    (mkComponentRef "" None);
  Prompt := field ob_Prompt (λ c, once (mentions_prompt (Prompt c)) (Prompt c))
    (mkPromptBlock None None);
  Tools := field (λ b, of_list (ob_Tools b)) (λ c, given (Tools c)) None;
  Policies := field (λ b, of_list (ob_Policies b)) (λ c, given (Policies c)) None;
  Filters := {|
    fb_PreLLM := field (of_filters fo_PreLLM) (layer_filters fb_PreLLM) None;
    fb_PreTool := field (of_filters fo_PreTool) (layer_filters fb_PreTool) None;
    fb_PostTool := field (of_filters fo_PostTool) (layer_filters fb_PostTool) None;
  |};
  Budget := field (λ b, given (ob_Budget b)) (λ c, given (Budget c)) None;
  Telemetry := field (λ b, given (ob_Telemetry b)) (λ c, given (Telemetry c)) None;
  Credentials := field (λ b, given (ob_Credentials b)) (λ c, given (Credentials c)) None;
  Identity := field (λ b, given (ob_Identity b)) (λ c, given (Identity c)) None;
  Extends := None;
  Skills := field nothing (λ c, given (Skills c)) None;
  MCPImports := field nothing (λ c, given (MCPImports c)) None;
  OutputContract := field nothing (λ c, given (OutputContract c)) None;
|}.

Definition composed_provenance : provenanceFields := {|
  pf_APIVersion := writer nothing (λ c, said (APIVersion c));
  pf_Kind := writer nothing (λ c, said (Kind c));
  pf_Metadata := writer (λ b, no_line (ob_Metadata b)) (λ c, once (mentions_metadata (Meta c)) ());
  pf_Provider := writer (λ b, no_line (ob_Provider b)) (λ c, once (cr_Ref (Provider c) ≠ "") ());
  pf_Prompt := writer (λ b, no_line (ob_Prompt b)) (λ c, once (mentions_prompt (Prompt c)) ());
  pf_Tools := writer (λ b, list_line (ob_Tools b)) Tools;
  pf_Policies := writer (λ b, list_line (ob_Policies b)) Policies;
  pf_Filters := writer (λ b, f ← ob_Filters b; once (mentions_stage f) 0%Z)
    (λ c, once (mentions_filters (Filters c)) ());
  pf_Budget := writer (λ b, no_line (ob_Budget b)) Budget;
  pf_Telemetry := writer (λ b, no_line (ob_Telemetry b)) Telemetry;
  pf_Credentials := writer (λ b, no_line (ob_Credentials b)) Credentials;
  pf_Identity := writer (λ b, no_line (ob_Identity b)) Identity;
  pf_Skills := writer nothing Skills;
  pf_OutputContract := writer nothing OutputContract;
  pf_MCPImports := writer nothing MCPImports;
|}.

End composed.

(** ** The merge composes *)

Lemma foldl_last_writer {S A V} (get : S → V) (step : S → A → S) (says : A → option V) st l :
  (∀ st x, x ∈ l → get (step st x) = default (get st) (says x)) →
  get (foldl step st l) = default (get st) (head (omap says (reverse l))).
Proof.
  induction l as [|x l IH] using rev_ind; intros Hstep; [done|].
  rewrite foldl_snoc, reverse_snoc, Hstep, IH by set_solver. csimpl. by destruct (says x).
Qed.

Lemma parent_layers_writers n i parents :
  n = i + length parents →
  reverse (parent_layers n i parents) =
  imap (λ k p, (p, mkProvenance "" 0 RoleParent (Z.of_nat (S k)))) (reverse parents).
Proof.
  revert i. induction parents as [|p rest IH]; intros i Hn; [done|].
  rewrite parent_layers_cons, !reverse_cons, imap_app. simpl in *.
  rewrite (IH (S i)) by lia. unfold parentProvenance. rewrite length_reverse.
  do 3 f_equal. f_equal. f_equal. lia.
Qed.

Lemma layers_writers parents s : reverse (layers parents s) = layer_writers parents s.
Proof.
  unfold layers, layer_writers. rewrite reverse_snoc. f_equal. by apply parent_layers_writers.
Qed.

Lemma overlay_layers_writers overlays :
  reverse (overlay_layers 0 overlays) = overlay_writers overlays.
Proof.
  unfold overlay_writers. f_equal.
  enough (∀ i, overlay_layers i overlays = omap id (imap (λ j o,
    (λ ov, (ov_Spec ov, mkProvenance (ov_File ov) 0 RoleOverlay (Z.of_nat (i + j)))) <$> o)
    overlays)) by done.
  induction overlays as [|[ov|] rest IH]; intros i; [done| |]; csimpl; rewrite (IH (S i)).
  - unfold overlayProvenance. rewrite Nat.add_0_r. do 2 f_equal. apply imap_ext. intros j o _.
    simpl. by rewrite Nat.add_succ_r.
  - f_equal. apply imap_ext. intros j o _. simpl. by rewrite Nat.add_succ_r.
Qed.

Lemma overlay_layers_line idx overlays w : w ∈ overlay_layers idx overlays → pv_Line w.2 = 0%Z.
Proof.
  revert idx. induction overlays as [|[ov|] rest IH]; intros idx; simpl; [set_solver| |apply IH].
  intros [->|Hin]%elem_of_cons; [done|by eapply IH].
Qed.

Lemma head_app_default {A} (l k : list A) z :
  default z (head (l ++ k)) = default (default z (head k)) (head l).
Proof. by destruct l. Qed.

Section merged.
Context (overlays : list (option AgentOverlay)) (parents : list AgentSpec) (s : AgentSpec).

Lemma composed_field {V} (get : AgentSpec → V) of_overlay of_layer zero :
  (∀ m b p prov, get (applyOne m b p prov).1 = default (get m) (of_overlay b)) →
  (∀ m c p prov, get (mergeOne m c p prov).1 = default (get m) (of_layer c)) →
  (∀ a, get (clear_Extends a) = get a) → get zeroAgentSpec = zero →
  get (run_overlays (mergeChain parents s) (overlay_layers 0 overlays)).1 =
  field overlays parents s of_overlay of_layer zero.
Proof.
  intros Ho Hl Hc <-. unfold run_overlays, field.
  rewrite (foldl_last_writer (λ st, get st.1) _ (λ w, of_overlay w.1)) by (intros; apply Ho).
  rewrite overlay_layers_writers, head_app_default. f_equal.
  rewrite mergeChain_run. simpl. rewrite Hc. unfold run_layers.
  rewrite (foldl_last_writer (λ st, get st.1) _ (λ w, of_layer w.1)) by (intros; apply Hl).
  by rewrite layers_writers.
Qed.

Lemma composed_writer {V} (getp : provenanceFields → Provenance) line_of
    (of_layer : AgentSpec → option V) :
  (∀ m b p prov, pv_Line p = 0%Z →
    getp (applyOne m b p prov).2 = default (getp prov) (at_line p <$> line_of b)) →
  (∀ m c p prov,
    getp (mergeOne m c p prov).2 = default (getp prov) ((λ _, p) <$> of_layer c)) →
  getp initialProvenance = mkProvenance "" 0 RoleBase 0 →
  getp (run_overlays (mergeChain parents s) (overlay_layers 0 overlays)).2 =
  writer overlays parents s line_of of_layer.
Proof.
  intros Ho Hl Hi. unfold run_overlays, writer.
  rewrite (foldl_last_writer (λ st, getp st.2) _ (λ w, at_line w.2 <$> line_of w.1))
    by (intros st w Hw; eapply Ho, overlay_layers_line, Hw).
  rewrite overlay_layers_writers, head_app_default. f_equal.
  rewrite mergeChain_run. simpl. unfold run_layers.
  rewrite (foldl_last_writer (λ st, getp st.2) _ (λ w, (λ _, w.2) <$> of_layer w.1))
    by (intros; apply Hl).
  simpl. rewrite Hi, layers_writers. reflexivity.
Qed.

End merged.

(** What the code's tests on a layer and on an overlay say. *)
Lemma scalar_said a b : (if nonempty b then b else a) = default a (said b).
Proof. unfold nonempty, said. by destruct (decide (b = "")) as [->|H]; [|rewrite bool_decide_false]. Qed.

Lemma nonempty_said {A} b (x y : A) :
  (if nonempty b then x else y) = default y ((λ _, x) <$> said b).
Proof. unfold nonempty, said. by destruct (decide (b = "")) as [->|H]; [|rewrite bool_decide_false]. Qed.

Lemma modifiesFilters_once {A} f (x y : A) :
  (if modifiesFilters f then x else y) = default y (once (mentions_stage f) x).
Proof.
  unfold modifiesFilters, once, mentions_stage.
  by case_decide; destruct (Set_ (fo_PreLLM f)), (Set_ (fo_PreTool f)), (Set_ (fo_PostTool f));
    naive_solver.
Qed.

Lemma at_line_zero p : pv_Line p = 0%Z → at_line p 0 = p.
Proof. destruct p. simpl. by intros ->. Qed.

Lemma sets_Metadata_once {A} c (x y : A) :
  (if sets_Metadata c then x else y) = default y (once (mentions_metadata (Meta c)) x).
Proof.
  unfold sets_Metadata, once. case_decide as Hm; destruct (isZeroMetadata (Meta c)) eqn:Hz; try done;
    [|exfalso; apply not_true_iff_false in Hz; apply Hz, isZeroMetadata_spec].
  all: unfold mentions_metadata in Hm; rewrite !length_zero_iff_nil in Hm.
  - by apply isZeroMetadata_spec in Hz.
  - by apply dec_stable in Hm.
Qed.

Lemma sets_Prompt_once {A} c (x y : A) :
  (if sets_Prompt c then x else y) = default y (once (mentions_prompt (Prompt c)) x).
Proof.
  unfold sets_Prompt, once, mentions_prompt.
  by case_decide; destruct (pb_System (Prompt c)), (pb_User (Prompt c)); naive_solver.
Qed.

Lemma sets_Filters_once {A} c (x y : A) :
  (if sets_Filters c then x else y) = default y (once (mentions_filters (Filters c)) x).
Proof.
  unfold sets_Filters, once, mentions_filters.
  by case_decide; destruct (fb_PreLLM (Filters c)), (fb_PreTool (Filters c)),
    (fb_PostTool (Filters c)); naive_solver.
Qed.

Lemma sets_Provider_once {A} c (x y : A) :
  (if sets_Provider c then x else y) = default y (once (cr_Ref (Provider c) ≠ "") x).
Proof.
  unfold sets_Provider, nonempty, once. destruct (decide (cr_Ref (Provider c) = "")) as [E|E].
  - rewrite bool_decide_true, decide_False; naive_solver.
  - by rewrite bool_decide_false, decide_True.
Qed.

Lemma mergeOne_Meta {V} (f : Metadata → V) m c p prov :
  f (Meta (mergeOne m c p prov).1) =
  default (f (Meta m)) (once (mentions_metadata (Meta c)) (f (mergeMetadata (Meta m) (Meta c)))).
Proof. simpl. rewrite <-sets_Metadata_once. by destruct (sets_Metadata c). Qed.

Lemma mergeOne_Filters {V} (f : FilterBlock → V) m c p prov :
  f (Filters (mergeOne m c p prov).1) =
  default (f (Filters m)) (once (mentions_filters (Filters c)) (f (Filters c))).
Proof. simpl. rewrite <-sets_Filters_once. by destruct (sets_Filters c). Qed.

(** A scalar of the metadata a layer does not mention is empty in it. *)
Lemma mergeOne_scalar (f : Metadata → string) m c p prov :
  (∀ a b, f (mergeMetadata a b) = scalarString (f a) (f b)) →
  (∀ a, isZeroMetadata a = true → f a = "") →
  f (Meta (mergeOne m c p prov).1) = default (f (Meta m)) (said (f (Meta c))).
Proof.
  intros Hm Hz. rewrite <-scalar_said.
  exact (replaced (Replaced := replaced_scalar f Hm Hz) m c p prov).
Qed.

(** One merge step, for a field the code tests on its own. *)
Ltac merge_step :=
  intros; cbn [applyOne mergeOne fst snd APIVersion Kind Meta Provider Prompt Tools Policies Filters
    Budget Telemetry Credentials Identity Skills MCPImports OutputContract pf_APIVersion pf_Kind
    pf_Metadata pf_Provider pf_Prompt pf_Tools pf_Policies pf_Filters pf_Budget pf_Telemetry
    pf_Credentials pf_Identity pf_Skills pf_OutputContract pf_MCPImports];
  rewrite ?scalar_said, ?nonempty_said, ?sets_Metadata_once, ?sets_Prompt_once,
    ?sets_Filters_once, ?sets_Provider_once by done; try done;
  unfold of_metadata, of_filters, list_line, no_line, given, nothing, is_set,
    once, applyOverlayMetadata, applyOverlayFilters;
  repeat (case_match; simplify_eq/=; unfold of_list;
    rewrite ?scalar_said, ?modifiesFilters_once, ?at_line_zero by done; try done).

Lemma Metadata_ext (a b : Metadata) :
  md_ID a = md_ID b → md_Version a = md_Version b → md_DisplayName a = md_DisplayName b →
  md_Description a = md_Description b → md_Owners a = md_Owners b → md_Labels a = md_Labels b →
  a = b.
Proof. destruct a, b. simpl. intros. by subst. Qed.

Lemma FilterBlock_ext (a b : FilterBlock) :
  fb_PreLLM a = fb_PreLLM b → fb_PreTool a = fb_PreTool b → fb_PostTool a = fb_PostTool b → a = b.
Proof. destruct a, b. simpl. intros. by subst. Qed.

Lemma AgentSpec_ext (a b : AgentSpec) :
  APIVersion a = APIVersion b → Kind a = Kind b → Meta a = Meta b → Provider a = Provider b →
  Prompt a = Prompt b → Tools a = Tools b → Policies a = Policies b → Filters a = Filters b →
  Budget a = Budget b → Telemetry a = Telemetry b → Credentials a = Credentials b →
  Identity a = Identity b → Extends a = Extends b → Skills a = Skills b →
  MCPImports a = MCPImports b → OutputContract a = OutputContract b → a = b.
Proof. destruct a, b. simpl. intros. by subst. Qed.

Lemma provenanceFields_ext (a b : provenanceFields) :
  pf_APIVersion a = pf_APIVersion b → pf_Kind a = pf_Kind b → pf_Metadata a = pf_Metadata b →
  pf_Provider a = pf_Provider b → pf_Prompt a = pf_Prompt b → pf_Tools a = pf_Tools b →
  pf_Policies a = pf_Policies b → pf_Filters a = pf_Filters b → pf_Budget a = pf_Budget b →
  pf_Telemetry a = pf_Telemetry b → pf_Credentials a = pf_Credentials b →
  pf_Identity a = pf_Identity b → pf_Skills a = pf_Skills b →
  pf_OutputContract a = pf_OutputContract b → pf_MCPImports a = pf_MCPImports b → a = b.
Proof. destruct a, b. simpl. intros. by subst. Qed.

Section composes.
Context (overlays : list (option AgentOverlay)) (parents : list AgentSpec) (s : AgentSpec).

Abbreviation merged := (run_overlays (mergeChain parents s) (overlay_layers 0 overlays)).

Lemma merged_metadata : Meta merged.1 = composed_metadata overlays parents s.
Proof.
  apply Metadata_ext.
  1-4: apply (composed_field overlays parents s (λ a, _ (Meta a))); [merge_step| |done|done];
    intros; apply mergeOne_scalar; [done|]; intros a; rewrite isZeroMetadata_spec; tauto.
  all: apply (composed_field overlays parents s (λ a, _ (Meta a))); [merge_step| |done|done].
  all: intros; rewrite mergeOne_Meta; unfold once; case_decide; [|done]; csimpl.
  - by destruct (md_Owners (Meta c)).
  - unfold mapStringStringReplace. by destruct (md_Labels (Meta c)).
Qed.

Lemma merged_filters : Filters merged.1 = Filters (composed_spec overlays parents s).
Proof.
  apply FilterBlock_ext; apply (composed_field overlays parents s (λ a, _ (Filters a)));
    try done; try (intros; apply mergeOne_Filters); merge_step.
Qed.

Lemma merged_spec : merged.1 = composed_spec overlays parents s.
Proof.
  apply AgentSpec_ext; try (apply composed_field; [merge_step|merge_step|done|done]).
  - exact merged_metadata.
  - exact merged_filters.
  - by rewrite (run_overlays_keeps Extends (λ _, None)) by apply _.
Qed.

Lemma merged_provenance : merged.2 = composed_provenance overlays parents s.
Proof.
  apply provenanceFields_ext; apply composed_writer; try done; merge_step.
  all: unfold once; by case_decide.
Qed.
End composes.

(** ** The property *)

(** C1: composition is last writer wins, for every field: the spec Normalize
    returns, and the provenance it records, are those of the reference
    composition, in which each field (the metadata and the filters part by part) has
    the value of the last overlay that sets it, else of the spec itself, else of the
    nearest ancestor of its extends chain that sets it, else the zero value, and is
    attributed to that writer: the overlay's file, index and, for a replaceable
    list, line; the base; or the ancestor's distance. *)
Theorem Normalize_last_writer_wins ctx s overlays store n :
  Normalize ctx s overlays store = Ok n →
  ∃ parents,
    resolveExtendsChain ctx s store = Ok (parents, ns_ExtendsChain n) ∧
    ns_Spec n = composed_spec overlays parents s ∧
    ns_fields n = composed_provenance overlays parents s.
Proof.
  intros [parents [Hr Hm _ _ _ _]]%Normalize_Ok. exists parents. split; [done|].
  rewrite <-merged_spec, <-merged_provenance, <-Hm. done.
Qed.

Definition budget (ref : string) : option BudgetRef :=
  Some (mkBudgetRef ref (mkBudgetOverrides "" 0 0 0 0)).

Definition writer_parent : AgentSpec :=
  mkAgentSpec expectedAPIVersion expectedKind
    (mkMetadata "acme.base" "2.0.0" "Base" "A parent." None (Some [("team", "core")]))
    (mkComponentRef "provider.other@1.0.0" None)
    (mkPromptBlock (Some (mkComponentRef "prompt.other@1.0.0" None)) None)
    (Some [mkComponentRef "toolpack.a@1.0.0" None])
    (Some [mkComponentRef "policypack.p@1.0.0" None])
    (mkFilterBlock (Some [mkComponentRef "filter.x@1.0.0" None]) None None)
    (budget "budgetprofile.parent@1.0.0") None None None None
    (Some [mkComponentRef "skill.s@1.0.0" None]) None None.

Definition writer_overlay (name budgetref : string) (display : string) (tools prellm : RefList)
    : option AgentOverlay :=
  Some (mkAgentOverlay "forge.praxis-os.dev/v0" "AgentOverlay" name
    (mkAgentOverlayBody (Some (mkOverlayMetadata "" "" display "" None None)) None None tools zeroRefList
       (Some (mkFilterOverlay prellm zeroRefList zeroRefList)) (budget budgetref) None None None)
    (name +:+ ".yaml")).

Definition writer_overlays : list (option AgentOverlay) :=
  [writer_overlay "dev" "budgetprofile.dev@1.0.0" "Dev" (mkRefList true (Some []) 7) zeroRefList;
   None;
   writer_overlay "prod" "budgetprofile.prod@1.0.0" "" zeroRefList (mkRefList true None 12)].

Definition writer_base : AgentSpec := demo_base (Some ["acme.base@2.0.0"]).
Definition writer_store : SpecStore := MapSpecStore {["acme.base@2.0.0" := Some writer_parent]}.

Definition writer_result : NormalizedSpec :=
  match Normalize Background writer_base writer_overlays (Some writer_store) with
  | Ok n => n
  | Err _ => mkNormalizedSpec zeroAgentSpec [] [] initialProvenance
  end.

(** A parent, the base and two overlays with a nil one between them: the second
    overlay's budget and filter list, the first one's display name and tools, the
    base's id and provider, and the parent's description, labels, policies and
    skills. *)
Example Normalize_last_writer_wins_witness :
  Budget (ns_Spec writer_result) = budget "budgetprofile.prod@1.0.0" ∧
  Meta (ns_Spec writer_result) =
    mkMetadata "acme.demo" "1.0.0" "Dev" "A parent." None (Some [("team", "core")]) ∧
  Provider (ns_Spec writer_result) = mkComponentRef "provider.fake@1.0.0" None ∧
  Tools (ns_Spec writer_result) = Some [] ∧
  Policies (ns_Spec writer_result) = Some [mkComponentRef "policypack.p@1.0.0" None] ∧
  Filters (ns_Spec writer_result) = mkFilterBlock None None None ∧
  Skills (ns_Spec writer_result) = Some [mkComponentRef "skill.s@1.0.0" None] ∧
  ns_fields writer_result =
    let base := mkProvenance "" 0 RoleBase 0 in
    let parent := mkProvenance "" 0 RoleParent 1 in
    let prod := mkProvenance "prod.yaml" 0 RoleOverlay 2 in
    mkProvenanceFields base base prod base base (mkProvenance "dev.yaml" 7 RoleOverlay 0) parent
      prod prod base base base parent base base.
Proof.
  destruct (Normalize_last_writer_wins Background writer_base writer_overlays (Some writer_store)
    writer_result) as (parents & Hr & -> & ->); [vm_compute; reflexivity|].
  vm_compute in Hr. injection Hr as <-. repeat split.
Defined.
