(* ===== verification/JsonText.v ===== *)
(** The text level of [encoding/json] as the canonical encoder uses it: string
    literals as [json.Marshal] writes and the decoder reads them, and the
    literals of numbers. *)

From S2P Require Import Prelude GoStrings Values.
From Stdlib Require Import SpecFloat.
From stdpp Require Import options.

(** ** String literals

    The writer walks the string by runes: an ASCII byte, a longer UTF-8
    sequence, or a byte that is not valid UTF-8. *)

Inductive chunk :=
| CAscii (b : ascii)
| CRune (r : N) (bytes : string)
| CBad (b : ascii).

Fixpoint segment_from (fuel : nat) (s : string) : list chunk :=
  match fuel, s with
  | S fuel', String b s' =>
    if N.ltb (code b) 128 then CAscii b :: segment_from fuel' s'
    else match decode_rune b s' with
    | Some (r, rest) =>
      CRune r (String b (String.substring 0 (String.length s' - String.length rest) s'))
        :: segment_from fuel' rest
    | None => CBad b :: segment_from fuel' s'
    end
  | _, _ => []
  end.

Definition segment (s : string) : list chunk := segment_from (String.length s) s.

Definition hex_digit (n : N) : ascii :=
  if N.ltb n 10 then byte (48 + n) else byte (87 + n).

(** The bytes [json.Marshal] copies unchanged ([htmlSafeSet]). *)
Definition html_safe (b : ascii) : bool :=
  (in_range 32 127 b && negb (is_char dquote b || is_char "\"%char b || is_char "&"%char b ||
   is_char "<"%char b || is_char ">"%char b))%bool.

Definition escape_ascii (b : ascii) : string :=
  if html_safe b then str1 b
  else if (is_char "\"%char b || is_char dquote b)%bool then "\" +:+ str1 b
  else if N.eqb (code b) 8 then "\b"
  else if N.eqb (code b) 12 then "\f"
  else if N.eqb (code b) 10 then "\n"
  else if N.eqb (code b) 13 then "\r"
  else if N.eqb (code b) 9 then "\t"
  else "\u00" +:+ String (hex_digit (N.shiftr (code b) 4)) (str1 (hex_digit (N.land (code b) 15))).

Definition escape_chunk (c : chunk) : string :=
  match c with
  | CAscii b => escape_ascii b
  | CRune r bytes =>
    if (N.eqb r 8232 || N.eqb r 8233)%bool then "\u202" +:+ str1 (hex_digit (N.land r 15))
    else bytes
  | CBad _ => "\ufffd"
  end.

Definition concat_str (l : list string) : string := foldr String.app "" l.

Definition escape (s : string) : string := concat_str (escape_chunk <$> segment s).

(** [json.Marshal(s)] of a string. *)
Definition quote (s : string) : string := str1 dquote +:+ escape s +:+ str1 dquote.

(** What a decoder reads back: each invalid byte has become U+FFFD. *)
Definition replacement : string := String (byte 239) (String (byte 191) (str1 (byte 189))).
Definition clean_chunk (c : chunk) : string :=
  match c with
  | CAscii b => str1 b
  | CRune _ bytes => bytes
  | CBad _ => replacement
  end.
Definition sanitize (s : string) : string := concat_str (clean_chunk <$> segment s).

(** ** The decoder's string literals *)

Definition hex_value (c : ascii) : option N :=
  if is_digit c then Some (code c - 48)%N
  else if in_range 97 102 c then Some (code c - 87)%N
  else if in_range 65 70 c then Some (code c - 55)%N
  else None.

(** UTF-8 of a rune below 65536. *)
Definition utf8 (r : N) : string :=
  if N.ltb r 128 then str1 (byte r)
  else if N.ltb r 2048 then
    String (byte (192 + N.shiftr r 6)) (str1 (byte (128 + N.land r 63)))
  else String (byte (224 + N.shiftr r 12))
         (String (byte (128 + N.land (N.shiftr r 6) 63)) (str1 (byte (128 + N.land r 63)))).

Definition unescape_char (e : ascii) : option ascii :=
  if (is_char "\"%char e || is_char dquote e || is_char "/"%char e)%bool then Some e
  else if is_char "b"%char e then Some (byte 8)
  else if is_char "f"%char e then Some (byte 12)
  else if is_char "n"%char e then Some (byte 10)
  else if is_char "r"%char e then Some (byte 13)
  else if is_char "t"%char e then Some (byte 9)
  else None.

(** The literal after its opening quote: its value and the text after it. *)
Fixpoint scan_string (s : string) : option (string * string) :=
  match s with
  | "" => None
  | String c r =>
    if is_char dquote c then Some ("", r)
    else if is_char "\"%char c then
      match r with
      | "" => None
      | String e r' =>
        if is_char "u"%char e then
          match r' with
          | String h1 (String h2 (String h3 (String h4 r4))) =>
            v1 ← hex_value h1; v2 ← hex_value h2; v3 ← hex_value h3; v4 ← hex_value h4;
            '(t, rest) ← scan_string r4;
            Some (utf8 (v1 * 4096 + v2 * 256 + v3 * 16 + v4) +:+ t, rest)
          | _ => None
          end
        else
          b ← unescape_char e;
          '(t, rest) ← scan_string r';
          Some (String b t, rest)
      end
    else '(t, rest) ← scan_string r; Some (String c t, rest)
  end.

(** ** Number literals *)

Definition number_char (c : ascii) : bool :=
  (is_digit c || is_char "-"%char c || is_char "+"%char c || is_char "."%char c ||
   is_char "e"%char c)%bool.

Definition Itoa_Z (z : Z) : string := pretty z.

Fixpoint zeros (n : nat) : string :=
  match n with 0 => "" | S n' => String "0"%char (zeros n') end.

(** The shortest decimal digits of a positive float [m * 2 ^ e] that read back
    as the same float, the closest to it among them, and the position of the
    decimal point ([0.d1d2... * 10 ^ point]). *)
Section shortest.
Context (m e : Z).

(** The float in quarters of a unit of the last place, as a fraction. *)
Definition num (q : Z) : Z := if Z.leb 2 e then (q * 2 ^ (e - 2))%Z else q.
Definition den : Z := if Z.leb 2 e then 1%Z else (2 ^ (2 - e))%Z.

(** A float at a power of two has a closer lower neighbour. *)
Definition low : Z := (4 * m - if (Z.eqb m (2 ^ 52) && Z.ltb (-1074) e)%bool then 1 else 2)%Z.
Definition high : Z := (4 * m + 2)%Z.

(** [digits * 10 ^ exp] lies in the rounding interval, whose ends belong to it
    when the mantissa is even. *)
Definition rounds_back (digits exp : Z) : bool :=
  let d := (digits * (if Z.leb 0 exp then 10 ^ exp else 1) * den)%Z in
  let scale := (if Z.leb 0 exp then 1 else 10 ^ (- exp))%Z in
  if Z.even m then (Z.leb (num low * scale) d && Z.leb d (num high * scale))%bool
  else (Z.ltb (num low * scale) d && Z.ltb d (num high * scale))%bool.

(** [10 ^ k <= m * 2 ^ e < 10 ^ (k + 1)], from an estimate that is at most two
    too small. *)
Definition at_least_pow10 (k : Z) : bool :=
  let d := ((if Z.leb 0 k then 10 ^ k else 1) * den)%Z in
  Z.leb d (num (4 * m) * (if Z.leb 0 k then 1 else 10 ^ (- k)))%Z.
Fixpoint raise (fuel : nat) (k : Z) : Z :=
  match fuel with
  | 0 => k
  | S fuel' => if at_least_pow10 (k + 1) then raise fuel' (k + 1) else k
  end.
Definition exp10 : Z := raise 4 ((Z.log2 m + e) * 30103 / 100000 - 1)%Z.

(** The candidates with [n] digits: the decimals just below and above. *)
Definition candidate (n : Z) : option (Z * Z) :=
  let exp := (exp10 + 1 - n)%Z in
  let N := (num (4 * m) * (if Z.leb 0 exp then 1 else 10 ^ (- exp)))%Z in
  let D := (den * (if Z.leb 0 exp then 10 ^ exp else 1))%Z in
  let q := (N / D)%Z in
  let r := (N mod D)%Z in
  let below := rounds_back q exp in
  let above := rounds_back (q + 1) exp in
  let up := (Z.ltb D (2 * r) || (Z.eqb D (2 * r) && Z.odd q))%bool in
  if (below && above)%bool then Some (if up then (q + 1)%Z else q, exp)
  else if below then Some (q, exp)
  else if above then Some ((q + 1)%Z, exp)
  else None.

Fixpoint first_candidate (fuel : nat) (n : Z) : Z * Z :=
  match fuel with
  | 0 => (0, 0)%Z
  | S fuel' =>
    match candidate n with
    | Some c => c
    | None => first_candidate fuel' (n + 1)
    end
  end.

(** Seventeen digits always suffice. *)
Definition shortest : Z * Z := first_candidate 17 1.
End shortest.

(** [strconv.AppendFloat(b, f, 'f', -1, 64)] from the digits and the exponent
    of the last one. *)
Definition format_f (digits : string) (exp : Z) : string :=
  let nd := Z.of_nat (String.length digits) in
  let point := (nd + exp)%Z in
  if Z.leb 0 exp then digits +:+ zeros (Z.to_nat exp)
  else if Z.leb point 0 then "0." +:+ zeros (Z.to_nat (- point)) +:+ digits
  else String.substring 0 (Z.to_nat point) digits +:+ "." +:+
       String.substring (Z.to_nat point) (Z.to_nat (nd - point)) digits.

(** The ['e'] format, cleaned up from e-09 to e-9. *)
Definition format_e (digits : string) (exp : Z) : string :=
  let nd := Z.of_nat (String.length digits) in
  let x := (nd + exp - 1)%Z in
  let tail := String.substring 1 (String.length digits - 1) digits in
  let mantissa := String.substring 0 1 digits +:+ (if bool_decide (tail = "") then "" else "." +:+ tail) in
  mantissa +:+ "e" +:+ (if Z.ltb x 0 then "-" else "+") +:+ Itoa_Z (Z.abs x).

Definition zero_trimmed (c : Z * Z) : Z * Z :=
  if (Z.eqb (c.1 mod 10) 0 && negb (Z.eqb c.1 0))%bool then (c.1 / 10, c.2 + 1)%Z else c.

(** [json.Marshal] of a float64; [None] for NaN and the infinities. *)
Definition float_literal (f : spec_float) : option string :=
  match f with
  | S754_zero sg => Some (if sg then "-0" else "0")
  | S754_finite sg m e =>
    let '(d, exp) := zero_trimmed (shortest (Zpos m) e) in
    let digits := Itoa_Z d in
    let point := (Z.of_nat (String.length digits) + exp)%Z in
    let body := if (Z.leb point (-6) || Z.ltb 21 point)%bool
                then format_e digits exp else format_f digits exp in
    Some ((if sg then "-" else "") +:+ body)
  | _ => None
  end.

(** ** Reading back a string literal *)

(** The bytes of a multi-byte rune, and where it ends. *)
Definition high_byte (c : ascii) : bool := N.leb 128 (code c).

Lemma cont_byte_Some lo hi c v :
  (128 ≤ lo)%N → cont_byte lo hi c = Some v →
  high_byte c = true ∧ (lo ≤ code c ≤ hi)%N ∧ v = N.land (code c) 63.
Proof.
  unfold cont_byte, in_range, high_byte. intros Hlo. case_match eqn:Hr; [|done].
  intros [= <-]. apply andb_true_iff in Hr as [?%N.leb_le ?%N.leb_le].
  split_and!; [apply N.leb_le; lia|lia|lia|done].
Qed.

(** A rune is decoded from its own bytes only. *)
Lemma decode_rune_local b s r rest :
  decode_rune b s = Some (r, rest) →
  ∃ p, s = p +:+ rest ∧ (high_byte b = true → all_chars high_byte p = true) ∧
    ∀ t, decode_rune b (p +:+ t) = Some (r, t).
Proof.
  unfold decode_rune. destruct (N.ltb (code b) 128) eqn:Hb.
  { intros [= <- <-]. exists "". split_and!; [done|done|]. intros t. done. }
  destruct s as [|b1 s1]; [done|]. destruct (in_range 194 223 b) eqn:H2.
  { intros Hc. destruct (cont_byte _ _ b1) as [c1|] eqn:H1; [|done].
    cbn [fmap option_fmap option_map] in Hc.
    injection Hc as <- <-. exists (str1 b1). split_and!; [done| |].
    - intros _. apply cont_byte_Some in H1 as [Hh _]; [|done]. unfold str1. simpl. by rewrite Hh.
    - intros t. change (str1 b1 +:+ t) with (String b1 t). cbv beta iota. by rewrite H1. }
  destruct s1 as [|b2 s2]; [done|]. destruct (in_range 224 239 b) eqn:H3.
  { intros Hc. destruct (cont_byte _ _ b1) as [c1|] eqn:H1; [|done].
    destruct (cont_byte _ _ b2) as [c2|] eqn:Hc2; [|done].
    cbn [mbind option_bind] in Hc. injection Hc as <- <-.
    exists (String b1 (str1 b2)). split_and!; [done| |].
    - intros _. apply cont_byte_Some in H1 as [Hh1 _]; [|by case_match].
      apply cont_byte_Some in Hc2 as [Hh2 _]; [|done]. unfold str1. simpl. by rewrite Hh1, Hh2.
    - intros t. change (String b1 (str1 b2) +:+ t) with (String b1 (String b2 t)).
      cbv beta iota. by rewrite H1, Hc2. }
  destruct s2 as [|b3 s3]; [done|]. destruct (in_range 240 244 b) eqn:H4; [|done].
  intros Hc. destruct (cont_byte _ _ b1) as [c1|] eqn:H1; [|done].
  destruct (cont_byte _ _ b2) as [c2|] eqn:Hc2; [|done].
  destruct (cont_byte _ _ b3) as [c3|] eqn:Hc3; [|done].
  cbn [mbind option_bind] in Hc. injection Hc as <- <-.
  exists (String b1 (String b2 (str1 b3))). split_and!; [done| |].
  - intros _. apply cont_byte_Some in H1 as [Hh1 _]; [|by case_match].
    apply cont_byte_Some in Hc2 as [Hh2 _]; [|done].
    apply cont_byte_Some in Hc3 as [Hh3 _]; [|done]. unfold str1. simpl. by rewrite Hh1, Hh2, Hh3.
  - intros t. change (String b1 (String b2 (str1 b3)) +:+ t) with (String b1 (String b2 (String b3 t))).
    cbv beta iota. by rewrite H1, Hc2, Hc3.
Qed.

Lemma lor_shiftl a k c : (c < 2 ^ k)%N → N.lor (N.shiftl a k) c = (a * 2 ^ k + c)%N.
Proof.
  intros Hc. rewrite <-N.shiftl_mul_pow2.
  assert (Hd : N.land (N.shiftl a k) c = 0%N).
  { apply N.bits_inj. intros i. rewrite N.land_spec, N.bits_0.
    destruct (N.lt_ge_cases i k) as [Hi|Hi].
    - by rewrite N.shiftl_spec_low.
    - assert (N.testbit c i = false) as ->; [|apply andb_false_r].
      destruct (decide (c = 0)%N) as [->|Hz]; [apply N.bits_0|].
      apply N.bits_above_log2. apply N.log2_lt_pow2 in Hc; lia. }
  by rewrite N.add_nocarry_lxor, N.lxor_lor.
Qed.

Lemma land_63 x : (128 ≤ x ≤ 191)%N → N.land x 63 = (x - 128)%N.
Proof.
  intros Hx. change 63%N with (N.ones 6). rewrite N.land_ones.
  replace x with (x - 128 + 2 * 2 ^ 6)%N at 1 by lia.
  rewrite N.Div0.mod_add. apply N.mod_small. change (2 ^ 6)%N with 64%N. lia.
Qed.

Lemma in_range_spec lo hi c : in_range lo hi c = true ↔ (lo ≤ code c ≤ hi)%N.
Proof. unfold in_range. by rewrite andb_true_iff, !N.leb_le. Qed.

Lemma code_inj c d : code c = code d → c = d.
Proof. intros H. by rewrite <-(byte_code c), H, byte_code. Qed.

(** The value of a rune from its two, three or four bytes. *)
Lemma lead_bits x k q :
  (q * 2 ^ k ≤ x < q * 2 ^ k + 2 ^ k)%N → N.land x (N.ones k) = (x - q * 2 ^ k)%N.
Proof.
  intros Hx. rewrite N.land_ones.
  replace x with (x - q * 2 ^ k + q * 2 ^ k)%N at 1 by lia.
  rewrite N.Div0.mod_add. apply N.mod_small. lia.
Qed.

Lemma rune2_value x c1 :
  (194 ≤ x ≤ 223)%N → (128 ≤ c1 ≤ 191)%N →
  N.lor (N.shiftl (N.land x 31) 6) (N.land c1 63) = ((x - 192) * 64 + (c1 - 128))%N.
Proof.
  intros. rewrite land_63 by done. change 31%N with (N.ones 5). rewrite (lead_bits x 5 6) by lia. rewrite lor_shiftl by lia. lia.
Qed.

Lemma rune3_value x c1 c2 :
  (224 ≤ x ≤ 239)%N → (128 ≤ c1 ≤ 191)%N → (128 ≤ c2 ≤ 191)%N →
  N.lor (N.lor (N.shiftl (N.land x 15) 12) (N.shiftl (N.land c1 63) 6)) (N.land c2 63) =
  ((x - 224) * 4096 + (c1 - 128) * 64 + (c2 - 128))%N.
Proof.
  intros. rewrite !land_63 by done. change 15%N with (N.ones 4). rewrite (lead_bits x 4 14) by lia.
  rewrite <-N.lor_assoc, (lor_shiftl (c1 - 128)) by lia. rewrite lor_shiftl by lia. lia.
Qed.

Lemma rune4_value x c1 c2 c3 :
  (240 ≤ x ≤ 244)%N → (128 ≤ c1 ≤ 191)%N → (128 ≤ c2 ≤ 191)%N → (128 ≤ c3 ≤ 191)%N →
  N.lor (N.lor (N.lor (N.shiftl (N.land x 7) 18) (N.shiftl (N.land c1 63) 12))
               (N.shiftl (N.land c2 63) 6)) (N.land c3 63) =
  ((x - 240) * 262144 + (c1 - 128) * 4096 + (c2 - 128) * 64 + (c3 - 128))%N.
Proof.
  intros. rewrite !land_63 by done. change 7%N with (N.ones 3). rewrite (lead_bits x 3 30) by lia.
  rewrite <-!N.lor_assoc, (lor_shiftl (c2 - 128)) by lia.
  rewrite (lor_shiftl (c1 - 128)) by lia. rewrite lor_shiftl by lia. lia.
Qed.

(** The separators U+2028 and U+2029 have one encoding. *)
Lemma decode_separator b s r rest :
  decode_rune b s = Some (r, rest) → r = 8232%N ∨ r = 8233%N → String b s = utf8 r +:+ rest.
Proof.
  unfold decode_rune. destruct (N.ltb_spec (code b) 128) as [Hb|Hb].
  { intros [= <- <-]. lia. }
  destruct s as [|b1 s1]; [done|]. destruct (in_range 194 223 b) eqn:H2.
  { intros Hc Hr. destruct (cont_byte _ _ b1) as [c1|] eqn:H1; [|done].
    cbn [fmap option_fmap option_map] in Hc. injection Hc as <- <-. apply in_range_spec in H2.
    apply cont_byte_Some in H1 as (_ & H1 & ->); [|done]. rewrite rune2_value in Hr by lia. lia. }
  destruct s1 as [|b2 s2]; [done|]. destruct (in_range 224 239 b) eqn:H3.
  { intros Hc Hr. destruct (cont_byte _ _ b1) as [c1|] eqn:H1; [|done].
    destruct (cont_byte _ _ b2) as [c2|] eqn:Hc2; [|done].
    cbn [mbind option_bind] in Hc. injection Hc as Hr' <-. apply in_range_spec in H3.
    apply cont_byte_Some in H1 as (_ & H1 & ->); [|by case_match].
    apply cont_byte_Some in Hc2 as (_ & Hc2 & ->); [|done].
    assert (128 ≤ code b1 ≤ 191)%N by (repeat case_match; lia).
    rewrite rune3_value in Hr' by lia.
    assert (code b = 226 ∧ code b1 = 128 ∧ code b2 = r - 8192 + 128)%N as (Eb & Eb1 & Eb2) by lia.
    rewrite <-(byte_code b), <-(byte_code b1), <-(byte_code b2), Eb, Eb1, Eb2.
    by destruct Hr as [-> | ->]. }
  destruct s2 as [|b3 s3]; [done|]. destruct (in_range 240 244 b) eqn:H4; [|done].
  intros Hc Hr. destruct (cont_byte _ _ b1) as [c1|] eqn:H1; [|done].
  destruct (cont_byte _ _ b2) as [c2|] eqn:Hc2; [|done].
  destruct (cont_byte _ _ b3) as [c3|] eqn:Hc3; [|done].
  cbn [mbind option_bind] in Hc. injection Hc as Hr' <-. exfalso. apply in_range_spec in H4.
  apply cont_byte_Some in H1 as (_ & H1 & ->); [|by case_match].
  apply cont_byte_Some in Hc2 as (_ & Hc2 & ->); [|done].
  apply cont_byte_Some in Hc3 as (_ & Hc3 & ->); [|done].
  assert (128 ≤ code b1 ≤ 191)%N by (repeat case_match; lia).
  rewrite rune4_value in Hr' by lia. destruct (N.eqb_spec (code b) 240); lia.
Qed.

(** ** Chunks of a string *)

Definition chunk_bytes (c : chunk) : string :=
  match c with CAscii b | CBad b => str1 b | CRune _ bytes => bytes end.

Definition chunk_ok (c : chunk) : Prop :=
  match c with
  | CAscii b => (code b < 128)%N
  | CRune r bytes =>
    ∃ b p, bytes = String b p ∧ all_chars high_byte bytes = true ∧
      (∀ t, decode_rune b (p +:+ t) = Some (r, t))
  | CBad b => high_byte b = true
  end.

Lemma substring_app p t : String.substring 0 (String.length p) (p +:+ t) = p.
Proof.
  induction p as [|c p IH]; simpl; [by destruct t|].
  change (String c (String.substring 0 (String.length p) (p +:+ t)) = String c p). by rewrite IH.
Qed.

Lemma segment_from_ok fuel s :
  String.length s ≤ fuel →
  Forall chunk_ok (segment_from fuel s) ∧ concat_str (chunk_bytes <$> segment_from fuel s) = s.
Proof.
  revert s. induction fuel as [|fuel IH]; intros [|b s] Hl; simpl in Hl; try lia;
    try (by split; [constructor|]).
  cbn [segment_from]. destruct (N.ltb_spec (code b) 128) as [Hb|Hb].
  { destruct (IH s) as [? Hc]; [lia|]. split; [by constructor|]. csimpl. rewrite Hc. done. }
  assert (Hh : high_byte b = true) by (by apply N.leb_le).
  destruct (decode_rune b s) as [[r rest]|] eqn:Hd; cycle 1.
  { destruct (IH s) as [? Hc]; [lia|]. split; [by constructor|]. csimpl. rewrite Hc. done. }
  destruct (decode_rune_local b s r rest Hd) as (p & -> & Hp & Hloc).
  rewrite length_app_str in *. replace (_ + _ - _) with (String.length p) by lia.
  rewrite substring_app. destruct (IH rest) as [? Hc]; [lia|]. split.
  - constructor; [|done]. exists b, p. split_and!; [done| |done]. simpl. by rewrite Hh, Hp.
  - csimpl. by rewrite Hc.
Qed.

Lemma segment_ok s : Forall chunk_ok (segment s).
Proof. by apply segment_from_ok. Qed.
Lemma segment_bytes s : concat_str (chunk_bytes <$> segment s) = s.
Proof. by apply segment_from_ok. Qed.

(** ** The decoder reads what the writer wrote *)

Lemma scan_high c s :
  high_byte c = true →
  scan_string (String c s) = (λ '(t, rest), (String c t, rest)) <$> scan_string s.
Proof.
  intros Hc. cbn [scan_string].
  assert (is_char dquote c = false ∧ is_char "\"%char c = false) as [-> ->].
  { unfold is_char. split; apply bool_decide_eq_false; intros <-; done. }
  by destruct (scan_string s) as [[t rest]|].
Qed.

Lemma scan_high_app p s :
  all_chars high_byte p = true →
  scan_string (p +:+ s) = (λ '(t, rest), (p +:+ t, rest)) <$> scan_string s.
Proof.
  induction p as [|c p IH]; intros Hp.
  - change ("" +:+ s) with s. by destruct (scan_string s) as [[t rest]|].
  - simpl in Hp. apply andb_true_iff in Hp as [Hc Hp].
    change (String c p +:+ s) with (String c (p +:+ s)). rewrite scan_high, IH by done.
    by destruct (scan_string s) as [[t rest]|].
Qed.

(** A [\u] escape of a known value. *)
Lemma scan_unicode h1 h2 h3 h4 v1 v2 v3 v4 s :
  hex_value h1 = Some v1 → hex_value h2 = Some v2 → hex_value h3 = Some v3 →
  hex_value h4 = Some v4 →
  scan_string (String "\" (String "u" (String h1 (String h2 (String h3 (String h4 s)))))) =
    (λ '(t, rest), (utf8 (v1 * 4096 + v2 * 256 + v3 * 16 + v4) +:+ t, rest)) <$> scan_string s.
Proof.
  intros H1 H2 H3 H4. cbn [scan_string].
  change (is_char dquote "\") with false. change (is_char "\" "\") with true.
  change (is_char "u" "u") with true. cbv iota. rewrite H1, H2, H3, H4.
  cbn [mbind option_bind]. by destruct (scan_string s) as [[t rest]|].
Qed.

(** The three shapes of an escaped ASCII byte. *)
Lemma escape_ascii_cases b :
  (code b < 128)%N →
  (escape_ascii b = str1 b ∧ is_char dquote b = false ∧ is_char "\"%char b = false) ∨
  (∃ e, escape_ascii b = String "\" (str1 e) ∧ is_char "u"%char e = false ∧
     unescape_char e = Some b) ∨
  (∃ h3 h4 v3 v4, escape_ascii b = String "\" ("u00" +:+ String h3 (str1 h4)) ∧
     hex_value h3 = Some v3 ∧ hex_value h4 = Some v4 ∧ utf8 (v3 * 16 + v4) = str1 b).
Proof.
  destruct b as [[] [] [] [] [] [] [] []]; intros Hb; try (vm_compute in Hb; discriminate Hb);
    clear Hb;
    match goal with |- context [escape_ascii ?b] =>
      let e := eval vm_compute in (escape_ascii b) in change (escape_ascii b) with e end;
    first [ left; split; [reflexivity|split; vm_compute; reflexivity]
          | right; left; eexists; split; [reflexivity|split; vm_compute; reflexivity]
          | right; right; eexists _, _, _, _; split; [reflexivity|];
            split; [vm_compute; reflexivity|]; split; vm_compute; reflexivity ].
Qed.

Lemma scan_ascii b s :
  (code b < 128)%N →
  scan_string (escape_ascii b +:+ s) = (λ '(t, rest), (str1 b +:+ t, rest)) <$> scan_string s.
Proof.
  intros [(-> & H1 & H2)|[(e & -> & H1 & H2)|(h3 & h4 & v3 & v4 & -> & H3 & H4 & Hv)]]%escape_ascii_cases.
  - change (str1 b +:+ s) with (String b s). cbn [scan_string]. rewrite H1, H2.
    by destruct (scan_string s) as [[t rest]|].
  - change (String "\" (str1 e) +:+ s) with (String "\" (String e s)). cbn [scan_string].
    change (is_char dquote "\") with false. change (is_char "\" "\") with true. cbv iota.
    rewrite H1, H2. cbn [mbind option_bind]. by destruct (scan_string s) as [[t rest]|].
  - rewrite <-Hv. by apply (scan_unicode "0" "0" h3 h4 0 0 v3 v4 s).
Qed.

Lemma scan_chunk c s :
  chunk_ok c →
  scan_string (escape_chunk c +:+ s) =
    (λ '(t, rest), (clean_chunk c +:+ t, rest)) <$> scan_string s.
Proof.
  destruct c as [b|r bytes|b]; intros Hc; cbn [escape_chunk clean_chunk].
  - by apply scan_ascii.
  - destruct Hc as (b & p & -> & Hh & Hd).
    destruct (N.eqb r 8232 || N.eqb r 8233)%bool eqn:Hr; [|by apply scan_high_app].
    apply orb_true_iff in Hr. rewrite !N.eqb_eq in Hr.
    pose proof (decode_separator b (p +:+ "") r "" (Hd "") Hr) as Hu.
    rewrite !app_nil_r_str in Hu. rewrite Hu.
    destruct Hr as [-> | ->].
    + by apply (scan_unicode "2" "0" "2" "8" 2 0 2 8 s).
    + by apply (scan_unicode "2" "0" "2" "9" 2 0 2 9 s).
  - by apply (scan_unicode "f" "f" "f" "d" 15 15 15 13 s).
Qed.

Lemma scan_escape s rest :
  scan_string (escape s +:+ String dquote rest) = Some (sanitize s, rest).
Proof.
  unfold escape, sanitize. induction (segment_ok s) as [|c l Hc _ IH]; [done|].
  csimpl. rewrite app_assoc_str, scan_chunk, IH by done. done.
Qed.

(** ** Cleaning a string twice *)

Lemma segment_from_fuel f f' s :
  String.length s ≤ f → String.length s ≤ f' → segment_from f s = segment_from f' s.
Proof.
  revert f' s. induction f as [|f IH]; intros [|f'] [|b s] Hl Hl'; simpl in Hl, Hl'; try lia;
    try done.
  cbn [segment_from]. destruct (N.ltb _ _); [f_equal; apply IH; lia|].
  destruct (decode_rune b s) as [[r rest]|] eqn:Hd; [|f_equal; apply IH; lia].
  apply decode_rune_shorter in Hd. f_equal. apply IH; lia.
Qed.

Lemma segment_ascii b s : (code b < 128)%N → segment (String b s) = CAscii b :: segment s.
Proof. intros Hb. unfold segment. simpl. destruct (N.ltb_spec (code b) 128); [done|lia]. Qed.

Lemma segment_rune b p r s :
  high_byte b = true → (∀ t, decode_rune b (p +:+ t) = Some (r, t)) →
  segment (String b (p +:+ s)) = CRune r (String b p) :: segment s.
Proof.
  intros Hb%N.leb_le Hd. unfold segment. cbn [String.length segment_from].
  destruct (N.ltb_spec (code b) 128); [lia|]. rewrite Hd, length_app_str.
  replace (_ + _ - _) with (String.length p) by lia. rewrite substring_app.
  f_equal. apply segment_from_fuel; lia.
Qed.

Lemma segment_replacement s : segment (replacement +:+ s) = CRune 65533 replacement :: segment s.
Proof. apply (segment_rune (byte 239) (String (byte 191) (str1 (byte 189)))); [done|]. by intros. Qed.

Lemma segment_nil : segment "" = [].
Proof. done. Qed.

Lemma sanitize_idemp s : sanitize (sanitize s) = sanitize s.
Proof.
  unfold sanitize at 2 3. induction (segment_ok s) as [|c l Hc _ IH]; [done|].
  csimpl. rewrite <-IH at 2. destruct c as [b|r bytes|b]; cbn [clean_chunk].
  - unfold sanitize. change (str1 b +:+ concat_str (clean_chunk <$> l))
      with (String b (concat_str (clean_chunk <$> l))). by rewrite segment_ascii.
  - destruct Hc as (b & p & -> & Hh & Hd). simpl in Hh. apply andb_true_iff in Hh as [Hb _].
    unfold sanitize. rewrite app_cons_str. rewrite (segment_rune b p r) by done. done.
  - unfold sanitize. rewrite segment_replacement. done.
Qed.

(** Two literals at the head of two texts. *)
Lemma quote_cons s r : quote s +:+ r = String dquote (escape s +:+ String dquote r).
Proof. unfold quote. by rewrite !app_assoc_str. Qed.

Lemma quote_app_inj s1 s2 r1 r2 :
  quote s1 +:+ r1 = quote s2 +:+ r2 → sanitize s1 = sanitize s2 ∧ r1 = r2.
Proof.
  rewrite !quote_cons. intros H. injection H as H.
  apply (f_equal scan_string) in H. rewrite !scan_escape in H. by injection H.
Qed.

Lemma quote_inj s1 s2 : quote s1 = quote s2 → sanitize s1 = sanitize s2.
Proof.
  intros H. apply (quote_app_inj s1 s2 "" ""). by rewrite !app_nil_r_str.
Qed.

(** ** Literals of numbers are made of number characters *)

Lemma pretty_N_go_digits x s :
  all_chars is_digit s = true → all_chars is_digit (pretty_N_go x s) = true.
Proof.
  revert s. induction (N.lt_wf_0 x) as [x _ IH]; intros s Hs.
  destruct (decide (x = 0)%N) as [->|Hx]; [by rewrite pretty_N_go_0|].
  rewrite pretty_N_go_step by lia. apply IH; [apply N.div_lt; lia|].
  simpl. apply andb_true_iff. split; [|done].
  assert (x `mod` 10 < 10)%N as Hm by (by apply N.mod_lt).
  unfold pretty_N_char. repeat case_match; done.
Qed.

Lemma pretty_N_digits (x : N) : all_chars is_digit (pretty x) = true.
Proof.
  unfold pretty, pretty_N. case_decide; [done|]. by apply pretty_N_go_digits.
Qed.

Lemma all_chars_impl p q s :
  (∀ c, p c = true → q c = true) → all_chars p s = true → all_chars q s = true.
Proof.
  intros Hpq. induction s as [|c s IH]; [done|]. simpl.
  rewrite !andb_true_iff. intros [? ?]. auto.
Qed.

Lemma digit_number_char c : is_digit c = true → number_char c = true.
Proof. unfold number_char. by intros ->. Qed.

Lemma Itoa_Z_chars z : all_chars number_char (Itoa_Z z) = true.
Proof.
  unfold Itoa_Z, pretty, pretty_Z. destruct z as [|p|p]; [done|..].
  - apply (all_chars_impl is_digit); [apply digit_number_char|]. apply pretty_N_digits.
  - change (all_chars number_char (String "-" (pretty (N.pos p))) = true). simpl.
    apply (all_chars_impl is_digit); [apply digit_number_char|]. apply pretty_N_digits.
Qed.

Lemma zeros_chars n : all_chars number_char (zeros n) = true.
Proof. by induction n. Qed.

Lemma substring_chars p s i n :
  all_chars p s = true → all_chars p (String.substring i n s) = true.
Proof.
  revert i n. induction s as [|c s IH]; intros i n Hs; [by destruct i, n|].
  simpl in Hs. apply andb_true_iff in Hs as [Hc Hs].
  destruct i as [|i]; simpl; [|by apply IH]. destruct n as [|n]; [done|].
  simpl. rewrite Hc. by apply IH.
Qed.

#[export] Hint Resolve Itoa_Z_chars zeros_chars substring_chars : forge.

Lemma format_f_chars d x :
  all_chars number_char d = true → all_chars number_char (format_f d x) = true.
Proof.
  intros Hd. unfold format_f. repeat case_match; rewrite !all_chars_app, ?andb_true_iff;
    auto 10 with forge.
Qed.

Lemma format_e_chars d x :
  all_chars number_char d = true → all_chars number_char (format_e d x) = true.
Proof.
  intros Hd. unfold format_e. repeat case_match; rewrite !all_chars_app, ?andb_true_iff;
    split_and!; auto with forge; case_bool_decide; auto.
  all: rewrite all_chars_app, andb_true_iff; auto with forge.
Qed.

Lemma float_literal_chars f l : float_literal f = Some l → all_chars number_char l = true.
Proof.
  destruct f as [[]| | |sg m e]; try done; try (by intros [= <-]).
  unfold float_literal. destruct (zero_trimmed _) as [d x]. intros [= <-].
  rewrite all_chars_app, andb_true_iff. split; [by destruct sg|].
  case_match; [apply format_e_chars|apply format_f_chars]; auto with forge.
Qed.

Example float_literal_ex :
  float_literal (S754_finite false 7205759403792794 (-56)) = Some "0.1".
Proof. vm_compute. reflexivity. Qed.

Example quote_ex : quote "<a&b>" = str1 dquote +:+ "\u003ca\u0026b\u003e" +:+ str1 dquote.
Proof. vm_compute. reflexivity. Qed.
