(* ===== verification/Render.v ===== *)
(** The text of errors: [fmt.Sprintf] and [fmt.Errorf] on the verbs the
    repository uses, [strconv.Quote], and the [Error] methods of [spec.Errors] and
    [*spec.ExtendsError] (spec/errors.go, spec/normalize.go).

    Where a format and its arguments do not match, [fmt] prints a marker in place
    of the argument ([%!d(string=x)], [%!s(MISSING)], [%!(EXTRA ...)]); here the
    rendering is then [None], so that a rendered message is one without markers. *)

From S2P Require Import Prelude GoStrings Errors Values JsonText.
From stdpp Require Import options.

(** ** Formats *)

Inductive piece := Lit (c : ascii) | Verb (v : ascii) | NoVerb.

(** The verbs of a format, without flags: none of the repository's errors uses
    any. *)
Fixpoint pieces (format : string) : list piece :=
  match format with
  | "" => []
  | String c rest =>
    if is_char "%"%char c then
      match rest with
      | "" => [NoVerb]
      | String v rest' => (if is_char "%"%char v then Lit v else Verb v) :: pieces rest'
      end
    else Lit c :: pieces rest
  end.

(** ** strconv.Quote *)

(** [IsPrint] for the runes above ASCII is the Unicode table of [strconv]. *)
Section quote.
Context (IsPrint : N → bool).

Definition hex_digits (n : nat) (r : N) : string :=
  let fix go n r acc :=
    match n with
    | 0 => acc
    | S n' => go n' (N.shiftr r 4) (String (hex_digit (N.land r 15)) acc)
    end in go n r "".

(** [appendEscapedRune] below RuneSelf. *)
Definition quote_ascii (b : ascii) : string :=
  if (is_char dquote b || is_char "\"%char b)%bool then "\" +:+ str1 b
  else if in_range 32 126 b then str1 b
  else if N.eqb (code b) 7 then "\a"
  else if N.eqb (code b) 8 then "\b"
  else if N.eqb (code b) 12 then "\f"
  else if N.eqb (code b) 10 then "\n"
  else if N.eqb (code b) 13 then "\r"
  else if N.eqb (code b) 9 then "\t"
  else if N.eqb (code b) 11 then "\v"
  else "\x" +:+ hex_digits 2 (code b).

Definition quote_rune (r : N) (encoded : string) : string :=
  if IsPrint r then encoded
  else if N.ltb r 65536 then "\u" +:+ hex_digits 4 r
  else "\U" +:+ hex_digits 8 r.

(** The runes of the string; a byte that is not valid UTF-8 is escaped alone. *)
Fixpoint quote_runes (fuel : nat) (s : string) : string :=
  match fuel, s with
  | S fuel', String b s' =>
    if N.ltb (code b) 128 then quote_ascii b +:+ quote_runes fuel' s'
    else match decode_rune b s' with
    | Some (r, rest) =>
      quote_rune r (String.substring 0 (String.length s - String.length rest) s) +:+ quote_runes fuel' rest
    | None => "\x" +:+ hex_digits 2 (code b) +:+ quote_runes fuel' s'
    end
  | _, _ => ""
  end.

Definition Quote (s : string) : string :=
  str1 dquote +:+ quote_runes (String.length s) s +:+ str1 dquote.
End quote.

(** ** Sentinels *)

Definition spec_sentinel_text (s : spec_sentinel) : string :=
  match s with
  | ErrValidation => "spec validation failed"
  | ErrNoSpecStore => "forge: extends present but no SpecStore configured"
  | ErrSpecNotFound => "spec store: ref not found"
  | ErrExtendsInvalid => "extends: invalid"
  | ErrLockedFieldOverride => "locked field overridden"
  | ErrPhaseGatedInOverlay => "phase-gated field in overlay"
  | ErrCompositionLimit => "composition limit exceeded"
  end.
Definition registry_sentinel_text (s : registry_sentinel) : string :=
  match s with
  | ErrRegistryFrozen => "registry: frozen, cannot register after Build"
  | ErrDuplicate => "registry: duplicate (kind, id)"
  | ErrNotFound => "registry: factory not found"
  | ErrKindMismatch => "registry: id registered under different kind"
  end.
Definition build_sentinel_text (s : build_sentinel) : string :=
  match s with
  | ErrBudgetLoosening => "budget override loosens a profile ceiling"
  | ErrToolNameCollision => "tool name collision across tool packs"
  | ErrToolNotFound => "tool not found in router"
  | ErrToolNameReservedPrefix => "tool name uses reserved prefix mcp"
  | ErrFilterBlocked => "filter: stage blocked"
  end.
Definition sentinel_text (s : sentinel) : string :=
  match s with
  | SpecErr s => spec_sentinel_text s
  | RegistryErr s => registry_sentinel_text s
  | BuildErr s => build_sentinel_text s
  end.

(** ** fmt *)

(** The operands: a string, an integer, an error's text. *)
Inductive operand := OString (s : string) | OInt (z : Z) | OError (t : option string).

Section render.
Context (IsPrint : N → bool) (foreign : string → string).

(** One verb: [%T] receives the name of the type. *)
Definition verb_text (v : ascii) (a : operand) : option string :=
  match a with
  | OString s =>
    if (is_char "s"%char v || is_char "v"%char v || is_char "T"%char v)%bool then Some s
    else if is_char "q"%char v then Some (Quote IsPrint s) else None
  | OInt z => if (is_char "d"%char v || is_char "v"%char v)%bool then Some (Itoa_Z z) else None
  | OError t => if (is_char "s"%char v || is_char "v"%char v)%bool then t else None
  end.

(** [w] is the text of the operand of [%w]. *)
Fixpoint render (ps : list piece) (args : list operand) (w : option (option string)) : option string :=
  match ps with
  | [] => match args, w with [], None => Some "" | _, _ => None end
  | Lit c :: ps' => String c <$> render ps' args w
  | NoVerb :: _ => None
  | Verb v :: ps' =>
    if is_char "w"%char v then
      match w with
      | Some (Some t) => String.append t <$> render ps' args None
      | _ => None
      end
    else match args with
    | a :: args' =>
      match verb_text v a with
      | Some t => String.append t <$> render ps' args' w
      | None => None
      end
    | [] => None
    end
  end.

Definition Sprintf_text (format : string) (args : list operand) (w : option (option string)) : option string :=
  render (pieces format) args w.

(** ** Error methods *)

(** [Error] of [*spec.ExtendsError] and of [spec.Errors]. *)
Definition ExtendsError_Error (Chain : list string) (Reason : string) : option string :=
  Sprintf_text "extends: %s detected through chain [%s]" [OString Reason; OString (Join Chain " -> ")] None.
Definition Errors_Error (msgs : list string) : option string :=
  Sprintf_text "%s: %s" [OString (sentinel_text ErrValidation); OString (Join msgs "; ")] None.

(** [foreign] gives the text of the errors made outside the repository; a panic is
    not an error. *)
Fixpoint Error_text (e : error) : option string :=
  match e with
  | ESentinel s => Some (sentinel_text s)
  | EText m => message_text m None
  | EWrap m e' => message_text m (Some (Error_text e'))
  | EExtends Chain Reason => ExtendsError_Error Chain Reason
  | ESpec ms _ =>
    match mapM (λ m, message_text m None) ms with
    | Some ts => Errors_Error ts
    | None => None
    end
  | EOpaque name => Some (foreign name)
  | EPanic _ => None
  end
with message_text (m : fmsg) (w : option (option string)) : option string :=
  match m with Sprintf format args => Sprintf_text format (map operand_of args) w end
with operand_of (a : farg) : operand :=
  match a with FS s => OString s | FD z => OInt z | FErr e => OError (Error_text e) end.
End render.

(** ** Formats that match their arguments *)

Inductive operand_kind := KString | KInt | KError.
Definition kind_of (a : farg) : operand_kind :=
  match a with FS _ => KString | FD _ => KInt | FErr _ => KError end.

Definition verb_takes (v : ascii) (k : operand_kind) : bool :=
  match k with
  | KString => is_char "s"%char v || is_char "v"%char v || is_char "T"%char v || is_char "q"%char v
  | KInt => is_char "d"%char v || is_char "v"%char v
  | KError => is_char "s"%char v || is_char "v"%char v
  end.

(** Each verb has an operand of a kind it takes, and none is left; [w]: there is an
    operand for the one [%w]. *)
Fixpoint fits (ps : list piece) (ks : list operand_kind) (w : bool) : bool :=
  match ps with
  | [] => match ks with [] => negb w | _ => false end
  | Lit _ :: ps' => fits ps' ks w
  | NoVerb :: _ => false
  | Verb v :: ps' =>
    if is_char "w"%char v then w && fits ps' ks false
    else match ks with
    | k :: ks' => verb_takes v k && fits ps' ks' w
    | [] => false
    end
  end.

Definition message_fits (m : fmsg) (w : bool) : bool :=
  match m with Sprintf format args => fits (pieces format) (map kind_of args) w end.

(** The errors among the operands of a message. *)
Definition operand_errors (m : fmsg) : list error :=
  match m with Sprintf _ args => omap (λ a, match a with FErr e => Some e | _ => None end) args end.

Section render_lemmas.
Context (IsPrint : N → bool) (foreign : string → string).
Abbreviation Error_text := (Error_text IsPrint foreign).
Abbreviation message_text := (message_text IsPrint foreign).

(** An error with a text: no message within it has a marker. *)
Definition rendered (e : error) : Prop := is_Some (Error_text e).

Lemma verb_takes_text v a :
  verb_takes v (kind_of a) = true → (∀ e, a = FErr e → rendered e) →
  is_Some (verb_text IsPrint v (operand_of IsPrint foreign a)).
Proof.
  intros Hv He. destruct a as [s|z|e]; simpl in *.
  - destruct (_ || _ || is_char "T"%char v)%bool eqn:H; [done|].
    rewrite orb_false_l in Hv. by rewrite Hv.
  - by rewrite Hv.
  - rewrite Hv. by apply He.
Qed.

(** A message that fits is rendered, and spells out the error it wraps. *)
Lemma fits_render ps args w :
  fits ps (map kind_of args) (bool_decide (is_Some w)) = true →
  (∀ e, FErr e ∈ args → rendered e) → (∀ t, w = Some t → is_Some t) →
  ∃ out, render IsPrint ps (map (operand_of IsPrint foreign) args) w = Some out ∧
    ∀ t, w = Some (Some t) → Contains out t = true.
Proof.
  revert args w. induction ps as [|[c|v|] ps IH]; intros args w Hf He Hw; simpl in *.
  - destruct args, w; simpl in *; try done. by exists "".
  - destruct (IH args w Hf He Hw) as (out & -> & Hc). simpl. eexists. split; [done|].
    intros t Ht. specialize (Hc t Ht). simpl. by rewrite Hc, orb_true_r.
  - destruct (is_char "w"%char v).
    + destruct w as [[t|]|]; simpl in Hf; [|by destruct (Hw None eq_refl)|done].
      destruct (IH args None Hf He) as (out & -> & _); [done|]. simpl. eexists. split; [done|].
      intros t' [= <-]. apply Contains_spec. by exists "", out.
    + destruct args as [|a args]; simpl in *; [done|]. apply andb_true_iff in Hf as [Hv Hf].
      destruct (verb_takes_text v a Hv) as [t Ht]; [intros e ->; apply He; by left|]. rewrite Ht.
      destruct (IH args w Hf) as (out & -> & Hc); [|done|].
      { intros e Hin. apply He. by right. }
      simpl. eexists. split; [done|]. intros t' Ht'. apply Contains_spec.
      destruct (proj1 (Contains_spec _ _) (Hc t' Ht')) as (x & y & ->).
      exists (t +:+ x), y. by rewrite app_assoc_str.
  - done.
Qed.

Lemma elem_of_operand_errors format args e :
  FErr e ∈ args → e ∈ operand_errors (Sprintf format args).
Proof. intros He. apply list_elem_of_omap. by exists (FErr e). Qed.

Lemma message_rendered m :
  message_fits m false = true → (∀ e, e ∈ operand_errors m → rendered e) →
  is_Some (message_text m None).
Proof.
  destruct m as [format args]. simpl. intros Hf He.
  destruct (fits_render (pieces format) args None Hf) as (out & Hout & _).
  - intros e Hin. apply He. by apply (elem_of_operand_errors format).
  - done.
  - by exists out.
Qed.

Lemma wrap_rendered m e :
  message_fits m true = true → (∀ e', e' ∈ operand_errors m → rendered e') → rendered e →
  ∃ out, Error_text (EWrap m e) = Some out ∧ ∀ t, Error_text e = Some t → Contains out t = true.
Proof.
  destruct m as [format args]. intros Hf He [t Ht]. simpl. rewrite Ht.
  destruct (fits_render (pieces format) args (Some (Some t)) Hf) as (out & Hout & Hc).
  - intros e' Hin. apply He. by apply (elem_of_operand_errors format).
  - by intros t' [= <-].
  - exists out. split; [done|]. intros t' [= <-]. by apply Hc.
Qed.
End render_lemmas.

(** ** Classes of errors closed under what the repository does with errors

    A sentinel, a [fmt.Errorf] whose format matches its arguments, a wrapping of an
    error of the class, an error of an outside package. *)
Class ErrorClass (ok : error → Prop) := {
  ok_sentinel s : ok (ESentinel s);
  ok_text m : message_fits m false = true → operand_errors m = [] → ok (EText m);
  ok_wrap m e : message_fits m true = true → operand_errors m = [] → ok e → ok (EWrap m e);
  ok_opaque name : ok (EOpaque name);
}.

(** Errors that are not run-time panics. *)
Fixpoint is_panic (e : error) : bool :=
  match e with
  | EPanic _ => true
  | EWrap _ e' => is_panic e'
  | _ => false
  end.
Definition ordinary (e : error) : Prop := is_panic e = false.

#[export] Instance ordinary_class : ErrorClass ordinary.
Proof. by split. Qed.

(** Sentinels of the registry and of the build. *)
Definition spelled_out (s : sentinel) : bool :=
  match s with SpecErr _ => false | _ => true end.

(** Errors with a text that spells out the sentinels of the registry and of the
    build they match. *)
Definition legible (IsPrint : N → bool) (foreign : string → string) (e : error) : Prop :=
  ∃ t, Error_text IsPrint foreign e = Some t ∧
    ∀ s, spelled_out s = true → errors_is e s = true → Contains t (sentinel_text s) = true.

Lemma legible_rendered IsPrint foreign e : legible IsPrint foreign e → rendered IsPrint foreign e.
Proof. intros (t & Ht & _). by exists t. Qed.

Lemma Contains_refl s : Contains s s = true.
Proof. apply Contains_spec. exists "", "". by rewrite app_nil_r_str. Qed.

Lemma Contains_trans a b c : Contains a b = true → Contains b c = true → Contains a c = true.
Proof.
  rewrite !Contains_spec. intros (x & y & ->) (x' & y' & ->). exists (x +:+ x'), (y' +:+ y).
  by rewrite !app_assoc_str.
Qed.

#[export] Instance legible_class IsPrint foreign : ErrorClass (legible IsPrint foreign).
Proof.
  split.
  - intros s. exists (sentinel_text s). split; [done|]. intros s' _ Hs.
    simpl in Hs. apply bool_decide_eq_true in Hs as <-. apply Contains_refl.
  - intros m Hf Hm. destruct (message_rendered IsPrint foreign m Hf) as [t Ht].
    { intros e He. rewrite Hm in He. by apply elem_of_nil in He. }
    exists t. by split.
  - intros m e Hf Hm (t & Ht & Hs).
    destruct (wrap_rendered IsPrint foreign m e Hf) as (out & Hout & Hc).
    { intros e' He. rewrite Hm in He. by apply elem_of_nil in He. }
    { by exists t. }
    exists out. split; [done|]. intros s Hsp Hs'. eapply Contains_trans; [by apply Hc|]. by apply Hs.
  - intros name. exists (foreign name). by split.
Qed.

(** [solve_ok]: an error made by one of the repository's calls. *)
Ltac solve_ok :=
  repeat first
    [ apply ok_sentinel | apply ok_opaque
    | apply ok_text; [reflexivity|reflexivity]
    | apply ok_wrap; [reflexivity|reflexivity|]
    | assumption ].
