(* ===== verification/Canonical.v ===== *)
(** The canonical JSON of a spec and of a config, and their comparison
    (spec/canonical.go).

    Marshalling and decoding again with [UseNumber] is modelled as one step, from
    a Go value to the decoder's tree; the tree of an object keeps one entry per
    key, in an order that no function below depends on. *)

From S2P Require Import Prelude GoStrings Errors Values JsonText Types.
From stdpp Require Import options.

(** ** From Go values to decoded trees *)

Definition marshal_error : error := EOpaque "json: unsupported value".

(** [m[k] = v] of the decoder: a later entry for the same key replaces it. *)
Fixpoint set_key {A} (k : string) (v : A) (l : list (string * A)) : list (string * A) :=
  match l with
  | [] => [(k, v)]
  | (k', v') :: l' => if decide (k = k') then (k, v) :: l' else (k', v') :: set_key k v l'
  end.

(** A map is marshalled in the order of its keys; the decoder sees the keys
    with invalid bytes replaced. *)
Definition decoded_object (m : list (string * json)) : list (string * json) :=
  foldl (λ acc k, set_key (sanitize k) (default JNull (assoc k m)) acc) [] (sort_strings m.*1).

Definition json_of_string (s : string) : json := JString (sanitize s).

Fixpoint json_of_any (v : any) : res error json :=
  match v with
  | ANil => Ok JNull
  | ABool b => Ok (JBool b)
  | AInt z => Ok (JNumber (Itoa_Z z))
  | AInt64 z => Ok (JNumber (Itoa_Z z))
  | AFloat64 f =>
    match float_literal f with
    | Some l => Ok (JNumber l)
    | None => Err marshal_error
    end
  | AString s => Ok (json_of_string s)
  | AList None => Ok JNull
  | AList (Some l) => JArray <$> mapM_res json_of_any l
  | AStrings None => Ok JNull
  | AStrings (Some l) => Ok (JArray (json_of_string <$> l))
  | AMap None => Ok JNull
  | AMap (Some m) =>
    (λ kvs, JObject (decoded_object kvs)) <$>
      mapM_res (λ kv, (λ t, (kv.1, t)) <$> json_of_any kv.2) m
  | AOther _ (Some t) => Ok t
  | AOther _ None => Err marshal_error
  end.

Definition json_of_config (c : config) : res error json := json_of_any (AMap c).

(** Struct fields: [omitempty] drops empty strings, zero numbers, empty maps
    and slices, and nil pointers. *)
Definition field (k : string) (t : json) : list (string * json) := [(k, t)].
Definition string_field (k s : string) : list (string * json) :=
  if bool_decide (s = "") then [] else field k (json_of_string s).
Definition int_field (k : string) (z : Z) : list (string * json) :=
  if Z.eqb z 0 then [] else field k (JNumber (Itoa_Z z)).
Definition list_field {A} (k : string) (f : A → res error json) (l : slice A)
    : res error (list (string * json)) :=
  match elems l with
  | [] => Ok []
  | xs => (λ ts, field k (JArray ts)) <$> mapM_res f xs
  end.
Definition pointer_field {A} (k : string) (f : A → res error json) (o : option A)
    : res error (list (string * json)) :=
  match o with
  | None => Ok []
  | Some x => field k <$> f x
  end.
Definition strings_field (k : string) (l : slice string) : list (string * json) :=
  match elems l with
  | [] => []
  | xs => field k (JArray (json_of_string <$> xs))
  end.
Definition labels_field (k : string) (m : gomap string) : list (string * json) :=
  match entries m with
  | [] => []
  | kvs => field k (JObject (decoded_object (prod_map id json_of_string <$> kvs)))
  end.

Definition json_of_ref (c : ComponentRef) : res error json :=
  cfg ← match entries (cr_Config c) with
        | [] => Ok []
        | _ => field "config" <$> json_of_config (cr_Config c)
        end;
  Ok (JObject (field "ref" (json_of_string (cr_Ref c)) ++ cfg)).

Definition json_of_owner (o : Owner) : json :=
  JObject (string_field "team" (ow_Team o) ++ string_field "contact" (ow_Contact o)).

Definition json_of_metadata (m : Metadata) : json :=
  JObject
    (field "id" (json_of_string (md_ID m)) ++ field "version" (json_of_string (md_Version m)) ++
     string_field "displayName" (md_DisplayName m) ++
     string_field "description" (md_Description m) ++
     match elems (md_Owners m) with
     | [] => []
     | os => field "owners" (JArray (json_of_owner <$> os))
     end ++
     labels_field "labels" (md_Labels m)).

Definition json_of_prompt (p : PromptBlock) : res error json :=
  system ← pointer_field "system" json_of_ref (pb_System p);
  user ← pointer_field "user" json_of_ref (pb_User p);
  Ok (JObject (system ++ user)).

Definition json_of_filters (f : FilterBlock) : res error json :=
  preLLM ← list_field "preLLM" json_of_ref (fb_PreLLM f);
  preTool ← list_field "preTool" json_of_ref (fb_PreTool f);
  postTool ← list_field "postTool" json_of_ref (fb_PostTool f);
  Ok (JObject (preLLM ++ preTool ++ postTool)).

Definition json_of_budget (b : BudgetRef) : res error json :=
  let o := br_Overrides b in
  Ok (JObject
    (field "ref" (json_of_string (br_Ref b)) ++
     field "overrides" (JObject
       (string_field "maxWallClock" (bo_MaxWallClock o) ++
        int_field "maxInputTokens" (bo_MaxInputTokens o) ++
        int_field "maxOutputTokens" (bo_MaxOutputTokens o) ++
        int_field "maxToolCalls" (bo_MaxToolCalls o) ++
        int_field "maxCostMicrodollars" (bo_MaxCostMicrodollars o))))).

Definition json_of_credentials (c : CredRef) : res error json :=
  Ok (JObject (field "ref" (json_of_string (cd_Ref c)) ++ strings_field "scopes" (cd_Scopes c))).

(** [json.Marshal(s)] and the decoding of its text. *)
Definition json_of_spec (s : AgentSpec) : res error json :=
  provider ← json_of_ref (Provider s);
  prompt ← json_of_prompt (Prompt s);
  tools ← list_field "tools" json_of_ref (Tools s);
  policies ← list_field "policies" json_of_ref (Policies s);
  filters ← json_of_filters (Filters s);
  budget ← pointer_field "budget" json_of_budget (Budget s);
  telemetry ← pointer_field "telemetry" json_of_ref (Telemetry s);
  credentials ← pointer_field "credentials" json_of_credentials (Credentials s);
  identity ← pointer_field "identity" json_of_ref (Identity s);
  skills ← list_field "skills" json_of_ref (Skills s);
  mcpImports ← list_field "mcpImports" json_of_ref (MCPImports s);
  outputContract ← pointer_field "outputContract" json_of_ref (OutputContract s);
  Ok (JObject
    (field "apiVersion" (json_of_string (APIVersion s)) ++
     field "kind" (json_of_string (Kind s)) ++
     field "metadata" (json_of_metadata (Meta s)) ++
     field "provider" provider ++ field "prompt" prompt ++ tools ++ policies ++
     field "filters" filters ++ budget ++ telemetry ++ credentials ++ identity ++
     strings_field "extends" (Extends s) ++ skills ++ mcpImports ++ outputContract)).

(** ** pruneEmpty *)

(** [None] is the nil interface value. *)
Fixpoint pruneEmpty (t : json) : option json :=
  match t with
  | JNull => None
  | JArray l =>
    match foldr (λ x acc, match pruneEmpty x with Some t' => t' :: acc | None => acc end) [] l with
    | [] => None
    | out => Some (JArray out)
    end
  | JObject kvs =>
    match foldr (λ kv acc, match pruneEmpty kv.2 with
                           | Some t' => (kv.1, t') :: acc
                           | None => acc
                           end) [] kvs with
    | [] => None
    | out => Some (JObject out)
    end
  | _ => Some t
  end.

(** ** canonicalEncode *)

Definition canonicalEncodeBool (v : bool) : string := if v then "true" else "false".

(** The writer over the sorted keys, with the encodings of the values. *)
Definition canonicalEncodeMap (encs : list (string * string)) : string :=
  "{" +:+ Join ((λ k, quote k +:+ ":" +:+ default "null" (assoc k encs)) <$> sort_strings encs.*1) ","
      +:+ "}".

Definition canonicalEncodeSlice (encs : list string) : string := "[" +:+ Join encs "," +:+ "]".

Fixpoint canonicalEncode (t : json) : string :=
  match t with
  | JNull => "null"
  | JBool b => canonicalEncodeBool b
  | JNumber l => l
  | JString s => quote s
  | JArray l => canonicalEncodeSlice (map canonicalEncode l)
  | JObject kvs => canonicalEncodeMap (map (λ kv, (kv.1, canonicalEncode kv.2)) kvs)
  end.

Definition pruned (t : json) : json := default JNull (pruneEmpty t).

Definition computeCanonicalJSON (s : AgentSpec) : res error string :=
  tree ← map_err (EWrap (Sprintf "spec: canonical JSON marshal: %w" [])) (json_of_spec s);
  Ok (canonicalEncode (pruned tree)).

Definition canonicalizeConfig (cfg : config) : res error string :=
  tree ← map_err (EWrap (Sprintf "spec: canonical config marshal: %w" [])) (json_of_config cfg);
  match pruneEmpty tree with
  | None => Ok "null"
  | Some tree => Ok (canonicalEncode tree)
  end.

Definition CanonicalConfigsEqual (a b : config) : res error bool :=
  ab ← canonicalizeConfig a;
  bb ← canonicalizeConfig b;
  Ok (bool_decide (ab = bb)).

(** ** Well-formed trees *)

Definition wf_number (l : string) : Prop := l ≠ "" ∧ all_chars number_char l = true.
Definition clean (s : string) : Prop := sanitize s = s.

Fixpoint wf_json (t : json) : Prop :=
  match t with
  | JNull => True
  | JBool _ => True
  | JNumber l => wf_number l
  | JString s => clean s
  | JArray l => foldr (λ x P, wf_json x ∧ P) True l
  | JObject kvs =>
    NoDup kvs.*1 ∧ foldr (λ kv P, (clean kv.1 ∧ wf_json kv.2) ∧ P) True kvs
  end.

Lemma foldr_Forall {A} (P : A → Prop) l : foldr (λ x Q, P x ∧ Q) True l ↔ Forall P l.
Proof. induction l as [|x l IH]; simpl; [by split|]. by rewrite Forall_cons, IH. Qed.

Lemma wf_array l : wf_json (JArray l) ↔ Forall wf_json l.
Proof. apply foldr_Forall. Qed.
Lemma wf_object kvs :
  wf_json (JObject kvs) ↔ NoDup kvs.*1 ∧ Forall (λ kv, clean kv.1 ∧ wf_json kv.2) kvs.
Proof. simpl. by rewrite foldr_Forall. Qed.

(** ** The normal form: keys sorted at every level *)

Definition sort_entries {A} (d : A) (kvs : list (string * A)) : list (string * A) :=
  (λ k, (k, default d (assoc k kvs))) <$> sort_strings kvs.*1.

Fixpoint norm (t : json) : json :=
  match t with
  | JArray l => JArray (map norm l)
  | JObject kvs => JObject (sort_entries JNull (map (λ kv, (kv.1, norm kv.2)) kvs))
  | _ => t
  end.

Lemma sort_entries_perm {A} (d : A) kvs : NoDup kvs.*1 → sort_entries d kvs ≡ₚ kvs.
Proof.
  intros Hnd. unfold sort_entries. rewrite sort_strings_perm.
  assert (H : (λ k, (k, default d (assoc k kvs))) <$> kvs.*1 = kvs); [|by rewrite H].
  rewrite <-list_fmap_compose. apply list_eq. intros i. rewrite list_lookup_fmap.
  destruct (kvs !! i) as [[k v]|] eqn:Hi; [|done]. simpl.
  rewrite (elem_assoc k v); [done|done|]. by eapply list_elem_of_lookup_2.
Qed.

Lemma sort_entries_canonical {A} (d : A) k1 k2 :
  NoDup k1.*1 → k1 ≡ₚ k2 → sort_entries d k1 = sort_entries d k2.
Proof.
  intros Hnd Hp. unfold sort_entries.
  rewrite (sort_strings_canonical k1.*1 k2.*1) by (by rewrite Hp).
  apply list_fmap_ext. intros _ k _. by rewrite (assoc_perm k k1 k2).
Qed.

Lemma assoc_map {A B} (f : A → B) k (l : list (string * A)) :
  assoc k (map (λ kv, (kv.1, f kv.2)) l) = f <$> assoc k l.
Proof. induction l as [|[k' v] l IH]; simpl; [done|]. by case_decide. Qed.

Lemma map_keys {A B} (f : A → B) (l : list (string * A)) :
  (map (λ kv, (kv.1, f kv.2)) l).*1 = l.*1.
Proof. induction l as [|[k v] l IH]; csimpl; [done|]. by rewrite IH. Qed.

Lemma sort_entries_map {A B} (f : A → B) d d' (l : list (string * A)) :
  sort_entries d' (map (λ kv, (kv.1, f kv.2)) l) =
  map (λ kv, (kv.1, f kv.2)) (sort_entries d l).
Proof.
  unfold sort_entries. rewrite map_keys. change @map with (λ A B f, @fmap list _ A B f). simpl.
  rewrite <-list_fmap_compose. apply list_fmap_ext. intros i k Hk. simpl.
  rewrite (assoc_map f). destruct (assoc k l) eqn:Ha; [done|].
  apply list_elem_of_lookup_2 in Hk. rewrite sort_strings_perm in Hk.
  by apply assoc_None in Ha.
Qed.

(** The encoder over a tree is the encoder over its sorted entries. *)
Definition encode_entry (kv : string * json) : string :=
  quote kv.1 +:+ ":" +:+ canonicalEncode kv.2.

Lemma encode_object kvs :
  canonicalEncode (JObject kvs) =
  "{" +:+ Join (map encode_entry (sort_entries JNull kvs)) "," +:+ "}".
Proof.
  simpl. unfold canonicalEncodeMap, sort_entries, encode_entry. do 2 f_equal.
  rewrite map_keys. change @map with (λ A B f, @fmap list _ A B f). simpl.
  rewrite <-list_fmap_compose. f_equal. apply list_fmap_ext. intros i k _. simpl.
  rewrite (assoc_map canonicalEncode). by destruct (assoc k kvs).
Qed.

(** ** The encoding determines the tree

    Every item of the encoding is followed by the end of the text or by one of
    three delimiters, which starts no item. *)

Definition delimiter (c : ascii) : bool :=
  (is_char ","%char c || is_char "]"%char c || is_char "}"%char c)%bool.

Definition terminated (r : string) : Prop :=
  match r with "" => True | String c _ => delimiter c = true end.

(** [determines f R x]: [x] is the only value, up to [R], whose encoding [f x]
    starts a given text. *)
Definition determines {A} (f : A → string) (W : A → Prop) (R : A → A → Prop) (x : A) : Prop :=
  ∀ y r1 r2, W y → terminated r1 → terminated r2 →
    f x +:+ r1 = f y +:+ r2 → R x y ∧ r1 = r2.

Definition starts_item (s : string) : Prop :=
  match s with "" => False | String c _ => delimiter c = false end.

Section items.
Context {A : Type} (f : A → string) (W : A → Prop) (R : A → A → Prop).
Context (close : ascii) (Hclose : delimiter close = true) (Hcomma : close ≠ ","%char).
Context (Hstart : ∀ x, W x → starts_item (f x)).

Definition tail_items (l : list A) : string := concat_str ((λ x, "," +:+ f x) <$> l).

Lemma Join_cons x l : Join (map f (x :: l)) "," = f x +:+ tail_items l.
Proof.
  revert x. induction l as [|y l IH]; intros x; [simpl; by rewrite app_nil_r_str|].
  change (Join (map f (x :: y :: l)) ",") with (f x +:+ "," +:+ Join (map f (y :: l)) ",").
  by rewrite IH.
Qed.

Lemma tail_terminated l r : terminated (tail_items l +:+ String close r).
Proof using Type*. by destruct l. Qed.

Lemma tail_items_inj l1 l2 r1 r2 :
  Forall (determines f W R) l1 → Forall W l2 →
  tail_items l1 +:+ String close r1 = tail_items l2 +:+ String close r2 →
  Forall2 R l1 l2 ∧ r1 = r2.
Proof using Type*.
  intros Hd. revert l2. induction Hd as [|x l1 Hx Hd IH]; intros [|y l2] HW Heq.
  - split; [constructor|]. by injection Heq.
  - unfold tail_items in Heq. csimpl in Heq. injection Heq as Heq _. by destruct Hcomma.
  - unfold tail_items in Heq. csimpl in Heq. injection Heq as Heq _. by destruct Hcomma.
  - apply Forall_cons in HW as [Hy HW]. unfold tail_items in Heq. csimpl in Heq.
    rewrite !app_assoc_str in Heq. injection Heq as Heq.
    apply Hx in Heq as [? Heq]; [|done|apply tail_terminated..].
    apply IH in Heq as [? ->]; [|done]. split; [by constructor|done].
Qed.

Lemma items_inj l1 l2 r1 r2 :
  Forall (determines f W R) l1 → Forall W l1 → Forall W l2 →
  Join (map f l1) "," +:+ String close r1 = Join (map f l2) "," +:+ String close r2 →
  Forall2 R l1 l2 ∧ r1 = r2.
Proof using Type*.
  assert (Hne : ∀ x s t, W x → String close s ≠ f x +:+ t).
  { intros x s t Hx Heq. specialize (Hstart x Hx). destruct (f x) as [|c s'] eqn:Hf; [done|].
    rewrite app_cons_str in Heq. injection Heq as <- _. simpl in Hstart. congruence. }
  intros Hd H1 H2 Heq. destruct l1 as [|x l1], l2 as [|y l2].
  - split; [constructor|]. by injection Heq.
  - apply Forall_cons in H2 as [Hy _]. rewrite Join_cons, app_assoc_str in Heq.
    by destruct (Hne y r1 _ Hy Heq).
  - apply Forall_cons in H1 as [Hx _]. rewrite Join_cons, app_assoc_str in Heq.
    by destruct (Hne x r2 (tail_items l1 +:+ String close r1) Hx).
  - apply Forall_cons in Hd as [Hx Hd]. apply Forall_cons in H2 as [Hy H2].
    rewrite !Join_cons, !app_assoc_str in Heq.
    apply Hx in Heq as [? Heq]; [|done|apply tail_terminated..].
    apply tail_items_inj in Heq as [? ->]; [|done..]. split; [by constructor|done].
Qed.
End items.

Lemma number_not_delimiter c : number_char c = true → delimiter c = false.
Proof. by destruct c as [[] [] [] [] [] [] [] []]. Qed.

Lemma encode_starts t : wf_json t → starts_item (canonicalEncode t).
Proof.
  destruct t as [|[]|l|s|l|kvs]; try done.
  intros [Hne Hall]. destruct l as [|c l]; [done|]. simpl in Hall |- *.
  apply andb_true_iff in Hall as [Hc _]. by apply number_not_delimiter.
Qed.

(** The first byte tells the constructor. *)
Inductive shape := SNull | STrue | SFalse | SNumber | SString | SArray | SObject.
Definition shape_of (t : json) : shape :=
  match t with
  | JNull => SNull | JBool true => STrue | JBool false => SFalse | JNumber _ => SNumber
  | JString _ => SString | JArray _ => SArray | JObject _ => SObject
  end.
Definition head_shape (c : ascii) : option shape :=
  if is_char "n"%char c then Some SNull else if is_char "t"%char c then Some STrue
  else if is_char "f"%char c then Some SFalse else if is_char dquote c then Some SString
  else if is_char "["%char c then Some SArray else if is_char "{"%char c then Some SObject
  else if number_char c then Some SNumber else None.

Lemma number_head_shape c : number_char c = true → head_shape c = Some SNumber.
Proof. by destruct c as [[] [] [] [] [] [] [] []]. Qed.

Lemma encode_shape t r :
  wf_json t → ∃ c s, canonicalEncode t +:+ r = String c s ∧ head_shape c = Some (shape_of t).
Proof.
  destruct t as [|[]|l|s|l|kvs]; intros Hw; try (eexists _, _; by split).
  destruct Hw as [Hne Hall]. destruct l as [|c l]; [done|]. simpl in Hall.
  apply andb_true_iff in Hall as [Hc _]. exists c, (l +:+ r). split; [done|].
  by apply number_head_shape.
Qed.

Lemma number_app_inj l1 l2 r1 r2 :
  all_chars number_char l1 = true → all_chars number_char l2 = true →
  terminated r1 → terminated r2 → l1 +:+ r1 = l2 +:+ r2 → l1 = l2 ∧ r1 = r2.
Proof.
  revert l2. induction l1 as [|c l1 IH]; intros [|d l2] H1 H2 Ht1 Ht2 Heq.
  - done.
  - change ("" +:+ r1) with r1 in Heq. subst r1. simpl in H2, Ht1.
    apply andb_true_iff in H2 as [H2%number_not_delimiter _]. congruence.
  - change ("" +:+ r2) with r2 in Heq. subst r2. simpl in H1, Ht2.
    apply andb_true_iff in H1 as [H1%number_not_delimiter _]. congruence.
  - rewrite !app_cons_str in Heq. injection Heq as <- Heq. simpl in H1, H2.
    apply andb_true_iff in H1 as [_ H1]. apply andb_true_iff in H2 as [_ H2].
    destruct (IH l2 H1 H2 Ht1 Ht2 Heq) as [-> ->]. done.
Qed.

Lemma Forall_mp {A} (P Q : A → Prop) l :
  Forall P l → Forall (λ x, P x → Q x) l → Forall Q l.
Proof. rewrite !Forall_forall. auto. Qed.

Definition same_norm (t1 t2 : json) : Prop := norm t1 = norm t2.

Lemma same_shape t1 t2 r1 r2 :
  wf_json t1 → wf_json t2 →
  canonicalEncode t1 +:+ r1 = canonicalEncode t2 +:+ r2 → shape_of t1 = shape_of t2.
Proof.
  intros H1 H2 Heq. destruct (encode_shape t1 r1 H1) as (c1 & s1 & E1 & S1).
  destruct (encode_shape t2 r2 H2) as (c2 & s2 & E2 & S2).
  rewrite Heq, E2 in E1. injection E1 as -> _. congruence.
Qed.

(** The entries of an object, sorted, as items. *)
Definition wf_entry (kv : string * json) : Prop := clean kv.1 ∧ wf_json kv.2.
Definition same_entry (a b : string * json) : Prop := a.1 = b.1 ∧ same_norm a.2 b.2.

Lemma entry_determines kv :
  wf_entry kv → determines canonicalEncode wf_json same_norm kv.2 →
  determines encode_entry wf_entry same_entry kv.
Proof.
  intros [Hk _] Hd [k' v'] r1 r2 [Hk' Hv'] Ht1 Ht2 Heq. unfold encode_entry in Heq.
  simpl in *. rewrite !app_assoc_str in Heq. apply quote_app_inj in Heq as [Hq Heq].
  rewrite Hk, Hk' in Hq. injection Heq as Heq. apply Hd in Heq as [? ->]; [|done..].
  by split.
Qed.

Lemma sort_entries_Forall (P : string * json → Prop) kvs :
  NoDup kvs.*1 → Forall P kvs → Forall P (sort_entries JNull kvs).
Proof. intros Hnd HP. by rewrite (sort_entries_perm JNull kvs Hnd). Qed.

Lemma same_entries_norm l1 l2 :
  Forall2 same_entry l1 l2 →
  map (λ kv, (kv.1, norm kv.2)) l1 = map (λ kv, (kv.1, norm kv.2)) l2.
Proof. induction 1 as [|[k1 v1] [k2 v2] ? ? [? ?] _ IH]; simpl in *; [done|]. by simplify_eq; f_equal; [f_equal|]. Qed.

Lemma norm_object kvs :
  norm (JObject kvs) = JObject (map (λ kv, (kv.1, norm kv.2)) (sort_entries JNull kvs)).
Proof. simpl. by rewrite (sort_entries_map norm JNull JNull). Qed.

Lemma encode_determines t :
  wf_json t → determines canonicalEncode wf_json same_norm t.
Proof.
  induction t as [|b|l|s|l IH|kvs IH] using json_nested_ind; intros Hw t2 r1 r2 Hw2 Ht1 Ht2 Heq;
    pose proof (same_shape _ t2 _ _ Hw Hw2 Heq) as Hs;
    destruct t2 as [|b2|l2|s2|l2|kvs2]; try done; try (by destruct b); try (by destruct b2);
    unfold same_norm.
  - split; [done|]. by injection Heq.
  - assert (b = b2) as -> by (by destruct b, b2). split; [done|]. destruct b2; by injection Heq.
  - destruct Hw as [_ Hl], Hw2 as [_ Hl2].
    by destruct (number_app_inj l l2 r1 r2) as [-> ->].
  - simpl in Heq. apply quote_app_inj in Heq as [Hq ->]. simpl in Hw, Hw2.
    rewrite Hw, Hw2 in Hq. by subst.
  - rewrite wf_array in Hw, Hw2. simpl in Heq. unfold canonicalEncodeSlice in Heq.
    rewrite !app_assoc_str in Heq. injection Heq as Heq.
    apply (items_inj canonicalEncode wf_json same_norm "]"%char) in Heq as [HR ->];
      [|done|done|apply encode_starts|by apply (Forall_mp wf_json)|done..].
    split; [|done]. simpl. f_equal. clear -HR. induction HR; simpl; [done|]. by f_equal.
  - rewrite wf_object in Hw, Hw2. destruct Hw as [Hnd Hw], Hw2 as [Hnd2 Hw2].
    rewrite !encode_object, !app_assoc_str in Heq. injection Heq as Heq.
    apply (items_inj encode_entry wf_entry same_entry "}"%char) in Heq as [HR ->];
      [|done|done|done| |by apply sort_entries_Forall..].
    + split; [|done]. rewrite !norm_object. f_equal. by apply same_entries_norm.
    + apply sort_entries_Forall; [done|]. rewrite Forall_forall in IH, Hw |- *.
      intros kv Hin. apply entry_determines; [by apply Hw|].
      apply IH; [done|]. by apply Hw.
Qed.

Lemma sort_entries_idemp {A} (d : A) kvs :
  NoDup kvs.*1 → sort_entries d (sort_entries d kvs) = sort_entries d kvs.
Proof.
  intros Hnd. pose proof (sort_entries_perm d kvs Hnd) as Hp.
  apply sort_entries_canonical; [by rewrite Hp|done].
Qed.

Lemma encode_norm t : wf_json t → canonicalEncode (norm t) = canonicalEncode t.
Proof.
  induction t as [|b|l|s|l IH|kvs IH] using json_nested_ind; intros Hw; try done.
  - rewrite wf_array in Hw. simpl. f_equal. rewrite map_map. apply map_ext_Forall.
    by apply (Forall_mp wf_json).
  - rewrite wf_object in Hw. destruct Hw as [Hnd Hw]. rewrite norm_object, !encode_object.
    rewrite (sort_entries_map norm JNull JNull), sort_entries_idemp by done.
    do 3 f_equal. rewrite map_map. apply map_ext_Forall.
    apply sort_entries_Forall; [done|]. apply (Forall_mp wf_entry); [done|].
    eapply Forall_impl; [exact IH|]. intros kv Hkv [_ Hv]. unfold encode_entry. simpl.
    by rewrite Hkv.
Qed.

(** On well-formed trees the text is a complete invariant of the normal form. *)
Lemma encode_iff t1 t2 :
  wf_json t1 → wf_json t2 → canonicalEncode t1 = canonicalEncode t2 ↔ same_norm t1 t2.
Proof.
  intros H1 H2. split.
  - intros Heq. apply (encode_determines t1 H1 t2 "" "" H2); [done..|].
    by rewrite !app_nil_r_str.
  - intros Hn. by rewrite <-(encode_norm t1), <-(encode_norm t2), Hn.
Qed.

(** ** The decoder's trees are well formed *)

Lemma set_key_elem {A} k (v : A) l kv :
  kv ∈ set_key k v l → kv = (k, v) ∨ kv ∈ l.
Proof.
  induction l as [|[k' v'] l IH]; simpl; [set_solver|]. case_decide; set_solver.
Qed.

Lemma set_key_keys {A} k (v : A) l : NoDup l.*1 → NoDup (set_key k v l).*1.
Proof.
  induction l as [|[k' v'] l IH]; csimpl; intros Hnd; [by apply NoDup_singleton|].
  apply NoDup_cons in Hnd as [Hni Hnd]. case_decide; csimpl; subst; [by constructor|].
  constructor; [|by auto]. intros ([k2 v2] & Hk & Hin)%list_elem_of_fmap. simpl in Hk. subst.
  apply set_key_elem in Hin as [|Hin]; [by simplify_eq|].
  apply Hni, list_elem_of_fmap. by exists (k2, v2).
Qed.

Lemma decoded_object_wf m :
  Forall (λ kv, wf_json kv.2) m → wf_json (JObject (decoded_object m)).
Proof.
  intros Hm. rewrite wf_object. unfold decoded_object.
  assert (H : ∀ ks acc, NoDup acc.*1 ∧ Forall wf_entry acc →
    let out := foldl (λ acc k, set_key (sanitize k) (default JNull (assoc k m)) acc) acc ks in
    NoDup out.*1 ∧ Forall wf_entry out).
  { induction ks as [|k ks IH]; intros acc [Hnd Hacc]; simpl; [done|]. apply IH.
    split; [by apply set_key_keys|]. apply Forall_forall. intros kv Hin.
    apply set_key_elem in Hin as [->|Hin]; [|by rewrite Forall_forall in Hacc; auto].
    split; [apply sanitize_idemp|]. simpl. destruct (assoc k m) as [t|] eqn:Ha; [|done].
    apply assoc_Some_elem in Ha. rewrite Forall_forall in Hm. exact (Hm _ Ha). }
  apply H. split; constructor.
Qed.

(** Config values as Go has them: distinct keys in every map, and trees of
    foreign types that a decoder can produce. *)
Fixpoint any_wf (v : any) : Prop :=
  match v with
  | AList (Some l) => foldr (λ x P, any_wf x ∧ P) True l
  | AMap (Some m) => NoDup m.*1 ∧ foldr (λ kv P, any_wf kv.2 ∧ P) True m
  | AOther _ (Some t) => wf_json t
  | _ => True
  end.

Lemma any_wf_list l : any_wf (AList (Some l)) ↔ Forall any_wf l.
Proof. apply foldr_Forall. Qed.
Lemma any_wf_map m : any_wf (AMap (Some m)) ↔ NoDup m.*1 ∧ Forall (λ kv, any_wf kv.2) m.
Proof. simpl. by rewrite foldr_Forall. Qed.

Lemma pretty_N_go_nil x s : pretty_N_go x s = "" → x = 0%N ∧ s = "".
Proof.
  revert s. induction (N.lt_wf_0 x) as [x _ IH]; intros s.
  destruct (decide (x = 0)%N) as [->|Hx]; [by rewrite pretty_N_go_0|].
  rewrite pretty_N_go_step by lia. intros H. apply IH in H as [_ H]; [done|].
  apply N.div_lt; lia.
Qed.

Lemma pretty_N_not_nil (x : N) : pretty x ≠ "".
Proof.
  unfold pretty, pretty_N. destruct (decide (x = 0)%N); [done|]. by intros [? _]%pretty_N_go_nil.
Qed.

Lemma Itoa_Z_wf z : wf_number (Itoa_Z z).
Proof.
  split; [|apply Itoa_Z_chars]. destruct z as [|p|p]; [done| |done].
  exact (pretty_N_not_nil (N.pos p)).
Qed.

Lemma app_not_nil s c t : s +:+ String c t ≠ "".
Proof. by destruct s. Qed.

Lemma float_literal_wf f l : float_literal f = Some l → wf_number l.
Proof.
  intros H. split; [|by eapply float_literal_chars].
  destruct f as [[]| | |sg m e]; try done; try (by injection H as <-).
  unfold float_literal in H. destruct (zero_trimmed _) as [d x]. injection H as <-.
  destruct (Itoa_Z_wf d) as [Hd _]. destruct sg; [done|].
  rewrite app_nil_l_str. unfold format_e, format_f. destruct (Itoa_Z d) as [|c t]; [done|].
  case_match; [done|]. case_match; [done|]. case_match; [done|]. apply app_not_nil.
Qed.

Lemma json_of_string_wf s : wf_json (json_of_string s).
Proof. apply sanitize_idemp. Qed.

Lemma mapM_res_Forall {E A B} (f : A → res E B) (P : A → Prop) (Q : B → Prop) l ys :
  (∀ x y, P x → f x = Ok y → Q y) → Forall P l → mapM_res f l = Ok ys → Forall Q ys.
Proof.
  intros HPQ HP Hf%mapM_res_Ok. induction Hf; [constructor|].
  apply Forall_cons in HP as [??]. constructor; eauto.
Qed.

Lemma json_of_any_wf v t : any_wf v → json_of_any v = Ok t → wf_json t.
Proof.
  revert t. induction v as [|b|z|z|f|s|l| |l IH| |m IH|n [e|]] using any_nested_ind;
    intros t Hw Ht; simpl in Ht; inv_res; try done; try apply Itoa_Z_wf.
  - destruct (float_literal f) as [l|] eqn:Hf; [|done]. inv_res. by eapply float_literal_wf.
  - apply json_of_string_wf.
  - destruct l as [l|]; inv_res; [|done]. apply wf_array, Forall_fmap, Forall_true.
    intros s. apply json_of_string_wf.
  - subst. apply wf_array. apply any_wf_list in Hw.
    eapply (mapM_res_Forall _ (λ v, any_wf v ∧ ∀ t, any_wf v → json_of_any v = Ok t → wf_json t));
      [naive_solver| |done]. by apply Forall_and.
  - subst. apply any_wf_map in Hw as [_ Hw]. apply decoded_object_wf.
    eapply (mapM_res_Forall _ (λ kv, any_wf kv.2 ∧
      ∀ t, any_wf kv.2 → json_of_any kv.2 = Ok t → wf_json t)); [| |done].
    + intros kv y [? Hkv] Hy. inv_res. subst. simpl. eauto.
    + by apply Forall_and.
Qed.

(** ** Iteration orders *)

(** [reordered v w]: the same value up to the iteration order of its maps. *)
Inductive reordered : any → any → Prop :=
| reordered_refl v : reordered v v
| reordered_list l l' : Forall2 reordered l l' → reordered (AList (Some l)) (AList (Some l'))
| reordered_map m m' m'' :
    Forall2 (λ a b, a.1 = b.1 ∧ reordered a.2 b.2) m m' → m' ≡ₚ m'' →
    reordered (AMap (Some m)) (AMap (Some m'')).

Lemma decoded_object_perm m m' :
  NoDup m.*1 → m ≡ₚ m' → decoded_object m = decoded_object m'.
Proof.
  intros Hnd Hp. unfold decoded_object.
  rewrite (sort_strings_canonical m.*1 m'.*1) by (by rewrite Hp).
  generalize (@nil (string * json)). induction (sort_strings m'.*1) as [|k ks IH]; intros acc;
    [done|]. simpl. by rewrite (assoc_perm k m m'), IH.
Qed.

Lemma mapM_res_perm {E A B} (f : A → res E B) l l' ys :
  l ≡ₚ l' → mapM_res f l = Ok ys → ∃ ys', mapM_res f l' = Ok ys' ∧ ys ≡ₚ ys'.
Proof.
  setoid_rewrite mapM_res_Ok. intros Hp Hf.
  destruct (Permutation_Forall2 Hp Hf) as (ys' & ? & ?). eauto.
Qed.

Lemma mapM_res_Err {E A B} (f : A → res E B) l e :
  mapM_res f l = Err e → ∃ x, x ∈ l ∧ f x = Err e.
Proof.
  induction l as [|x l IH]; simpl; [done|]. intros [Hx|(y & Hy & H)]%bind_Err.
  - exists x. split; [left|done].
  - apply bind_Err in H as [H|(? & ? & ?)]; [|done]. destruct (IH H) as (x' & ? & ?).
    exists x'. split; [by right|done].
Qed.

(** Marshalling fails in one way only. *)
Lemma json_of_any_Err v e : json_of_any v = Err e → e = marshal_error.
Proof.
  revert e. induction v as [|b|z|z|f|s|l| |l IH| |m IH|n [t|]] using any_nested_ind;
    intros e He; simpl in He; try done; try congruence.
  - destruct (float_literal f); congruence.
  - by destruct l.
  - destruct (mapM_res _ l) as [|e'] eqn:Hm; [done|]. injection He as <-.
    apply mapM_res_Err in Hm as (x & Hx & He). rewrite Forall_forall in IH. eauto.
  - destruct (mapM_res _ m) as [|e'] eqn:Hm; [done|]. injection He as <-.
    apply mapM_res_Err in Hm as (x & Hx & He). rewrite Forall_forall in IH.
    destruct (json_of_any x.2) eqn:Hj; [done|]. injection He as <-. eauto.
Qed.

Lemma mapM_res_ext2 {E A B} (f : A → res E B) l l' :
  Forall2 (λ x y, f x = f y) l l' → mapM_res f l = mapM_res f l'.
Proof. induction 1 as [|x y l l' Hxy _ IH]; simpl; [done|]. by rewrite Hxy, IH. Qed.

(** One map level, with entries already related. *)
Lemma json_of_map_perm m m' :
  NoDup m.*1 → m ≡ₚ m' → json_of_any (AMap (Some m)) = json_of_any (AMap (Some m')).
Proof.
  intros Hnd Hp. simpl. set (f := λ kv : string * any, (λ t, (kv.1, t)) <$> json_of_any kv.2).
  assert (Hkeys : ∀ l ys, mapM_res f l = Ok ys → ys.*1 = l.*1).
  { intros l ys Hl%mapM_res_Ok. induction Hl as [|[k v] y l ys Hy _ IH]; csimpl; [done|].
    rewrite IH. unfold f in Hy. inv_res. by subst. }
  destruct (mapM_res f m) as [ys|e] eqn:Hm.
  - destruct (mapM_res_perm f m m' ys Hp Hm) as (ys' & -> & Hy). simpl. do 2 f_equal.
    apply decoded_object_perm; [|done]. by rewrite (Hkeys m ys Hm).
  - destruct (mapM_res f m') as [ys'|e'] eqn:Hm'.
    + symmetry in Hp. destruct (mapM_res_perm f m' m ys' Hp Hm') as (? & ? & _). congruence.
    + simpl. f_equal. assert (He : ∀ l e, mapM_res f l = Err e → e = marshal_error).
      { intros l e0 (x & _ & Hx)%mapM_res_Err. unfold f in Hx.
        destruct (json_of_any x.2) eqn:Hj; [done|]. injection Hx as <-.
        by eapply json_of_any_Err. }
      by rewrite (He _ _ Hm), (He _ _ Hm').
Qed.

Lemma json_of_any_reordered v w : any_wf v → reordered v w → json_of_any v = json_of_any w.
Proof.
  revert w. induction v as [| | | | | | | |l IH| |m IH| ] using any_nested_ind;
    intros w Hw Hr; inversion Hr as [|? l' Hl|? m' m'' Hm Hp]; subst; try done.
  - simpl. f_equal. apply mapM_res_ext2. apply any_wf_list in Hw. clear Hr.
    induction Hl as [|x y l l' Hxy _ IHl]; [constructor|].
    apply Forall_cons in IH as [Hx IH]. apply Forall_cons in Hw as [Hwx Hw].
    constructor; auto.
  - apply any_wf_map in Hw as [Hnd Hw].
    assert (Hk : m.*1 = m'.*1).
    { clear -Hm. induction Hm as [|x y ? ? [? _] _ IH]; csimpl; [done|]. congruence. }
    rewrite <-(json_of_map_perm m' m'') by (by rewrite <-?Hk). simpl. f_equal.
    apply mapM_res_ext2. clear Hr Hp Hnd Hk.
    induction Hm as [|x y m m' [Hxy1 Hxy] _ IHm]; [constructor|].
    apply Forall_cons in IH as [Hx IH]. apply Forall_cons in Hw as [Hwx Hw].
    constructor; [|auto]. rewrite Hxy1. by rewrite (Hx y.2).
Qed.

(** ** pruneEmpty *)

Definition prune_list (l : list json) : list json :=
  foldr (λ x acc, match pruneEmpty x with Some t => t :: acc | None => acc end) [] l.
Definition prune_entries (kvs : list (string * json)) : list (string * json) :=
  foldr (λ kv acc, match pruneEmpty kv.2 with Some t => (kv.1, t) :: acc | None => acc end) [] kvs.

(** A tree without null, empty arrays or empty objects below it. *)
Fixpoint solid (t : json) : Prop :=
  match t with
  | JNull => False
  | JArray l => l ≠ [] ∧ foldr (λ x P, solid x ∧ P) True l
  | JObject kvs => kvs ≠ [] ∧ foldr (λ kv P, solid kv.2 ∧ P) True kvs
  | _ => True
  end.

Lemma solid_array l : solid (JArray l) ↔ l ≠ [] ∧ Forall solid l.
Proof. simpl. by rewrite foldr_Forall. Qed.
Lemma solid_object kvs : solid (JObject kvs) ↔ kvs ≠ [] ∧ Forall (λ kv, solid kv.2) kvs.
Proof. simpl. by rewrite foldr_Forall. Qed.

Lemma pruneEmpty_solid t t' : pruneEmpty t = Some t' → solid t'.
Proof.
  revert t'. induction t as [|b|l|s|l IH|kvs IH] using json_nested_ind; intros t' Ht;
    try (by injection Ht as <-); simpl in Ht; try done.
  - change (foldr _ [] l) with (prune_list l) in Ht.
    assert (H : Forall solid (prune_list l)).
    { clear Ht. induction IH as [|x l Hx _ IHl]; [constructor|]. simpl.
      destruct (pruneEmpty x); [constructor; auto|done]. }
    destruct (prune_list l) as [|x l'] eqn:Hl; [done|]. injection Ht as <-.
    by apply solid_array.
  - change (foldr _ [] kvs) with (prune_entries kvs) in Ht.
    assert (H : Forall (λ kv, solid kv.2) (prune_entries kvs)).
    { clear Ht. induction IH as [|x l Hx _ IHl]; [constructor|]. simpl.
      destruct (pruneEmpty x.2); [constructor; simpl; auto|done]. }
    destruct (prune_entries kvs) as [|x l'] eqn:Hl; [done|]. injection Ht as <-.
    by apply solid_object.
Qed.

Lemma solid_pruneEmpty t : solid t → pruneEmpty t = Some t.
Proof.
  induction t as [|b|l|s|l IH|kvs IH] using json_nested_ind; intros Hs; try done.
  - apply solid_array in Hs as [Hne Hs]. simpl. change (foldr _ [] l) with (prune_list l).
    assert (prune_list l = l) as ->; [|by destruct l].
    clear Hne. induction IH as [|x l Hx _ IHl]; [done|]. apply Forall_cons in Hs as [? Hs].
    simpl. by rewrite Hx, IHl.
  - apply solid_object in Hs as [Hne Hs]. simpl. change (foldr _ [] kvs) with (prune_entries kvs).
    assert (prune_entries kvs = kvs) as ->; [|by destruct kvs].
    clear Hne. induction IH as [|[k x] l Hx _ IHl]; [done|]. apply Forall_cons in Hs as [? Hs].
    simpl in *. by rewrite Hx, IHl.
Qed.

Lemma prune_entries_keys kvs : (prune_entries kvs).*1 ⊆+ kvs.*1.
Proof.
  induction kvs as [|[k x] kvs IH]; csimpl; [done|].
  destruct (pruneEmpty x); csimpl; by constructor.
Qed.

Lemma pruneEmpty_wf t t' : wf_json t → pruneEmpty t = Some t' → wf_json t'.
Proof.
  revert t'. induction t as [|b|l|s|l IH|kvs IH] using json_nested_ind; intros t' Hw Ht;
    try (by injection Ht as <-); simpl in Ht; try done.
  - change (foldr _ [] l) with (prune_list l) in Ht. apply wf_array in Hw.
    assert (H : Forall wf_json (prune_list l)).
    { clear Ht. induction IH as [|x l Hx _ IHl]; [constructor|].
      apply Forall_cons in Hw as [? Hw]. simpl.
      destruct (pruneEmpty x); [constructor; auto|auto]. }
    destruct (prune_list l) eqn:Hl; [done|]. injection Ht as <-. by apply wf_array.
  - change (foldr _ [] kvs) with (prune_entries kvs) in Ht. apply wf_object in Hw as [Hnd Hw].
    assert (H : Forall wf_entry (prune_entries kvs)).
    { clear Ht Hnd. induction IH as [|x l Hx _ IHl]; [constructor|].
      apply Forall_cons in Hw as [[??] Hw]. simpl.
      destruct (pruneEmpty x.2); [constructor; [split; simpl; auto|auto]|auto]. }
    pose proof (prune_entries_keys kvs) as Hk.
    destruct (prune_entries kvs) eqn:Hl; [done|]. injection Ht as <-. apply wf_object.
    split; [|done]. apply submseteq_Permutation in Hk as [rest Hk]. rewrite Hk in Hnd.
    by apply NoDup_app in Hnd as [? _].
Qed.

Lemma pruned_wf t : wf_json t → wf_json (pruned t).
Proof.
  intros Hw. unfold pruned. destruct (pruneEmpty t) eqn:Ht; [|done]. simpl.
  by eapply pruneEmpty_wf.
Qed.
