(* ===== verification/Alike.v ===== *)
(** When two decoded trees mean the same: nulls and collections that hold nothing
    are left out, whatever their depth, and the order of an object's keys does not
    matter.  The relation is stated on the trees themselves; that the canonical
    encoding decides it is proved from the lemmas of [Canonical]. *)

From S2P Require Import Prelude GoStrings Errors Values JsonText Types Canonical.
From stdpp Require Import options.

(** ** The relation *)

(** A tree that holds nothing: null, or a collection of such trees. *)
Inductive hollow : json → Prop :=
| hollow_null : hollow JNull
| hollow_array l : Forall hollow l → hollow (JArray l)
| hollow_object m : Forall (λ kv, hollow kv.2) m → hollow (JObject m).

(** The value under a key, null when the key is absent. *)
Definition under_key (k : string) (m : list (string * json)) : json := default JNull (assoc k m).

Inductive alike : json → json → Prop :=
| alike_hollow t t' : hollow t → hollow t' → alike t t'
| alike_bool b : alike (JBool b) (JBool b)
| alike_number l : alike (JNumber l) (JNumber l)
| alike_string s : alike (JString s) (JString s)
| alike_array l l' : alike_items l l' → alike (JArray l) (JArray l')
| alike_object m m' : (∀ k, alike (under_key k m) (under_key k m')) → alike (JObject m) (JObject m')
with alike_items : list json → list json → Prop :=
| items_nil : alike_items [] []
| items_skip_l x l l' : hollow x → alike_items l l' → alike_items (x :: l) l'
| items_skip_r x l l' : hollow x → alike_items l l' → alike_items l (x :: l')
| items_cons x x' l l' : alike x x' → alike_items l l' → alike_items (x :: l) (x' :: l').

Scheme alike_mut := Induction for alike Sort Prop
  with alike_items_mut := Induction for alike_items Sort Prop.

(** ** What the canonical form keeps of a tree *)

Definition kept (t : json) : option json := norm <$> pruneEmpty t.

Definition kept_entries (m : list (string * json)) : list (string * json) :=
  omap (λ kv, pair kv.1 <$> kept kv.2) m.

Lemma omap_kept_list l : map norm (prune_list l) = omap kept l.
Proof.
  induction l as [|x l IH]; csimpl; [done|]. unfold kept at 1.
  destruct (pruneEmpty x); csimpl; by rewrite IH.
Qed.

Lemma map_kept_entries m : map (λ kv, (kv.1, norm kv.2)) (prune_entries m) = kept_entries m.
Proof.
  unfold kept_entries. induction m as [|[k x] m IH]; csimpl; [done|]. unfold kept at 1.
  destruct (pruneEmpty x); csimpl; by rewrite IH.
Qed.

Lemma kept_array l :
  kept (JArray l) = match omap kept l with [] => None | l' => Some (JArray l') end.
Proof.
  unfold kept at 1. simpl. change (foldr _ [] l) with (prune_list l).
  rewrite <-omap_kept_list. by destruct (prune_list l).
Qed.

Lemma kept_object m :
  kept (JObject m) =
  match kept_entries m with [] => None | es => Some (JObject (sort_entries JNull es)) end.
Proof.
  unfold kept at 1. simpl. change (foldr _ [] m) with (prune_entries m).
  rewrite <-map_kept_entries. by destruct (prune_entries m) as [|[k x] l].
Qed.

Lemma kept_pruned t t' : same_norm (pruned t) (pruned t') ↔ kept t = kept t'.
Proof.
  assert (Hs : ∀ t u, pruneEmpty t = Some u → norm u ≠ JNull)
    by (intros x u Hu%pruneEmpty_solid; by destruct u).
  unfold same_norm, pruned, kept. destruct (pruneEmpty t) as [u|] eqn:Hu, (pruneEmpty t') as [u'|] eqn:Hu';
    simpl; [|specialize (Hs _ _ Hu)|specialize (Hs _ _ Hu')|done]; split; congruence.
Qed.

(** ** Nothing is kept of a hollow tree *)

Lemma omap_None {A B} (f : A → option B) l : omap f l = [] ↔ Forall (λ x, f x = None) l.
Proof.
  induction l as [|x l IH]; csimpl; [by split|]. rewrite Forall_cons, <-IH.
  destruct (f x); naive_solver.
Qed.

Lemma kept_entries_None m : kept_entries m = [] ↔ Forall (λ kv, kept kv.2 = None) m.
Proof.
  unfold kept_entries. rewrite omap_None.
  apply Forall_proper; [|done]. intros kv. by rewrite fmap_None.
Qed.

Lemma kept_None t : kept t = None ↔ hollow t.
Proof.
  induction t as [|b|l|s|l IH|m IH] using json_nested_ind; try (split; [done|by inversion 1]).
  - split; [constructor|done].
  - rewrite kept_array. transitivity (omap kept l = []); [by destruct (omap kept l)|].
    rewrite omap_None. transitivity (Forall hollow l); [|by split; [constructor|inversion 1]].
    rewrite !Forall_forall in *. naive_solver.
  - rewrite kept_object. transitivity (kept_entries m = []); [by destruct (kept_entries m)|].
    rewrite kept_entries_None.
    transitivity (Forall (λ kv : string * json, hollow kv.2) m); [|by split; [constructor|inversion 1]].
    rewrite !Forall_forall in *. naive_solver.
Qed.

(** ** What is kept of an object, key by key *)

Lemma elem_kept_entries m k u :
  NoDup m.*1 → (k, u) ∈ kept_entries m ↔ kept (under_key k m) = Some u.
Proof.
  intros Hnd. unfold kept_entries, under_key. rewrite list_elem_of_omap. split.
  - intros ([k' v] & Hin & (? & Hu & [= -> ->])%fmap_Some). simpl in *.
    by rewrite (elem_assoc k' v m Hnd Hin).
  - destruct (assoc k m) as [v|] eqn:Ha; [|done]. intros Hu. exists (k, v). simpl in *. rewrite Hu.
    split; [by apply assoc_Some_elem|done].
Qed.

Lemma kept_entries_keys m : NoDup m.*1 → NoDup (kept_entries m).*1.
Proof.
  unfold kept_entries. induction m as [|[k v] m IH]; csimpl; [done|].
  intros [Hk Hnd]%NoDup_cons. destruct (kept v); csimpl; [|by apply IH]. constructor; [|by apply IH].
  intros ([k' u] & -> & Hin)%list_elem_of_fmap. apply Hk. simpl in *.
  apply list_elem_of_omap in Hin as ([k2 v2] & Hin & (? & ? & [= -> ->])%fmap_Some).
  apply list_elem_of_fmap. by exists (k2, v2).
Qed.

Lemma kept_object_iff m m' :
  NoDup m.*1 → NoDup m'.*1 →
  kept (JObject m) = kept (JObject m') ↔ ∀ k, kept (under_key k m) = kept (under_key k m').
Proof.
  intros Hm Hm'. apply kept_entries_keys in Hm as Hk, Hm' as Hk'.
  transitivity (kept_entries m ≡ₚ kept_entries m').
  - rewrite !kept_object. split.
    + intros He.
      assert (sort_entries JNull (kept_entries m) = sort_entries JNull (kept_entries m')) as Hs
        by (destruct (kept_entries m), (kept_entries m'); congruence).
      rewrite <-(sort_entries_perm JNull _ Hk), Hs. by apply sort_entries_perm.
    + intros Hp. assert (Hs := sort_entries_canonical JNull _ _ Hk Hp). clear Hk Hk'.
      destruct (kept_entries m); [by apply Permutation_nil_l in Hp as <-|].
      destruct (kept_entries m'); [by apply Permutation_nil_r in Hp|]. by rewrite Hs.
  - split.
    + intros Hp k. apply option_eq. intros u. by rewrite <-!elem_kept_entries, Hp.
    + intros He. apply NoDup_Permutation; [by eapply NoDup_fmap_1..|].
      intros [k u]. by rewrite !elem_kept_entries, He.
Qed.

(** ** The canonical form decides the relation *)

Lemma under_key_wf k m : wf_json (JObject m) → wf_json (under_key k m).
Proof.
  intros [_ Hw]%wf_object. unfold under_key. destruct (assoc k m) as [v|] eqn:Ha; [|done].
  rewrite Forall_forall in Hw. by apply (Hw (k, v)), assoc_Some_elem.
Qed.

Lemma alike_kept t t' : alike t t' → wf_json t → wf_json t' → kept t = kept t'.
Proof.
  intros H. induction H as [t t' Ht Ht'| | | |l l' _ IH|m m' _ IH| |x l l' Hx _ IH|x l l' Hx _ IH
      |x x' l l' _ IHx _ IH]
    using alike_mut with (P0 := λ l l' _, Forall wf_json l → Forall wf_json l' →
      omap kept l = omap kept l'); try done.
  - intros _ _. apply kept_None in Ht as ->, Ht' as ->. done.
  - rewrite !wf_array, !kept_array. intros Hl Hl'. by rewrite IH.
  - intros Hm Hm'. apply kept_object_iff; [by apply wf_object in Hm as []|by apply wf_object in Hm' as []|].
    intros k. apply IH; by apply under_key_wf.
  - intros [_ Hl]%Forall_cons Hl'. csimpl. apply kept_None in Hx as ->. by apply IH.
  - intros Hl [_ Hl']%Forall_cons. csimpl. apply kept_None in Hx as ->. by apply IH.
  - intros [Hx Hl]%Forall_cons [Hx' Hl']%Forall_cons. csimpl. by rewrite IHx, IH.
Qed.

Lemma kept_items l l' :
  Forall (λ t, ∀ t', wf_json t → wf_json t' → kept t = kept t' → alike t t') l →
  Forall wf_json l → Forall wf_json l' → omap kept l = omap kept l' → alike_items l l'.
Proof.
  intros IH. revert l'. induction IH as [|x l Hx _ IHl]; intros l' Hw Hw' He.
  - symmetry in He. csimpl in He. apply omap_None in He. clear Hw Hw'.
    induction He; [constructor|]. apply items_skip_r; [by apply kept_None|done].
  - apply Forall_cons in Hw as [Hwx Hw]. csimpl in He. destruct (kept x) as [u|] eqn:Hu.
    + induction Hw' as [|x' l' Hwx' Hw' IH']; [done|]. csimpl in He.
      destruct (kept x') as [u'|] eqn:Hu'.
      * injection He as -> He. apply items_cons; [apply Hx; congruence|by apply IHl].
      * apply items_skip_r; [by apply kept_None|by apply IH'].
    + apply items_skip_l; [by apply kept_None|by apply IHl].
Qed.

(** What is kept of a tree has its shape. *)
Lemma kept_shape t u :
  kept t = Some u →
  match t with
  | JNull => False
  | JArray l => u = JArray (omap kept l)
  | JObject m => u = JObject (sort_entries JNull (kept_entries m))
  | _ => u = t
  end.
Proof.
  destruct t; rewrite ?kept_array, ?kept_object; try (by intros [= <-]).
  - by destruct (omap kept l); intros [= <-].
  - by destruct (kept_entries kvs); intros [= <-].
Qed.

Lemma kept_alike t t' : wf_json t → wf_json t' → kept t = kept t' → alike t t'.
Proof.
  revert t'. induction t as [|b|n|s|l IH|m IH] using json_nested_ind; intros t' Hw Hw' He;
    (destruct (kept t') as [u|] eqn:Hu; [|by apply alike_hollow; apply kept_None]).
  all: assert (Hs := kept_shape _ _ He); simpl in Hs; try done; apply kept_shape in Hu as Hs';
    destruct t' as [|b'|n'|s'|l'|m']; try done; try congruence.
  - simplify_eq. apply alike_bool.
  - simplify_eq. apply alike_number.
  - simplify_eq. apply alike_string.
  - apply alike_array, kept_items; [done|by apply wf_array..|congruence].
  - rewrite <-Hu in He. apply alike_object. intros k.
    assert (Hk : kept (under_key k m) = kept (under_key k m')).
    { apply kept_object_iff; [by apply wf_object in Hw as []|by apply wf_object in Hw' as []|done]. }
    apply (under_key_wf k) in Hw, Hw'. destruct (assoc k m) as [v|] eqn:Ha.
    + assert (under_key k m = v) as Hv by (unfold under_key; by rewrite Ha). rewrite Hv in Hw, Hk |- *.
      rewrite Forall_forall in IH. apply assoc_Some_elem in Ha. by apply (IH (k, v)).
    + assert (under_key k m = JNull) as Hv by (unfold under_key; by rewrite Ha). rewrite Hv in Hk |- *.
      by apply alike_hollow; apply kept_None.
Qed.

(** On well-formed trees: the canonical forms agree exactly when the trees are alike. *)
Lemma same_norm_alike t t' :
  wf_json t → wf_json t' → same_norm (pruned t) (pruned t') ↔ alike t t'.
Proof.
  intros Hw Hw'. rewrite kept_pruned. split; [by apply kept_alike|]. intros H. by apply alike_kept.
Qed.
