(* ===== verification/Sha256.v ===== *)
(** [sha256.Sum256] and [hex.EncodeToString], executable on strings of bytes:
    words are [N] below [2 ^ 32] with the wrap-around of uint32 written out. *)

From S2P Require Import Prelude GoStrings JsonText.
From stdpp Require Import options.

Local Open Scope N_scope.

Definition word_mask : N := 4294967295.
Definition wrap (x : N) : N := N.land x word_mask.
Definition add32 (x y : N) : N := wrap (x + y).
Definition rotr (x n : N) : N := N.lor (N.shiftr x n) (wrap (N.shiftl x (32 - n))).
Definition not32 (x : N) : N := N.lxor x word_mask.

Definition round_constants : list N :=
  [1116352408; 1899447441; 3049323471; 3921009573; 961987163; 1508970993;
   2453635748; 2870763221; 3624381080; 310598401; 607225278; 1426881987;
   1925078388; 2162078206; 2614888103; 3248222580; 3835390401; 4022224774;
   264347078; 604807628; 770255983; 1249150122; 1555081692; 1996064986;
   2554220882; 2821834349; 2952996808; 3210313671; 3336571891; 3584528711;
   113926993; 338241895; 666307205; 773529912; 1294757372; 1396182291;
   1695183700; 1986661051; 2177026350; 2456956037; 2730485921; 2820302411;
   3259730800; 3345764771; 3516065817; 3600352804; 4094571909; 275423344;
   430227734; 506948616; 659060556; 883997877; 958139571; 1322822218;
   1537002063; 1747873779; 1955562222; 2024104815; 2227730452; 2361852424;
   2428436474; 2756734187; 3204031479; 3329325298].

Definition initial_state : list N :=
  [1779033703; 3144134277; 1013904242; 2773480762; 1359893119; 2600822924;
   528734635; 1541459225].

(** The message as bytes, padded to a multiple of 64. *)
Fixpoint bytes_of (s : string) : list N :=
  match s with "" => [] | String c s' => code c :: bytes_of s' end.

Definition big_endian (n : nat) (x : N) : list N :=
  (λ i, N.land (N.shiftr x (8 * N.of_nat i)) 255) <$> rev (seq 0 n).

Definition padded (s : string) : list N :=
  let len := String.length s in
  bytes_of s ++ [128] ++ replicate ((119 - len mod 64) mod 64) 0 ++
  big_endian 8 (8 * N.of_nat len).

Fixpoint words (l : list N) : list N :=
  match l with
  | a :: b :: c :: d :: l' =>
    N.lor (N.shiftl a 24) (N.lor (N.shiftl b 16) (N.lor (N.shiftl c 8) d)) :: words l'
  | _ => []
  end.

(** The schedule, latest word first. *)
Fixpoint extend (n : nat) (w : list N) : list N :=
  match n with
  | O => w
  | S n' =>
    let w2 := nth 1 w 0 in
    let w15 := nth 14 w 0 in
    let s1 := N.lxor (rotr w2 17) (N.lxor (rotr w2 19) (N.shiftr w2 10)) in
    let s0 := N.lxor (rotr w15 7) (N.lxor (rotr w15 18) (N.shiftr w15 3)) in
    extend n' (add32 (add32 s1 (nth 6 w 0)) (add32 s0 (nth 15 w 0)) :: w)
  end.

Definition round (st : list N) (kw : N * N) : list N :=
  match st with
  | [a; b; c; d; e; f; g; h] =>
    let S1 := N.lxor (rotr e 6) (N.lxor (rotr e 11) (rotr e 25)) in
    let ch := N.lxor (N.land e f) (N.land (not32 e) g) in
    let t1 := add32 (add32 (add32 h S1) (add32 ch kw.1)) kw.2 in
    let S0 := N.lxor (rotr a 2) (N.lxor (rotr a 13) (rotr a 22)) in
    let maj := N.lxor (N.land a b) (N.lxor (N.land a c) (N.land b c)) in
    [add32 t1 (add32 S0 maj); a; b; c; add32 d t1; e; f; g]
  | _ => st
  end.

Definition compress (st block : list N) : list N :=
  zip_with add32 st
    (foldl round st (zip round_constants (rev (extend 48 (rev (words block)))))).

Fixpoint compress_all (fuel : nat) (st l : list N) : list N :=
  match fuel, l with
  | S fuel', _ :: _ => compress_all fuel' (compress st (take 64 l)) (drop 64 l)
  | _, _ => st
  end.

Definition Sum256 (s : string) : list N :=
  let l := padded s in
  compress_all (length l) initial_state l ≫= big_endian 4.

Definition hex_byte (b : N) : string :=
  String (hex_digit (N.shiftr b 4)) (str1 (hex_digit (N.land b 15))).

Definition EncodeToString (l : list N) : string := concat_str (hex_byte <$> l).

Example Sum256_abc :
  EncodeToString (Sum256 "abc") =
  "ba7816bf8f01cfea414140de5dae2223b00361a396177a9cb410ff61f20015ad".
Proof. vm_compute. reflexivity. Qed.

(** ** The digest has 32 bytes *)

Lemma round_length st kw : length st = 8%nat → length (round st kw) = 8%nat.
Proof. by destruct st as [|a [|b [|c [|d [|e [|f [|g [|h [|]]]]]]]]]. Qed.

Lemma compress_length st block : length st = 8%nat → length (compress st block) = 8%nat.
Proof.
  intros Hst. unfold compress. rewrite length_zip_with.
  assert (H : ∀ kws st', length st' = 8%nat → length (foldl round st' kws) = 8%nat).
  { induction kws as [|kw kws IH]; intros st' H'; [done|]. apply IH. by apply round_length. }
  rewrite Hst, H by done. done.
Qed.

Lemma compress_all_length fuel st l :
  length st = 8%nat → length (compress_all fuel st l) = 8%nat.
Proof.
  revert st l. induction fuel as [|fuel IH]; intros st l Hst; [done|].
  destruct l; [done|]. cbn [compress_all]. apply IH. by apply compress_length.
Qed.

Lemma big_endian_bytes n x : length (big_endian n x) = n ∧ Forall (λ b, b < 256) (big_endian n x).
Proof.
  unfold big_endian. split; [by rewrite length_fmap, length_rev, length_seq|].
  apply Forall_fmap, Forall_true. intros i. simpl. change 255 with (N.ones 8).
  rewrite N.land_ones. by apply N.mod_lt.
Qed.

Lemma Sum256_bytes s : length (Sum256 s) = 32%nat ∧ Forall (λ b, b < 256) (Sum256 s).
Proof.
  unfold Sum256. set (st := compress_all _ _ _).
  assert (Hst : length st = 8%nat) by (by apply compress_all_length).
  assert (H : ∀ l : list N, length (l ≫= big_endian 4) = (4 * length l)%nat ∧
    Forall (λ b, b < 256) (l ≫= big_endian 4)).
  { induction l as [|x l [IH1 IH2]]; [done|]. destruct (big_endian_bytes 4 x) as [H1 H2].
    rewrite bind_cons, length_app, H1, IH1. split; [simpl; lia|]. by apply Forall_app. }
  destruct (H st) as [H1 H2]. by rewrite H1, Hst.
Qed.

Definition lower_hex (c : ascii) : bool := (is_digit c || in_range 97 102 c)%bool.

Lemma hex_digit_lower n : n < 16 → lower_hex (hex_digit n) = true.
Proof.
  intros Hn. unfold lower_hex, hex_digit, is_digit. destruct (N.ltb_spec n 10).
  - assert (in_range 48 57 (byte (48 + n)) = true) as ->; [|done].
    apply in_range_spec. rewrite code_byte; lia.
  - assert (in_range 97 102 (byte (87 + n)) = true) as ->; [|by rewrite orb_true_r].
    apply in_range_spec. rewrite code_byte; lia.
Qed.

Lemma EncodeToString_hex l :
  Forall (λ b, b < 256) l →
  String.length (EncodeToString l) = (2 * length l)%nat ∧
  all_chars lower_hex (EncodeToString l) = true.
Proof.
  induction 1 as [|b l Hb _ [IH1 IH2]]; [done|]. unfold EncodeToString in *. csimpl.
  rewrite length_app_str, IH1, all_chars_app, IH2. split; [simpl; lia|].
  assert (N.shiftr b 4 < 16) by (rewrite N.shiftr_div_pow2; apply N.Div0.div_lt_upper_bound; lia).
  assert (N.land b 15 < 16) by (change 15 with (N.ones 4); rewrite N.land_ones; by apply N.mod_lt).
  unfold hex_byte, str1. simpl. by rewrite !hex_digit_lower.
Qed.
