(* ===== verification/Hash.v ===== *)
(** The memoised accessors [CanonicalJSON] and [NormalizedHash] of a normalised
    spec, and what the canonical encoding and the hash identify
    (spec/canonical.go). *)

From S2P Require Import Prelude GoStrings Errors Values JsonText Types Merge Canonical Alike Sha256.
From stdpp Require Import options.

(** ** Memoised accessors *)

(** The two [sync.Once] cells: [None] before the first call. *)
Record memo := mkMemo {
  canonicalMemo : option (res error string);
  hashMemo : option (res error string);
}.
Definition fresh_memo : memo := mkMemo None None.

(** The receiver's spec is read only by the call that fills the cell. *)
Definition CanonicalJSON (s : AgentSpec) (m : memo) : res error string * memo :=
  match canonicalMemo m with
  | Some r => (r, m)
  | None => let r := computeCanonicalJSON s in (r, mkMemo (Some r) (hashMemo m))
  end.

Definition NormalizedHash (s : AgentSpec) (m : memo) : res error string * memo :=
  match hashMemo m with
  | Some r => (r, m)
  | None =>
    let '(b, m) := CanonicalJSON s m in
    let r := (λ b, EncodeToString (Sum256 b)) <$> b in
    (r, mkMemo (canonicalMemo m) (Some r))
  end.

(** The hash of a spec whose cells are fresh. *)
Definition hash_of (s : AgentSpec) : res error string := (NormalizedHash s fresh_memo).1.

Lemma hash_of_canonical s :
  hash_of s = (λ b, EncodeToString (Sum256 b)) <$> computeCanonicalJSON s.
Proof. done. Qed.

(** ** Specs that only differ in ways the encoding forgets

    Iteration orders of the config and label maps, and nil against empty
    collections. *)

Definition config_equiv (c c' : config) : Prop :=
  any_wf (AMap (Some (entries c))) ∧ reordered (AMap (Some (entries c))) (AMap (Some (entries c'))).

Record ref_equiv (c c' : ComponentRef) : Prop := {
  re_Ref : cr_Ref c = cr_Ref c';
  re_Config : config_equiv (cr_Config c) (cr_Config c');
}.

Definition refs_equiv (l l' : slice ComponentRef) : Prop := Forall2 ref_equiv (elems l) (elems l').
Definition opt_ref_equiv (o o' : option ComponentRef) : Prop := option_Forall2 ref_equiv o o'.

Record metadata_equiv (m m' : Metadata) : Prop := {
  me_ID : md_ID m = md_ID m';
  me_Version : md_Version m = md_Version m';
  me_DisplayName : md_DisplayName m = md_DisplayName m';
  me_Description : md_Description m = md_Description m';
  me_Owners : elems (md_Owners m) = elems (md_Owners m');
  me_distinct : NoDup (entries (md_Labels m)).*1;
  me_Labels : entries (md_Labels m) ≡ₚ entries (md_Labels m');
}.

Definition cred_equiv (c c' : CredRef) : Prop :=
  cd_Ref c = cd_Ref c' ∧ elems (cd_Scopes c) = elems (cd_Scopes c').

Record spec_equiv (s s' : AgentSpec) : Prop := {
  se_APIVersion : APIVersion s = APIVersion s';
  se_Kind : Kind s = Kind s';
  se_Metadata : metadata_equiv (Meta s) (Meta s');
  se_Provider : ref_equiv (Provider s) (Provider s');
  se_System : opt_ref_equiv (pb_System (Prompt s)) (pb_System (Prompt s'));
  se_User : opt_ref_equiv (pb_User (Prompt s)) (pb_User (Prompt s'));
  se_Tools : refs_equiv (Tools s) (Tools s');
  se_Policies : refs_equiv (Policies s) (Policies s');
  se_PreLLM : refs_equiv (fb_PreLLM (Filters s)) (fb_PreLLM (Filters s'));
  se_PreTool : refs_equiv (fb_PreTool (Filters s)) (fb_PreTool (Filters s'));
  se_PostTool : refs_equiv (fb_PostTool (Filters s)) (fb_PostTool (Filters s'));
  se_Budget : Budget s = Budget s';
  se_Telemetry : opt_ref_equiv (Telemetry s) (Telemetry s');
  se_Credentials : option_Forall2 cred_equiv (Credentials s) (Credentials s');
  se_Identity : opt_ref_equiv (Identity s) (Identity s');
  se_Extends : elems (Extends s) = elems (Extends s');
  se_Skills : refs_equiv (Skills s) (Skills s');
  se_MCPImports : refs_equiv (MCPImports s) (MCPImports s');
  se_OutputContract : opt_ref_equiv (OutputContract s) (OutputContract s');
}.

Lemma json_of_config_entries c :
  entries c ≠ [] → json_of_config c = json_of_any (AMap (Some (entries c))).
Proof. by destruct c. Qed.

Lemma reordered_entries_nil m m' :
  reordered (AMap (Some m)) (AMap (Some m')) → m = [] ↔ m' = [].
Proof.
  inversion 1 as [|?|? m1 m2 Hm Hp]; subst; [done|]. split.
  - intros ->. inversion Hm; subst. by apply Permutation_nil_l in Hp.
  - intros ->. apply Permutation_nil_r in Hp as ->. by inversion Hm.
Qed.

#[export] Instance json_of_ref_proper : Proper (ref_equiv ==> eq) json_of_ref.
Proof.
  intros c c' [Hr [Hw Hc]]. unfold json_of_ref. rewrite Hr.
  pose proof (reordered_entries_nil _ _ Hc) as Hnil.
  destruct (decide (entries (cr_Config c) = [])) as [He|He].
  - by rewrite He, (proj1 Hnil He).
  - assert (entries (cr_Config c') ≠ []) as He' by tauto.
    rewrite !json_of_config_entries by done.
    rewrite (json_of_any_reordered _ _ Hw Hc). by destruct (entries (cr_Config c)), (entries (cr_Config c')).
Qed.

Lemma list_field_equiv k l l' :
  refs_equiv l l' → list_field k json_of_ref l = list_field k json_of_ref l'.
Proof.
  unfold refs_equiv, list_field. intros H.
  assert (Hm : mapM_res json_of_ref (elems l) = mapM_res json_of_ref (elems l')).
  { apply mapM_res_ext2. eapply Forall2_impl; [exact H|]. intros c c' Hc. by rewrite Hc. }
  destruct H; [done|]. by rewrite Hm.
Qed.

Lemma pointer_field_equiv k o o' :
  opt_ref_equiv o o' → pointer_field k json_of_ref o = pointer_field k json_of_ref o'.
Proof. destruct 1 as [c c' Hc|]; [|done]. simpl. by rewrite Hc. Qed.

Lemma prod_map_keys {A B} (f : A → B) (l : list (string * A)) : (prod_map id f <$> l).*1 = l.*1.
Proof. induction l as [|[k v] l IH]; csimpl; [done|]. by rewrite IH. Qed.

Lemma labels_field_perm k m m' :
  NoDup (entries m).*1 → entries m ≡ₚ entries m' → labels_field k m = labels_field k m'.
Proof.
  intros Hnd Hp. unfold labels_field.
  assert (Hd : decoded_object (prod_map id json_of_string <$> entries m) =
               decoded_object (prod_map id json_of_string <$> entries m')).
  { apply decoded_object_perm; [|by rewrite Hp]. by rewrite prod_map_keys. }
  destruct (entries m) as [|x l] eqn:He; [by apply Permutation_nil_l in Hp as <-|].
  destruct (entries m') as [|x' l']; [by apply Permutation_nil_r in Hp|]. by rewrite Hd.
Qed.

#[export] Instance json_of_metadata_proper : Proper (metadata_equiv ==> eq) json_of_metadata.
Proof.
  intros m m' [H1 H2 H3 H4 H5 Hnd Hp]. unfold json_of_metadata.
  by rewrite H1, H2, H3, H4, H5, (labels_field_perm _ _ _ Hnd Hp).
Qed.

#[export] Instance json_of_spec_proper : Proper (spec_equiv ==> eq) json_of_spec.
Proof.
  intros s s' []. unfold json_of_spec, json_of_prompt, json_of_filters, strings_field.
  assert (Hcr : pointer_field "credentials" json_of_credentials (Credentials s) =
                pointer_field "credentials" json_of_credentials (Credentials s')).
  { destruct se_Credentials0 as [c c' [Hc1 Hc2]|]; [|done].
    unfold pointer_field, json_of_credentials, strings_field. by rewrite Hc1, Hc2. }
  rewrite Hcr, se_APIVersion0, se_Kind0, se_Budget0, se_Extends0.
  rewrite (json_of_metadata_proper _ _ se_Metadata0), (json_of_ref_proper _ _ se_Provider0).
  rewrite (pointer_field_equiv _ _ _ se_System0), (pointer_field_equiv _ _ _ se_User0).
  rewrite (list_field_equiv _ _ _ se_Tools0), (list_field_equiv _ _ _ se_Policies0).
  rewrite (list_field_equiv _ _ _ se_PreLLM0), (list_field_equiv _ _ _ se_PreTool0).
  rewrite (list_field_equiv _ _ _ se_PostTool0), (pointer_field_equiv _ _ _ se_Telemetry0).
  rewrite (pointer_field_equiv _ _ _ se_Identity0), (list_field_equiv _ _ _ se_Skills0).
  by rewrite (list_field_equiv _ _ _ se_MCPImports0), (pointer_field_equiv _ _ _ se_OutputContract0).
Qed.

(** ** The tree of a spec is well formed *)

Definition ref_wf (c : ComponentRef) : Prop := any_wf (AMap (cr_Config c)).
Definition refs_wf (l : slice ComponentRef) : Prop := Forall ref_wf (elems l).
Definition opt_wf (o : option ComponentRef) : Prop := ∀ c, o = Some c → ref_wf c.

(** The configs of a spec are Go values. *)
Record spec_wf (s : AgentSpec) : Prop := {
  sw_Provider : ref_wf (Provider s);
  sw_System : opt_wf (pb_System (Prompt s));
  sw_User : opt_wf (pb_User (Prompt s));
  sw_Tools : refs_wf (Tools s);
  sw_Policies : refs_wf (Policies s);
  sw_PreLLM : refs_wf (fb_PreLLM (Filters s));
  sw_PreTool : refs_wf (fb_PreTool (Filters s));
  sw_PostTool : refs_wf (fb_PostTool (Filters s));
  sw_Telemetry : opt_wf (Telemetry s);
  sw_Identity : opt_wf (Identity s);
  sw_Skills : refs_wf (Skills s);
  sw_MCPImports : refs_wf (MCPImports s);
  sw_OutputContract : opt_wf (OutputContract s);
}.

(** [part ks l]: the fields [l] have distinct keys among [ks], in that order,
    and well-formed values; parts are put together along the struct. *)
Definition part (ks : list string) (l : list (string * json)) : Prop :=
  l.*1 `sublist_of` ks ∧ Forall wf_entry l.

Lemma part_nil k : part [k] [].
Proof. split; [by apply sublist_nil_l|constructor]. Qed.

Lemma part_empty : part [] [].
Proof. by split. Qed.

Lemma part_field k t : clean k → wf_json t → part [k] (field k t).
Proof. split; [done|]. by constructor; [split|constructor]. Qed.

Lemma part_app k ks l1 l2 : part [k] l1 → part ks l2 → part (k :: ks) (l1 ++ l2).
Proof.
  intros [H1 H1'] [H2 H2']. split; [|by apply Forall_app].
  rewrite fmap_app. change (k :: ks) with ([k] ++ ks). by apply sublist_app.
Qed.

Lemma part_object ks l : NoDup ks → part ks l → wf_json (JObject l).
Proof. intros Hks [Hk Hl]. apply wf_object. split; [by eapply sublist_NoDup|done]. Qed.

Lemma wf_strings l : wf_json (JArray (json_of_string <$> l)).
Proof. apply wf_array, Forall_fmap, Forall_true. intros s. apply json_of_string_wf. Qed.

Lemma part_string_field k s : clean k → part [k] (string_field k s).
Proof.
  intros Hk. unfold string_field. case_bool_decide; [apply part_nil|].
  apply part_field; [done|apply json_of_string_wf].
Qed.

Lemma part_int_field k z : clean k → part [k] (int_field k z).
Proof.
  intros Hk. unfold int_field. case_match; [apply part_nil|].
  apply part_field; [done|apply Itoa_Z_wf].
Qed.

Lemma part_strings_field k l : clean k → part [k] (strings_field k l).
Proof.
  intros Hk. unfold strings_field. destruct (elems l); [apply part_nil|].
  apply part_field; [done|apply wf_strings].
Qed.

Lemma part_list_field {A} k (f : A → res error json) (P : A → Prop) l fs :
  clean k → (∀ x t, P x → f x = Ok t → wf_json t) → Forall P (elems l) →
  list_field k f l = Ok fs → part [k] fs.
Proof.
  unfold list_field. intros Hk HP Hl Hf. destruct (elems l) as [|x xs]; [inv_res; apply part_nil|].
  inv_res. subst. apply part_field; [done|]. apply wf_array. by eapply mapM_res_Forall.
Qed.

Lemma part_pointer_field {A} k (f : A → res error json) (P : A → Prop) o fs :
  clean k → (∀ x t, P x → f x = Ok t → wf_json t) → (∀ x, o = Some x → P x) →
  pointer_field k f o = Ok fs → part [k] fs.
Proof.
  intros Hk HP Ho Hf. destruct o as [x|]; simpl in Hf; inv_res; [|apply part_nil].
  subst. apply part_field; eauto.
Qed.

Lemma part_cons k ks t l : clean k → wf_json t → part ks l → part (k :: ks) ((k, t) :: l).
Proof. intros Hk Ht. apply (part_app k ks [(k, t)]). by apply part_field. Qed.

(** Assemble the parts of an object; the keys are literals. *)
Ltac one_part :=
  first [ apply part_empty
        | eassumption
        | apply part_string_field; vm_compute; reflexivity
        | apply part_int_field; vm_compute; reflexivity
        | apply part_strings_field; vm_compute; reflexivity
        | apply part_field; [vm_compute; reflexivity|] ].
Ltac object_parts :=
  eapply part_object;
  [ | repeat first [ apply part_cons; [vm_compute; reflexivity| |] | apply part_app; [one_part|] ];
      try one_part ];
  [ apply (bool_decide_unpack _); vm_compute; exact I | try apply json_of_string_wf .. ].

Lemma json_of_ref_wf c t : ref_wf c → json_of_ref c = Ok t → wf_json t.
Proof.
  unfold json_of_ref, ref_wf. intros Hw Ht. inv_res.
  assert (Hp : part ["config"] x).
  { destruct (entries (cr_Config c)); inv_res; [apply part_nil|]. subst.
    apply part_field; [by vm_compute|]. by eapply json_of_any_wf. }
  object_parts.
Qed.

Lemma json_of_owner_wf o : wf_json (json_of_owner o).
Proof. unfold json_of_owner. object_parts. Qed.

Lemma json_of_metadata_wf m : wf_json (json_of_metadata m).
Proof.
  unfold json_of_metadata.
  assert (Ho : part ["owners"] match elems (md_Owners m) with
    | [] => [] | os => field "owners" (JArray (json_of_owner <$> os)) end).
  { destruct (elems (md_Owners m)); [apply part_nil|]. apply part_field; [by vm_compute|].
    apply wf_array, Forall_fmap, Forall_true. intros. apply json_of_owner_wf. }
  assert (Hl : part ["labels"] (labels_field "labels" (md_Labels m))).
  { unfold labels_field. destruct (entries (md_Labels m)); [apply part_nil|].
    apply part_field; [by vm_compute|]. apply decoded_object_wf, Forall_fmap, Forall_true.
    intros. apply json_of_string_wf. }
  object_parts.
Qed.

Lemma json_of_budget_wf b t : json_of_budget b = Ok t → wf_json t.
Proof. unfold json_of_budget. intros H. inv_res. object_parts. object_parts. Qed.

Lemma json_of_credentials_wf c t : json_of_credentials c = Ok t → wf_json t.
Proof. unfold json_of_credentials. intros H. inv_res. object_parts. Qed.

Lemma json_of_prompt_wf p t :
  opt_wf (pb_System p) → opt_wf (pb_User p) → json_of_prompt p = Ok t → wf_json t.
Proof.
  unfold json_of_prompt. intros H1 H2 Ht. inv_res.
  eapply (part_pointer_field _ _ ref_wf) in H; [|by vm_compute|apply json_of_ref_wf|done].
  eapply (part_pointer_field _ _ ref_wf) in H0; [|by vm_compute|apply json_of_ref_wf|done].
  object_parts.
Qed.

(** The list and pointer fields whose items are component references. *)
Lemma part_refs k l fs :
  clean k → refs_wf l → list_field k json_of_ref l = Ok fs → part [k] fs.
Proof. intros Hk Hl. apply (part_list_field k json_of_ref ref_wf); [done|apply json_of_ref_wf|done]. Qed.

Lemma part_ref k o fs :
  clean k → opt_wf o → pointer_field k json_of_ref o = Ok fs → part [k] fs.
Proof. intros Hk Ho. apply (part_pointer_field k json_of_ref ref_wf); [done|apply json_of_ref_wf|done]. Qed.

Ltac ref_parts :=
  repeat match goal with
  | H : list_field _ json_of_ref _ = Ok _ |- _ =>
    apply part_refs in H; [|by vm_compute|by assumption]
  | H : pointer_field _ json_of_ref _ = Ok _ |- _ =>
    apply part_ref in H; [|by vm_compute|by assumption]
  end.

Lemma json_of_filters_wf f t :
  refs_wf (fb_PreLLM f) → refs_wf (fb_PreTool f) → refs_wf (fb_PostTool f) →
  json_of_filters f = Ok t → wf_json t.
Proof. unfold json_of_filters. intros H1 H2 H3 Ht. inv_res. ref_parts. object_parts. Qed.

Lemma json_of_spec_wf s t : spec_wf s → json_of_spec s = Ok t → wf_json t.
Proof.
  intros [] Ht. unfold json_of_spec in Ht. inv_res. ref_parts.
  repeat match goal with
  | H : json_of_ref _ = Ok _ |- _ => apply json_of_ref_wf in H; [|assumption]
  | H : json_of_prompt _ = Ok _ |- _ => apply json_of_prompt_wf in H; [|assumption..]
  | H : json_of_filters _ = Ok _ |- _ => apply json_of_filters_wf in H; [|assumption..]
  | H : pointer_field _ json_of_budget _ = Ok _ |- _ =>
    apply (part_pointer_field _ _ (λ _, True)) in H;
      [|by vm_compute|intros ? ? _; apply json_of_budget_wf|done]
  | H : pointer_field _ json_of_credentials _ = Ok _ |- _ =>
    apply (part_pointer_field _ _ (λ _, True)) in H;
      [|by vm_compute|intros ? ? _; apply json_of_credentials_wf|done]
  end.
  object_parts. apply json_of_metadata_wf.
Qed.

(** ** Properties *)

(** two configs compare equal exactly when their trees are alike: the comparison
    of the canonical texts neither confuses different configs nor separates configs
    that differ only in the order of their keys or in nulls and collections that hold
    nothing. *)
Theorem CanonicalConfigsEqual_spec a b ta tb :
  any_wf (AMap a) → any_wf (AMap b) →
  json_of_config a = Ok ta → json_of_config b = Ok tb →
  ∃ eq, CanonicalConfigsEqual a b = Ok eq ∧ (eq = true ↔ alike ta tb).
Proof.
  intros Ha Hb Hta Htb.
  assert (Hc : ∀ c t, json_of_config c = Ok t →
    canonicalizeConfig c = Ok (canonicalEncode (pruned t))).
  { intros c t Ht. unfold canonicalizeConfig, pruned. rewrite Ht. simpl.
    by destruct (pruneEmpty t). }
  unfold CanonicalConfigsEqual. rewrite (Hc _ _ Hta), (Hc _ _ Htb). simpl.
  assert (Hwa := json_of_any_wf _ _ Ha Hta). assert (Hwb := json_of_any_wf _ _ Hb Htb).
  eexists. split; [done|]. rewrite bool_decide_eq_true, <-same_norm_alike by done.
  apply encode_iff; by apply pruned_wf.
Qed.

Definition config_a : config :=
  Some [("b", AInt 1); ("a", AMap (Some [])); ("c", AList (Some [AString "x"; ANil]))].
Definition config_b : config := Some [("c", AList (Some [AString "x"])); ("b", AInt64 1)].
Definition tree_a : json :=
  JObject [("a", JObject []); ("b", JNumber "1"); ("c", JArray [JString "x"; JNull])].
Definition tree_b : json := JObject [("b", JNumber "1"); ("c", JArray [JString "x"])].

Lemma config_a_wf : any_wf (AMap config_a).
Proof. split; [apply (bool_decide_unpack _); vm_compute; exact I|simpl; repeat split; constructor]. Qed.
Lemma config_b_wf : any_wf (AMap config_b).
Proof. split; [apply (bool_decide_unpack _); vm_compute; exact I|simpl; repeat split; constructor]. Qed.

Example CanonicalConfigsEqual_spec_witness :
  ∃ eq, CanonicalConfigsEqual config_a config_b = Ok eq ∧ eq = true.
Proof.
  destruct (CanonicalConfigsEqual_spec config_a config_b tree_a tree_b
    config_a_wf config_b_wf) as (eq & He & Hs); [vm_compute; reflexivity..|].
  exists eq. split; [exact He|]. apply Hs. apply same_norm_alike; [| |vm_compute; reflexivity].
  - exact (json_of_any_wf _ _ config_a_wf (eq_refl (Ok tree_a))).
  - exact (json_of_any_wf _ _ config_b_wf (eq_refl (Ok tree_b))).
Defined.

(** the canonical JSON and the hash do not depend on the iteration order of
    the config and label maps, nor on nil against empty collections. *)
Theorem hash_ignores_map_order s s' :
  spec_equiv s s' → computeCanonicalJSON s = computeCanonicalJSON s' ∧ hash_of s = hash_of s'.
Proof.
  intros Hs. assert (Hc : computeCanonicalJSON s = computeCanonicalJSON s').
  { unfold computeCanonicalJSON. by rewrite (json_of_spec_proper _ _ Hs). }
  split; [done|]. by rewrite !hash_of_canonical, Hc.
Qed.

(** The spec of spec/testdata/normalize/canonical-stable, in both orders. *)
Definition stable_spec (labels : list (string * string)) (cfg : list (string * any)) : AgentSpec :=
  mkAgentSpec "forge.praxis-os.dev/v0" "AgentSpec"
    (mkMetadata "stable.agent" "1.0.0" "" "" None (Some labels))
    (mkComponentRef "provider@1.0.0" (Some cfg))
    (mkPromptBlock (Some (mkComponentRef "prompt.system@1.0.0" None)) None)
    None None (mkFilterBlock None None None) None None None None None None None None.

Definition base_a : AgentSpec :=
  stable_spec [("alpha", "1"); ("beta", "2"); ("gamma", "3")]
    [("maxTokens", AInt 4096); ("model", AString "claude-opus"); ("temperature", AInt 0)].
Definition base_b : AgentSpec :=
  stable_spec [("gamma", "3"); ("alpha", "1"); ("beta", "2")]
    [("temperature", AInt 0); ("model", AString "claude-opus"); ("maxTokens", AInt 4096)].

Lemma base_equiv : spec_equiv base_a base_b.
Proof.
  assert (Hnil : config_equiv None None) by (split; [split; constructor|constructor]).
  split; try done; try constructor; try done.
  - apply (bool_decide_unpack _). vm_compute. exact I.
  - simpl. apply (bool_decide_unpack _). vm_compute. exact I.
  - split; [split; [apply (bool_decide_unpack _); vm_compute; exact I|simpl; tauto]|].
    apply (reordered_map _ (entries (cr_Config (Provider base_a)))); [|exact (Permutation_rev _)].
    simpl. repeat constructor.
Qed.

Example hash_ignores_map_order_witness : hash_of base_a = hash_of base_b.
Proof. exact (proj2 (hash_ignores_map_order _ _ base_equiv)). Defined.

(** The golden files of the repository. *)
Example golden_hash :
  hash_of base_b = Ok "84eb0a2e820c7a9676ead6611dde13493a0806d7f2def0594501441a4a3a5e8c".
Proof. vm_compute. reflexivity. Qed.

(** C14: the canonical JSON is a complete invariant: two specs that marshal have
    the same canonical JSON exactly when their trees are alike, that is, equal up to
    the order of the keys and up to nulls and collections that hold nothing, which
    are left out at every depth. *)
Theorem canonical_JSON_complete s s' t t' :
  spec_wf s → spec_wf s' → json_of_spec s = Ok t → json_of_spec s' = Ok t' →
  computeCanonicalJSON s = computeCanonicalJSON s' ↔ alike t t'.
Proof.
  intros Hs Hs' Ht Ht'. unfold computeCanonicalJSON. rewrite Ht, Ht'. simpl.
  assert (Hw := json_of_spec_wf _ _ Hs Ht). assert (Hw' := json_of_spec_wf _ _ Hs' Ht').
  rewrite <-same_norm_alike, <-encode_iff by (try apply pruned_wf; done).
  split; [by intros [= H]|by intros ->].
Qed.

Lemma stable_wf labels cfg : any_wf (AMap (Some cfg)) → spec_wf (stable_spec labels cfg).
Proof.
  intros Hc. split; try done; try (by intros c [= <-]).
  all: try (by constructor).
Qed.

Definition tree_of (s : AgentSpec) : json := match json_of_spec s with Ok t => t | Err _ => JNull end.

(** The stable spec with entries that hold nothing, and with another value. *)
Definition base_padded : AgentSpec :=
  stable_spec [("gamma", "3"); ("alpha", "1"); ("beta", "2")]
    [("temperature", AInt 0); ("stop", AList (Some [ANil; AMap (Some [])])); ("extra", ANil);
     ("model", AString "claude-opus"); ("maxTokens", AInt 4096)].
Definition base_hotter : AgentSpec :=
  stable_spec [("alpha", "1"); ("beta", "2"); ("gamma", "3")]
    [("maxTokens", AInt 4096); ("model", AString "claude-opus"); ("temperature", AInt 1)].

Example canonical_JSON_complete_witness :
  computeCanonicalJSON base_a = computeCanonicalJSON base_padded ∧
  ¬ alike (tree_of base_a) (tree_of base_hotter).
Proof.
  assert (Hwf : ∀ labels cfg, any_wf (AMap (Some cfg)) → spec_wf (stable_spec labels cfg))
    by exact stable_wf.
  assert (Ha : spec_wf base_a)
    by (apply Hwf; split; [apply (bool_decide_unpack _); vm_compute; exact I|simpl; tauto]).
  assert (Hp : spec_wf base_padded).
  { apply Hwf. split; [apply (bool_decide_unpack _); vm_compute; exact I|].
    simpl. repeat split; constructor. }
  assert (Hh : spec_wf base_hotter)
    by (apply Hwf; split; [apply (bool_decide_unpack _); vm_compute; exact I|simpl; tauto]).
  split.
  - apply (canonical_JSON_complete base_a base_padded (tree_of base_a) (tree_of base_padded) Ha Hp);
      [vm_compute; reflexivity..|].
    apply same_norm_alike; [exact (json_of_spec_wf _ _ Ha (eq_refl (Ok (tree_of base_a))))
      |exact (json_of_spec_wf _ _ Hp (eq_refl (Ok (tree_of base_padded))))|vm_compute; reflexivity].
  - intros Hal. assert (Hc : computeCanonicalJSON base_a = computeCanonicalJSON base_hotter).
    { apply (canonical_JSON_complete base_a base_hotter (tree_of base_a) (tree_of base_hotter) Ha Hh);
        [vm_compute; reflexivity..|exact Hal]. }
    vm_compute in Hc. discriminate Hc.
Defined.

(** the hash of a spec, when its canonical JSON exists, is a lower-case hex
    string of 64 characters, and it fails only as the canonical JSON does. *)
Theorem hash_shape s :
  match computeCanonicalJSON s with
  | Ok b => ∃ h, hash_of s = Ok h ∧ h = EncodeToString (Sum256 b) ∧
      String.length h = 64 ∧ all_chars lower_hex h = true
  | Err e => hash_of s = Err e
  end.
Proof.
  rewrite hash_of_canonical. destruct (computeCanonicalJSON s) as [b|e]; [|done].
  eexists. split; [done|]. split; [done|].
  destruct (Sum256_bytes b) as [Hl Hb]. apply EncodeToString_hex in Hb as [Hlen Hhex].
  by rewrite Hlen, Hl.
Qed.

(** memoisation: the first call fixes the answer.  Whatever the spec has
    become since, later calls return the canonical JSON and the hash of the spec
    at the first call, consistent with each other, and leave the cells as they
    are. *)
Theorem memo_fixed_at_first_call s s' s'' :
  let m := (NormalizedHash s fresh_memo).2 in
  NormalizedHash s' m = (hash_of s, m) ∧ CanonicalJSON s'' m = (computeCanonicalJSON s, m) ∧
  hash_of s = (λ b, EncodeToString (Sum256 b)) <$> computeCanonicalJSON s.
Proof. done. Qed.

(** pruning leaves exactly the trees without null and without empty
    collection at any depth as they are, and its result is such a tree. *)
Theorem pruneEmpty_complete t :
  (pruneEmpty t = Some t ↔ solid t) ∧ from_option solid True (pruneEmpty t).
Proof.
  split.
  - split; [apply pruneEmpty_solid|apply solid_pruneEmpty].
  - destruct (pruneEmpty t) as [t'|] eqn:Ht; [|done]. by apply pruneEmpty_solid in Ht.
Qed.
