(* ===== verification/Kernel.v ===== *)
(** The praxis kernel as the repository sees it: types and functions of
    packages that are not part of the repository, as the fields of a class, with
    the few facts the repository relies on.

    Values behind a Go interface are functions.  A method of foreign code may
    have effects (network, clock, its own state): it maps a world to its result
    and the world after it. *)

From S2P Require Import Prelude GoStrings Errors Values Extends.
From stdpp Require Import options.

(** The int64 fields of praxis [budget.Config] that budget.go names. *)
Inductive BudgetField :=
| MaxWallClock | MaxInputTokens | MaxOutputTokens | MaxToolCalls | MaxCostMicrodollars.
#[export] Instance BudgetField_eq_dec : EqDecision BudgetField.
Proof. solve_decision. Defined.

Class Kernel := {
  World : Type;
  (** llm *)
  Provider_ : Type;
  Message : Type;
  ToolDefinition : Type;
  def_Name : ToolDefinition → string;
  (** tools *)
  ToolCall : Type;
  call_Name : ToolCall → string;
  zero_ToolCall : ToolCall;
  ToolResult : Type;
  zero_ToolResult : ToolResult;
  InvocationContext : Type;
  (** hooks *)
  Phase : Type;
  PolicyInput : Type;
  Verdict : Type;
  Verdict_eq_dec :: EqDecision Verdict;
  VerdictAllow : Verdict;
  VerdictDeny : Verdict;
  VerdictRequireApproval : Verdict;
  VerdictLog : Verdict;
  VerdictContinue : Verdict;
  Decision_ : Type;
  d_Verdict : Decision_ → Verdict;
  Decision_of : Verdict → Decision_;          (* hooks.Decision{Verdict: v} *)
  FilterAction : Type;
  FilterAction_eq_dec :: EqDecision FilterAction;
  FilterActionBlock : FilterAction;
  FilterDecision : Type;
  fd_Action : FilterDecision → FilterAction;
  fd_Reason : FilterDecision → string;
  (** budget, telemetry, credentials, identity *)
  Guard : Type;
  BudgetConfig : Type;
  cfg_get : BudgetField → BudgetConfig → Z;
  cfg_set : BudgetField → Z → BudgetConfig → BudgetConfig;
  Emitter : Type;
  Enricher : Type;
  Resolver : Type;
  Resolver_nil : Resolver → bool;             (* [r == nil] *)
  Signer : Type;
  Signer_nil : Signer → bool;
  (** time.Time and time.Now().UTC() *)
  Time : Type;
  Now_UTC : World → Time * World;
  (** What the repository relies on: the verdicts are distinct constants, and
      the fields of a struct are independent. *)
  verdicts_distinct :
    NoDup [VerdictAllow; VerdictDeny; VerdictRequireApproval; VerdictLog; VerdictContinue];
  Decision_of_Verdict v : d_Verdict (Decision_of v) = v;
  cfg_get_set f v c : cfg_get f (cfg_set f v c) = v;
  cfg_get_set_ne f g v c : f ≠ g → cfg_get f (cfg_set g v c) = cfg_get f c;
}.

(** ** Effectful calls *)

Definition IO `{K : Kernel} (A : Type) : Type := World → res error A * World.

Section io.
Context `{K : Kernel}.

Definition io_ret {A} (a : A) : IO A := λ w, (Ok a, w).
Definition io_fail {A} (e : error) : IO A := λ w, (Err e, w).
Definition io_lift {A} (r : res error A) : IO A := λ w, (r, w).
Definition io_bind {A B} (m : IO A) (f : A → IO B) : IO B := λ w,
  match m w with
  | (Ok a, w') => f a w'
  | (Err e, w') => (Err e, w')
  end.
(** [if err != nil { return fmt.Errorf(..., err) }]. *)
Definition io_wrap {A} (m : IO A) (f : error → error) : IO A := λ w,
  let '(r, w') := m w in (map_err f r, w').

(** A loop with an index whose body may return an error. *)
Fixpoint io_loop {A B} (f : nat → A → IO B) (i : nat) (l : list A) : IO (list B) :=
  match l with
  | [] => io_ret []
  | x :: l' =>
    io_bind (f i x) (λ y, io_bind (io_loop f (S i) l') (λ ys, io_ret (y :: ys)))
  end.

(** A loop with an index that updates a state. *)
Fixpoint io_foldi {St A} (f : nat → St → A → IO St) (i : nat) (acc : St) (l : list A) : IO St :=
  match l with
  | [] => io_ret acc
  | x :: l' => io_bind (f i acc x) (λ acc, io_foldi f (S i) acc l')
  end.

Lemma io_bind_Ok {A B} (m : IO A) (f : A → IO B) w b w' :
  io_bind m f w = (Ok b, w') ↔ ∃ a w1, m w = (Ok a, w1) ∧ f a w1 = (Ok b, w').
Proof. unfold io_bind. destruct (m w) as [[a|e] w1]; naive_solver. Qed.

Lemma io_bind_Err {A B} (m : IO A) (f : A → IO B) w e w' :
  io_bind m f w = (Err e, w') ↔
  m w = (Err e, w') ∨ ∃ a w1, m w = (Ok a, w1) ∧ f a w1 = (Err e, w').
Proof. unfold io_bind. destruct (m w) as [[a|e'] w1]; naive_solver. Qed.

Lemma io_wrap_Ok {A} (m : IO A) f w a w' : io_wrap m f w = (Ok a, w') ↔ m w = (Ok a, w').
Proof. unfold io_wrap. destruct (m w) as [[a'|e] w1]; simpl; naive_solver. Qed.

Lemma io_wrap_Err {A} (m : IO A) f w e w' :
  io_wrap m f w = (Err e, w') ↔ ∃ e', m w = (Err e', w') ∧ e = f e'.
Proof. unfold io_wrap. destruct (m w) as [[a'|e'] w1]; simpl; naive_solver. Qed.

Lemma io_lift_Ok {A} (r : res error A) w a w' : io_lift r w = (Ok a, w') ↔ r = Ok a ∧ w' = w.
Proof. unfold io_lift. naive_solver. Qed.

(** A completed loop ran its body on every element, each from the world the
    previous one left. *)
Inductive loop_run {A B} (f : nat → A → IO B) : nat → list A → World → list B → World → Prop :=
| loop_nil i w : loop_run f i [] w [] w
| loop_cons i x l w y w1 ys w' :
    f i x w = (Ok y, w1) → loop_run f (S i) l w1 ys w' → loop_run f i (x :: l) w (y :: ys) w'.

Lemma io_loop_Ok {A B} (f : nat → A → IO B) i l w ys w' :
  io_loop f i l w = (Ok ys, w') ↔ loop_run f i l w ys w'.
Proof.
  revert i w ys w'. induction l as [|x l IH]; intros i w ys w'; simpl.
  - unfold io_ret. split; [intros [= <- <-]; constructor|by inversion 1; subst].
  - rewrite io_bind_Ok. split.
    + intros (y & w1 & Hx & (ys' & w2 & Hl%IH & [= <- <-])%io_bind_Ok). by econstructor.
    + inversion 1 as [|? ? ? ? y w1 ys' ? Hx Hl]; subst. exists y, w1. split; [done|].
      apply io_bind_Ok. exists ys', w'. by rewrite IH.
Qed.

(** What holds of every element and its image. *)
Lemma loop_run_Forall2 {A B} (P : A → B → Prop) (f : nat → A → IO B) i l w ys w' :
  (∀ i x w y w1, x ∈ l → f i x w = (Ok y, w1) → P x y) →
  loop_run f i l w ys w' → Forall2 P l ys.
Proof.
  intros HP Hr. induction Hr as [|i x l w y w1 ys w' Hf _ IH]; constructor.
  - eapply HP; [left|done].
  - apply IH. intros. eapply HP; [by right|done].
Qed.

(** Induction over a completed stateful loop: [P] tells of the elements done. *)
Lemma io_foldi_inv {St A} (P : list A → St → Prop) (f : nat → St → A → IO St) done i l acc w acc' w' :
  (∀ pre x s i w s' w', P pre s → x ∈ l → f i s x w = (Ok s', w') → P (pre ++ [x]) s') →
  P done acc → io_foldi f i acc l w = (Ok acc', w') → P (done ++ l) acc'.
Proof.
  revert done i acc w. induction l as [|x l IH]; intros pre i acc w Hstep Hacc Hf; simpl in Hf.
  - unfold io_ret in Hf. injection Hf as <- _. by rewrite app_nil_r.
  - apply io_bind_Ok in Hf as (s & w1 & Hx & Hl).
    change (x :: l) with ([x] ++ l). rewrite (assoc_L (++)). eapply IH; [|eapply Hstep; eauto; left|done].
    intros. eapply Hstep; eauto. by right.
Qed.
End io.

(** [x ←ₑ m; k] in IO. *)
Declare Scope io_scope.
Delimit Scope io_scope with io.
Notation "x <- m ;; k" := (io_bind m (λ x, k))
  (at level 100, m at next level, right associativity) : io_scope.
(** Invert successful runs. *)
Ltac inv_io :=
  repeat match goal with
  | H : io_bind _ _ _ = (Ok _, _) |- _ => apply io_bind_Ok in H as (? & ? & ? & ?)
  | H : io_wrap _ _ _ = (Ok _, _) |- _ => apply io_wrap_Ok in H
  | H : io_ret _ _ = (_, _) |- _ => unfold io_ret in H; injection H as ? ?; subst
  | H : io_lift _ _ = (Ok _, _) |- _ => apply io_lift_Ok in H as [? ?]; subst
  | H : io_fail _ _ = (Ok _, _) |- _ => discriminate H
  | H : (Ok _, _) = (Ok _, _) |- _ => injection H as ? ?; subst
  | H : (Err _, _) = (Ok _, _) |- _ => discriminate H
  end.

(** ** A concrete kernel

    The parameters are satisfiable: plain data, a world that records the calls
    made, verdicts as an enumeration. *)

Inductive sample_verdict := SAllow | SDeny | SApproval | SLog | SContinue.
#[export] Instance sample_verdict_eq_dec : EqDecision sample_verdict.
Proof. solve_decision. Defined.

Definition sample_cfg_get (f : BudgetField) (c : Z * Z * Z * Z * Z) : Z :=
  let '(a, b, d, e, g) := c in
  match f with
  | MaxWallClock => a | MaxInputTokens => b | MaxOutputTokens => d
  | MaxToolCalls => e | MaxCostMicrodollars => g
  end.
Definition sample_cfg_set (f : BudgetField) (v : Z) (c : Z * Z * Z * Z * Z) : Z * Z * Z * Z * Z :=
  let '(a, b, d, e, g) := c in
  match f with
  | MaxWallClock => (v, b, d, e, g) | MaxInputTokens => (a, v, d, e, g)
  | MaxOutputTokens => (a, b, v, e, g) | MaxToolCalls => (a, b, d, v, g)
  | MaxCostMicrodollars => (a, b, d, e, v)
  end.

Definition sample_kernel : Kernel.
Proof.
  refine {|
    World := list string;
    Provider_ := string; Message := string;
    ToolDefinition := string; def_Name := id;
    ToolCall := string; call_Name := id; zero_ToolCall := "";
    ToolResult := string; zero_ToolResult := ""; InvocationContext := unit;
    Phase := unit; PolicyInput := string;
    Verdict := sample_verdict; VerdictAllow := SAllow; VerdictDeny := SDeny;
    VerdictRequireApproval := SApproval; VerdictLog := SLog; VerdictContinue := SContinue;
    Decision_ := sample_verdict * string; d_Verdict := fst; Decision_of := λ v, (v, "");
    FilterAction := bool; FilterActionBlock := true;
    FilterDecision := bool * string; fd_Action := fst; fd_Reason := snd;
    Guard := unit; BudgetConfig := Z * Z * Z * Z * Z;
    cfg_get := sample_cfg_get; cfg_set := sample_cfg_set;
    Emitter := unit; Enricher := unit;
    Resolver := option unit; Resolver_nil := λ r, match r with None => true | Some _ => false end;
    Signer := unit; Signer_nil := λ _, false;
    Time := nat; Now_UTC := λ w, (length w, w);
  |}.
  - apply (bool_decide_unpack _). vm_compute. exact I.
  - done.
  - by intros [] v [[[[? ?] ?] ?] ?].
  - by intros [] [] v [[[[? ?] ?] ?] ?] ?.
Defined.
