(* ===== verification/Registry.v ===== *)
(** The component registry (registry/): kinds, what factories produce, and the
    typed per-kind maps with their lock and their frozen flag. *)

From S2P Require Import Prelude GoStrings Errors Values Extends Ids Kernel.
From stdpp Require Import options.

(** ** registry/kind.go *)

Inductive RKind :=
| KindProvider | KindPromptAsset | KindToolPack | KindPolicyPack | KindPreLLMFilter
| KindPreToolFilter | KindPostToolFilter | KindBudgetProfile | KindTelemetryProfile
| KindCredentialResolver | KindIdentitySigner | KindSkill | KindOutputContract
| KindMCPBinding.

#[export] Instance RKind_eq_dec : EqDecision RKind.
Proof. solve_decision. Defined.

(** The string constants. *)
Definition slug (k : RKind) : string :=
  match k with
  | KindProvider => "provider" | KindPromptAsset => "prompt_asset"
  | KindToolPack => "tool_pack" | KindPolicyPack => "policy_pack"
  | KindPreLLMFilter => "pre_llm_filter" | KindPreToolFilter => "pre_tool_filter"
  | KindPostToolFilter => "post_tool_filter" | KindBudgetProfile => "budget_profile"
  | KindTelemetryProfile => "telemetry_profile"
  | KindCredentialResolver => "credential_resolver"
  | KindIdentitySigner => "identity_signer" | KindSkill => "skill"
  | KindOutputContract => "output_contract" | KindMCPBinding => "mcp_binding"
  end.

#[export] Instance slug_inj : Inj (=) (=) slug.
Proof. intros [] [] H; first [done|discriminate H]. Qed.

(** ** registry/types.go *)

(** Go's string types with named constants; any string inhabits them. *)
Abbreviation RiskTier := string.
Definition RiskLow : RiskTier := "low".
Definition RiskModerate : RiskTier := "moderate".
Definition RiskHigh : RiskTier := "high".
Definition RiskDestructive : RiskTier := "destructive".

Record ToolDescriptor := mkToolDescriptor {
  td_Name : string; td_Owner : string; td_RiskTier : RiskTier;
  td_PolicyTags : slice string; td_AuthScopes : slice string;
  td_TimeoutHint : Z; td_Source : string;
}.
Record PolicyDescriptor := mkPolicyDescriptor {
  pd_Name : string; pd_Owner : string; pd_PolicyTags : slice string; pd_Source : string;
}.
Record RequiredComponent := mkRequiredComponent { rc_ID : ID; rc_Config : config }.
Record SkillDescriptor := mkSkillDescriptor {
  sd_Name : string; sd_Owner : string; sd_Summary : string; sd_Tags : slice string;
}.
Record SkillValue := mkSkill {
  sk_PromptFragment : string;
  sk_RequiredTools : slice RequiredComponent;
  sk_RequiredPolicies : slice RequiredComponent;
  sk_RequiredOutputContract : option RequiredComponent;
  sk_Descriptor : SkillDescriptor;
}.
Record OutputContractDescriptor := mkOutputContractDescriptor {
  od_Name : string; od_Owner : string; od_Summary : string;
}.
Record OutputContractValue := mkOutputContract {
  oc_Schema : config; oc_Descriptor : OutputContractDescriptor;
}.
Abbreviation MCPTransport := string.
Definition MCPTransportStdio : MCPTransport := "stdio".
Definition MCPTransportHTTP : MCPTransport := "http".
Record MCPConnection := mkMCPConnection {
  mc_Transport : MCPTransport; mc_Command : slice string; mc_Env : gomap string;
  mc_URL : string; mc_Headers : gomap string;
}.
Record MCPAuth := mkMCPAuth {
  ma_CredentialRef : ID; ma_Scheme : string; ma_HeaderName : string;
}.
Record MCPTrust := mkMCPTrust { mt_Tier : string; mt_Owner : string; mt_Tags : slice string }.
Abbreviation OnNewToolPolicy := string.
Definition OnNewToolBlock : OnNewToolPolicy := "block".
Definition OnNewToolAllowIfMatch : OnNewToolPolicy := "allow-if-match-allowlist".
Definition OnNewToolRequireReapprove : OnNewToolPolicy := "require-reapproval".
Record MCPBindingDescriptor := mkMCPBindingDescriptor {
  mbd_Name : string; mbd_Summary : string; mbd_Tags : slice string;
}.
Record MCPBindingValue := mkMCPBinding {
  mb_ID : string; mb_Connection : MCPConnection; mb_Auth : option MCPAuth;
  mb_Allow : slice string; mb_Deny : slice string; mb_Policies : slice ID;
  mb_Trust : MCPTrust; mb_OnNewTool : OnNewToolPolicy; mb_Descriptor : MCPBindingDescriptor;
}.

Section types.
Context `{K : Kernel}.

(** The single-method interfaces of the kernel. *)
Definition Invoker : Type := context → InvocationContext → ToolCall → IO ToolResult.
Definition PolicyHook : Type := context → Phase → PolicyInput → IO Decision_.
(** A filter returns its value, its decisions and an error together. *)
Definition FilterOf (T : Type) : Type :=
  context → T → World → (T * slice FilterDecision * option error) * World.
Definition PreLLMFilter : Type := FilterOf (slice Message).
Definition PreToolFilter : Type := FilterOf ToolCall.
Definition PostToolFilter : Type := FilterOf ToolResult.

Record ToolPack := mkToolPack {
  tp_Invoker : Invoker; tp_Definitions : slice ToolDefinition; tp_Descriptors : slice ToolDescriptor;
}.
Record PolicyPack := mkPolicyPack { pp_Hook : PolicyHook; pp_Descriptors : slice PolicyDescriptor }.
Record BudgetProfile := mkBudgetProfile { bp_Guard : Guard; bp_DefaultConfig : BudgetConfig }.
Record TelemetryProfile := mkTelemetryProfile { tp_Emitter : Emitter; tp_Enricher : Enricher }.

(** ** registry/factories.go: what [Build] of each kind returns. *)
Definition Product (k : RKind) : Type :=
  match k with
  | KindProvider => Provider_
  | KindPromptAsset => string
  | KindToolPack => ToolPack
  | KindPolicyPack => PolicyPack
  | KindPreLLMFilter => PreLLMFilter
  | KindPreToolFilter => PreToolFilter
  | KindPostToolFilter => PostToolFilter
  | KindBudgetProfile => BudgetProfile
  | KindTelemetryProfile => TelemetryProfile
  | KindCredentialResolver => Resolver
  | KindIdentitySigner => Signer
  | KindSkill => SkillValue
  | KindOutputContract => OutputContractValue
  | KindMCPBinding => MCPBindingValue
  end.

(** A factory: its three methods. *)
Record Factory (k : RKind) := mkFactory {
  f_ID : ID;
  f_Description : string;
  f_Build : context → config → IO (Product k);
}.
End types.
Arguments mkFactory {_ _}.
Arguments f_ID {_ _}.
Arguments f_Description {_ _}.
Arguments f_Build {_ _}.

(** ** registry/registry.go *)

Section registry.
Context `{K : Kernel}.

(** The fourteen maps, by kind. *)
Record ComponentRegistry := mkRegistry {
  frozen : bool;
  factories : ∀ k, gmap ID (Factory k);
}.

Definition NewComponentRegistry : ComponentRegistry := mkRegistry false (λ _, ∅).

Definition Freeze (r : ComponentRegistry) : ComponentRegistry := mkRegistry true (factories r).

(** [r.<map of kind k> = m]. *)
Definition with_map (k : RKind) (m : gmap ID (Factory k)) (r : ComponentRegistry)
    : ComponentRegistry :=
  mkRegistry (frozen r) (λ k',
    match decide (k = k') with
    | left e => eq_rect k (λ k, gmap ID (Factory k)) m k' e
    | right _ => factories r k'
    end).

(** [fmt.Errorf("%w: kind=%s id=%s", sentinel, kind, id)]. *)
Definition registry_error (s : registry_sentinel) (k : RKind) (id : ID) : error :=
  EWrap (Sprintf "%w: kind=%s id=%s" [FS (slug k); FS id]) (ESentinel s).

(** The body of every [Register<Kind>]. *)
Definition Register (k : RKind) (f : Factory k) (r : ComponentRegistry)
    : option error * ComponentRegistry :=
  if frozen r then (Some (ESentinel ErrRegistryFrozen), r)
  else match factories r k !! f_ID f with
  | Some _ => (Some (registry_error ErrDuplicate k (f_ID f)), r)
  | None => (None, with_map k (<[f_ID f := f]> (factories r k)) r)
  end.

(** The body of every lookup. *)
Definition Lookup (k : RKind) (id : ID) (r : ComponentRegistry) : res error (Factory k) :=
  match factories r k !! id with
  | None => Err (registry_error ErrNotFound k id)
  | Some f => Ok f
  end.

Definition RegisterProvider := Register KindProvider.
Definition RegisterPromptAsset := Register KindPromptAsset.
Definition RegisterToolPack := Register KindToolPack.
Definition RegisterPolicyPack := Register KindPolicyPack.
Definition RegisterPreLLMFilter := Register KindPreLLMFilter.
Definition RegisterPreToolFilter := Register KindPreToolFilter.
Definition RegisterPostToolFilter := Register KindPostToolFilter.
Definition RegisterBudgetProfile := Register KindBudgetProfile.
Definition RegisterTelemetryProfile := Register KindTelemetryProfile.
Definition RegisterCredentialResolver := Register KindCredentialResolver.
Definition RegisterIdentitySigner := Register KindIdentitySigner.
Definition RegisterSkill := Register KindSkill.
Definition RegisterOutputContract := Register KindOutputContract.
Definition RegisterMCPBinding := Register KindMCPBinding.

Definition LookupProvider := Lookup KindProvider.
Definition LookupPromptAsset := Lookup KindPromptAsset.
Definition LookupToolPack := Lookup KindToolPack.
Definition LookupPolicyPack := Lookup KindPolicyPack.
Definition LookupPreLLMFilter := Lookup KindPreLLMFilter.
Definition LookupPreToolFilter := Lookup KindPreToolFilter.
Definition LookupPostToolFilter := Lookup KindPostToolFilter.
Definition LookupBudgetProfile := Lookup KindBudgetProfile.
Definition LookupTelemetryProfile := Lookup KindTelemetryProfile.
Definition LookupCredentialResolver := Lookup KindCredentialResolver.
Definition LookupIdentitySigner := Lookup KindIdentitySigner.
Definition LookupSkill := Lookup KindSkill.
Definition LookupOutputContract := Lookup KindOutputContract.
Definition LookupMCPBinding := Lookup KindMCPBinding.

(** ** Concurrent use

    Every operation holds the registry's lock from start to end, so a
    concurrent execution acts as a sequence of whole operations (shown in
    RegistryLock).  [reg_step] is one of them; a lookup changes nothing. *)
Inductive reg_step : ComponentRegistry → ComponentRegistry → Prop :=
| step_register k f r : reg_step r (Register k f r).2
| step_lookup r : reg_step r r
| step_freeze r : reg_step r (Freeze r).

Definition reachable (r : ComponentRegistry) : Prop := rtc reg_step NewComponentRegistry r.
End registry.

(** ** Lemmas *)

Section registry_lemmas.
Context `{K : Kernel}.

Lemma with_map_same k m r : factories (with_map k m r) k = m.
Proof. simpl. destruct (decide (k = k)) as [e|]; [|done]. by rewrite (proof_irrel e eq_refl). Qed.

Lemma with_map_ne k k' m r : k ≠ k' → factories (with_map k m r) k' = factories r k'.
Proof. intros Hne. simpl. by destruct (decide (k = k')). Qed.

Lemma Lookup_Ok k id r f : Lookup k id r = Ok f ↔ factories r k !! id = Some f.
Proof. unfold Lookup. destruct (factories r k !! id); naive_solver. Qed.

(** What a registration does to the maps, whatever its outcome. *)
Lemma Register_lookup k (f : Factory k) r k' id :
  factories (Register k f r).2 k' !! id = factories r k' !! id ∨
  (frozen r = false ∧ factories r k !! f_ID f = None ∧ ∃ e : k = k', id = f_ID f ∧
     factories (Register k f r).2 k' !! id = Some (eq_rect k Factory f k' e)).
Proof.
  unfold Register. destruct (frozen r) eqn:Hf; [by left|].
  destruct (factories r k !! f_ID f) as [g|] eqn:Hg; [by left|].
  destruct (decide (k = k')) as [<-|Hne]; [|left; simpl; by destruct (decide (k = k'))].
  cbn [snd]. rewrite with_map_same. destruct (decide (id = f_ID f)) as [->|Hid].
  - right. split_and!; [done|done|]. exists eq_refl. by rewrite lookup_insert_eq.
  - left. by rewrite lookup_insert_ne.
Qed.

Lemma Register_frozen k (f : Factory k) r : frozen (Register k f r).2 = frozen r.
Proof.
  unfold Register. destruct (frozen r) eqn:Hf; [done|].
  by destruct (factories r k !! f_ID f).
Qed.

(** A factory is stored under its own id. *)
Definition keyed (r : ComponentRegistry) : Prop :=
  ∀ k id f, factories r k !! id = Some f → f_ID f = id.

Lemma step_keyed r r' : reg_step r r' → keyed r → keyed r'.
Proof.
  destruct 1 as [k f r| |]; [|done|done]. intros Hk k' id g Hg.
  destruct (Register_lookup k f r k' id) as [Hl|(_ & _ & <- & -> & Hl)]; rewrite Hl in Hg.
  - by eapply Hk.
  - simpl in Hg. by injection Hg as <-.
Qed.

Lemma reachable_keyed r : reachable r → keyed r.
Proof.
  intros Hr. unfold reachable in Hr.
  assert (H0 : keyed NewComponentRegistry) by (intros k id f; simpl; by rewrite lookup_empty).
  revert H0. generalize dependent NewComponentRegistry. intros r0 Hr H0.
  induction Hr as [|x y z Hxy _ IH]; [done|]. apply IH. by eapply step_keyed.
Qed.

Lemma step_lookup_stable r r' k id f :
  reg_step r r' → factories r k !! id = Some f → factories r' k !! id = Some f.
Proof.
  destruct 1 as [k' f' r| |]; [|done|done]. intros Hf.
  destruct (Register_lookup k' f' r k id) as [Hl|(_ & Hn & <- & -> & _)]; [by rewrite Hl|].
  congruence.
Qed.

Lemma step_frozen r r' k id :
  reg_step r r' → frozen r = true →
  frozen r' = true ∧ factories r' k !! id = factories r k !! id.
Proof.
  destruct 1 as [k' f' r| |]; [|done|done]. intros Hf. split; [by rewrite Register_frozen|].
  destruct (Register_lookup k' f' r k id) as [Hl|(Hn & _)]; [done|congruence].
Qed.
End registry_lemmas.

(** ** Properties *)

Section registry_properties.
Context `{K : Kernel}.

(** registration, on every branch: a frozen registry refuses everything, a
    second factory for the same kind and id is refused and the first one kept,
    and otherwise the factory can be looked up under its id while no other kind
    or id is affected. *)
Theorem Register_spec k (f : Factory k) r :
  (frozen r = true ∧ Register k f r = (Some (ESentinel ErrRegistryFrozen), r)) ∨
  (frozen r = false ∧ (∃ g, Lookup k (f_ID f) r = Ok g) ∧
     Register k f r = (Some (registry_error ErrDuplicate k (f_ID f)), r)) ∨
  (frozen r = false ∧ is_ok (Lookup k (f_ID f) r) = false ∧
     ∃ r', Register k f r = (None, r') ∧ frozen r' = false ∧ Lookup k (f_ID f) r' = Ok f ∧
       ∀ k' id, k' ≠ k ∨ id ≠ f_ID f → Lookup k' id r' = Lookup k' id r).
Proof.
  unfold Register, Lookup. destruct (frozen r) eqn:Hf; [by left|right].
  destruct (factories r k !! f_ID f) as [g|] eqn:Hg; [left; split_and!; [done|by exists g|done]|].
  right. split_and!; [done|done|]. eexists. split_and!; [done|by simpl| |].
  - by rewrite with_map_same, lookup_insert_eq.
  - intros k' id Hne. destruct (decide (k = k')) as [<-|?].
    + destruct Hne as [?|Hid]; [done|]. by rewrite with_map_same, lookup_insert_ne.
    + by rewrite with_map_ne.
Qed.

(** lookups are stable: in every registry reachable by any interleaving of
    registrations, lookups and freezes, a factory is found under its own id, and
    once a lookup succeeds it gives the same factory in every later state. *)
Theorem registry_lookup_stable r r' k id f :
  reachable r → rtc reg_step r r' → Lookup k id r = Ok f →
  f_ID f = id ∧ Lookup k id r' = Ok f.
Proof.
  rewrite !Lookup_Ok. intros Hr Hrr Hf. split; [by eapply reachable_keyed|].
  induction Hrr as [|x y z Hxy _ IH]; [done|]. apply IH.
  - unfold reachable in *. by eapply rtc_r.
  - by eapply step_lookup_stable.
Qed.

(** freezing seals the registry: from then on, whatever operations run in
    whatever order, every lookup gives the same answer, every registration is
    refused with ErrRegistryFrozen, and the registry never thaws. *)
Theorem registry_freeze_seals r r' :
  rtc reg_step (Freeze r) r' →
  frozen r' = true ∧
  (∀ k id, Lookup k id r' = Lookup k id r) ∧
  (∀ k f, Register k f r' = (Some (ESentinel ErrRegistryFrozen), r')).
Proof.
  intros Hrr.
  assert (Hs : frozen r' = true ∧ ∀ k id, factories r' k !! id = factories r k !! id).
  { assert (Hf : frozen (Freeze r) = true) by done.
    assert (Hl : ∀ k id, factories (Freeze r) k !! id = factories r k !! id) by done.
    revert Hf Hl. generalize dependent (Freeze r). intros x Hrr.
    induction Hrr as [x|x y z Hxy _ IH]; intros Hf Hl; [done|].
    apply IH.
    - by destruct (step_frozen x y KindProvider "" Hxy Hf).
    - intros k id. destruct (step_frozen x y k id Hxy Hf) as [_ ->]. apply Hl. }
  destruct Hs as [Hf Hl]. split_and!; [done| |].
  - intros k id. unfold Lookup. by rewrite Hl.
  - intros k f. unfold Register. by rewrite Hf.
Qed.

(** of two registrations for the same kind and id, whatever runs between
    them, the first one wins: the second fails and the registry still holds the
    first factory. *)
Theorem first_registration_wins k (f g : Factory k) r r1 r2 :
  Register k f r = (None, r1) → rtc reg_step r1 r2 → f_ID g = f_ID f →
  (∃ e, Register k g r2 = (Some e, r2)) ∧ Lookup k (f_ID f) r2 = Ok f.
Proof.
  intros Hr Hrr Hid.
  assert (H1 : factories r1 k !! f_ID f = Some f).
  { unfold Register in Hr. destruct (frozen r); [done|].
    destruct (factories r k !! f_ID f); [done|]. injection Hr as <-.
    by rewrite with_map_same, lookup_insert_eq. }
  assert (H2 : factories r2 k !! f_ID f = Some f).
  { clear Hr. induction Hrr as [|x y z Hxy _ IH]; [done|]. apply IH.
    by eapply step_lookup_stable. }
  split; [|by apply Lookup_Ok]. unfold Register. rewrite Hid, H2.
  destruct (frozen r2); eauto.
Qed.
End registry_properties.

(** A prompt factory over the sample kernel, for the witnesses. *)
Definition sample_factory (id text : string) : @Factory sample_kernel KindPromptAsset :=
  mkFactory (k := KindPromptAsset) id "sample" (λ _ _, io_ret text).
Definition sample_registry : @ComponentRegistry sample_kernel :=
  (Register KindPromptAsset (sample_factory "prompt.a@1.0.0" "hello")
     (NewComponentRegistry (K := sample_kernel))).2.

Lemma sample_reachable : reachable sample_registry.
Proof. apply rtc_once. constructor. Qed.

Example registry_lookup_stable_witness :
  Lookup KindPromptAsset "prompt.a@1.0.0" (Freeze sample_registry) =
  Ok (sample_factory "prompt.a@1.0.0" "hello").
Proof.
  apply (registry_lookup_stable sample_registry (Freeze sample_registry)).
  - exact sample_reachable.
  - apply rtc_once. constructor.
  - vm_compute. reflexivity.
Defined.

Example registry_freeze_seals_witness :
  Lookup KindPromptAsset "prompt.b@1.0.0" (Freeze sample_registry) =
  Lookup KindPromptAsset "prompt.b@1.0.0" sample_registry.
Proof.
  apply (registry_freeze_seals sample_registry (Freeze sample_registry)). apply rtc_refl.
Defined.

Example first_registration_wins_witness :
  Lookup KindPromptAsset "prompt.a@1.0.0" (Freeze sample_registry) =
  Ok (sample_factory "prompt.a@1.0.0" "hello").
Proof.
  apply (first_registration_wins KindPromptAsset (sample_factory "prompt.a@1.0.0" "hello")
    (sample_factory "prompt.a@1.0.0" "other") NewComponentRegistry sample_registry
    (Freeze sample_registry)).
  - vm_compute. reflexivity.
  - apply rtc_once. constructor.
  - reflexivity.
Defined.
