(* ===== verification/ErrorText.v ===== *)
(** The text of the errors of [Validate] and [Normalize] (spec/validate.go,
    spec/validate_mcp.go, spec/locked.go, spec/normalize.go, spec/errors.go): every
    message recorded has operands of the kinds its verbs take, so that the text of
    an aggregate lists all its violations. *)

From S2P Require Import Prelude GoStrings Errors Values Glob Types Ids Merge Extends.
From S2P Require Import Validate Normalize Render JsonText.
From stdpp Require Import options.

Section text.
Context (IsPrint : N → bool) (foreign : string → string).

(** A message that is rendered, and an aggregator of such messages and of sentinels
    of the package [spec]. *)
Definition readable (m : fmsg) : Prop := is_Some (message_text IsPrint foreign m None).
Definition clear (e : Errors) : Prop :=
  Forall readable (msgs e) ∧ Forall (λ s, ∃ x, s = ESentinel (SpecErr x)) (sentinels e).

Lemma readable_fits m :
  message_fits m false = true → (∀ e, e ∈ operand_errors m → rendered IsPrint foreign e) → readable m.
Proof. apply message_rendered. Qed.

(** The usual case: no error among the operands. *)
Lemma readable_plain m : message_fits m false = true → operand_errors m = [] → readable m.
Proof. intros Hf Hm. apply readable_fits; [done|]. rewrite Hm. by intros e ?%elem_of_nil. Qed.

Lemma clear_no_errors : clear no_errors.
Proof. by split. Qed.
Lemma clear_Addf e m : clear e → readable m → clear (Addf e m).
Proof. intros [He Hs] Hm. split; [|done]. apply Forall_app. by split; [|constructor]. Qed.
Lemma clear_Wrap e x m : clear e → readable m → clear (Wrap e (ESentinel (SpecErr x)) m).
Proof.
  intros [He Hs] Hm. split; apply Forall_app; (split; [done|]); repeat constructor; [done|by exists x].
Qed.

Lemma clear_range {A} (f : nat → Errors → A → Errors) i l e :
  (∀ i e x, clear e → clear (f i e x)) → clear e → clear (range f i l e).
Proof. intros Hf. revert i e. induction l as [|x l IH]; intros i e He; simpl; auto. Qed.

#[local] Hint Resolve clear_no_errors : forge.

(** [solve_clear]: follow the branches of a check down to the messages. *)
Ltac solve_clear :=
  repeat first
    [ assumption
    | match goal with
      | |- clear (Addf _ _) => apply clear_Addf
      | |- clear (Wrap _ _ _) => apply clear_Wrap
      | |- readable _ => apply readable_plain; reflexivity
      | |- clear (range _ _ _ _) => apply clear_range; [intros ? ? ? ?|]
      | |- clear (if ?b then _ else _) => destruct b
      | |- clear (match ?x with _ => _ end) => destruct x eqn:?
      end
    | solve [auto with forge] ].

(** An operand that is an error. *)
Lemma readable_ParseID field ref err :
  ParseID ref = Err err → readable (Sprintf "%s: %s" [FS field; FErr err]).
Proof.
  intros [_ ->]%ParseID_Err. apply readable_fits; [done|]. simpl.
  intros e ->%list_elem_of_singleton.
  apply (readable_plain (Sprintf "invalid component id %q: want <dotted-name>@<semver>" [FS ref])); done.
Qed.

Lemma clear_validateRef e field ref : clear e → clear (validateRef e field ref).
Proof.
  intros He. unfold validateRef. case_bool_decide; [solve_clear|].
  destruct (ParseID ref) eqn:Hp; [done|]. apply clear_Addf; [done|]. by eapply readable_ParseID.
Qed.

Lemma clear_validateKindPrefixedRef e field ref prefix :
  clear e → clear (validateKindPrefixedRef e field ref prefix).
Proof.
  intros He. unfold validateKindPrefixedRef. case_bool_decide; [solve_clear|].
  destruct (ParseID ref) eqn:Hp; [solve_clear|]. apply clear_Addf; [done|]. by eapply readable_ParseID.
Qed.
#[local] Hint Resolve clear_validateRef clear_validateKindPrefixedRef : forge.

Lemma clear_validateMCPConnection e field conn : clear e → clear (validateMCPConnection e field conn).
Proof. intros He. unfold validateMCPConnection. solve_clear. Qed.
Lemma clear_validateMCPOnNewTool e field v : clear e → clear (validateMCPOnNewTool e field v).
Proof. intros He. unfold validateMCPOnNewTool. solve_clear. Qed.
Lemma clear_validateMCPAuth e field auth : clear e → clear (validateMCPAuth e field auth).
Proof. intros He. unfold validateMCPAuth. solve_clear. Qed.
Lemma clear_validateGlobList e field l : clear e → clear (validateGlobList e field l).
Proof.
  intros He. unfold validateGlobList. apply clear_range; [|done]. intros i e' p He'.
  destruct (as_string p) as [s|]; [|solve_clear]. destruct (glob_ok s); [done|].
  apply clear_Addf; [done|]. apply readable_fits; [done|]. simpl.
  intros e0 ->%list_elem_of_singleton. by eexists.
Qed.
#[local] Hint Resolve clear_validateMCPConnection clear_validateMCPOnNewTool
  clear_validateMCPAuth clear_validateGlobList : forge.

Lemma clear_validateMCPFields e field cfg : clear e → clear (validateMCPFields e field cfg).
Proof. intros He. unfold validateMCPFields. auto 6 with forge. Qed.
#[local] Hint Resolve clear_validateMCPFields : forge.

Lemma clear_validateMCPImportsFrom i seen e l : clear e → clear (validateMCPImportsFrom i seen e l).
Proof.
  revert i seen e. induction l as [|ref l IH]; intros i seen e He; simpl; [done|].
  destruct (negb _); [apply IH; solve_clear|]. case_bool_decide; [apply IH, clear_validateMCPFields; solve_clear|].
  destruct (seen !! _); apply IH, clear_validateMCPFields; solve_clear.
Qed.

Lemma clear_duplicateToolsFrom i seen e l : clear e → clear (duplicateToolsFrom i seen e l).
Proof.
  revert i seen e. induction l as [|t l IH]; intros i seen e He; simpl; [done|].
  destruct (seen !! _); apply IH; solve_clear.
Qed.

Lemma clear_validateHeader s e : clear e → clear (validateHeader s e).
Proof. intros He. unfold validateHeader. solve_clear. Qed.
Lemma clear_validatePromptSystem s e : clear e → clear (validatePromptSystem s e).
Proof. intros He. unfold validatePromptSystem. solve_clear. Qed.
Lemma clear_validateRefs prefix l e : clear e → clear (validateRefs prefix l e).
Proof. intros He. unfold validateRefs. solve_clear. Qed.
Lemma clear_validatePrefixed what prefix l e : clear e → clear (validatePrefixed what prefix l e).
Proof. intros He. unfold validatePrefixed. solve_clear. Qed.
Lemma clear_validateOptional {T} (ref : T → string) field o e :
  clear e → clear (validateOptional ref field o e).
Proof. intros He. unfold validateOptional. solve_clear. Qed.
#[local] Hint Resolve clear_validateMCPImportsFrom clear_duplicateToolsFrom clear_validateHeader
  clear_validatePromptSystem clear_validateRefs clear_validatePrefixed clear_validateOptional : forge.

Lemma clear_validateErrors s : clear (validateErrors s).
Proof.
  unfold validateErrors, validateMCPImportsStructure.
  apply clear_duplicateToolsFrom. destruct (OutputContract s); [apply clear_validateKindPrefixedRef|];
    apply clear_validatePrefixed, clear_validateMCPImportsFrom, clear_validatePrefixed;
    (destruct (Nat.ltb _ _); [apply clear_Addf; [|by apply readable_plain]|]); auto 20 with forge.
Qed.

Lemma clear_scanLockedDrift base overlays e : clear e → clear (scanLockedDrift base overlays e).
Proof.
  intros He. unfold scanLockedDrift. apply clear_range; [|done]. intros i e' [ov|] He'; [|done].
  assert (Hf : ∀ field name got b e, clear e → clear (scanField field i name got b e)).
  { intros field name got b e1 H1. unfold scanField, lockedMsg. destruct (_ && _)%bool; [|done].
    apply clear_Wrap; [done|]. destruct (negb _); by apply readable_plain. }
  unfold scanOverlay. destruct (ob_Metadata (ov_Spec ov)); auto.
Qed.

(** ** The text of an aggregate *)

Abbreviation text_of := (λ m t, message_text IsPrint foreign m None = Some t).

Lemma Error_text_aggregate ms ss :
  Error_text IsPrint foreign (ESpec ms ss) =
  match mapM (λ m, message_text IsPrint foreign m None) ms with
  | Some ts => Errors_Error IsPrint ts
  | None => None
  end.
Proof. done. Qed.

Lemma Errors_Error_text ts : Errors_Error IsPrint ts = Some ("spec validation failed: " +:+ Join ts "; ").
Proof.
  transitivity (Some ("spec validation failed: " +:+ Join ts "; " +:+ "")); [done|].
  by rewrite app_nil_r_str.
Qed.

Lemma aggregate_text ms ss :
  Forall readable ms → ∃ ts, Forall2 text_of ms ts ∧
    Error_text IsPrint foreign (ESpec ms ss) = Some ("spec validation failed: " +:+ Join ts "; ").
Proof.
  intros Hms. assert (Hts : ∃ ts, Forall2 text_of ms ts).
  { induction Hms as [|m ms [t Ht] _ [ts Hts]]; [by exists []|]. exists (t :: ts). by constructor. }
  destruct Hts as [ts Hts]. exists ts. split; [done|].
  rewrite Error_text_aggregate, (proj2 (mapM_Some _ ms ts) Hts). by rewrite Errors_Error_text.
Qed.

Lemma rendered_aggregate ms ss : rendered IsPrint foreign (ESpec ms ss) → Forall readable ms.
Proof.
  unfold rendered. rewrite Error_text_aggregate. destruct (mapM _ ms) as [ts|] eqn:Hts; [|by intros []].
  intros _. apply mapM_Some in Hts. induction Hts; constructor; [by eexists|done].
Qed.

Lemma OrNil_legible e err : clear e → OrNil e = Some err → legible IsPrint foreign err.
Proof.
  intros [He Hss] [_ ->]%OrNil_Some. destruct (aggregate_text (msgs e) (sentinels e) He) as (ts & _ & Ht).
  eexists. split; [exact Ht|]. intros s Hsp. simpl. case_bool_decide as Hv; [by rewrite Hv in Hsp|].
  intros (x & Hx & Hxs)%existsb_exists. rewrite Forall_forall in Hss.
  apply list_elem_of_In in Hx. destruct (Hss x Hx) as (y & ->). simpl in Hxs.
  apply bool_decide_eq_true in Hxs as <-. done.
Qed.

(** Every failure of Normalize is legible if those of the context and of the store
    are, and the store returns no nil specification. *)
Lemma Normalize_legible ctx s overlays store e :
  (∀ n e, ctx_Err ctx n = Some e → legible IsPrint foreign e) →
  (∀ st n r t e, store = Some st → store_Load st ctx n r = (t, Err e) → legible IsPrint foreign e) →
  (∀ st n r t, store = Some st → store_Load st ctx n r ≠ (t, Ok None)) →
  Normalize ctx s overlays store = Err e → legible IsPrint foreign e.
Proof.
  intros Hctx Hstore Hnil. unfold Normalize.
  intros [Hc|([parents chain] & _ & Hn)]%bind_Err.
  { unfold resolveExtendsChain in Hc. destruct (elems (Extends s)) as [|r l]; [done|].
    destruct store as [st|]; [|injection Hc as <-; apply ok_sentinel].
    apply bind_Err in Hc as [Hw|(? & _ & ?)]; [|done].
    eapply (walk_error_inv ctx st (legible IsPrint foreign)); [exact Hctx|..|exact Hw].
    - intros n r' t e' Hl. apply ok_wrap; [done|done|]. by eapply Hstore.
    - intros p r'. eexists. split; [done|]. simpl. intros s' Hsp Hs'.
      apply bool_decide_eq_true in Hs' as ->. done.
    - intros [?|(n & r' & t & Hl)]; [done|]. by apply Hnil in Hl.
    - unfold walk_fuel, MaxExtendsDepth. lia. }
  apply bind_Err in Hn as [Ho|(st & _ & Hn)].
  { unfold applyOverlays in Ho. destruct (Nat.ltb _ _); [|done]. injection Ho as <-. solve_ok. }
  destruct (Validate st.1) as [err|] eqn:Hv.
  { injection Hn as <-. by eapply OrNil_legible; [apply clear_validateErrors|]. }
  destruct (OrNil _) as [err|] eqn:Hd; [|done]. injection Hn as <-.
  by eapply OrNil_legible; [apply clear_scanLockedDrift, clear_no_errors|].
Qed.

(** every failure of Normalize has a text without a marker of [fmt], given that
    this holds of the errors of the store and of the context and the store returns no nil
    specification; and the text of an
    aggregate of violations is the header followed by the text of every violation,
    in the order they were recorded. *)
Theorem Normalize_error_text ctx s overlays store e :
  (∀ n e, ctx_Err ctx n = Some e → legible IsPrint foreign e) →
  (∀ st n r t e, store = Some st → store_Load st ctx n r = (t, Err e) → legible IsPrint foreign e) →
  (∀ st n r t, store = Some st → store_Load st ctx n r ≠ (t, Ok None)) →
  Normalize ctx s overlays store = Err e →
  (∃ t, Error_text IsPrint foreign e = Some t) ∧
  ∀ ms ss, e = ESpec ms ss → ∃ ts, Forall2 text_of ms ts ∧
    Error_text IsPrint foreign e = Some ("spec validation failed: " +:+ Join ts "; ").
Proof.
  intros Hctx Hstore Hnil Hn.
  pose proof (legible_rendered _ _ _ (Normalize_legible _ _ _ _ _ Hctx Hstore Hnil Hn)) as Hr.
  split; [exact Hr|]. intros ms ss ->. apply aggregate_text. by eapply rendered_aggregate.
Qed.
End text.

(** A spec without a provider and a prompt, and one whose parent is not in the
    store. *)
Definition bare_spec : AgentSpec :=
  mkAgentSpec expectedAPIVersion expectedKind (mkMetadata "acme.demo" "1.0.0" "" "" None None)
    (mkComponentRef "" None) (mkPromptBlock None None) None None (mkFilterBlock None None None)
    None None None None None None None None.

Example bare_spec_text :
  match Normalize Background bare_spec [] None with
  | Err e => Error_text (λ _, true) id e
  | Ok _ => None
  end = Some "spec validation failed: provider.ref: required; prompt.system: required".
Proof. vm_compute. reflexivity. Qed.

Example missing_parent_text :
  match Normalize Background (demo_base (Some ["acme.gone@1.0.0"])) [] (Some demo_store) with
  | Err e => Error_text (λ _, true) id e
  | Ok _ => None
  end = Some ("resolve " +:+ quote "acme.gone@1.0.0" +:+
              ": MapSpecStore: acme.gone@1.0.0: spec store: ref not found").
Proof. vm_compute. reflexivity. Qed.

Example Normalize_error_text_witness :
  ∃ ms ss ts, Normalize Background bare_spec [] None = Err (ESpec ms ss) ∧ length ms = 2 ∧
    Error_text (λ _, true) id (ESpec ms ss) = Some ("spec validation failed: " +:+ Join ts "; ").
Proof.
  destruct (Normalize Background bare_spec [] None) as [n|e] eqn:Hn; [vm_compute in Hn; discriminate Hn|].
  assert (He : ∃ ms ss, e = ESpec ms ss ∧ length ms = 2).
  { vm_compute in Hn. injection Hn as <-. eexists _, _. by split. }
  destruct He as (ms & ss & -> & Hl).
  destruct (Normalize_error_text (λ _, true) id Background bare_spec [] None (ESpec ms ss)) as [_ Ht].
  - done.
  - done.
  - done.
  - exact Hn.
  - destruct (Ht ms ss eq_refl) as (ts & _ & Hts). exists ms, ss, ts. split; [reflexivity|]. by split.
Defined.
