(* ===== verification/RegistrySpec.v ===== *)
(** The abstract specification of the component registry, and the proof that
    registry/registry.go implements it.

    The specification has no maps and no flag: it answers an operation from the
    history of the operations before it. *)

From S2P Require Import Prelude GoStrings Errors Values Ids Extends Kernel Registry.
From stdpp Require Import options.

Section history.
Context `{K : Kernel}.

Inductive op :=
| OpRegister (k : RKind) (f : Factory k)
| OpLookup (k : RKind) (id : ID)
| OpFreeze.

Inductive answer :=
| Registered (e : option error)
| Found (k : RKind) (r : res error (Factory k))
| Done.

(** ** The specification *)

Definition is_freeze (o : op) : bool := match o with OpFreeze => true | _ => false end.

(** Frozen: some operation before was a freeze. *)
Definition sealed (h : list op) : bool := existsb is_freeze h.

(** The factory an operation offers for a kind and an id. *)
Definition offered (o : op) (k : RKind) (id : ID) : option (Factory k) :=
  match o with
  | OpRegister k' f =>
    match decide (k' = k) with
    | left e => if decide (f_ID f = id) then Some (eq_rect k' Factory f k e) else None
    | right _ => None
    end
  | _ => None
  end.

(** The first one offered before any freeze. *)
Fixpoint registered_in (h : list op) (k : RKind) (id : ID) : option (Factory k) :=
  match h with
  | [] => None
  | o :: h' =>
    if is_freeze o then None
    else match offered o k id with
    | Some f => Some f
    | None => registered_in h' k id
    end
  end.

Definition spec_answer (h : list op) (o : op) : answer :=
  match o with
  | OpRegister k f =>
    Registered (if sealed h then Some (ESentinel ErrRegistryFrozen)
                else match registered_in h k (f_ID f) with
                | Some _ => Some (registry_error ErrDuplicate k (f_ID f))
                | None => None
                end)
  | OpLookup k id =>
    Found k match registered_in h k id with
            | Some f => Ok f
            | None => Err (registry_error ErrNotFound k id)
            end
  | OpFreeze => Done
  end.

(** The answers of a whole run: each operation after the ones before it. *)
Fixpoint spec_answers (before h : list op) : list answer :=
  match h with
  | [] => []
  | o :: h' => spec_answer before o :: spec_answers (before ++ [o]) h'
  end.

(** ** The implementation *)

Definition exec (o : op) (r : ComponentRegistry) : answer * ComponentRegistry :=
  match o with
  | OpRegister k f => let '(e, r) := Register k f r in (Registered e, r)
  | OpLookup k id => (Found k (Lookup k id r), r)
  | OpFreeze => (Done, Freeze r)
  end.

Fixpoint exec_all (h : list op) (r : ComponentRegistry) : list answer * ComponentRegistry :=
  match h with
  | [] => ([], r)
  | o :: h' =>
    let '(a, r) := exec o r in
    let '(l, r) := exec_all h' r in
    (a :: l, r)
  end.

(** ** Refinement *)

(** What the registry keeps of the history. *)
Record implements (h : list op) (r : ComponentRegistry) : Prop := {
  impl_frozen : frozen r = sealed h;
  impl_maps k id : factories r k !! id = registered_in h k id;
}.

Lemma implements_new : implements [] NewComponentRegistry.
Proof. split; [done|]. intros k id. simpl. by rewrite lookup_empty. Qed.

Lemma sealed_snoc h o : sealed (h ++ [o]) = (sealed h || is_freeze o)%bool.
Proof. unfold sealed. rewrite existsb_app. simpl. by rewrite orb_false_r. Qed.

(** One more operation only matters while nothing is registered and no freeze
    has happened. *)
Lemma registered_snoc h o k id :
  registered_in (h ++ [o]) k id =
  match registered_in h k id with
  | Some f => Some f
  | None => if (sealed h || is_freeze o)%bool then None else offered o k id
  end.
Proof.
  unfold sealed. induction h as [|o' h IH]; simpl.
  - destruct (is_freeze o); [done|]. by destruct (offered o k id).
  - destruct (is_freeze o'); [done|]. destruct (offered o' k id); [done|]. by rewrite IH.
Qed.

Lemma offered_self k (f : Factory k) : offered (OpRegister k f) k (f_ID f) = Some f.
Proof.
  simpl. destruct (decide (k = k)) as [e|]; [|done]. rewrite decide_True by done.
  by rewrite (proof_irrel e eq_refl).
Qed.

Lemma offered_other k (f : Factory k) k' id :
  k ≠ k' ∨ id ≠ f_ID f → offered (OpRegister k f) k' id = None.
Proof.
  simpl. intros H. destruct (decide (k = k')) as [e|]; [|done]. rewrite decide_False; [done|]. naive_solver.
Qed.

Lemma exec_spec o h r :
  implements h r → (exec o r).1 = spec_answer h o ∧ implements (h ++ [o]) (exec o r).2.
Proof.
  intros [Hf Hm]. destruct o as [k f|k id|]; simpl.
  - unfold Register. rewrite Hf, Hm. destruct (sealed h) eqn:Hs; [|destruct (registered_in h k (f_ID f)) eqn:Hr].
    + split; [done|]. split; [cbn [snd]; by rewrite Hf, sealed_snoc, Hs|]. intros k' id.
      rewrite registered_snoc, Hs, Hm. by destruct (registered_in h k' id).
    + split; [done|]. split; [rewrite sealed_snoc, Hs; exact Hf|]. intros k' id.
      rewrite registered_snoc, Hs, Hm. destruct (registered_in h k' id) eqn:Hr'; [done|].
      cbn [orb is_freeze]. rewrite offered_other; [done|].
      destruct (decide (k = k')) as [<-|?]; [|by left]. right. congruence.
    + split; [done|]. split; [rewrite sealed_snoc, Hs; exact Hf|]. intros k' id. cbn [snd].
      rewrite registered_snoc, Hs. cbn [orb is_freeze].
      destruct (decide (k = k')) as [<-|Hne].
      * rewrite with_map_same. destruct (decide (id = f_ID f)) as [->|Hid].
        -- by rewrite lookup_insert_eq, Hr, offered_self.
        -- rewrite lookup_insert_ne, Hm, offered_other by auto. by destruct (registered_in h k id).
      * rewrite with_map_ne, Hm, offered_other by auto. by destruct (registered_in h k' id).
  - unfold Lookup. rewrite Hm. split; [by destruct (registered_in h k id)|].
    split; [by rewrite sealed_snoc, orb_false_r|]. intros k' id'. rewrite registered_snoc, Hm. simpl.
    destruct (registered_in h k' id'); [done|]. by rewrite orb_false_r; destruct (sealed h).
  - split; [done|]. split; [by rewrite sealed_snoc, orb_true_r|]. intros k id. rewrite registered_snoc, orb_true_r.
    simpl. rewrite Hm. by destruct (registered_in h k id).
Qed.

Lemma exec_all_spec h before r :
  implements before r →
  (exec_all h r).1 = spec_answers before h ∧ implements (before ++ h) (exec_all h r).2.
Proof.
  revert before r. induction h as [|o h IH]; intros before r Hi; simpl.
  - by rewrite app_nil_r.
  - destruct (exec_spec o before r Hi) as [Ha Hi']. destruct (exec o r) as [a r1]. cbn [fst snd] in *.
    destruct (IH _ _ Hi') as [Hl Hi'']. destruct (exec_all h r1) as [l r2]. cbn [fst snd] in *.
    rewrite <-(assoc_L (++)) in Hi''. by subst.
Qed.

(** C9: the registry implements its specification: for every sequence of
    registrations, lookups and freezes, from a new registry, all the answers are
    those computed from the history alone: a lookup gives the first factory
    registered for its kind and id before any freeze, a registration is refused
    after a freeze or when its kind and id are taken, and succeeds otherwise. *)
Theorem registry_refines h :
  (exec_all h NewComponentRegistry).1 = spec_answers [] h ∧
  ∀ k id, Lookup k id (exec_all h NewComponentRegistry).2 =
    match registered_in h k id with
    | Some f => Ok f
    | None => Err (registry_error ErrNotFound k id)
    end.
Proof.
  destruct (exec_all_spec h [] NewComponentRegistry implements_new) as [Ha Hi]. split; [done|].
  intros k id. unfold Lookup. by rewrite (impl_maps _ _ Hi).
Qed.
End history.
