(* ===== verification/Sync.v ===== *)
(** Objects whose methods hold a [sync.RWMutex] from start to end, used by
    several goroutines at once.

    A method is a program of single accesses to the shared state ([code]), run
    between the acquisition and the release of the lock; a configuration
    interleaves the accesses of all the calls in flight in any order.  The file
    shows, for every such object: the mutual exclusion the lock gives and that no
    two accesses race; that what the callers observe is what an object with
    atomic methods could have answered (linearizability); that calls finish. *)

From S2P Require Import Prelude.
From stdpp Require Import options.

(** ** Sums over the goroutines *)

Section total.
Context {V : Type}.
Implicit Types (W : V → nat) (P : V → bool) (m : gmap nat V).

Definition total W m : nat := sum_list_with (λ p, W p.2) (map_to_list m).

Lemma total_empty W : total W ∅ = 0.
Proof. unfold total. by rewrite map_to_list_empty. Qed.

Lemma total_new W m t v : m !! t = None → total W (<[t := v]> m) = W v + total W m.
Proof.
  intros Hm. unfold total. by rewrite (sum_list_with_Permutation_proper _ _ _ (map_to_list_insert m t v Hm)).
Qed.

Lemma total_delete W m t v : m !! t = Some v → total W m = W v + total W (delete t m).
Proof.
  intros Hm. rewrite <-(insert_delete_id m t v Hm) at 1. apply total_new. apply lookup_delete_eq.
Qed.

Lemma total_update W m t v v' :
  m !! t = Some v → total W (<[t := v']> m) + W v = total W m + W v'.
Proof.
  intros Hm. rewrite (total_delete W m t v Hm), <-insert_delete_eq.
  rewrite total_new by apply lookup_delete_eq. lia.
Qed.

Lemma total_ext W W' m :
  (∀ t v, m !! t = Some v → W v = W' v) → total W m = total W' m.
Proof.
  induction m as [|t v m Hm IH] using map_ind; intros HW; [by rewrite !total_empty|].
  rewrite !total_new by done. rewrite (HW t v) by apply lookup_insert_eq. f_equal. apply IH.
  intros t' v' Ht'. apply (HW t'). rewrite lookup_insert_ne; [done|]. intros <-. congruence.
Qed.

(** A change of one entry and of the weights that leaves the other weights. *)
Lemma total_change W W' m t v v' :
  m !! t = Some v → (∀ t' x, t ≠ t' → m !! t' = Some x → W' x = W x) →
  total W' (<[t := v']> m) + W v = total W m + W' v'.
Proof.
  intros Hm HW. rewrite (total_delete W m t v Hm), <-insert_delete_eq.
  rewrite total_new by apply lookup_delete_eq. rewrite (total_ext W' W (delete t m)); [lia|].
  intros t' x [Hne Ht']%lookup_delete_Some. by eapply HW.
Qed.

Lemma total_le W n m : (∀ t v, m !! t = Some v → W v ≤ n) → total W m ≤ n * size m.
Proof.
  induction m as [|t v m Hm IH] using map_ind; intros HW; [rewrite total_empty; lia|].
  rewrite total_new, map_size_insert_None by done.
  assert (W v ≤ n) by (apply (HW t); apply lookup_insert_eq).
  assert (total W m ≤ n * size m); [|lia]. apply IH.
  intros t' v' Ht'. apply (HW t'). rewrite lookup_insert_ne; [done|]. intros <-. congruence.
Qed.

(** How many satisfy a predicate. *)
Definition one (b : bool) : nat := if b then 1 else 0.
Definition count P : gmap nat V → nat := total (λ v, one (P v)).

Lemma count_pos P m t v : m !! t = Some v → P v = true → 1 ≤ count P m.
Proof. intros Hm Hv. unfold count. rewrite (total_delete _ m t v Hm), Hv. simpl. lia. Qed.

Lemma count_two P m t v t' v' :
  m !! t = Some v → P v = true → m !! t' = Some v' → P v' = true → t ≠ t' → 2 ≤ count P m.
Proof.
  intros Hm Hv Hm' Hv' Hne. unfold count. rewrite (total_delete _ m t v Hm), Hv. simpl.
  pose proof (count_pos P (delete t m) t' v') as H. rewrite lookup_delete_ne in H by done.
  specialize (H Hm' Hv'). unfold count in H. lia.
Qed.

Lemma count_some P m : count P m ≠ 0 → ∃ t v, m !! t = Some v ∧ P v = true.
Proof.
  induction m as [|t v m Hm IH] using map_ind; unfold count; [by rewrite total_empty|].
  rewrite total_new by done. destruct (P v) eqn:Hv; simpl.
  - intros _. exists t, v. by rewrite lookup_insert_eq.
  - intros (t' & v' & Ht' & Hv')%IH. exists t', v'. rewrite lookup_insert_ne; [done|].
    intros <-. congruence.
Qed.
End total.

(** ** sync.RWMutex *)

(** Go's mutex counts its readers and is not owned by a goroutine. *)
Record RWMutex := mkRWMutex { writing : bool; reading : nat }.

Definition unlocked : RWMutex := mkRWMutex false 0.

(** [Lock] waits for no writer and no reader, [RLock] for no writer. *)
Definition Lock (mu : RWMutex) : option RWMutex :=
  if (writing mu || negb (reading mu =? 0))%bool then None else Some (mkRWMutex true 0).
Definition RLock (mu : RWMutex) : option RWMutex :=
  if writing mu then None else Some (mkRWMutex false (S (reading mu))).
Definition Unlock (mu : RWMutex) : RWMutex := mkRWMutex false (reading mu).
Definition RUnlock (mu : RWMutex) : RWMutex := mkRWMutex (writing mu) (pred (reading mu)).

(** ** The body of a method *)

(** One constructor per access: [Read get k] loads what [get] selects, [Write f k]
    stores; [Ret a] leaves the body with the result [a]. *)
Inductive code (St A : Type) : Type :=
| Ret (a : A)
| Read {X : Type} (get : St → X) (k : X → code St A)
| Write (f : St → St) (k : code St A).
Arguments Ret {_ _} a.
Arguments Read {_ _ _} get k.
Arguments Write {_ _} f k.

(** The body run alone. *)
Fixpoint run {St A} (c : code St A) (s : St) : A * St :=
  match c with
  | Ret a => (a, s)
  | Read get k => run (k (get s)) s
  | Write f k => run k (f s)
  end.

Fixpoint read_only {St A} (c : code St A) : Prop :=
  match c with
  | Ret _ => True
  | Read get k => ∀ x, read_only (k x)
  | Write _ _ => False
  end.

(** The most accesses a body can still make from a state, running alone. *)
Fixpoint accesses {St A} (c : code St A) (s : St) : nat :=
  match c with
  | Ret _ => 0
  | Read get k => S (accesses (k (get s)) s)
  | Write f k => S (accesses k (f s))
  end.

(** An object: its methods, which of them take the write lock, their bodies. *)
Class Guarded (St Op Ans : Type) := {
  exclusive : Op → bool;
  body : Op → code St Ans;
  shared_reads o : exclusive o = false → read_only (body o);
  (** a bound on the accesses of a call *)
  cost : Op → nat;
  cost_bound o s : accesses (body o) s ≤ cost o;
}.

(** ** Concurrent executions *)

Section execution.
Context {St Op Ans : Type} `{G : Guarded St Op Ans}.

(** A call in flight: before the lock, holding it with the rest of the body to
    run, after the deferred release. *)
Inductive call :=
| Waiting (o : Op)
| Inside (o : Op) (c : code St Ans)
| Leaving (a : Ans).

Record config := mkConfig { shared : St; mu : RWMutex; calls : gmap nat call }.

Definition start (s : St) : config := mkConfig s unlocked ∅.

(** What the callers see. *)
Inductive event :=
| Call (t : nat) (o : Op)
| Return (t : nat) (a : Ans).

Definition acquire (o : Op) : RWMutex → option RWMutex := if exclusive o then Lock else RLock.
Definition release (o : Op) : RWMutex → RWMutex := if exclusive o then Unlock else RUnlock.

(** One step of one goroutine [t]; [None] is a step no caller sees. *)
Inductive step : config → option event → config → Prop :=
| step_call s m cs t o :
    cs !! t = None →
    step (mkConfig s m cs) (Some (Call t o)) (mkConfig s m (<[t := Waiting o]> cs))
| step_acquire s m m' cs t o :
    cs !! t = Some (Waiting o) → acquire o m = Some m' →
    step (mkConfig s m cs) None (mkConfig s m' (<[t := Inside o (body o)]> cs))
| step_read s m cs t o X (get : St → X) k :
    cs !! t = Some (Inside o (Read get k)) →
    step (mkConfig s m cs) None (mkConfig s m (<[t := Inside o (k (get s))]> cs))
| step_write s m cs t o f k :
    cs !! t = Some (Inside o (Write f k)) →
    step (mkConfig s m cs) None (mkConfig (f s) m (<[t := Inside o k]> cs))
| step_release s m cs t o a :
    cs !! t = Some (Inside o (Ret a)) →
    step (mkConfig s m cs) None (mkConfig s (release o m) (<[t := Leaving a]> cs))
| step_return s m cs t a :
    cs !! t = Some (Leaving a) →
    step (mkConfig s m cs) (Some (Return t a)) (mkConfig s m (delete t cs)).

Definition emit (l : option event) : list event := match l with Some e => [e] | None => [] end.

(** Executions, with what the callers see of them. *)
Inductive execution (c0 : config) : list event → config → Prop :=
| exec_nil : execution c0 [] c0
| exec_snoc tr c l c' : execution c0 tr c → step c l c' → execution c0 (tr ++ emit l) c'.

(** An executable scheduler: a goroutine calls a method, or does its next step if
    it can. *)
Inductive action :=
| DoCall (t : nat) (o : Op)
| DoStep (t : nat).

Definition advance (a : action) (c : config) : option (option event * config) :=
  let '(mkConfig s m cs) := c in
  match a with
  | DoCall t o =>
    match cs !! t with
    | None => Some (Some (Call t o), mkConfig s m (<[t := Waiting o]> cs))
    | Some _ => None
    end
  | DoStep t =>
    match cs !! t with
    | None => None
    | Some (Waiting o) =>
      match acquire o m with
      | Some m' => Some (None, mkConfig s m' (<[t := Inside o (body o)]> cs))
      | None => None
      end
    | Some (Inside o (Read get k)) => Some (None, mkConfig s m (<[t := Inside o (k (get s))]> cs))
    | Some (Inside o (Write f k)) => Some (None, mkConfig (f s) m (<[t := Inside o k]> cs))
    | Some (Inside o (Ret a)) => Some (None, mkConfig s (release o m) (<[t := Leaving a]> cs))
    | Some (Leaving a) => Some (Some (Return t a), mkConfig s m (delete t cs))
    end
  end.

(** A schedule; an action that is not possible (a wait for the lock) is skipped. *)
Fixpoint schedule (l : list action) (tr : list event) (c : config) : list event * config :=
  match l with
  | [] => (tr, c)
  | a :: l' =>
    match advance a c with
    | Some (e, c') => schedule l' (tr ++ emit e) c'
    | None => schedule l' tr c
    end
  end.

Lemma advance_step a c e c' : advance a c = Some (e, c') → step c e c'.
Proof.
  destruct c as [s m cs], a as [t o|t]; simpl; destruct (cs !! t) as [x|] eqn:Ht; try done.
  - intros [= <- <-]. by constructor.
  - destruct x as [o|o [a|X get k|f k]|a].
    + destruct (acquire o m) eqn:Hm; [|done]. intros [= <- <-]. by constructor.
    + intros [= <- <-]. by constructor.
    + intros [= <- <-]. by constructor.
    + intros [= <- <-]. by constructor.
    + intros [= <- <-]. by constructor.
Qed.

Lemma schedule_execution l c0 tr c :
  execution c0 tr c → execution c0 (schedule l tr c).1 (schedule l tr c).2.
Proof.
  revert tr c. induction l as [|a l IH]; intros tr c Hx; simpl; [done|].
  destruct (advance a c) as [[e c']|] eqn:Ha; [|by apply IH].
  apply IH. eapply exec_snoc; [done|]. by eapply advance_step.
Qed.

(** *** Mutual exclusion *)

Definition holds_write (x : call) : bool :=
  match x with Inside o _ => exclusive o | _ => false end.
Definition holds_read (x : call) : bool :=
  match x with Inside o _ => negb (exclusive o) | _ => false end.

(** The mutex counts the calls inside; a writer is alone; a call inside without
    the write lock only reads. *)
Record locked_inv (c : config) : Prop := {
  inv_writers : count holds_write (calls c) = one (writing (mu c));
  inv_readers : count holds_read (calls c) = reading (mu c);
  inv_alone : writing (mu c) = true → reading (mu c) = 0;
  inv_reads t o b : calls c !! t = Some (Inside o b) → exclusive o = false → read_only b;
}.

Lemma inv_start s : locked_inv (start s).
Proof.
  split; unfold count; simpl; [by unfold count; rewrite total_empty|by unfold count; rewrite total_empty|done|].
  intros t o b. by rewrite lookup_empty.
Qed.

(** A step that moves one call within its critical section. *)
Lemma inv_move s s' m cs t o b b' :
  locked_inv (mkConfig s m cs) → cs !! t = Some (Inside o b) →
  (read_only b → read_only b') →
  locked_inv (mkConfig s' m (<[t := Inside o b']> cs)).
Proof.
  intros [Hw Hr Ha Hro] Ht Hb. unfold count in *. simpl in *. split; unfold count; simpl; [..|done|].
  - pose proof (total_update (λ x, one (holds_write x)) cs t _ (Inside o b') Ht). simpl in *. lia.
  - pose proof (total_update (λ x, one (holds_read x)) cs t _ (Inside o b') Ht). simpl in *. lia.
  - intros t' o' c'. destruct (decide (t = t')) as [<-|Hne].
    + rewrite lookup_insert_eq. intros [= <- <-] Hx. apply Hb. by eapply Hro.
    + rewrite lookup_insert_ne by done. apply Hro.
Qed.

(** Acquiring and releasing. *)
Lemma inv_acquire s m m' cs t o :
  locked_inv (mkConfig s m cs) → cs !! t = Some (Waiting o) → acquire o m = Some m' →
  locked_inv (mkConfig s m' (<[t := Inside o (body o)]> cs)).
Proof.
  intros [Hw Hr Ha Hro] Ht Hm. unfold count in *. simpl in *.
  pose proof (total_update (λ x, one (holds_write x)) cs t _ (Inside o (body o)) Ht) as Cw.
  pose proof (total_update (λ x, one (holds_read x)) cs t _ (Inside o (body o)) Ht) as Cr.
  assert (Hreads : ∀ t' o' b, <[t := Inside o (body o)]> cs !! t' = Some (Inside o' b) →
    exclusive o' = false → read_only b).
  { intros t' o' b. destruct (decide (t = t')) as [<-|Hne].
    - rewrite lookup_insert_eq. intros [= <- <-]. apply shared_reads.
    - rewrite lookup_insert_ne by done. apply Hro. }
  unfold acquire, Lock, RLock in Hm. destruct m as [w n]. simpl in *.
  destruct (exclusive o) eqn:Ho, w; simpl in *; try discriminate.
  - destruct (n =? 0) eqn:Hn; simpl in *; [|done]. apply Nat.eqb_eq in Hn. injection Hm as <-.
    split; unfold count; simpl; [lia|lia|done|exact Hreads].
  - injection Hm as <-. split; unfold count; simpl; [lia|lia|done|exact Hreads].
Qed.

Lemma inv_release s m cs t o a :
  locked_inv (mkConfig s m cs) → cs !! t = Some (Inside o (Ret a)) →
  locked_inv (mkConfig s (release o m) (<[t := Leaving a]> cs)).
Proof.
  intros [Hw Hr Ha Hro] Ht; unfold count in *. simpl in *.
  pose proof (total_update (λ x, one (holds_write x)) cs t _ (Leaving a) Ht) as Cw.
  pose proof (total_update (λ x, one (holds_read x)) cs t _ (Leaving a) Ht) as Cr.
  assert (Hreads : ∀ t' o' b, <[t := Leaving a]> cs !! t' = Some (Inside o' b) →
    exclusive o' = false → read_only b).
  { intros t' o' b. destruct (decide (t = t')) as [<-|Hne]; [by rewrite lookup_insert_eq|].
    rewrite lookup_insert_ne by done. apply Hro. }
  unfold release, Unlock, RUnlock. destruct m as [w n]. simpl in *.
  destruct (exclusive o) eqn:Ho; simpl in *; destruct w; simpl in *; split; unfold count; simpl; try lia; try done.
  all: specialize (Ha eq_refl); lia.
Qed.

Lemma inv_call s m cs t o :
  locked_inv (mkConfig s m cs) → cs !! t = None →
  locked_inv (mkConfig s m (<[t := Waiting o]> cs)).
Proof.
  intros [Hw Hr Ha Hro] Ht; unfold count in *. simpl in *.
  split; simpl; unfold count; rewrite ?total_new by done; try done.
  intros t' o' b. destruct (decide (t = t')) as [<-|Hne]; [by rewrite lookup_insert_eq|].
  rewrite lookup_insert_ne by done. apply Hro.
Qed.

Lemma inv_return s m cs t a :
  locked_inv (mkConfig s m cs) → cs !! t = Some (Leaving a) →
  locked_inv (mkConfig s m (delete t cs)).
Proof.
  intros [Hw Hr Ha Hro] Ht; unfold count in *. simpl in *.
  pose proof (total_delete (λ x, one (holds_write x)) cs t _ Ht). pose proof (total_delete (λ x, one (holds_read x)) cs t _ Ht).
  split; unfold count; simpl in *; [lia|lia|done|].
  intros t' o' b [_ Hb]%lookup_delete_Some. by eapply Hro.
Qed.

Lemma inv_step c l c' : step c l c' → locked_inv c → locked_inv c'.
Proof.
  destruct 1; intros Hi; eauto using inv_call, inv_acquire, inv_release, inv_return.
  - eapply inv_move; [done..|]. simpl. auto.
  - eapply inv_move; [done..|]. done.
Qed.

Lemma inv_execution s tr c : execution (start s) tr c → locked_inv c.
Proof. induction 1; eauto using inv_start, inv_step. Qed.

(** A writer is alone in its critical section. *)
Lemma inside_exclusive c t o b t' o' b' :
  locked_inv c → calls c !! t = Some (Inside o b) → calls c !! t' = Some (Inside o' b') →
  exclusive o = true → t = t'.
Proof.
  intros [Hw Hr Ha _] Ht Ht' Ho. destruct (decide (t = t')) as [|Hne]; [done|exfalso].
  assert (Hh : holds_write (Inside o b) = true) by done.
  pose proof (count_pos _ _ _ _ Ht Hh) as Hp.
  destruct (exclusive o') eqn:Ho'.
  - pose proof (count_two holds_write _ _ _ _ _ Ht Hh Ht') as H2. simpl in H2.
    specialize (H2 Ho' Hne). destruct (writing (mu c)); simpl in *; lia.
  - pose proof (count_pos holds_read _ _ _ Ht') as Hq. simpl in Hq. rewrite Ho' in Hq.
    specialize (Hq eq_refl). destruct (writing (mu c)) eqn:Hmu; [|simpl in *; lia].
    specialize (Ha eq_refl). lia.
Qed.

(** *** Data races *)

(** The next step of a call is an access of the shared state, a store. *)
Definition about_to_access (x : call) : Prop :=
  match x with Inside _ (Read _ _) | Inside _ (Write _ _) => True | _ => False end.
Definition about_to_store (x : call) : Prop :=
  match x with Inside _ (Write _ _) => True | _ => False end.

(** Two goroutines are about to access the state and one of them to store. *)
Definition racy (c : config) : Prop :=
  ∃ t t' x x', t ≠ t' ∧ calls c !! t = Some x ∧ calls c !! t' = Some x' ∧
    about_to_store x ∧ about_to_access x'.

Lemma locked_not_racy c : locked_inv c → ¬ racy c.
Proof.
  intros Hi (t & t' & x & x' & Hne & Ht & Ht' & Hs & Ha).
  destruct x as [|o b|]; [done| |done]. destruct b as [| |f k]; try done.
  destruct x' as [|o' b'|]; [done| |done]. apply Hne.
  eapply inside_exclusive; [done..|]. destruct (exclusive o) eqn:Ho; [done|].
  by destruct (inv_reads c Hi t o _ Ht Ho).
Qed.

(** *** Every call finishes *)

(** The steps left for a call, at the current state. *)
Definition weight (s : St) (x : call) : nat :=
  match x with Waiting o => cost o + 3 | Inside _ b => accesses b s + 2 | Leaving _ => 1 end.
Definition measure (c : config) : nat := total (weight (shared c)) (calls c).

(** A step that answers no new call. *)
Definition is_call (l : option event) : bool :=
  match l with Some (Call _ _) => true | _ => false end.
Definition quiet (c c' : config) : Prop := ∃ l, is_call l = false ∧ step c l c'.

Lemma quiet_decreases c c' : locked_inv c → quiet c c' → measure c' < measure c.
Proof.
  intros Hi (l & Hl & Hst). unfold measure.
  destruct Hst as [s m cs t o Ht|s m m' cs t o Ht Hm|s m cs t o X get k Ht|s m cs t o f k Ht
    |s m cs t o a Ht|s m cs t a Ht]; [done|..]; simpl.
  - pose proof (total_update (weight s) cs t _ (Inside o (body o)) Ht) as H. simpl in H.
    pose proof (cost_bound o s). lia.
  - pose proof (total_update (weight s) cs t _ (Inside o (k (get s))) Ht) as H. simpl in H. lia.
  - assert (Ho : exclusive o = true).
    { destruct (exclusive o) eqn:Ho; [done|]. by destruct (inv_reads _ Hi t o _ Ht Ho). }
    pose proof (total_change (weight s) (weight (f s)) cs t _ (Inside o k) Ht) as H.
    simpl in H. enough (total (weight (f s)) (<[t:=Inside o k]> cs) + S (accesses k (f s) + 2) =
      total (weight s) cs + (accesses k (f s) + 2)) by lia.
    apply H. intros t' [|o' b'|] Hne Ht'; [done| |done].
    by destruct (Hne (inside_exclusive _ t o _ t' _ _ Hi Ht Ht' Ho)).
  - pose proof (total_update (weight s) cs t _ (Leaving a) Ht) as H. simpl in H. lia.
  - rewrite (total_delete (weight s) cs t _ Ht). simpl. lia.
Qed.

(** While calls are in flight, one of them can make a step. *)
Lemma quiet_progress c : locked_inv c → calls c ≠ ∅ → ∃ c', quiet c c'.
Proof.
  intros Hi Hne. destruct (map_choose _ Hne) as (t & x & Ht).
  assert (Hin : ∀ t o b, calls c !! t = Some (Inside o b) → ∃ c', quiet c c').
  { intros t' o b Hb. destruct c as [s m cs]. simpl in *.
    destruct b as [a|X get k|f k]; eexists; exists None; (split; [done|]); by econstructor. }
  destruct x as [o|o b|a]; [|by eapply Hin|].
  - destruct (acquire o (mu c)) as [m'|] eqn:Hm.
    + destruct c as [s m cs]. eexists. exists None. split; [done|]. by econstructor.
    + assert (Hc : count holds_write (calls c) ≠ 0 ∨ count holds_read (calls c) ≠ 0).
      { rewrite (inv_writers c Hi), (inv_readers c Hi). unfold acquire, Lock, RLock in Hm.
        destruct (exclusive o), (writing (mu c)), (reading (mu c)); simpl in *; auto; done. }
      destruct Hc as [(t' & y & Ht' & Hy)%count_some|(t' & y & Ht' & Hy)%count_some];
        destruct y; try done; exact (Hin _ _ _ Ht').
  - destruct c as [s m cs]. eexists. exists (Some (Return t a)). split; [done|]. by econstructor.
Qed.

Lemma locked_quiet c c' : locked_inv c → rtc quiet c c' → locked_inv c'.
Proof.
  intros Hi Hq. induction Hq as [|x y z (l & _ & Hst) _ IH]; [done|]. eauto using inv_step.
Qed.

(** Without new calls every schedule ends, after at most [measure] steps, and it
    can only end when every call has returned. *)
Lemma quiet_completes c c' n :
  locked_inv c → nsteps quiet n c c' →
  n + measure c' ≤ measure c ∧ (calls c' = ∅ ∨ ∃ c'', quiet c' c'').
Proof.
  intros Hi Hn. induction Hn as [c|n c c1 c' Hq _ IH].
  - split; [lia|]. destruct (decide (calls c = ∅)); [by left|]. right. by apply quiet_progress.
  - pose proof (quiet_decreases _ _ Hi Hq). destruct Hq as (l & _ & Hst).
    destruct (IH (inv_step _ _ _ Hst Hi)). split; [lia|done].
Qed.

(** A call inside has no more accesses left than its method is allowed. *)
Definition within_cost (c : config) : Prop :=
  ∀ t o b, calls c !! t = Some (Inside o b) → accesses b (shared c) ≤ cost o.

Lemma within_cost_step c l c' : locked_inv c → step c l c' → within_cost c → within_cost c'.
Proof.
  unfold within_cost. intros Hi Hst Hc. destruct Hst as [s m cs t o Ht|s m m' cs t o Ht Hm
    |s m cs t o X get k Ht|s m cs t o f k Ht|s m cs t o a Ht|s m cs t a Ht];
    simpl in *; intros t' o' b';
    try (destruct (decide (t = t')) as [<-|Hne];
         [rewrite lookup_insert_eq|rewrite lookup_insert_ne by done]);
    try (intros [= <- <-]); eauto; try done.
  - apply cost_bound.
  - specialize (Hc _ _ _ Ht). simpl in Hc. lia.
  - specialize (Hc _ _ _ Ht). simpl in Hc. lia.
  - assert (Ho : exclusive o = true).
    { destruct (exclusive o) eqn:Ho; [done|]. by destruct (inv_reads _ Hi t o _ Ht Ho). }
    intros Ht'. by destruct (Hne (inside_exclusive _ t o _ t' _ _ Hi Ht Ht' Ho)).
  - intros [_ Ht']%lookup_delete_Some. by eapply Hc.
Qed.

Lemma execution_within_cost s tr c : execution (start s) tr c → within_cost c.
Proof.
  induction 1 as [|tr c l c' Hx IH Hst].
  - intros t o b. simpl. by rewrite lookup_empty.
  - eapply within_cost_step; [by eapply inv_execution|done|done].
Qed.

Lemma measure_bound c n : within_cost c → (∀ o, cost o ≤ n) → measure c ≤ (n + 3) * size (calls c).
Proof.
  intros Hb Hn. apply total_le. intros t [o|o b|a] Ht; simpl.
  - specialize (Hn o). lia.
  - specialize (Hb _ _ _ Ht). specialize (Hn o). lia.
  - lia.
Qed.
End execution.
Arguments call : clear implicits.
Arguments config : clear implicits.
Arguments event : clear implicits.
Arguments action : clear implicits.

(** ** Atomic objects *)

Section atomic.
Context {St Op Ans : Type} (seq : Op → St → Ans * St).

(** A call of an atomic object: made, then answered at one point. *)
Inductive pending :=
| Called (o : Op)
| Answered (a : Ans).

(** [Take t o a] is the point where the call of [t] takes effect; no caller sees
    it. *)
Inductive point :=
| Seen (e : event Op Ans)
| Take (t : nat) (o : Op) (a : Ans).

Inductive atomic : list point → St → gmap nat pending → St → gmap nat pending → Prop :=
| atomic_nil s m : atomic [] s m s m
| atomic_call l s m s' m' t o :
    atomic l s m s' m' → m' !! t = None →
    atomic (l ++ [Seen (Call t o)]) s m s' (<[t := Called o]> m')
| atomic_take l s m s' m' t o :
    atomic l s m s' m' → m' !! t = Some (Called o) →
    atomic (l ++ [Take t o (seq o s').1]) s m (seq o s').2 (<[t := Answered (seq o s').1]> m')
| atomic_return l s m s' m' t a :
    atomic l s m s' m' → m' !! t = Some (Answered a) →
    atomic (l ++ [Seen (Return t a)]) s m s' (delete t m').

Definition seen (p : point) : option (event Op Ans) :=
  match p with Seen e => Some e | Take _ _ _ => None end.

(** What the callers see of an execution of the atomic object. *)
Definition visible (l : list point) : list (event Op Ans) := omap seen l.

Lemma visible_snoc l p : visible (l ++ [p]) = visible l ++ emit (seen p).
Proof. unfold visible. rewrite omap_app. simpl. by destruct (seen p). Qed.
End atomic.
Arguments pending : clear implicits.
Arguments point : clear implicits.

(** ** Linearizability *)

Section linearizability.
Context {St Op Ans : Type} `{G : Guarded St Op Ans}.

(** The object whose methods are atomic. *)
Definition alone (o : Op) (s : St) : Ans * St := run (body o) s.

Lemma read_only_run {A} (c : code St A) s : read_only c → (run c s).2 = s.
Proof. revert s. induction c as [a|X get k IH|f k IH]; simpl; intros s Hc; [done| |done]. by apply IH. Qed.

(** A call takes effect when it releases the lock. *)
Definition stage (x : call St Op Ans) : pending Op Ans :=
  match x with Waiting o | Inside o _ => Called o | Leaving a => Answered a end.

(** The atomic object's state is the shared one, except while a writer is inside;
    the rest of every body inside computes what the method run alone from the
    atomic state does. *)
Record follows (c : config St Op Ans) (s : St) : Prop := {
  fo_idle : writing (mu c) = false → shared c = s;
  fo_inside t o b : calls c !! t = Some (Inside o b) → run b (shared c) = alone o s;
}.

Lemma stage_insert_same (cs : gmap nat (call St Op Ans)) t x y :
  cs !! t = Some x → stage y = stage x → stage <$> <[t := y]> cs = stage <$> cs.
Proof.
  intros Ht Hxy. rewrite fmap_insert, Hxy. apply insert_id. by rewrite lookup_fmap, Ht.
Qed.

(** The steps within a critical section, and the acquisition, are no steps of the
    atomic object. *)
Lemma follows_silent m m' s s' cs t o b a x :
  (∀ t' o' b', cs !! t' = Some (Inside o' b') → t ≠ t' → run b' s' = alone o' a) →
  run b s' = alone o a → (writing m' = false → s' = a) →
  cs !! t = Some x → stage x = Called o →
  follows (mkConfig s' m' (<[t := Inside o b]> cs)) a ∧
  stage <$> <[t := Inside o b]> cs = stage <$> calls (mkConfig s m cs).
Proof.
  intros Hoth Hb Hw Ht Hx. split; [|by eapply stage_insert_same]. split; simpl; [done|].
  intros t' o' b'. destruct (decide (t = t')) as [<-|Hne].
  - rewrite lookup_insert_eq. by intros [= <- <-].
  - rewrite lookup_insert_ne by done. intros Ht'. by eapply Hoth.
Qed.

(** The release is the point where the call takes effect. *)
Lemma follows_release s m cs t o r a :
  locked_inv (mkConfig s m cs) → follows (mkConfig s m cs) a →
  cs !! t = Some (Inside o (Ret r)) →
  alone o a = (r, s) ∧ follows (mkConfig s (release o m) (<[t := Leaving r]> cs)) s.
Proof.
  intros Hi [Hidle Hin] Ht. simpl in *. assert (Ha : alone o a = (r, s)) by (by rewrite <-(Hin _ _ _ Ht)).
  split; [done|]. split; simpl; [done|]. intros t' o' b'.
  destruct (decide (t = t')) as [<-|Hne]; [by rewrite lookup_insert_eq|].
  rewrite lookup_insert_ne by done. intros Ht'. rewrite (Hin _ _ _ Ht').
  destruct (exclusive o) eqn:Ho; [by destruct (Hne (inside_exclusive _ t o _ t' _ _ Hi Ht Ht' Ho))|].
  f_equal. change s with ((r, s).2). rewrite <-Ha. symmetry. apply read_only_run, shared_reads, Ho.
Qed.

Lemma acquire_idle (o : Op) m m' : acquire o m = Some m' → writing m = false ∧ (writing m' = false ∨ reading m = 0).
Proof.
  unfold acquire, Lock, RLock. destruct m as [[] n]; simpl.
  - by destruct (exclusive o).
  - destruct (exclusive o); simpl; [|intros [= <-]; by auto].
    destruct (Nat.eqb_spec n 0); simpl; [auto|done].
Qed.

Lemma follows_acquire s m m' cs t o a :
  follows (mkConfig s m cs) a → cs !! t = Some (Waiting o) → acquire o m = Some m' →
  follows (mkConfig s m' (<[t := Inside o (body o)]> cs)) a ∧
  stage <$> <[t := Inside o (body o)]> cs = stage <$> cs.
Proof.
  intros [Hidle Hin] Ht Hm. destruct (acquire_idle _ _ _ Hm) as [Hw _]. simpl in *.
  apply (follows_silent m m' s s cs t o (body o) a (Waiting o)); simpl; auto.
  - intros. by eapply Hin.
  - by rewrite (Hidle Hw).
Qed.

Lemma follows_read s m cs t o X (get : St → X) k a :
  follows (mkConfig s m cs) a → cs !! t = Some (Inside o (Read get k)) →
  follows (mkConfig s m (<[t := Inside o (k (get s))]> cs)) a ∧
  stage <$> <[t := Inside o (k (get s))]> cs = stage <$> cs.
Proof.
  intros [Hidle Hin] Ht. simpl in *.
  apply (follows_silent m m s s cs t o (k (get s)) a (Inside o (Read get k))); simpl; auto.
  - intros. by eapply Hin.
  - by rewrite <-(Hin _ _ _ Ht).
Qed.

Lemma follows_write s m cs t o f k a :
  locked_inv (mkConfig s m cs) → follows (mkConfig s m cs) a →
  cs !! t = Some (Inside o (Write f k)) →
  follows (mkConfig (f s) m (<[t := Inside o k]> cs)) a ∧
  stage <$> <[t := Inside o k]> cs = stage <$> cs.
Proof.
  intros Hi [Hidle Hin] Ht. simpl in *.
  assert (Ho : exclusive o = true).
  { destruct (exclusive o) eqn:Ho; [done|]. by destruct (inv_reads _ Hi t o _ Ht Ho). }
  apply (follows_silent m m s (f s) cs t o k a (Inside o (Write f k))); simpl; auto.
  - intros t' o' b' Ht' Hne. by destruct (Hne (inside_exclusive _ t o _ t' _ _ Hi Ht Ht' Ho)).
  - by rewrite <-(Hin _ _ _ Ht).
  - intros Hw. exfalso. pose proof (count_pos holds_write cs t _ Ht Ho) as Hc.
    pose proof (inv_writers _ Hi) as Hc'. simpl in Hc'. rewrite Hw in Hc'. simpl in Hc'. lia.
Qed.

(** A step outside every critical section. *)
Lemma follows_outside s m cs cs' a :
  follows (mkConfig s m cs) a →
  (∀ t o b, cs' !! t = Some (Inside o b) → cs !! t = Some (Inside o b)) →
  follows (mkConfig s m cs') a.
Proof. intros [Hidle Hin] Hcs. split; simpl in *; [done|]. intros. by eapply Hin, Hcs. Qed.

(** The executions of a lock-guarded object are executions of the atomic one, as
    far as callers can see. *)
Lemma locked_linearizable s0 tr c :
  execution (start s0) tr c →
  ∃ l s, atomic alone l s0 ∅ s (stage <$> calls c) ∧ visible l = tr ∧ follows c s.
Proof.
  induction 1 as [|tr c e c' Hx IH Hst].
  { exists [], s0. split_and!; [|done|split; [done|]].
    - simpl. rewrite fmap_empty. constructor.
    - intros t o b. simpl. by rewrite lookup_empty. }
  destruct IH as (l & a & Hat & Hv & Hf). pose proof (inv_execution _ _ _ Hx) as Hi.
  destruct Hst as [s m cs t o Ht|s m m' cs t o Ht Hm|s m cs t o X get k Ht|s m cs t o f k Ht
    |s m cs t o r Ht|s m cs t r Ht]; simpl in *; rewrite ?app_nil_r.
  - exists (l ++ [Seen (Call t o)]), a. rewrite fmap_insert, visible_snoc, Hv. split_and!; [|done|].
    + apply atomic_call; [done|]. by rewrite lookup_fmap, Ht.
    + eapply follows_outside; [done|]. intros t' o' b' [[_ [=]]|[_ Ht']]%lookup_insert_Some. done.
  - exists l, a. by destruct (follows_acquire s m m' cs t o a Hf Ht Hm) as [Hf' ->].
  - exists l, a. by destruct (follows_read s m cs t o X get k a Hf Ht) as [Hf' ->].
  - exists l, a. by destruct (follows_write s m cs t o f k a Hi Hf Ht) as [Hf' ->].
  - destruct (follows_release s m cs t o r a Hi Hf Ht) as [Ha Hf'].
    exists (l ++ [Take t o r]), s. rewrite fmap_insert, visible_snoc, app_nil_r. split_and!; [|done|done].
    pose proof (atomic_take alone l s0 ∅ a (stage <$> cs) t o Hat) as Htake.
    rewrite Ha in Htake. apply Htake. by rewrite lookup_fmap, Ht.
  - exists (l ++ [Seen (Return t r)]), a. rewrite fmap_delete, visible_snoc, Hv. split_and!; [|done|].
    + apply atomic_return; [done|]. by rewrite lookup_fmap, Ht.
    + eapply follows_outside; [done|]. by intros t' o' b' [_ Ht']%lookup_delete_Some.
Qed.
End linearizability.

(** Two atomic objects that answer alike have the same executions. *)
Lemma atomic_simulation {St St' Op Ans} (seq : Op → St → Ans * St) (seq' : Op → St' → Ans * St')
    (R : St → St' → Prop) l s0 s0' m0 s m :
  (∀ o s s', R s s' → (seq o s).1 = (seq' o s').1 ∧ R (seq o s).2 (seq' o s').2) →
  R s0 s0' → atomic seq l s0 m0 s m → ∃ s', atomic seq' l s0' m0 s' m ∧ R s s'.
Proof.
  intros Hseq H0. induction 1 as [s m|l s m s1 m1 t o _ IH Ht|l s m s1 m1 t o _ IH Ht|l s m s1 m1 t a _ IH Ht].
  - exists s0'. split; [constructor|done].
  - destruct (IH H0) as (s' & Hat & HR). exists s'. split; [by apply atomic_call|done].
  - destruct (IH H0) as (s' & Hat & HR). destruct (Hseq o s1 s' HR) as [Ha HR'].
    exists (seq' o s').2. split; [|done]. rewrite Ha. by apply atomic_take.
  - destruct (IH H0) as (s' & Hat & HR). exists s'. split; [by apply atomic_return|done].
Qed.
