(* ===== verification/RegistryLock.v ===== *)
(** The component registry used by several goroutines at once
    (registry/registry.go).

    Every method holds the registry's [sync.RWMutex] from its first statement to
    its deferred release: [Freeze] and the registrations hold it to write, the
    lookups to read.  The bodies are given access by access, over the lock-guarded
    objects of Sync; their atomic behaviour is the one of Registry, and so the
    concurrent registry answers as the specification of RegistrySpec does at one
    point of every call. *)

From S2P Require Import Prelude GoStrings Errors Values Ids Kernel Registry RegistrySpec Sync.
From stdpp Require Import options.

Section registry_lock.
Context `{K : Kernel}.

(** ** The critical sections *)

Definition Freeze_body : code ComponentRegistry answer :=
  Write (λ r, mkRegistry true (factories r)) (Ret Done).

Definition Register_body (k : RKind) (f : Factory k) : code ComponentRegistry answer :=
  Read frozen (λ fr : bool,
    if fr then Ret (Registered (Some (ESentinel ErrRegistryFrozen)))
    else Read (λ r, factories r k !! f_ID f) (λ g,
      match g with
      | Some _ => Ret (Registered (Some (registry_error ErrDuplicate k (f_ID f))))
      | None => Write (λ r, with_map k (<[f_ID f := f]> (factories r k)) r) (Ret (Registered None))
      end)).

Definition Lookup_body (k : RKind) (id : ID) : code ComponentRegistry answer :=
  Read (λ r, factories r k !! id) (λ g,
    Ret (Found k match g with
                 | None => Err (registry_error ErrNotFound k id)
                 | Some f => Ok f
                 end)).

Definition op_body (o : op) : code ComponentRegistry answer :=
  match o with
  | OpRegister k f => Register_body k f
  | OpLookup k id => Lookup_body k id
  | OpFreeze => Freeze_body
  end.

(** [mu.Lock] or [mu.RLock]. *)
Definition takes_Lock (o : op) : bool :=
  match o with OpLookup _ _ => false | _ => true end.

#[export] Program Instance registry_guarded : Guarded ComponentRegistry op answer := {|
  exclusive := takes_Lock;
  body := op_body;
  cost _ := 3;
|}.
Next Obligation. by intros [k f|k id|]. Qed.
Next Obligation.
  intros [k f|k id|] r; simpl; [|lia|lia].
  destruct (frozen r); [simpl; lia|]. simpl. by destruct (factories r k !! f_ID f); simpl; lia.
Qed.

(** A body run alone is the method of Registry. *)
Lemma alone_exec o r : alone o r = exec o r.
Proof.
  unfold alone. destruct o as [k f|k id|]; simpl; [|done|done].
  unfold Register. destruct (frozen r); [done|]. simpl. by destruct (factories r k !! f_ID f).
Qed.

(** ** The specification as an atomic object: its state is the history *)

Definition spec_op (o : op) (h : list op) : answer * list op := (spec_answer h o, h ++ [o]).

Definition registry_start : config ComponentRegistry op answer := start NewComponentRegistry.

Lemma registry_atomic l r m :
  atomic alone l NewComponentRegistry ∅ r m →
  ∃ h, atomic spec_op l [] ∅ h m ∧ implements h r.
Proof.
  intros Hat.
  apply (atomic_simulation alone spec_op (λ r h, implements h r)) with (s0' := []) in Hat.
  - done.
  - intros o r1 h Hi. rewrite alone_exec. apply exec_spec, Hi.
  - apply implements_new.
Qed.

(** ** Histories of the atomic specification *)

Lemma sealed_app h h' : sealed h = true → sealed (h ++ h') = true.
Proof. unfold sealed. rewrite existsb_app. by intros ->. Qed.

Lemma registered_app h h' k id :
  sealed h = true → registered_in (h ++ h') k id = registered_in h k id.
Proof.
  intros Hs. induction h' as [|o h' IH] using rev_ind; [by rewrite app_nil_r|].
  rewrite (assoc_L (++)), registered_snoc, IH. destruct (registered_in h k id); [done|].
  by rewrite sealed_app.
Qed.

(** What an operation answers once the registry is sealed. *)
Definition settled (fixed : ∀ k, ID → option (Factory k)) (o : op) : answer :=
  match o with
  | OpRegister _ _ => Registered (Some (ESentinel ErrRegistryFrozen))
  | OpLookup k id =>
    Found k match fixed k id with
            | Some f => Ok f
            | None => Err (registry_error ErrNotFound k id)
            end
  | OpFreeze => Done
  end.

Lemma spec_answer_settled h h' o :
  sealed h = true → spec_answer h o = settled (registered_in (h ++ h')) o.
Proof. intros Hs. destruct o; simpl; rewrite ?registered_app by done; by rewrite ?Hs. Qed.

Definition by_goroutine (t : nat) (e : event op answer) : bool :=
  match e with Call t' _ | Return t' _ => t' =? t end.

(** Histories only grow. *)
Lemma atomic_grows l h0 m0 h m : atomic spec_op l h0 m0 h m → ∃ x, h = h0 ++ x.
Proof.
  induction 1 as [| |l s m s' m' t o _ [x ->] _|]; [exists []; by rewrite app_nil_r|done| |done].
  exists (x ++ [o]). by rewrite (assoc_L (++)).
Qed.

Lemma atomic_split l1 l2 h0 m0 h m :
  atomic spec_op (l1 ++ l2) h0 m0 h m →
  ∃ h1 m1, atomic spec_op l1 h0 m0 h1 m1 ∧ atomic spec_op l2 h1 m1 h m.
Proof.
  revert h m. induction l2 as [|p l2 IH] using rev_ind; intros h m Hat.
  - rewrite app_nil_r in Hat. exists h, m. split; [done|constructor].
  - rewrite (assoc_L (++)) in Hat. inversion Hat as [|l s m' h1 m1 t o H1 Ht Heq|l s m' h1 m1 t o H1 Ht Heq
      |l s m' h1 m1 t a H1 Ht Heq]; try (by destruct (l1 ++ l2)).
    all: apply app_inj_tail in Heq as [-> <-]; destruct (IH _ _ H1) as (h' & m'' & Ha & Hb);
      exists h', m''; subst; (split; [done|]);
      first [by apply (atomic_call spec_op)|by apply (atomic_take spec_op)|by apply (atomic_return spec_op)].
Qed.

(** Only a freeze answers [Done]. *)
Lemma done_sealed l h m t :
  atomic spec_op l [] ∅ h m →
  (m !! t = Some (Answered Done) → sealed h = true) ∧
  (Return t Done ∈ visible l → sealed h = true).
Proof.
  remember [] as h0 eqn:Hh. remember ∅ as m0 eqn:Hm.
  induction 1 as [s m|l s m s1 m1 t' o Hat IH Ht|l s m s1 m1 t' o Hat IH Ht|l s m s1 m1 t' a Hat IH Ht];
    subst; try (destruct (IH eq_refl eq_refl) as [IH1 IH2]; clear IH).
  - split; [by rewrite lookup_empty|]. by intros ?%elem_of_nil.
  - rewrite visible_snoc. split.
    + intros [[_ [=]]|[_ Hl]]%lookup_insert_Some. auto.
    + intros [H|H]%elem_of_app; [auto|]. by apply list_elem_of_singleton in H.
  - rewrite visible_snoc, app_nil_r. split.
    + intros [[_ Ha]|[_ Hl]]%lookup_insert_Some; [|by apply sealed_app, IH1].
      injection Ha as Ha. destruct o; simpl in Ha; try discriminate Ha.
      simpl. by rewrite sealed_snoc, orb_true_r.
    + intros H. by apply sealed_app, IH2.
  - rewrite visible_snoc. split.
    + intros [_ Hl]%lookup_delete_Some. auto.
    + intros [H|H]%elem_of_app; [auto|]. apply list_elem_of_singleton in H. injection H as -> <-. auto.
Qed.

(** A call made after a freeze has returned and still in flight is unanswered, or
    answered from a sealed history. *)
Definition settled_call (h : list op) (m : gmap nat (pending op answer)) (t : nat) (o : op) : Prop :=
  m !! t = Some (Called o) ∨
  ∃ h' x, h = h' ++ x ∧ sealed h' = true ∧ m !! t = Some (Answered (spec_answer h' o)).

Lemma settled_call_insert h m t o t' p :
  t ≠ t' → settled_call h m t o → settled_call h (<[t' := p]> m) t o.
Proof.
  intros Hne [H|(h' & x & H)]; [left|right; exists h', x]; by rewrite lookup_insert_ne by auto.
Qed.

Lemma settled_call_delete h m t o t' :
  t ≠ t' → settled_call h m t o → settled_call h (delete t' m) t o.
Proof.
  intros Hne [H|(h' & x & H)]; [left|right; exists h', x]; by rewrite lookup_delete_ne by auto.
Qed.

Lemma settled_call_grows h m t o x : settled_call h m t o → settled_call (h ++ x) m t o.
Proof.
  intros [H|(h' & y & -> & H)]; [by left|right]. exists h', (y ++ x). by rewrite (assoc_L (++)).
Qed.

Lemma snoc_cases {A} (l : list A) e u c v :
  l ++ [e] = u ++ c :: v →
  (v = [] ∧ e = c ∧ l = u) ∨ ∃ v', v = v' ++ [e] ∧ l = u ++ c :: v'.
Proof.
  destruct v as [|e' v' _] using rev_ind.
  - intros [-> ->]%app_inj_tail. by left.
  - rewrite app_comm_cons, (assoc_L (++)). intros [-> ->]%app_inj_tail. right. by exists v'.
Qed.

Lemma call_after_freeze l h m u t o v f :
  atomic spec_op l [] ∅ h m → visible l = u ++ Call t o :: v →
  Return f Done ∈ u → (∀ e, e ∈ v → by_goroutine t e = false) → settled_call h m t o.
Proof.
  intros Hat. revert v. remember [] as h0 eqn:Hh. remember ∅ as m0 eqn:Hm.
  induction Hat as [s m|l s m s1 m1 t' o' Hat IH Ht|l s m s1 m1 t' o' Hat IH Ht
    |l s m s1 m1 t' a Hat IH Ht]; intros v Hv Hf Hq; subst;
    try specialize (IH eq_refl eq_refl).
  - by destruct u.
  - rewrite visible_snoc in Hv. apply snoc_cases in Hv as [(-> & He & Hl)|(v' & -> & Hl)].
    + injection He as -> ->. left. apply lookup_insert_eq.
    + assert (Hne : by_goroutine t (Call t' o') = false) by (apply Hq, elem_of_app; right; by left).
      simpl in Hne. apply Nat.eqb_neq in Hne. apply settled_call_insert; [done|].
      apply (IH v' Hl Hf). intros e He. apply Hq, elem_of_app. by left.
  - rewrite visible_snoc, app_nil_r in Hv. specialize (IH v Hv Hf Hq).
    destruct (decide (t = t')) as [<-|Hne]; [|by apply settled_call_insert, settled_call_grows].
    right. exists s1, [o']. rewrite lookup_insert_eq. split_and!; [done| |].
    + apply (done_sealed l s1 m1 f Hat). rewrite Hv. apply elem_of_app. by left.
    + destruct IH as [IH|(h' & x & _ & _ & IH)]; rewrite IH in Ht; [|done]. by injection Ht as <-.
  - rewrite visible_snoc in Hv. apply snoc_cases in Hv as [(-> & He & _)|(v' & -> & Hl)]; [done|].
    assert (Hne : by_goroutine t (Return t' a) = false) by (apply Hq, elem_of_app; right; by left).
    simpl in Hne. apply Nat.eqb_neq in Hne. apply settled_call_delete; [done|].
    apply (IH v' Hl Hf). intros e He. apply Hq, elem_of_app. by left.
Qed.

(** An execution of the atomic object up to an event the callers see. *)
Lemma visible_split (l : list (point op answer)) p e q :
  visible l = p ++ e :: q → ∃ l1 l2, l = l1 ++ Seen e :: l2 ∧ visible l1 = p.
Proof.
  revert p. induction l as [|[e'|t o a] l IH]; intros p Hl; simpl in Hl; [by destruct p| |].
  - destruct p as [|e0 p]; injection Hl as -> Hl; [by exists [], l|].
    destruct (IH p Hl) as (l1 & l2 & -> & Hv). exists (Seen e0 :: l1), l2. split; [done|].
    simpl. by rewrite <-Hv.
  - destruct (IH p Hl) as (l1 & l2 & -> & Hv). by exists (Take t o a :: l1), l2.
Qed.

Lemma return_after_freeze l h m u t o v a q f :
  atomic spec_op l [] ∅ h m → visible l = (u ++ Call t o :: v) ++ Return t a :: q →
  Return f Done ∈ u → (∀ e, e ∈ v → by_goroutine t e = false) →
  a = settled (registered_in h) o.
Proof.
  intros Hat Hv Hf Hq. destruct (visible_split _ _ _ _ Hv) as (l1 & l2 & -> & Hl1).
  destruct (atomic_split _ _ _ _ _ _ Hat) as (h1 & m1 & H1 & H2).
  pose proof (call_after_freeze l1 h1 m1 u t o v f H1 Hl1 Hf Hq) as Hc.
  change (Seen (Return t a) :: l2) with ([Seen (Return t a)] ++ l2) in H2.
  destruct (atomic_split _ _ _ _ _ _ H2) as (h2 & m2 & Hr & H3).
  assert (Ha : m1 !! t = Some (Answered a) ∧ h2 = h1).
  { inversion Hr as [|? ? ? ? ? ? ? ? ? Heq|? ? ? ? ? ? ? ? ? Heq|l s m' s' m3 t' a' H0 Ht Heq];
      apply (app_inj_tail _ []) in Heq as [-> Heq]; try discriminate Heq.
    injection Heq as -> ->. inversion H0 as [? ?|? ? ? ? ? ? ? ? ? E|? ? ? ? ? ? ? ? ? E|? ? ? ? ? ? ? ? ? E];
      subst; try (by destruct l); done. }
  destruct Ha as [Ha ->]. destruct (atomic_grows _ _ _ _ _ H3) as [x ->].
  destruct Hc as [Hc|(h' & y & -> & Hs & Hc)]; rewrite Hc in Ha; [done|]. injection Ha as <-.
  rewrite <-(assoc_L (++)). by apply spec_answer_settled.
Qed.
End registry_lock.

(** ** Properties *)

Section registry_concurrent.
Context `{K : Kernel}.

(** C10: the registry is linearizable: whatever goroutines call its methods at
    once, and however their accesses interleave, the calls and answers seen are
    those of an execution where every call takes effect at one instant between
    its call and its return, with the answer the specification computes from the
    calls that took effect before it. *)
Theorem registry_linearizable tr c :
  execution registry_start tr c →
  ∃ l h m, atomic spec_op l [] ∅ h m ∧ visible l = tr ∧
    (writing (mu c) = false → implements h (shared c)).
Proof.
  intros (l & r & Hat & Hv & Hf)%locked_linearizable.
  destruct (registry_atomic _ _ _ Hat) as (h & Hspec & Hi).
  exists l, h, (stage <$> calls c). split_and!; [done|done|]. intros Hw. by rewrite (fo_idle _ _ Hf Hw).
Qed.

(** C12: no data race: at no point of any execution is one goroutine about to
    store into the registry while another is about to access it, and a goroutine
    inside a registration or a freeze is the only one inside any method. *)
Theorem registry_race_free tr c :
  execution registry_start tr c →
  ¬ racy c ∧
  (∀ t o b t' o' b', calls c !! t = Some (Inside o b) → calls c !! t' = Some (Inside o' b') →
     takes_Lock o = true → t = t').
Proof.
  intros Hi%inv_execution. split; [by apply locked_not_racy|].
  intros t o b t' o' b' Ht Ht' Ho. by eapply inside_exclusive.
Qed.

(** C13: no deadlock: with [n] calls in flight and no new one, every schedule
    stops after at most [6 n] steps, and it can stop only when all the calls have
    returned. *)
Theorem registry_calls_return tr c c' n :
  execution registry_start tr c → nsteps quiet n c c' →
  n ≤ 6 * size (calls c) ∧ (calls c' = ∅ ∨ ∃ c'', quiet c' c'').
Proof.
  intros Hx Hn. pose proof (inv_execution _ _ _ Hx) as Hi.
  destruct (quiet_completes c c' n Hi Hn) as [Hm Hp]. split; [|done].
  pose proof (measure_bound c 3 (execution_within_cost _ _ _ Hx) (λ o, le_n 3)). lia.
Qed.

(** C11: freezing is final for every goroutine: once a freeze has returned to
    some goroutine, the content of the registry is settled: every call made
    afterwards by any goroutine, whatever runs at the same time, is answered from
    it, a registration by ErrRegistryFrozen. *)
Theorem registry_freeze_settles tr c u f w :
  execution registry_start tr c → tr = u ++ Return f Done :: w →
  ∃ fixed, ∀ v t o x a y,
    w = v ++ Call t o :: x ++ Return t a :: y →
    (∀ e, e ∈ x → by_goroutine t e = false) → a = settled fixed o.
Proof.
  intros (l & r & Hat & Hv & _)%locked_linearizable ->.
  destruct (registry_atomic _ _ _ Hat) as (h & Hspec & _).
  exists (registered_in h). intros v t o x a y -> Hx.
  apply (return_after_freeze l h _ (u ++ Return f Done :: v) t o x a y f Hspec); [|set_solver|done].
  rewrite Hv, <-!(assoc_L (++)). simpl. by rewrite <-?(assoc_L (++)).
Qed.
End registry_concurrent.

(** Two goroutines register the same id while a third freezes: goroutine 0 is
    inside when 1 and 2 call; 2 gets the lock before 1. *)
Definition sample_actions : list (action (@op sample_kernel)) :=
  [DoCall 0 (OpRegister KindPromptAsset (sample_factory "prompt.a@1.0.0" "hello")); DoStep 0;
   DoCall 1 (OpRegister KindPromptAsset (sample_factory "prompt.b@1.0.0" "other")); DoStep 1;
   DoCall 2 OpFreeze; DoStep 0; DoStep 2; DoStep 0; DoStep 0; DoStep 0; DoStep 2; DoStep 2; DoStep 1;
   DoStep 2; DoStep 0; DoStep 2; DoStep 1; DoStep 1; DoStep 1; DoStep 1].

Definition sample_run := schedule sample_actions [] (registry_start (K := sample_kernel)).

Lemma sample_execution : execution (registry_start (K := sample_kernel)) sample_run.1 sample_run.2.
Proof. apply schedule_execution. constructor. Qed.

Example sample_trace : sample_run.1 = [
  Call 0 (OpRegister KindPromptAsset (sample_factory "prompt.a@1.0.0" "hello"));
  Call 1 (OpRegister KindPromptAsset (sample_factory "prompt.b@1.0.0" "other"));
  Call 2 OpFreeze; Return 0 (Registered None); Return 2 Done;
  Return 1 (Registered (Some (ESentinel ErrRegistryFrozen)))].
Proof. reflexivity. Qed.

Example registry_linearizable_witness :
  ∃ l h m, atomic spec_op l [] ∅ h m ∧ visible l = sample_run.1.
Proof.
  destruct (registry_linearizable sample_run.1 sample_run.2 sample_execution) as (l & h & m & Ha & Hv & _).
  exists l, h, m. by split.
Defined.

(** Goroutine 0 is about to store while 1 and 2 wait. *)
Definition sample_middle := schedule (take 8 sample_actions) [] (registry_start (K := sample_kernel)).

Lemma sample_middle_execution :
  execution (registry_start (K := sample_kernel)) sample_middle.1 sample_middle.2.
Proof. apply schedule_execution. constructor. Qed.

Example registry_race_free_witness :
  (∃ x, calls sample_middle.2 !! 0 = Some x ∧ about_to_store x) ∧ ¬ racy sample_middle.2.
Proof.
  split; [by eexists|].
  exact (proj1 (registry_race_free sample_middle.1 sample_middle.2 sample_middle_execution)).
Defined.

Example registry_calls_return_witness :
  calls sample_run.2 = ∅ ∧ ∃ c', nsteps quiet 1 sample_middle.2 c' ∧ 1 ≤ 6 * size (calls sample_middle.2).
Proof.
  split; [reflexivity|].
  assert (Hq : quiet sample_middle.2 (schedule (take 9 sample_actions) [] (registry_start (K := sample_kernel))).2).
  { exists None. split; [done|]. apply (advance_step (DoStep 0)). reflexivity. }
  eexists. split; [apply nsteps_once, Hq|].
  exact (proj1 (registry_calls_return sample_middle.1 sample_middle.2 _ 1 sample_middle_execution
    (nsteps_once _ _ Hq))).
Defined.

(** Then goroutine 3 looks the first factory up. *)
Definition sample_late := schedule
  (sample_actions ++ [DoCall 3 (OpLookup KindPromptAsset "prompt.a@1.0.0"); DoStep 3; DoStep 3; DoStep 3; DoStep 3])
  [] (registry_start (K := sample_kernel)).

Lemma sample_late_execution :
  execution (registry_start (K := sample_kernel)) sample_late.1 sample_late.2.
Proof. apply schedule_execution. constructor. Qed.

Example registry_freeze_settles_witness : ∃ fixed,
  Found KindPromptAsset (Ok (sample_factory "prompt.a@1.0.0" "hello")) =
  settled fixed (OpLookup KindPromptAsset "prompt.a@1.0.0").
Proof.
  destruct (registry_freeze_settles sample_late.1 sample_late.2 (take 4 sample_late.1) 2 (drop 5 sample_late.1)
    sample_late_execution) as [fixed Hfixed]; [reflexivity|].
  exists fixed. apply (Hfixed (take 1 (drop 5 sample_late.1)) 3 _ [] _ []); [reflexivity|].
  intros e He. by apply elem_of_nil in He.
Defined.
