(* ===== verification/MemoCells.v ===== *)
(** The memoised accessors of a normalised spec used by several goroutines at
    once (spec/canonical.go).

    [CanonicalJSON] and [NormalizedHash] each fill their memo under a [sync.Once]
    and then read it; the closure of [NormalizedHash] calls [CanonicalJSON], so one
    [Once] is entered inside the other.  A goroutine is at a program point of one of
    the two methods; every step is one entry of a [Do], one store, one mark or one
    read of a memo. *)

From S2P Require Import Prelude GoStrings Errors Values JsonText Types Canonical Sha256 Hash Sync.
From stdpp Require Import options.

(** ** The memos *)

(** [sync.Once]: the function has returned; it is running and later callers wait. *)
Record Once := mkOnce { once_done : bool; once_running : bool }.

(** [memoCanonical] and [memoHash]: the [Once], the value (nil and the empty string
    before it is stored) and the error. *)
Record memoCanonical := mkMemoCanonical { c_once : Once; c_b : string; c_err : option error }.
Record memoHash := mkMemoHash { h_once : Once; h_v : string; h_err : option error }.

Definition new_memoCanonical : memoCanonical := mkMemoCanonical (mkOnce false false) "" None.
Definition new_memoHash : memoHash := mkMemoHash (mkOnce false false) "" None.

(** [Do]: the first caller runs the function, callers during the run wait, the
    ones after return at once. *)
Inductive once_entry := First | Wait | After.
Definition once_enter (o : Once) : once_entry :=
  if once_done o then After else if once_running o then Wait else First.
Definition once_begin (o : Once) : Once := mkOnce (once_done o) true.
Definition once_end (o : Once) : Once := mkOnce true false.

(** A Go result pair [(value, err)]. *)
Definition value_of (r : res error string) : string := match r with Ok b => b | Err _ => "" end.
Definition err_of (r : res error string) : option error := match r with Ok _ => None | Err e => Some e end.
Definition pair_result (b : string) (err : option error) : res error string :=
  match err with None => Ok b | Some e => Err e end.

Lemma pair_result_of r : pair_result (value_of r) (err_of r) = r.
Proof. by destruct r. Qed.

(** ** Program points *)

Inductive method := CanonicalJSON_ | NormalizedHash_.

(** [h] tells a [CanonicalJSON] called by the closure of [NormalizedHash] from one
    called by the user of the package. *)
Inductive point_of :=
| AtCanonicalDo (h : bool)                      (* before canonicalMemo.once.Do *)
| AtCompute (h : bool)                          (* in the closure: compute, store b *)
| AtStoreErr (h : bool) (err : option error)    (* in the closure: store err *)
| AtCanonicalEnd (h : bool)                     (* the closure has returned *)
| AtCanonicalRead (h : bool)                    (* return canonicalMemo.b, canonicalMemo.err *)
| AtHashDo                                      (* before hashMemo.once.Do *)
| AtHashStore (r : res error string)            (* in the closure: store v or err *)
| AtHashEnd                                     (* the closure has returned *)
| AtHashRead                                    (* return hashMemo.v, hashMemo.err *)
| AtReturn (m : method) (r : res error string).

Record cells := mkCells {
  canonical_memo : memoCanonical; hash_memo : memoHash; goroutines : gmap nat point_of;
}.

Definition fresh_cells : cells := mkCells new_memoCanonical new_memoHash ∅.

Inductive memo_event :=
| MemoCall (t : nat) (m : method)
| MemoReturn (t : nat) (m : method) (r : res error string).

(** What a goroutine in [CanonicalJSON] does next; [None]: it waits. *)
Definition next_canonical (s : AgentSpec) (p : point_of) (cm : memoCanonical)
    : option (point_of * memoCanonical) :=
  let '(mkMemoCanonical co cb ce) := cm in
  match p with
  | AtCanonicalDo h =>
    match once_enter co with
    | First => Some (AtCompute h, mkMemoCanonical (once_begin co) cb ce)
    | Wait => None
    | After => Some (AtCanonicalRead h, cm)
    end
  | AtCompute h =>
    let r := computeCanonicalJSON s in
    Some (AtStoreErr h (err_of r), mkMemoCanonical co (value_of r) ce)
  | AtStoreErr h err => Some (AtCanonicalEnd h, mkMemoCanonical co cb err)
  | AtCanonicalEnd h => Some (AtCanonicalRead h, mkMemoCanonical (once_end co) cb ce)
  | AtCanonicalRead h =>
    let r := pair_result cb ce in
    Some (if h then AtHashStore r else AtReturn CanonicalJSON_ r, cm)
  | _ => None
  end.

(** What a goroutine in [NormalizedHash], outside the call of [CanonicalJSON] its
    closure makes, does next. *)
Definition next_hash (p : point_of) (hm : memoHash) : option (point_of * memoHash) :=
  let '(mkMemoHash ho hv he) := hm in
  match p with
  | AtHashDo =>
    match once_enter ho with
    | First => Some (AtCanonicalDo true, mkMemoHash (once_begin ho) hv he)
    | Wait => None
    | After => Some (AtHashRead, hm)
    end
  | AtHashStore (Err err) => Some (AtHashEnd, mkMemoHash ho hv (Some err))
  | AtHashStore (Ok b) => Some (AtHashEnd, mkMemoHash ho (EncodeToString (Sum256 b)) he)
  | AtHashEnd => Some (AtHashRead, mkMemoHash (once_end ho) hv he)
  | AtHashRead => Some (AtReturn NormalizedHash_ (pair_result hv he), hm)
  | _ => None
  end.

Definition next (s : AgentSpec) (p : point_of) (cm : memoCanonical) (hm : memoHash)
    : option (point_of * memoCanonical * memoHash) :=
  match p with
  | AtCanonicalDo _ | AtCompute _ | AtStoreErr _ _ | AtCanonicalEnd _ | AtCanonicalRead _ =>
    match next_canonical s p cm with Some (p', cm') => Some (p', cm', hm) | None => None end
  | AtHashDo | AtHashStore _ | AtHashEnd | AtHashRead =>
    match next_hash p hm with Some (p', hm') => Some (p', cm, hm') | None => None end
  | AtReturn _ _ => None
  end.

Definition entry_point (m : method) : point_of :=
  match m with CanonicalJSON_ => AtCanonicalDo false | NormalizedHash_ => AtHashDo end.

Inductive memo_step (s : AgentSpec) : cells → option memo_event → cells → Prop :=
| memo_call cm hm gs t m :
    gs !! t = None →
    memo_step s (mkCells cm hm gs) (Some (MemoCall t m)) (mkCells cm hm (<[t := entry_point m]> gs))
| memo_next cm hm gs t p p' cm' hm' :
    gs !! t = Some p → next s p cm hm = Some (p', cm', hm') →
    memo_step s (mkCells cm hm gs) None (mkCells cm' hm' (<[t := p']> gs))
| memo_return cm hm gs t m r :
    gs !! t = Some (AtReturn m r) →
    memo_step s (mkCells cm hm gs) (Some (MemoReturn t m r)) (mkCells cm hm (delete t gs)).

Inductive memo_execution (s : AgentSpec) : list memo_event → cells → Prop :=
| memo_start : memo_execution s [] fresh_cells
| memo_snoc tr c e c' :
    memo_execution s tr c → memo_step s c e c' →
    memo_execution s (tr ++ match e with Some e => [e] | None => [] end) c'.

(** ** The invariant *)

#[local] Opaque computeCanonicalJSON hash_of Sum256 EncodeToString.

Section memo_invariant.
Context (s : AgentSpec).

(** What each method answers when called alone. *)
Definition answer_of (m : method) : res error string :=
  match m with CanonicalJSON_ => computeCanonicalJSON s | NormalizedHash_ => hash_of s end.

(** In the closure of [canonicalMemo.once], in that of [hashMemo.once]. *)
Definition in_canonical (p : point_of) : bool :=
  match p with AtCompute _ | AtStoreErr _ _ | AtCanonicalEnd _ => true | _ => false end.
Definition in_hash (p : point_of) : bool :=
  match p with
  | AtCanonicalDo h | AtCompute h | AtStoreErr h _ | AtCanonicalEnd h | AtCanonicalRead h => h
  | AtHashStore _ | AtHashEnd => true
  | AtHashDo | AtHashRead | AtReturn _ _ => false
  end.

(** A filled memo. *)
Definition canonical_filled (cm : memoCanonical) : Prop :=
  c_b cm = value_of (answer_of CanonicalJSON_) ∧ c_err cm = err_of (answer_of CanonicalJSON_).
Definition hash_filled (hm : memoHash) : Prop :=
  h_v hm = value_of (answer_of NormalizedHash_) ∧ h_err hm = err_of (answer_of NormalizedHash_).
Definition hash_empty (hm : memoHash) : Prop := h_v hm = "" ∧ h_err hm = None.

(** What a goroutine at a point knows of the memos. *)
Definition knows_canonical (p : point_of) (cm : memoCanonical) : Prop :=
  match p with
  | AtCompute _ => once_done (c_once cm) = false
  | AtStoreErr _ err =>
    once_done (c_once cm) = false ∧ c_b cm = value_of (answer_of CanonicalJSON_) ∧
    err = err_of (answer_of CanonicalJSON_)
  | AtCanonicalEnd _ => once_done (c_once cm) = false ∧ canonical_filled cm
  | AtCanonicalRead _ => once_done (c_once cm) = true
  | AtHashStore r => r = answer_of CanonicalJSON_
  | AtReturn m r => r = answer_of m
  | _ => True
  end.
Definition knows_hash (p : point_of) (hm : memoHash) : Prop :=
  match p with
  | AtHashEnd => once_done (h_once hm) = false ∧ hash_filled hm
  | AtHashRead => once_done (h_once hm) = true
  | p => in_hash p = true → once_done (h_once hm) = false ∧ hash_empty hm
  end.

Record memo_inv (c : cells) : Prop := {
  mi_canonical_count :
    count in_canonical (goroutines c) = one (once_running (c_once (canonical_memo c)));
  mi_hash_count : count in_hash (goroutines c) = one (once_running (h_once (hash_memo c)));
  mi_canonical_done : once_done (c_once (canonical_memo c)) = true →
    once_running (c_once (canonical_memo c)) = false ∧ canonical_filled (canonical_memo c);
  mi_hash_done : once_done (h_once (hash_memo c)) = true →
    once_running (h_once (hash_memo c)) = false ∧ hash_filled (hash_memo c);
  mi_hash_new : once_done (h_once (hash_memo c)) = false →
    once_running (h_once (hash_memo c)) = false → hash_empty (hash_memo c);
  mi_knows t p : goroutines c !! t = Some p →
    knows_canonical p (canonical_memo c) ∧ knows_hash p (hash_memo c);
}.

Lemma memo_inv_fresh : memo_inv fresh_cells.
Proof.
  split; simpl; try done; unfold count; by rewrite ?total_empty.
Qed.

(** What one goroutine knows is not disturbed by the others: a memo only changes
    while nobody else is in its closure, and stays done. *)
Lemma knows_canonical_stable p cm cm' :
  (in_canonical p = true → cm' = cm) →
  (once_done (c_once cm) = true → once_done (c_once cm') = true) →
  knows_canonical p cm → knows_canonical p cm'.
Proof. intros Hc Hd. destruct p; simpl in *; try (by rewrite Hc by done); auto. Qed.

Lemma knows_hash_stable p hm hm' :
  (in_hash p = true → hm' = hm) →
  (once_done (h_once hm) = true → once_done (h_once hm') = true) →
  knows_hash p hm → knows_hash p hm'.
Proof.
  intros Hc Hd. destruct p as [[]|[]|[] e|[]|[]| | | | |]; simpl in *;
    try (by rewrite Hc by done); auto; done.
Qed.

(** Two goroutines are never in the same closure. *)
Lemma in_closure_unique (P : point_of → bool) gs (b : bool) t p t' p' :
  count P gs = one b → gs !! t = Some p → P p = true → gs !! t' = Some p' → P p' = true → t = t'.
Proof.
  intros Hc Ht Hp Ht' Hp'. destruct (decide (t = t')) as [|Hne]; [done|].
  pose proof (count_two P gs t p t' p' Ht Hp Ht' Hp' Hne). destruct b; simpl in *; lia.
Qed.

Lemma in_closure_running (P : point_of → bool) gs (b : bool) t p :
  count P gs = one b → gs !! t = Some p → P p = true → b = true.
Proof.
  intros Hc Ht Hp. pose proof (count_pos P gs t p Ht Hp). destruct b; simpl in *; [done|lia].
Qed.

Lemma next_canonical_others cm hm gs t p p' cm' hm' t' q :
  count in_canonical gs = one (once_running (c_once cm)) →
  gs !! t = Some p → next s p cm hm = Some (p', cm', hm') →
  gs !! t' = Some q → t ≠ t' → in_canonical q = true → cm' = cm.
Proof.
  intros Hc Ht Hn Hq Hne Hin.
  assert (Hr := in_closure_running _ _ _ _ _ Hc Hq Hin).
  assert (Hp : in_canonical p = false).
  { destruct (in_canonical p) eqn:Hp; [|done]. by destruct Hne; eapply in_closure_unique. }
  destruct cm as [[cd cr] cb ce], hm as [[hd hr] hv he]. simpl in *. subst cr.
  destruct p as [h| | | |h| |[]| | |]; simpl in *; unfold once_enter in *; simpl in *;
    try done; try destruct cd; try destruct hd; try destruct hr; simpl in *; congruence.
Qed.

Lemma next_hash_others cm hm gs t p p' cm' hm' t' q :
  count in_hash gs = one (once_running (h_once hm)) →
  gs !! t = Some p → next s p cm hm = Some (p', cm', hm') →
  gs !! t' = Some q → t ≠ t' → in_hash q = true → hm' = hm.
Proof.
  intros Hc Ht Hn Hq Hne Hin.
  assert (Hr := in_closure_running _ _ _ _ _ Hc Hq Hin).
  assert (Hp : in_hash p = false).
  { destruct (in_hash p) eqn:Hp; [|done]. by destruct Hne; eapply in_closure_unique. }
  destruct cm as [[cd cr] cb ce], hm as [[hd hr] hv he]. simpl in *. subst hr.
  destruct p as [h| | | |h| |[]| | |]; simpl in *; unfold once_enter in *; simpl in *;
    try done; try destruct cd; try destruct cr; try destruct hd; simpl in *; congruence.
Qed.

(** What a memo satisfies whoever is in its closure. *)
Definition canonical_ok (cm : memoCanonical) : Prop :=
  once_done (c_once cm) = true → once_running (c_once cm) = false ∧ canonical_filled cm.
Definition hash_ok (hm : memoHash) : Prop :=
  (once_done (h_once hm) = true → once_running (h_once hm) = false ∧ hash_filled hm) ∧
  (once_done (h_once hm) = false → once_running (h_once hm) = false → hash_empty hm).

(** [solve_own]: use what is known of the booleans of the two [Once]. *)
Ltac solve_own :=
  unfold canonical_filled, hash_filled, hash_empty in *; split_and!; intros;
  repeat (subst; simpl in *; unfold canonical_filled, hash_filled, hash_empty in *; match goal with
  | H : ?x = ?x → _ |- _ => specialize (H eq_refl)
  | H : ?P → _, H' : ?P |- _ => specialize (H H')
  | H : _ ∧ _ |- _ => destruct H
  end); simpl in *; split_and?; auto; try congruence.

(** The step of a goroutine keeps the memos in order, moves in and out of the
    closures as the [Once] records, and what it knows afterwards is true. *)
Lemma next_own cm hm p p' cm' hm' :
  canonical_ok cm → hash_ok hm →
  (in_canonical p = true → once_running (c_once cm) = true) →
  (in_hash p = true → once_running (h_once hm) = true) →
  knows_canonical p cm → knows_hash p hm → next s p cm hm = Some (p', cm', hm') →
  canonical_ok cm' ∧ hash_ok hm' ∧ knows_canonical p' cm' ∧ knows_hash p' hm' ∧
  one (in_canonical p') + one (once_running (c_once cm)) =
    one (in_canonical p) + one (once_running (c_once cm')) ∧
  one (in_hash p') + one (once_running (h_once hm)) =
    one (in_hash p) + one (once_running (h_once hm')) ∧
  (once_done (c_once cm) = true → once_done (c_once cm') = true) ∧
  (once_done (h_once hm) = true → once_done (h_once hm') = true).
Proof.
  unfold canonical_ok, hash_ok, canonical_filled, hash_filled, hash_empty.
  destruct cm as [[cd cr] cb ce], hm as [[hd hr] hv he]. simpl.
  intros Hc [Hd Hn] Hic Hih Hkc Hkh Hx.
  destruct p as [h|h|h e|h|h| |r| | |m r]; unfold once_enter in Hx; simpl in *.
  - destruct cd; [injection Hx as <- <- <-; destruct h; simpl in *; solve_own|].
    destruct cr; [done|]. injection Hx as <- <- <-. destruct h; simpl in *; solve_own.
  - injection Hx as <- <- <-. destruct h; simpl in *; solve_own.
  - injection Hx as <- <- <-. destruct h; simpl in *; solve_own.
  - injection Hx as <- <- <-. destruct h; simpl in *; solve_own.
  - injection Hx as <- <- <-. destruct (Hc Hkc) as (_ & -> & ->). rewrite pair_result_of.
    destruct h; simpl in *; solve_own.
  - destruct hd; [injection Hx as <- <- <-; simpl in *; solve_own|].
    destruct hr; [done|]. injection Hx as <- <- <-. simpl in *. solve_own.
  - assert (Hh : hash_of s = (λ b, EncodeToString (Sum256 b)) <$> r) by (by rewrite hash_of_canonical, Hkc).
    destruct (Hkh eq_refl) as [Hd' [Hv He]]. simpl in Hv, He. subst hv he.
    destruct r; injection Hx as <- <- <-; simpl in *; solve_own; by rewrite Hh.
  - injection Hx as <- <- <-. simpl in *. solve_own.
  - injection Hx as <- <- <-. destruct (Hd Hkh) as (_ & -> & ->). simpl in *.
    rewrite pair_result_of. solve_own.
  - done.
Qed.

Lemma memo_inv_closures c t p :
  memo_inv c → goroutines c !! t = Some p →
  (in_canonical p = true → once_running (c_once (canonical_memo c)) = true) ∧
  (in_hash p = true → once_running (h_once (hash_memo c)) = true).
Proof.
  intros Hi Ht. split; intros Hp.
  - by eapply in_closure_running; [apply mi_canonical_count|..].
  - by eapply in_closure_running; [apply mi_hash_count|..].
Qed.

Lemma memo_inv_next cm hm gs t p p' cm' hm' :
  memo_inv (mkCells cm hm gs) → gs !! t = Some p → next s p cm hm = Some (p', cm', hm') →
  memo_inv (mkCells cm' hm' (<[t := p']> gs)).
Proof.
  intros Hi Ht Hn. destruct (memo_inv_closures _ t p Hi Ht) as [Hic Hih].
  destruct Hi as [Hcc Hch Hcd Hhd Hhn Hk]. destruct (Hk t p Ht) as [Hkc Hkh]. simpl in *.
  destruct (next_own cm hm p p' cm' hm' Hcd (conj Hhd Hhn) Hic Hih Hkc Hkh Hn)
    as (Hcd' & [Hhd' Hhn'] & Hkc' & Hkh' & Hec & Heh & Hmc & Hmh).
  pose proof (total_update (λ p, one (in_canonical p)) gs t p p' Ht) as Tc.
  pose proof (total_update (λ p, one (in_hash p)) gs t p p' Ht) as Th.
  unfold count in Hcc, Hch. split; unfold count; simpl; try done; [lia|lia|].
  intros t' q [[<- <-]|[Hne Hq]]%lookup_insert_Some; [done|]. destruct (Hk t' q Hq) as [Hqc Hqh].
  split.
  - eapply knows_canonical_stable; [|done|done]. intros Hin.
    exact (next_canonical_others cm hm gs t p p' cm' hm' t' q Hcc Ht Hn Hq Hne Hin).
  - eapply knows_hash_stable; [|done|done]. intros Hin.
    exact (next_hash_others cm hm gs t p p' cm' hm' t' q Hch Ht Hn Hq Hne Hin).
Qed.

Lemma memo_inv_step c e c' : memo_inv c → memo_step s c e c' → memo_inv c'.
Proof.
  intros Hi Hst. destruct Hst as [cm hm gs t m Ht|cm hm gs t p p' cm' hm' Ht Hn|cm hm gs t m r Ht].
  - destruct Hi as [Hcc Hch Hcd Hhd Hhn Hk]. unfold count in Hcc, Hch.
    split; unfold count; simpl in *; rewrite ?total_new by done; try done; try (by destruct m).
    intros t' q [[<- <-]|[_ Hq]]%lookup_insert_Some; [by destruct m|by apply (Hk t')].
  - by eapply memo_inv_next.
  - destruct Hi as [Hcc Hch Hcd Hhd Hhn Hk]. unfold count in Hcc, Hch. simpl in *.
    rewrite (total_delete _ gs t _ Ht) in Hcc. rewrite (total_delete _ gs t _ Ht) in Hch.
    split; simpl; try done. intros t' q [_ Hq]%lookup_delete_Some. by apply (Hk t').
Qed.

Lemma memo_inv_execution tr c : memo_execution s tr c → memo_inv c.
Proof. induction 1; eauto using memo_inv_fresh, memo_inv_step. Qed.

(** Every answer seen is the one of the method called alone. *)
Lemma memo_answers tr c t m r :
  memo_execution s tr c → MemoReturn t m r ∈ tr → r = answer_of m.
Proof.
  induction 1 as [|tr c e c' Hx IH Hst]; [by intros ?%elem_of_nil|].
  intros [Hin|Hin]%elem_of_app; [by apply IH|]. pose proof (memo_inv_execution _ _ Hx) as Hi.
  destruct Hst as [cm hm gs t' m' Ht|cm hm gs t' p p' cm' hm' Ht Hn|cm hm gs t' m' r' Ht].
  - by apply list_elem_of_singleton in Hin.
  - by apply elem_of_nil in Hin.
  - apply list_elem_of_singleton in Hin. injection Hin as -> -> ->.
    destruct (mi_knows _ Hi t' _ Ht) as [Hr _]. exact Hr.
Qed.

(** *** Every call finishes *)

Definition points_left (p : point_of) : nat :=
  match p with
  | AtCanonicalDo h => 5 + (if h then 4 else 1)
  | AtCompute h => 4 + (if h then 4 else 1)
  | AtStoreErr h _ => 3 + (if h then 4 else 1)
  | AtCanonicalEnd h => 2 + (if h then 4 else 1)
  | AtCanonicalRead h => 1 + (if h then 4 else 1)
  | AtHashDo => 10
  | AtHashStore _ => 4
  | AtHashEnd => 3
  | AtHashRead => 2
  | AtReturn _ _ => 1
  end.
Definition memo_measure (c : cells) : nat := total points_left (goroutines c).

Definition memo_quiet (c c' : cells) : Prop :=
  memo_step s c None c' ∨ ∃ t m r, memo_step s c (Some (MemoReturn t m r)) c'.

Lemma next_points_left p cm hm p' cm' hm' :
  next s p cm hm = Some (p', cm', hm') → points_left p' < points_left p.
Proof.
  destruct cm as [[cd cr] cb ce], hm as [[hd hr] hv he].
  destruct p as [h|h|h e|h|h| |[]| | |m r]; simpl; unfold once_enter; simpl; try done;
    try destruct cd; try destruct cr; try destruct hd; try destruct hr; try done;
    intros [= <- <- <-]; simpl; try destruct h; simpl; lia.
Qed.

Lemma memo_quiet_decreases c c' : memo_quiet c c' → memo_measure c' < memo_measure c.
Proof.
  unfold memo_measure. intros [Hst|(t & m & r & Hst)].
  - inversion Hst as [|cm hm gs t p p' cm' hm' Ht Hn|]; subst; simpl.
    pose proof (next_points_left _ _ _ _ _ _ Hn).
    pose proof (total_update points_left gs t p p' Ht). lia.
  - inversion Hst as [| |cm hm gs t' m' r' Ht]; subst; simpl.
    rewrite (total_delete points_left gs t _ Ht). simpl. lia.
Qed.

(** A goroutine that cannot step waits for a closure another one is in. *)
Lemma memo_step_or_wait c t p :
  goroutines c !! t = Some p →
  (∃ c', memo_quiet c c') ∨
  (∃ h, p = AtCanonicalDo h ∧ once_running (c_once (canonical_memo c)) = true) ∨
  (p = AtHashDo ∧ once_running (h_once (hash_memo c)) = true).
Proof.
  destruct c as [cm hm gs]. simpl. intros Ht.
  destruct (next s p cm hm) as [[[p' cm'] hm']|] eqn:Hn.
  - left. eexists. left. by eapply memo_next.
  - destruct cm as [[cd cr] cb ce], hm as [[hd hr] hv he]. simpl.
    destruct p as [h|h|h e|h|h| |[]| | |m r]; simpl in Hn; unfold once_enter in Hn; simpl in Hn; try done.
    + right. left. exists h. destruct cd, cr; done.
    + right. right. destruct hd, hr; done.
    + left. eexists. right. eexists t, m, r. by apply memo_return.
Qed.

Lemma memo_progress c : memo_inv c → goroutines c ≠ ∅ → ∃ c', memo_quiet c c'.
Proof.
  intros Hi Hne.
  assert (Hcan : once_running (c_once (canonical_memo c)) = true → ∃ c', memo_quiet c c').
  { intros Hr. pose proof (mi_canonical_count c Hi) as Hc. rewrite Hr in Hc.
    destruct (count_some in_canonical (goroutines c)) as (t & p & Ht & Hp); [by rewrite Hc|].
    destruct (memo_step_or_wait c t p Ht) as [?|[(h & -> & _)|[-> _]]]; done. }
  destruct (map_choose _ Hne) as (t & p & Ht).
  destruct (memo_step_or_wait c t p Ht) as [?|[(h & _ & Hr)|[_ Hr]]]; [done|by apply Hcan|].
  pose proof (mi_hash_count c Hi) as Hc. rewrite Hr in Hc.
  destruct (count_some in_hash (goroutines c)) as (t' & q & Ht' & Hq); [by rewrite Hc|].
  destruct (memo_step_or_wait c t' q Ht') as [?|[(h & _ & Hr')|[-> _]]]; [done|by apply Hcan|done].
Qed.

Lemma memo_quiet_inv c c' : memo_inv c → memo_quiet c c' → memo_inv c'.
Proof. intros Hi [Hst|(t & m & r & Hst)]; by eapply memo_inv_step. Qed.

Lemma memo_completes c c' n :
  memo_inv c → nsteps memo_quiet n c c' →
  n + memo_measure c' ≤ memo_measure c ∧ (goroutines c' = ∅ ∨ ∃ c'', memo_quiet c' c'').
Proof.
  intros Hi Hn. induction Hn as [c|n c c1 c' Hq _ IH].
  - split; [lia|]. destruct (decide (goroutines c = ∅)); [by left|]. right. by apply memo_progress.
  - pose proof (memo_quiet_decreases _ _ Hq).
    destruct (IH (memo_quiet_inv _ _ Hi Hq)). split; [lia|done].
Qed.

(** *** Data races *)

Definition stores_canonical (p : point_of) : bool :=
  match p with AtCompute _ | AtStoreErr _ _ => true | _ => false end.
Definition reads_canonical (p : point_of) : bool :=
  match p with AtCanonicalRead _ => true | _ => false end.
Definition stores_hash (p : point_of) : bool :=
  match p with AtHashStore _ => true | _ => false end.
Definition reads_hash (p : point_of) : bool :=
  match p with AtHashRead => true | _ => false end.

(** Two goroutines are about to access the fields of a memo, one to store. *)
Definition memo_racy (c : cells) : Prop :=
  ∃ t t' p q, t ≠ t' ∧ goroutines c !! t = Some p ∧ goroutines c !! t' = Some q ∧
    ((stores_canonical p = true ∧ (stores_canonical q = true ∨ reads_canonical q = true)) ∨
     (stores_hash p = true ∧ (stores_hash q = true ∨ reads_hash q = true))).

Lemma memo_not_racy c : memo_inv c → ¬ memo_racy c.
Proof.
  intros Hi (t & t' & p & q & Hne & Ht & Ht' & Hpq).
  destruct (mi_knows c Hi t p Ht) as [Hkc Hkh]. destruct (mi_knows c Hi t' q Ht') as [Hqc Hqh].
  destruct Hpq as [[Hp [Hq|Hq]]|[Hp [Hq|Hq]]].
  - apply Hne. eapply (in_closure_unique in_canonical); [apply (mi_canonical_count c Hi)|done| |done|];
      [by destruct p|by destruct q].
  - destruct q as [| | | |h| | | | |]; try done. simpl in Hqc.
    destruct p; try done; simpl in Hkc; [|destruct Hkc as [Hkc _]]; congruence.
  - apply Hne. eapply (in_closure_unique in_hash); [apply (mi_hash_count c Hi)|done| |done|];
      [by destruct p|by destruct q].
  - destruct q; try done. simpl in Hqh. destruct p; try done. simpl in Hkh.
    destruct (Hkh eq_refl) as [Hd _]. congruence.
Qed.
End memo_invariant.

(** ** Properties *)

(** C15: however many goroutines call the memoised accessors of a spec at once,
    and however their steps interleave: every call of CanonicalJSON returns the
    canonical JSON of the spec (or its error) and every call of NormalizedHash its
    hash, as if called alone; no memo field is stored to while another goroutine is
    about to access it; and the nested Once never deadlock: with [n] calls in flight
    and no new one, every schedule stops after at most [10 n] steps, and it can stop
    only when all the calls have returned. *)
Theorem memo_concurrent s tr c :
  memo_execution s tr c →
  (∀ t m r, MemoReturn t m r ∈ tr →
     r = match m with CanonicalJSON_ => computeCanonicalJSON s | NormalizedHash_ => hash_of s end) ∧
  ¬ memo_racy c ∧
  (∀ n c', nsteps (memo_quiet s) n c c' →
     n ≤ 10 * size (goroutines c) ∧ (goroutines c' = ∅ ∨ ∃ c'', memo_quiet s c' c'')).
Proof.
  intros Hx. pose proof (memo_inv_execution s tr c Hx) as Hi.
  split_and!; [|by eapply memo_not_racy|].
  - intros t m r Hr. rewrite (memo_answers s tr c t m r Hx Hr). by destruct m.
  - intros n c' Hn. destruct (memo_completes s c c' n Hi Hn) as [Hm Hp]. split; [|done].
    assert (memo_measure c ≤ 10 * size (goroutines c)); [|lia].
    apply total_le. intros t p _. destruct p as [[]|[]|[]|[]|[]| | | | |]; simpl; lia.
Qed.

(** An executable scheduler, for the examples: a call, or the next step of a
    goroutine if it can make one. *)
Definition memo_advance (s : AgentSpec) (a : memo_event + nat) (c : cells) : option (option memo_event * cells) :=
  let '(mkCells cm hm gs) := c in
  match a with
  | inl (MemoCall t m) =>
    match gs !! t with
    | None => Some (Some (MemoCall t m), mkCells cm hm (<[t := entry_point m]> gs))
    | Some _ => None
    end
  | inl (MemoReturn _ _ _) => None
  | inr t =>
    match gs !! t with
    | None => None
    | Some (AtReturn m r) => Some (Some (MemoReturn t m r), mkCells cm hm (delete t gs))
    | Some p =>
      match next s p cm hm with
      | Some (p', cm', hm') => Some (None, mkCells cm' hm' (<[t := p']> gs))
      | None => None
      end
    end
  end.

Lemma memo_advance_step s a c e c' : memo_advance s a c = Some (e, c') → memo_step s c e c'.
Proof.
  destruct c as [cm hm gs], a as [[t m|t m r]|t]; simpl; [| done |].
  - destruct (gs !! t) eqn:Ht; [done|]. intros [= <- <-]. by constructor.
  - destruct (gs !! t) as [p|] eqn:Ht; [|done].
    destruct p as [| | | | | | | | |m r]; cbv iota;
      try (destruct (next s _ cm hm) as [[[p' cm'] hm']|] eqn:Hn; [|done]; intros [= <- <-]; by eapply memo_next).
    intros [= <- <-]. by constructor.
Qed.

Fixpoint memo_schedule (s : AgentSpec) (l : list (memo_event + nat)) (tr : list memo_event) (c : cells)
    : list memo_event * cells :=
  match l with
  | [] => (tr, c)
  | a :: l' =>
    match memo_advance s a c with
    | Some (e, c') => memo_schedule s l' (tr ++ match e with Some e => [e] | None => [] end) c'
    | None => memo_schedule s l' tr c
    end
  end.

Lemma memo_schedule_execution s l tr c :
  memo_execution s tr c →
  memo_execution s (memo_schedule s l tr c).1 (memo_schedule s l tr c).2.
Proof.
  revert tr c. induction l as [|a l IH]; intros tr c Hx; simpl; [done|].
  destruct (memo_advance s a c) as [[e c']|] eqn:Ha; [|by apply IH].
  apply IH. eapply memo_snoc; [done|]. by eapply memo_advance_step.
Qed.

(** Goroutine 0 asks for the hash and is in its closure, about to compute, when 1
    asks for the canonical JSON and 2 for the hash. *)
Definition memo_actions : list (memo_event + nat) :=
  [inl (MemoCall 0 NormalizedHash_); inr 0; inr 0; inl (MemoCall 1 CanonicalJSON_); inr 1;
   inl (MemoCall 2 NormalizedHash_); inr 2; inr 0; inr 0; inr 1; inr 0; inr 1; inr 1; inr 2; inr 1;
   inr 0; inr 0; inr 2; inr 0; inr 2; inr 2; inr 2; inr 0; inr 0].
Definition memo_middle := memo_schedule zeroAgentSpec (take 7 memo_actions) [] fresh_cells.
Definition memo_run := memo_schedule zeroAgentSpec memo_actions [] fresh_cells.

Lemma memo_middle_execution : memo_execution zeroAgentSpec memo_middle.1 memo_middle.2.
Proof. apply memo_schedule_execution. constructor. Qed.
Lemma memo_run_execution : memo_execution zeroAgentSpec memo_run.1 memo_run.2.
Proof. apply memo_schedule_execution. constructor. Qed.

Example memo_run_trace : memo_run.1 = [
  MemoCall 0 NormalizedHash_; MemoCall 1 CanonicalJSON_; MemoCall 2 NormalizedHash_;
  MemoReturn 1 CanonicalJSON_ (computeCanonicalJSON zeroAgentSpec);
  MemoReturn 2 NormalizedHash_ (hash_of zeroAgentSpec);
  MemoReturn 0 NormalizedHash_ (hash_of zeroAgentSpec)].
Proof. vm_compute. reflexivity. Qed.

Example memo_concurrent_witness :
  goroutines memo_run.2 = ∅ ∧
  (∃ p q, goroutines memo_middle.2 !! 0 = Some p ∧ goroutines memo_middle.2 !! 1 = Some q ∧
     stores_canonical p = true) ∧
  ¬ memo_racy memo_middle.2 ∧
  (goroutines memo_middle.2 = ∅ ∨ ∃ c', memo_quiet zeroAgentSpec memo_middle.2 c') ∧
  (∀ t m r, MemoReturn t m r ∈ memo_run.1 →
     r = match m with CanonicalJSON_ => computeCanonicalJSON zeroAgentSpec | _ => hash_of zeroAgentSpec end).
Proof.
  destruct (memo_concurrent zeroAgentSpec memo_middle.1 memo_middle.2 memo_middle_execution) as (_ & Hr & Hq).
  split_and!.
  - reflexivity.
  - exists (AtCompute true), (AtCanonicalDo false). by split_and!.
  - exact Hr.
  - exact (proj2 (Hq 0 memo_middle.2 (nsteps_O _ _))).
  - exact (proj1 (memo_concurrent zeroAgentSpec memo_run.1 memo_run.2 memo_run_execution)).
Defined.
