(* ===== verification/Budget.v ===== *)
(** Budget overrides (build/budget.go), with [time.ParseDuration] as the
    standard library defines it. *)

From S2P Require Import Prelude GoStrings Errors Values Types Kernel.
From Stdlib Require Import SpecFloat.
From stdpp Require Import options.

Local Open Scope Z_scope.

(** ** time.ParseDuration

    Durations are int64 nanoseconds; the parser accumulates in uint64 and
    refuses what passes 2 ^ 63. *)

Definition two63 : Z := 9223372036854775808.

Definition digit_value (c : ascii) : Z := Z.of_N (code c) - 48.

(** [leadingInt]: [None] on overflow. *)
Fixpoint leadingInt (x : Z) (s : string) : option (Z * string) :=
  match s with
  | String c s' =>
    if is_digit c then
      if Z.ltb (two63 / 10) x then None
      else let x' := x * 10 + digit_value c in
           if Z.ltb two63 x' then None else leadingInt x' s'
    else Some (x, s)
  | "" => Some (x, s)
  end.

(** [leadingFraction]: the digits, the power of ten and the rest; digits past an
    overflow are skipped. *)
Fixpoint leadingFraction (x scale : Z) (overflow : bool) (s : string) : Z * Z * string :=
  match s with
  | String c s' =>
    if is_digit c then
      if overflow then leadingFraction x scale true s'
      else if Z.ltb ((two63 - 1) / 10) x then leadingFraction x scale true s'
      else let y := x * 10 + digit_value c in
           if Z.ltb two63 y then leadingFraction x scale true s'
           else leadingFraction y (scale * 10) false s'
    else (x, scale, s)
  | "" => (x, scale, s)
  end.

(** The letters of a unit, up to the next digit or dot. *)
Fixpoint split_unit (s : string) : string * string :=
  match s with
  | String c s' =>
    if (is_char "."%char c || is_digit c)%bool then ("", s)
    else let '(u, rest) := split_unit s' in (String c u, rest)
  | "" => ("", "")
  end.

Definition micro (b1 b2 : N) : string := String (byte b1) (String (byte b2) "s").

Definition unitMap : list (string * Z) :=
  [("ns", 1); ("us", 1000); (micro 194 181, 1000); (micro 206 188, 1000);
   ("ms", 1000000); ("s", 1000000000); ("m", 60000000000); ("h", 3600000000000)].

(** [uint64(float64(f) * (float64(unit) / scale))]. *)
Definition to_float (z : Z) : spec_float := binary_normalize 53 1024 z 0 false.
Definition fraction_nanos (f unit scale : Z) : Z :=
  default 0 (float_trunc (SFmul 53 1024 (to_float f) (SFdiv 53 1024 (to_float unit) (to_float scale)))).

(** One turn of the loop: a number and its unit. *)
Definition parse_term (s : string) : option (Z * string) :=
  match s with
  | "" => None
  | String c _ =>
    if negb (is_char "."%char c || is_digit c)%bool then None
    else match leadingInt 0 s with
    | None => None
    | Some (v, s1) =>
      let pre := negb (Nat.eqb (String.length s) (String.length s1)) in
      let '(f, scale, s2, post) :=
        match s1 with
        | String c1 s1' =>
          if is_char "."%char c1 then
            let '(f, scale, s2) := leadingFraction 0 1 false s1' in
            (f, scale, s2, negb (Nat.eqb (String.length s1') (String.length s2)))
          else (0, 1, s1, false)
        | "" => (0, 1, s1, false)
        end in
      if (negb pre && negb post)%bool then None
      else
        let '(u, s3) := split_unit s2 in
        if bool_decide (u = "") then None
        else match assoc u unitMap with
        | None => None
        | Some unit =>
          if Z.ltb (two63 / unit) v then None
          else
            let v := v * unit in
            if Z.ltb 0 f then
              let v := v + fraction_nanos f unit scale in
              if Z.ltb two63 v then None else Some (v, s3)
            else Some (v, s3)
        end
    end
  end.

Fixpoint parse_terms (fuel : nat) (d : Z) (s : string) : option Z :=
  match s with
  | "" => Some d
  | String _ _ =>
    match fuel with
    | O => None
    | S fuel' =>
      match parse_term s with
      | None => None
      | Some (v, rest) =>
        let d' := (d + v) mod (2 * two63) in
        if Z.ltb two63 d' then None else parse_terms fuel' d' rest
      end
    end
  end.

Definition duration_error (orig : string) : error := EOpaque ("time: invalid duration " +:+ orig).

Definition ParseDuration (orig : string) : res error Z :=
  let '(neg, s) :=
    match orig with
    | String c s' =>
      if (is_char "-"%char c || is_char "+"%char c)%bool then (is_char "-"%char c, s')
      else (false, orig)
    | "" => (false, orig)
    end in
  if bool_decide (s = "0") then Ok 0
  else if bool_decide (s = "") then Err (duration_error orig)
  else match parse_terms (String.length s) 0 s with
  | None => Err (duration_error orig)
  | Some d =>
    if neg then Ok (- d)
    else if Z.ltb (two63 - 1) d then Err (duration_error orig)
    else Ok d
  end.

Example ParseDuration_30s : ParseDuration "30s" = Ok 30000000000.
Proof. vm_compute. reflexivity. Qed.
Example ParseDuration_mixed : ParseDuration "-1h15m0.5s" = Ok (-4500500000000).
Proof. vm_compute. reflexivity. Qed.
Example ParseDuration_min : ParseDuration "-9223372036854775808ns" = Ok (-9223372036854775808).
Proof. vm_compute. reflexivity. Qed.
Example ParseDuration_max : is_ok (ParseDuration "9223372036854775808ns") = false.
Proof. vm_compute. reflexivity. Qed.
Example ParseDuration_bad : is_ok (ParseDuration "3000") = false.
Proof. vm_compute. reflexivity. Qed.

(** ** Duration.String *)

(** The last [prec] decimal digits of [u], without trailing zeros; a dot comes
    before the first digit kept ([fmtFrac]). *)
Fixpoint fmtFrac (prec : nat) (print : bool) (u : Z) (acc : string) : string * Z :=
  match prec with
  | O => (if print then "." +:+ acc else acc, u)
  | S prec' =>
    let digit := u mod 10 in
    let print := (print || negb (Z.eqb digit 0))%bool in
    fmtFrac prec' print (u / 10) (if print then pretty digit +:+ acc else acc)
  end.

(** A duration below a second uses the largest unit that leaves an integer part. *)
Definition format_small (u : Z) : string :=
  let unit (prec : nat) (name : string) :=
    let '(frac, i) := fmtFrac prec false u "" in pretty i +:+ frac +:+ name in
  if Z.eqb u 0 then "0s"
  else if Z.ltb u 1000 then unit 0%nat "ns"
  else if Z.ltb u 1000000 then unit 3%nat (micro 194 181)
  else unit 6%nat "ms".

Definition format_large (u : Z) : string :=
  let '(frac, secs) := fmtFrac 9 false u "" in
  let tail := pretty (secs mod 60) +:+ frac +:+ "s" in
  let mins := secs / 60 in
  if Z.ltb 0 mins then
    let tail := pretty (mins mod 60) +:+ "m" +:+ tail in
    let hours := mins / 60 in
    if Z.ltb 0 hours then pretty hours +:+ "h" +:+ tail else tail
  else tail.

Definition Duration_String (d : Z) : string :=
  let u := Z.abs d in
  let text := if Z.ltb u 1000000000 then format_small u else format_large u in
  if Z.ltb d 0 then "-" +:+ text else text.

Example Duration_String_samples :
  Duration_String <$> [0; 30000000000; 5400000000000; 1500000; 1100; 90061000000001; -250000000]
  = ["0s"; "30s"; "1h30m0s"; "1.5ms"; "1.1" +:+ micro 194 181; "25h1m1.000000001s"; "-250ms"].
Proof. vm_compute. reflexivity. Qed.

(** ** applyBudgetOverrides *)

Section budget.
Context `{K : Kernel}.

(** The name a field has in messages. *)
Definition budget_name (f : BudgetField) : string :=
  match f with
  | MaxWallClock => "maxWallClock" | MaxInputTokens => "maxInputTokens"
  | MaxOutputTokens => "maxOutputTokens" | MaxToolCalls => "maxToolCalls"
  | MaxCostMicrodollars => "maxCostMicrodollars"
  end.

Definition override_of (ov : BudgetOverrides) (f : BudgetField) : Z :=
  match f with
  | MaxWallClock => 0
  | MaxInputTokens => bo_MaxInputTokens ov
  | MaxOutputTokens => bo_MaxOutputTokens ov
  | MaxToolCalls => bo_MaxToolCalls ov
  | MaxCostMicrodollars => bo_MaxCostMicrodollars ov
  end.

Definition tightenInt64 (f : BudgetField) (override def : Z) (out : BudgetConfig)
    : res error BudgetConfig :=
  if Z.eqb override 0 then Ok out
  else if (Z.ltb 0 def && Z.ltb def override)%bool then
    Err (EWrap (Sprintf "%w: %s %d > default %d" [FS (budget_name f); FD override; FD def])
           (ESentinel ErrBudgetLoosening))
  else Ok (cfg_set f override out).

Definition applyWallClock (defaults : BudgetConfig) (ov : BudgetOverrides)
    : res error BudgetConfig :=
  if bool_decide (bo_MaxWallClock ov = "") then Ok defaults
  else
    nanos ← map_err (EWrap (Sprintf "budget.overrides.maxWallClock: %w" []))
              (ParseDuration (bo_MaxWallClock ov));
    let def := cfg_get MaxWallClock defaults in
    if (Z.ltb 0 def && Z.ltb def nanos)%bool then
      Err (EWrap (Sprintf "%w: maxWallClock %v > default %v" 
                   [FS (Duration_String nanos); FS (Duration_String def)])
             (ESentinel ErrBudgetLoosening))
    else Ok (cfg_set MaxWallClock nanos defaults).

Definition applyBudgetOverrides (defaults : BudgetConfig) (ov : BudgetOverrides)
    : res error BudgetConfig :=
  let tighten f := tightenInt64 f (override_of ov f) (cfg_get f defaults) in
  out ← applyWallClock defaults ov;
  out ← tighten MaxInputTokens out;
  out ← tighten MaxOutputTokens out;
  out ← tighten MaxToolCalls out;
  tighten MaxCostMicrodollars out.

(** ** Lemmas *)

(** What the overrides ask of a ceiling: nothing, or a new value. *)
Definition asked (override : Z) : option Z := if decide (override = 0) then None else Some override.

Definition requested (ov : BudgetOverrides) (f : BudgetField) : option Z :=
  match f with
  | MaxWallClock =>
    if decide (bo_MaxWallClock ov = "") then None
    else match ParseDuration (bo_MaxWallClock ov) with Ok d => Some d | Err _ => None end
  | MaxInputTokens => asked (bo_MaxInputTokens ov)
  | MaxOutputTokens => asked (bo_MaxOutputTokens ov)
  | MaxToolCalls => asked (bo_MaxToolCalls ov)
  | MaxCostMicrodollars => asked (bo_MaxCostMicrodollars ov)
  end.

(** The error of a wall-clock override that is not a duration. *)
Definition unparsable (ov : BudgetOverrides) : option error :=
  if decide (bo_MaxWallClock ov = "") then None
  else match ParseDuration (bo_MaxWallClock ov) with
  | Ok _ => None
  | Err e => Some (EWrap (Sprintf "budget.overrides.maxWallClock: %w" []) e)
  end.

(** The ceilings in the order they are checked, and the error of a request that
    exceeds one. *)
Definition checked_order : list BudgetField :=
  [MaxWallClock; MaxInputTokens; MaxOutputTokens; MaxToolCalls; MaxCostMicrodollars].

Definition loosening_error (f : BudgetField) (v def : Z) : error :=
  EWrap
    match f with
    | MaxWallClock => Sprintf "%w: maxWallClock %v > default %v"
        [FS (Duration_String v); FS (Duration_String def)]
    | MaxInputTokens => Sprintf "%w: %s %d > default %d" [FS "maxInputTokens"; FD v; FD def]
    | MaxOutputTokens => Sprintf "%w: %s %d > default %d" [FS "maxOutputTokens"; FD v; FD def]
    | MaxToolCalls => Sprintf "%w: %s %d > default %d" [FS "maxToolCalls"; FD v; FD def]
    | MaxCostMicrodollars => Sprintf "%w: %s %d > default %d" [FS "maxCostMicrodollars"; FD v; FD def]
    end (ESentinel ErrBudgetLoosening).

(** [f] is the first ceiling that a request exceeds, and [e] its error. *)
Definition first_loosened (defaults : BudgetConfig) (ov : BudgetOverrides) (e : error) : Prop :=
  ∃ before f after v,
    checked_order = before ++ f :: after ∧
    Forall (λ g, ∀ w, requested ov g = Some w → ¬ 0 < cfg_get g defaults < w) before ∧
    requested ov f = Some v ∧ 0 < cfg_get f defaults < v ∧
    e = loosening_error f v (cfg_get f defaults).

(** A request loosens a set (positive) ceiling when it exceeds it. *)
Definition loosens (def : Z) (o : option Z) : Prop :=
  match o with Some v => 0 < def < v | None => False end.
#[export] Instance loosens_dec def o : Decision (loosens def o).
Proof. destruct o; simpl; apply _. Defined.

Definition applied (def : Z) (o : option Z) : Z := default def o.

Lemma tightenInt64_spec f override def out :
  match tightenInt64 f override def out with
  | Ok out' => ¬ loosens def (asked override) ∧
      out' = from_option (λ v, cfg_set f v out) out (asked override)
  | Err e => asked override = Some override ∧ 0 < def < override ∧
      e = EWrap (Sprintf "%w: %s %d > default %d" [FS (budget_name f); FD override; FD def])
            (ESentinel ErrBudgetLoosening)
  end.
Proof.
  unfold tightenInt64, asked. destruct (Z.eqb_spec override 0) as [H0|H0].
  { rewrite decide_True by done. by split; [intros []|]. }
  rewrite decide_False by done.
  destruct (Z.ltb_spec 0 def), (Z.ltb_spec def override); simpl; split_and!; try done; lia.
Qed.

Lemma applyWallClock_spec defaults ov :
  let o := requested ov MaxWallClock in
  let def := cfg_get MaxWallClock defaults in
  match applyWallClock defaults ov with
  | Ok out => unparsable ov = None ∧ ¬ loosens def o ∧
      out = from_option (λ v, cfg_set MaxWallClock v defaults) defaults o
  | Err e => unparsable ov = Some e ∨
      unparsable ov = None ∧ ∃ v, o = Some v ∧ 0 < def < v ∧ e = loosening_error MaxWallClock v def
  end.
Proof.
  unfold applyWallClock, requested, unparsable. case_bool_decide as Hw.
  { rewrite !decide_True by done. split_and!; [done|by intros []|done]. }
  rewrite !decide_False by done.
  destruct (ParseDuration _) as [d|e]; cbn [map_err mbind res_bind]; [|by left].
  destruct (Z.ltb_spec 0 (cfg_get MaxWallClock defaults)),
    (Z.ltb_spec (cfg_get MaxWallClock defaults) d); cbn [andb];
    [right; split; [done|]; by exists d|split_and!; try done; simpl; lia..].
Qed.

Lemma cfg_get_request f g o out :
  cfg_get f (from_option (λ v, cfg_set g v out) out o) =
  if decide (f = g) then applied (cfg_get f out) o else cfg_get f out.
Proof.
  case_decide as Hfg; destruct o as [v|]; simpl; try done; subst.
  - by rewrite cfg_get_set.
  - by rewrite cfg_get_set_ne.
Qed.

Lemma tighten_step f ov defaults out out' :
  f ≠ MaxWallClock → cfg_get f out = cfg_get f defaults →
  tightenInt64 f (override_of ov f) (cfg_get f defaults) out = Ok out' →
  ¬ loosens (cfg_get f defaults) (requested ov f) ∧
  ∀ g, cfg_get g out' = if decide (g = f) then applied (cfg_get f defaults) (requested ov f)
                        else cfg_get g out.
Proof.
  intros Hf Hget Ht. pose proof (tightenInt64_spec f (override_of ov f) (cfg_get f defaults) out) as Hs.
  rewrite Ht in Hs. destruct Hs as [Hl ->].
  assert (requested ov f = asked (override_of ov f)) as -> by (by destruct f).
  split; [done|]. intros g. rewrite cfg_get_request. case_decide; [|done]. subst. by rewrite Hget.
Qed.

Lemma applyBudgetOverrides_Ok defaults ov out :
  applyBudgetOverrides defaults ov = Ok out →
  ∀ f, ¬ loosens (cfg_get f defaults) (requested ov f) ∧
    cfg_get f out = applied (cfg_get f defaults) (requested ov f).
Proof.
  unfold applyBudgetOverrides. intros H.
  apply bind_Ok in H as (o1 & H1 & H). apply bind_Ok in H as (o2 & H2 & H).
  apply bind_Ok in H as (o3 & H3 & H). apply bind_Ok in H as (o4 & H4 & H5).
  pose proof (applyWallClock_spec defaults ov) as Hw. rewrite H1 in Hw.
  destruct Hw as (_ & Hw & ->).
  apply tighten_step in H2 as [L2 G2]; [|done|by rewrite cfg_get_request].
  apply tighten_step in H3 as [L3 G3]; [|done|by rewrite G2, cfg_get_request].
  apply tighten_step in H4 as [L4 G4]; [|done|by rewrite G3, G2, cfg_get_request].
  apply tighten_step in H5 as [L5 G5]; [|done|by rewrite G4, G3, G2, cfg_get_request].
  intros []; (split; [done|]); by rewrite G5; simpl; rewrite ?G4; simpl; rewrite ?G3; simpl;
    rewrite ?G2; simpl; rewrite ?cfg_get_request.
Qed.

Lemma tighten_Err f ov defaults out e :
  f ≠ MaxWallClock → tightenInt64 f (override_of ov f) (cfg_get f defaults) out = Err e →
  ∃ v, requested ov f = Some v ∧ 0 < cfg_get f defaults < v ∧
    e = loosening_error f v (cfg_get f defaults).
Proof.
  intros Hf Ht. pose proof (tightenInt64_spec f (override_of ov f) (cfg_get f defaults) out) as Hs.
  rewrite Ht in Hs. destruct Hs as (Ha & Hl & ->). exists (override_of ov f). by destruct f.
Qed.

Lemma tighten_within f ov defaults out out' :
  f ≠ MaxWallClock → tightenInt64 f (override_of ov f) (cfg_get f defaults) out = Ok out' →
  ∀ w, requested ov f = Some w → ¬ 0 < cfg_get f defaults < w.
Proof.
  intros Hf Ht w Hw Hl. pose proof (tightenInt64_spec f (override_of ov f) (cfg_get f defaults) out) as Hs.
  rewrite Ht in Hs. destruct Hs as [Hn _]. apply Hn.
  assert (asked (override_of ov f) = Some w) as -> by (by destruct f). done.
Qed.

Lemma applyBudgetOverrides_Err defaults ov e :
  applyBudgetOverrides defaults ov = Err e →
  unparsable ov = Some e ∨ unparsable ov = None ∧ first_loosened defaults ov e.
Proof.
  unfold applyBudgetOverrides. intros He.
  pose proof (applyWallClock_spec defaults ov) as Hw.
  apply bind_Err in He as [He|(o1 & H1 & He)].
  { rewrite He in Hw. destruct Hw as [?|[? Hl]]; [by left|right]. split; [done|].
    destruct Hl as (v & Hl). by exists [], MaxWallClock, (tail checked_order), v. }
  rewrite H1 in Hw. destruct Hw as (Hp & Hw & _). right. split; [done|].
  assert (Hw' : ∀ w, requested ov MaxWallClock = Some w → ¬ 0 < cfg_get MaxWallClock defaults < w)
    by (intros w Hr; by rewrite Hr in Hw).
  apply bind_Err in He as [He|(o2 & H2 & He)].
  { apply tighten_Err in He as (v & Hl); [|done].
    exists [MaxWallClock], MaxInputTokens, (drop 2 checked_order), v. by rewrite Forall_singleton. }
  assert (W2 := λ Hf, tighten_within _ _ _ _ _ Hf H2). specialize (W2 ltac:(done)). apply bind_Err in He as [He|(o3 & H3 & He)].
  { apply tighten_Err in He as (v & Hl); [|done].
    exists (take 2 checked_order), MaxOutputTokens, (drop 3 checked_order), v. split; [done|]. split; [|done]. by simpl; auto using List.Forall_cons, List.Forall_nil. }
  assert (W3 := λ Hf, tighten_within _ _ _ _ _ Hf H3). specialize (W3 ltac:(done)). apply bind_Err in He as [He|(o4 & H4 & He)].
  { apply tighten_Err in He as (v & Hl); [|done].
    exists (take 3 checked_order), MaxToolCalls, (drop 4 checked_order), v. split; [done|]. split; [|done]. by simpl; auto using List.Forall_cons, List.Forall_nil. }
  assert (W4 := λ Hf, tighten_within _ _ _ _ _ Hf H4). specialize (W4 ltac:(done)). apply tighten_Err in He as (v & Hl); [|done].
  exists (take 4 checked_order), MaxCostMicrodollars, [], v. split; [done|]. split; [|done]. by simpl; auto using List.Forall_cons, List.Forall_nil.
Qed.

Lemma ParseDuration_opaque s : (∃ d, ParseDuration s = Ok d) ∨ ∃ t, ParseDuration s = Err (EOpaque t).
Proof.
  unfold ParseDuration, duration_error.
  repeat (case_bool_decide || case_match); eauto.
Qed.

(** ** Properties *)

(** accepted overrides: every ceiling becomes exactly what its override asks
    for, or stays at the default without one, and no override that exceeds a
    positive default is accepted, so a positive ceiling is never raised. *)
Theorem budget_overrides_never_raise defaults ov out f :
  applyBudgetOverrides defaults ov = Ok out →
  cfg_get f out = applied (cfg_get f defaults) (requested ov f) ∧
  (0 < cfg_get f defaults → cfg_get f out ≤ cfg_get f defaults).
Proof.
  intros H. destruct (applyBudgetOverrides_Ok _ _ _ H f) as [Hl Hg]. split; [done|].
  intros Hd. rewrite Hg. destruct (requested ov f) as [v|]; simpl in *; lia.
Qed.

(** C28: the whole outcome of the overrides.  They are accepted exactly when the
    wall clock is absent or parses and no request exceeds a positive default, and
    then each ceiling is what its override asks for, or the default without one; an
    unparsable wall clock is refused with its parse error, which does not match
    ErrBudgetLoosening; otherwise the first request, in the order of the fields, that
    exceeds its positive default is refused with an error that names the field and
    both values and matches ErrBudgetLoosening.  There is no other failure. *)
Theorem budget_overrides_outcome defaults ov :
  match applyBudgetOverrides defaults ov with
  | Ok out =>
    unparsable ov = None ∧
    (∀ f v, requested ov f = Some v → ¬ 0 < cfg_get f defaults < v) ∧
    ∀ f, cfg_get f out = default (cfg_get f defaults) (requested ov f)
  | Err e =>
    unparsable ov = Some e ∧ errors_is e ErrBudgetLoosening = false ∨
    unparsable ov = None ∧ first_loosened defaults ov e ∧ errors_is e ErrBudgetLoosening = true
  end.
Proof.
  destruct (applyBudgetOverrides defaults ov) as [out|e] eqn:He.
  - assert (Hall := applyBudgetOverrides_Ok _ _ _ He). unfold applyBudgetOverrides in He.
    apply bind_Ok in He as (o1 & H1 & _). pose proof (applyWallClock_spec defaults ov) as Hw.
    rewrite H1 in Hw. split; [by destruct Hw|]. split; [|by intros f; destruct (Hall f)].
    intros f v Hv. destruct (Hall f) as [Hl _]. by rewrite Hv in Hl.
  - apply applyBudgetOverrides_Err in He as [He|[He Hf]]; [left|right].
    + split; [done|]. unfold unparsable in He. case_decide; [done|].
      destruct (ParseDuration_opaque (bo_MaxWallClock ov)) as [[d Hd]|[s Hs]];
        [by rewrite Hd in He|]. rewrite Hs in He. by injection He as <-.
    + split_and!; [done..|]. by destruct Hf as (? & ? & ? & ? & _ & _ & _ & _ & ->).
Qed.

(** an override may lift a ceiling altogether: a wall-clock override of zero
    length, and a negative one, are accepted whatever the default is, although a
    ceiling that is not positive is not enforced against overrides. *)
Theorem budget_zero_wall_clock_accepted defaults s d :
  s ≠ "" → ParseDuration s = Ok d → d ≤ 0 →
  ∃ out, applyBudgetOverrides defaults (mkBudgetOverrides s 0 0 0 0) = Ok out ∧
    cfg_get MaxWallClock out = d ∧ ∀ f, f ≠ MaxWallClock → cfg_get f out = cfg_get f defaults.
Proof.
  intros Hs Hd Hle. unfold applyBudgetOverrides, applyWallClock. simpl.
  rewrite bool_decide_false by done. rewrite Hd. simpl.
  destruct (Z.ltb_spec 0 (cfg_get MaxWallClock defaults)),
    (Z.ltb_spec (cfg_get MaxWallClock defaults) d); simpl; try lia.
  all: eexists; split; [done|]; split; [apply cfg_get_set|]; intros f Hf; by apply cfg_get_set_ne.
Qed.
End budget.

(** The value of a duration is an int64. *)
Lemma parse_terms_bounds fuel d s r :
  0 ≤ d ≤ two63 → parse_terms fuel d s = Some r → 0 ≤ r ≤ two63.
Proof.
  revert d s. induction fuel as [|fuel IH]; intros d [|c s] Hd Hr; cbn [parse_terms] in Hr; try done;
    try (by injection Hr as <-).
  destruct (parse_term (String c s)) as [[v rest]|]; [|done].
  destruct (Z.ltb_spec two63 ((d + v) mod (2 * two63))); [done|].
  apply IH in Hr; [done|]. split; [|done]. apply Z.mod_pos_bound. done.
Qed.

(** a parsed duration fits an int64. *)
Theorem ParseDuration_bounds s d :
  ParseDuration s = Ok d → - two63 ≤ d ≤ two63 - 1.
Proof.
  unfold ParseDuration. intros H.
  destruct (match s with "" => (false, s) | String c s' => _ end) as [neg r].
  case_bool_decide; [injection H as <-; unfold two63; lia|]. case_bool_decide; [done|].
  destruct (parse_terms _ 0 r) as [x|] eqn:Hx; [|done].
  apply parse_terms_bounds in Hx; [|unfold two63; lia].
  destruct neg; [injection H as <-; unfold two63 in *; lia|].
  destruct (Z.ltb_spec (two63 - 1) x); [done|]. injection H as <-. lia.
Qed.

Example ParseDuration_bounds_witness : - two63 ≤ 30000000000 ≤ two63 - 1.
Proof. apply (ParseDuration_bounds "30s"). vm_compute. reflexivity. Defined.

Example budget_overrides_never_raise_witness :
  @cfg_get sample_kernel MaxWallClock (5000000000, 10, 20, 30, 40) ≤
  @cfg_get sample_kernel MaxWallClock (30000000000, 10, 20, 30, 40).
Proof.
  apply (budget_overrides_never_raise (K := sample_kernel) (30000000000, 10, 20, 30, 40)
    (mkBudgetOverrides "5s" 0 0 0 0) (5000000000, 10, 20, 30, 40) MaxWallClock);
    vm_compute; reflexivity.
Defined.

Definition sample_ceilings : @BudgetConfig sample_kernel := (30000000000, 10, 20, 30, 0).

(** Two requests exceed their defaults, and the first is reported; an unparsable
    wall clock is refused with another error; a tighter one is accepted, and an
    unset ceiling may be given any value. *)
Example budget_overrides_outcome_witness :
  applyBudgetOverrides (K := sample_kernel) sample_ceilings (mkBudgetOverrides "" 5 21 31 7) =
    Err (loosening_error MaxOutputTokens 21 20) ∧
  (∃ e, applyBudgetOverrides (K := sample_kernel) sample_ceilings (mkBudgetOverrides "3000" 5 21 31 0) =
     Err e ∧ errors_is e ErrBudgetLoosening = false) ∧
  ∃ out, applyBudgetOverrides (K := sample_kernel) sample_ceilings (mkBudgetOverrides "5s" 0 20 0 7) =
      Ok out ∧
    (∀ f, @cfg_get sample_kernel f out = match f with
       | MaxWallClock => 5000000000 | MaxInputTokens => 10 | MaxOutputTokens => 20
       | MaxToolCalls => 30 | MaxCostMicrodollars => 7
       end).
Proof.
  split; [|split].
  - vm_compute. reflexivity.
  - assert (H := budget_overrides_outcome (K := sample_kernel) sample_ceilings
      (mkBudgetOverrides "3000" 5 21 31 0)).
    destruct (applyBudgetOverrides _ _) as [out|e]; [destruct H as [H _]; vm_compute in H; discriminate|].
    exists e. split; [reflexivity|]. destruct H as [[_ H]|[H _]]; [exact H|vm_compute in H; discriminate].
  - assert (H := budget_overrides_outcome (K := sample_kernel) sample_ceilings
      (mkBudgetOverrides "5s" 0 20 0 7)).
    destruct (applyBudgetOverrides _ _) as [out|e] eqn:He; [|vm_compute in He; discriminate].
    exists out. split; [reflexivity|]. destruct H as (_ & _ & H). intros f. rewrite H.
    destruct f; vm_compute; reflexivity.
Defined.

Example budget_zero_wall_clock_accepted_witness :
  ∃ out, applyBudgetOverrides (K := sample_kernel) (30000000000, 10, 20, 30, 40)
           (mkBudgetOverrides "0s" 0 0 0 0) = Ok out ∧
    @cfg_get sample_kernel MaxWallClock out = 0.
Proof.
  destruct (budget_zero_wall_clock_accepted (K := sample_kernel) (30000000000, 10, 20, 30, 40) "0s" 0)
    as (out & Ho & Hg & _); [discriminate|vm_compute; reflexivity|lia|].
  exists out. split; [exact Ho|exact Hg].
Defined.
