(* ===== verification/Chains.v ===== *)
(** The composed hooks of an agent: the policy chain (build/policy_chain.go), the
    three filter chains (build/filter_chains.go) and the tool router
    (build/tool_router.go). *)

From S2P Require Import Prelude GoStrings Errors Values Extends Kernel Registry.
From stdpp Require Import options.

Section chains.
Context `{K : Kernel}.

(** ** policyChain *)

Fixpoint policyChain_Evaluate (c : list PolicyHook) (ctx : context) (phase : Phase)
    (input : PolicyInput) : IO Decision_ :=
  match c with
  | [] => io_ret (Decision_of VerdictAllow)
  | h :: rest =>
    io_bind (h ctx phase input) (λ d,
      if bool_decide (d_Verdict d ∈ [VerdictDeny; VerdictRequireApproval]) then io_ret d
      else if bool_decide (d_Verdict d ∈ [VerdictLog; VerdictAllow; VerdictContinue])
      then policyChain_Evaluate rest ctx phase input
      else io_ret d)
  end.

(** ** Filter chains *)

Definition ErrFilterBlockedErr : error := ESentinel ErrFilterBlocked.

Definition blocked (reason : string) : error :=
  if bool_decide (reason = "") then ErrFilterBlockedErr
  else EWrap (Sprintf "%w: %s" [FS reason]) ErrFilterBlockedErr.

Definition blockingDec (decs : slice FilterDecision) : option FilterDecision :=
  head (filter (λ d, fd_Action d = FilterActionBlock) (elems decs)).

(** The loop of the three [Filter] methods; [zero] is the value returned next to
    an error. *)
Fixpoint chain_from {T} (zero : T) (c : list (FilterOf T)) (ctx : context)
    (all : slice FilterDecision) (cur : T) (w : World)
    : (T * slice FilterDecision * option error) * World :=
  match c with
  | [] => ((cur, all, None), w)
  | f :: rest =>
    let '((out, decs, err), w) := f ctx cur w in
    match err with
    | Some err => ((zero, None, Some err), w)
    | None =>
      let all := append_slice all (elems decs) in
      match blockingDec decs with
      | Some d => ((zero, all, Some (blocked (fd_Reason d))), w)
      | None => chain_from zero rest ctx all out w
      end
    end
  end.

Definition preLLMFilterChain_Filter (c : list PreLLMFilter) : PreLLMFilter := λ ctx msgs w,
  chain_from None c ctx None msgs w.
Definition preToolFilterChain_Filter (c : list PreToolFilter) : PreToolFilter := λ ctx call w,
  chain_from zero_ToolCall c ctx None call w.
Definition postToolFilterChain_Filter (c : list PostToolFilter) : PostToolFilter := λ ctx r w,
  chain_from zero_ToolResult c ctx None r w.

(** ** toolRouter *)

Record toolRouter := mkToolRouter { byName : gmap string Invoker }.

Definition router_state : Type := toolRouter * slice ToolDefinition.

Definition add_definition (inv : Invoker) (st : router_state) (def : ToolDefinition)
    : res error router_state :=
  if HasPrefix (def_Name def) "mcp." then
    Err (EWrap (Sprintf "%w: %s" [FS (def_Name def)]) (ESentinel ErrToolNameReservedPrefix))
  else match byName st.1 !! def_Name def with
  | Some _ =>
    Err (EWrap (Sprintf "%w: %s" [FS (def_Name def)]) (ESentinel ErrToolNameCollision))
  | None =>
    Ok (mkToolRouter (<[def_Name def := inv]> (byName st.1)), append_slice st.2 [def])
  end.

Definition newToolRouter (packs : list ToolPack) : res error router_state :=
  foldM (λ st p, foldM (add_definition (tp_Invoker p)) st (elems (tp_Definitions p)))
    (mkToolRouter ∅, None) packs.

Definition Invoke (r : toolRouter) : Invoker := λ ctx ictx call,
  match byName r !! call_Name call with
  | None =>
    io_fail (EWrap (Sprintf "%w: %s" [FS (call_Name call)]) (ESentinel ErrToolNotFound))
  | Some inv => inv ctx ictx call
  end.

(** ** Policy chains: short circuit and flattening *)

Definition passes (d : Decision_) : Prop :=
  d_Verdict d ∈ [VerdictLog; VerdictAllow; VerdictContinue].
#[export] Instance passes_dec d : Decision (passes d).
Proof. unfold passes. apply _. Defined.

Lemma passes_not_decisive d : passes d → d_Verdict d ∉ [VerdictDeny; VerdictRequireApproval].
Proof.
  unfold passes. pose proof verdicts_distinct as Hv.
  rewrite !NoDup_cons, !elem_of_cons, !elem_of_nil in Hv. rewrite !elem_of_cons, !elem_of_nil.
  intros Hp Hd. intuition congruence.
Qed.

(** One turn: stop at a decision that does not pass. *)
Lemma policyChain_cons h c ctx ph i w :
  policyChain_Evaluate (h :: c) ctx ph i w =
  match h ctx ph i w with
  | (Ok d, w') => if decide (passes d) then policyChain_Evaluate c ctx ph i w' else (Ok d, w')
  | (Err e, w') => (Err e, w')
  end.
Proof.
  cbn [policyChain_Evaluate]. unfold io_bind. destruct (h ctx ph i w) as [[d|e] w']; [|done].
  case_decide as Hp.
  - rewrite bool_decide_false by (by apply passes_not_decisive). by rewrite bool_decide_true.
  - case_bool_decide; [done|]. by rewrite bool_decide_false.
Qed.

Lemma allow_passes : passes (Decision_of VerdictAllow).
Proof. unfold passes. rewrite Decision_of_Verdict. set_solver. Qed.

(** What the hooks before a point leave: the world, when all of them passed. *)
Fixpoint run_passing (c : list PolicyHook) (ctx : context) (ph : Phase) (i : PolicyInput)
    (w : World) : option World :=
  match c with
  | [] => Some w
  | h :: rest =>
    match h ctx ph i w with
    | (Ok d, w') => if decide (passes d) then run_passing rest ctx ph i w' else None
    | (Err _, _) => None
    end
  end.

Lemma policyChain_app c1 c2 ctx ph i w :
  policyChain_Evaluate (c1 ++ c2) ctx ph i w =
  match run_passing c1 ctx ph i w with
  | Some w' => policyChain_Evaluate c2 ctx ph i w'
  | None => policyChain_Evaluate c1 ctx ph i w
  end.
Proof.
  revert w. induction c1 as [|h c1 IH]; intros w; [done|]. cbn [app run_passing].
  rewrite !policyChain_cons. destruct (h ctx ph i w) as [[d|e] w']; [|done].
  case_decide; [apply IH|done].
Qed.

Lemma policyChain_passing c ctx ph i w w' :
  run_passing c ctx ph i w = Some w' →
  policyChain_Evaluate c ctx ph i w = (Ok (Decision_of VerdictAllow), w').
Proof.
  revert w. induction c as [|h c IH]; intros w Hr; simpl in Hr.
  - by injection Hr as ->.
  - rewrite policyChain_cons. destruct (h ctx ph i w) as [[d|e] w1]; [|done].
    case_decide; [by apply IH|done].
Qed.

Lemma policyChain_stopped c ctx ph i w :
  run_passing c ctx ph i w = None →
  match policyChain_Evaluate c ctx ph i w with
  | (Ok d, _) => ¬ passes d
  | (Err _, _) => True
  end.
Proof.
  revert w. induction c as [|h c IH]; intros w Hr; simpl in Hr; [done|].
  rewrite policyChain_cons. destruct (h ctx ph i w) as [[d|e] w1]; [|done].
  case_decide; [by apply IH|done].
Qed.

(** ** Filter chains: composition *)

Definition filter_result (T : Type) : Type := (T * slice FilterDecision * option error) * World.

(** A run in which every filter succeeds without blocking: the value is passed
    along and the decisions are appended in order. *)
Inductive filter_run {T} (ctx : context) : list (FilterOf T) → T → World →
    list FilterDecision → T → World → Prop :=
| run_nil cur w : filter_run ctx [] cur w [] cur w
| run_cons f c cur w out decs w1 ds out' w' :
    f ctx cur w = ((out, decs, None), w1) →
    Forall (λ d, fd_Action d ≠ FilterActionBlock) (elems decs) →
    filter_run ctx c out w1 ds out' w' →
    filter_run ctx (f :: c) cur w (elems decs ++ ds) out' w'.

Lemma blockingDec_None decs :
  blockingDec decs = None ↔ Forall (λ d, fd_Action d ≠ FilterActionBlock) (elems decs).
Proof.
  unfold blockingDec. induction (elems decs) as [|d l IH]; [done|].
  rewrite filter_cons, Forall_cons, <-IH. case_decide; simpl; naive_solver.
Qed.

Lemma blockingDec_first decs before d after :
  elems decs = before ++ d :: after →
  Forall (λ d, fd_Action d ≠ FilterActionBlock) before → fd_Action d = FilterActionBlock →
  blockingDec decs = Some d.
Proof.
  unfold blockingDec. intros -> Hb Hd. induction Hb as [|x l Hx _ IH]; simpl.
  - by rewrite filter_cons_True.
  - by rewrite filter_cons_False.
Qed.

Lemma chain_from_prefix {T} (zero : T) ctx c1 c2 all cur w ds out w' :
  filter_run ctx c1 cur w ds out w' →
  chain_from zero (c1 ++ c2) ctx all cur w =
  chain_from zero c2 ctx (append_slice all ds) out w'.
Proof.
  intros Hr. revert all. induction Hr as [cur w|f c cur w out decs w1 ds out' w' Hf Hb _ IH];
    intros all; simpl.
  - by rewrite append_slice_nil.
  - apply blockingDec_None in Hb. by rewrite Hf, Hb, IH, append_slice_app.
Qed.

(** ** Properties of the chains *)

(** C18: the policy chain short-circuits: once the hooks before it have all passed,
    a decision that denies, asks for approval or is unknown is returned as it
    is, an error likewise, and no later hook runs: neither the result nor the
    world depends on what follows. *)
Theorem policyChain_short_circuit c1 h c2 ctx ph i w w1 w2 r :
  run_passing c1 ctx ph i w = Some w1 → h ctx ph i w1 = (r, w2) →
  match r with Ok d => ¬ passes d | Err _ => True end →
  policyChain_Evaluate (c1 ++ h :: c2) ctx ph i w = (r, w2).
Proof.
  intros Hc Hh Hr. rewrite policyChain_app, Hc, policyChain_cons, Hh.
  destruct r; [|done]. by rewrite decide_False.
Qed.

(** what the chain answers: it allows with the kernel's allow verdict after
    running every hook exactly when all of them pass, and it answers anything
    else only when it stopped at a hook. *)
Theorem policyChain_verdict c ctx ph i w :
  match run_passing c ctx ph i w with
  | Some w' => policyChain_Evaluate c ctx ph i w = (Ok (Decision_of VerdictAllow), w')
  | None =>
    match policyChain_Evaluate c ctx ph i w with
    | (Ok d, _) => ¬ passes d
    | (Err _, _) => True
    end
  end.
Proof.
  destruct (run_passing c ctx ph i w) eqn:Hr; [by apply policyChain_passing|].
  by apply policyChain_stopped.
Qed.

(** chains compose: a chain of chains evaluates like the flat chain of all
    their hooks, in the same order and with the same effects. *)
Theorem policyChain_flatten cs ctx ph i w :
  policyChain_Evaluate (policyChain_Evaluate <$> cs) ctx ph i w =
  policyChain_Evaluate (mjoin cs) ctx ph i w.
Proof.
  revert w. induction cs as [|c cs IH]; intros w; [done|].
  rewrite fmap_cons, policyChain_cons. simpl. rewrite policyChain_app.
  destruct (run_passing c ctx ph i w) as [w'|] eqn:Hr.
  - rewrite (policyChain_passing c ctx ph i w w' Hr), decide_True by apply allow_passes. apply IH.
  - pose proof (policyChain_stopped c ctx ph i w Hr) as Hs.
    destruct (policyChain_Evaluate c ctx ph i w) as [[d|e] w']; [|done].
    by rewrite decide_False.
Qed.

(** a filter chain passes its value from filter to filter: when all filters
    succeed without blocking, the result is the last value with the decisions
    of all filters in order and no error. *)
Theorem filter_chain_composes {T} (zero : T) ctx c cur w ds out w' :
  filter_run ctx c cur w ds out w' →
  chain_from zero c ctx None cur w = ((out, append_slice None ds, None), w').
Proof.
  intros Hr. pose proof (chain_from_prefix zero ctx c [] None cur w ds out w' Hr) as H.
  by rewrite app_nil_r in H.
Qed.

(** C30: a filter chain stops at the first filter that fails or blocks.  An error
    discards every decision.  A filter blocks when any of its decisions has the Block
    action: the decisions so far are kept with all of that filter's, and the error
    carries the reason of the first blocking one and matches ErrFilterBlocked.  In
    both cases the value is dropped and later filters do not run; and a filter that
    neither fails nor blocks hands its value and the decisions to the rest. *)
Theorem filter_chain_stops {T} (zero : T) ctx c1 f c2 cur w ds cur1 w1 out decs err w2 :
  filter_run ctx c1 cur w ds cur1 w1 →
  f ctx cur1 w1 = ((out, decs, err), w2) →
  (∀ e, err = Some e →
     chain_from zero (c1 ++ f :: c2) ctx None cur w = ((zero, None, Some e), w2)) ∧
  (∀ before d after, err = None →
     elems decs = before ++ d :: after →
     Forall (λ b, fd_Action b ≠ FilterActionBlock) before → fd_Action d = FilterActionBlock →
     ∃ e, chain_from zero (c1 ++ f :: c2) ctx None cur w =
         ((zero, append_slice None (ds ++ elems decs), Some e), w2) ∧
       errors_is e ErrFilterBlocked = true ∧
       e = if decide (fd_Reason d = "") then ESentinel ErrFilterBlocked
           else EWrap (Sprintf "%w: %s" [FS (fd_Reason d)]) (ESentinel ErrFilterBlocked)) ∧
  (err = None → (∀ d, d ∈ elems decs → fd_Action d ≠ FilterActionBlock) →
     chain_from zero (c1 ++ f :: c2) ctx None cur w =
     chain_from zero c2 ctx (append_slice None (ds ++ elems decs)) out w2).
Proof.
  intros Hr Hf. rewrite (chain_from_prefix zero ctx c1 (f :: c2) None cur w ds cur1 w1 Hr).
  cbn [chain_from]. rewrite Hf. split; [by intros e ->|]. split.
  - intros before d after -> Hd Hb Ha. rewrite (blockingDec_first _ _ _ _ Hd Hb Ha), append_slice_app.
    eexists. split; [done|]. unfold blocked, ErrFilterBlockedErr.
    case_bool_decide; [rewrite decide_True by done|rewrite decide_False by done]; done.
  - intros -> Hn%Forall_forall. apply blockingDec_None in Hn as ->. by rewrite append_slice_app.
Qed.
End chains.

(** ** The tool router *)

Section router.
Context `{K : Kernel}.

(** The definitions of all packs, in order, each with its pack's invoker. *)
Definition pack_entries (p : ToolPack) : list (ToolDefinition * Invoker) :=
  (λ d, (d, tp_Invoker p)) <$> elems (tp_Definitions p).
Definition all_entries (packs : list ToolPack) : list (ToolDefinition * Invoker) :=
  packs ≫= pack_entries.

Definition entry_name (e : ToolDefinition * Invoker) : string := def_Name e.1.

Lemma newToolRouter_flat packs st :
  foldM (λ st p, foldM (add_definition (tp_Invoker p)) st (elems (tp_Definitions p))) st packs =
  foldM (λ st e, add_definition e.2 st e.1) st (all_entries packs).
Proof.
  revert st. induction packs as [|p packs IH]; intros st; [done|].
  unfold all_entries. rewrite bind_cons, foldM_app. cbn [foldM].
  assert (H : ∀ l st, foldM (add_definition (tp_Invoker p)) st l =
    foldM (λ st e, add_definition e.2 st e.1) st ((λ d, (d, tp_Invoker p)) <$> l)).
  { induction l as [|d l IHl]; intros st'; [done|]. csimpl.
    destruct (add_definition _ st' d); simpl; [apply IHl|done]. }
  unfold pack_entries. rewrite <-H. destruct (foldM _ st _); [|done]. apply IH.
Qed.

Definition reserved (name : string) : Prop := HasPrefix name "mcp." = true.

(** The router after a list of entries. *)
Record routes (st : router_state) (es : list (ToolDefinition * Invoker)) : Prop := {
  rt_defs : elems st.2 = es.*1;
  rt_distinct : NoDup (entry_name <$> es);
  rt_reserved : Forall (λ e, ¬ reserved (entry_name e)) es;
  rt_lookup n inv : byName st.1 !! n = Some inv ↔ ∃ d, (d, inv) ∈ es ∧ def_Name d = n;
}.

Lemma routes_empty : routes (mkToolRouter ∅, None) [].
Proof.
  split; simpl; [done|constructor|constructor|]. intros n inv. rewrite lookup_empty.
  split; [done|]. intros (d & Hd & _). by apply elem_of_nil in Hd.
Qed.

Lemma routes_None st es n :
  routes st es → byName st.1 !! n = None ↔ n ∉ (entry_name <$> es).
Proof.
  intros [_ _ _ Hl]. split.
  - intros Hn ([d inv] & -> & Hin)%list_elem_of_fmap.
    assert (byName st.1 !! def_Name d = Some inv) by (apply Hl; eauto). unfold entry_name in Hn.
    simpl in Hn. congruence.
  - intros Hn. destruct (byName st.1 !! n) as [inv|] eqn:Hs; [|done].
    apply Hl in Hs as (d & Hin & <-). destruct Hn. apply list_elem_of_fmap. by exists (d, inv).
Qed.

Lemma add_definition_spec st es d inv :
  routes st es →
  match add_definition inv st d with
  | Ok st' => routes st' (es ++ [(d, inv)]) ∧ ¬ reserved (def_Name d) ∧
      def_Name d ∉ (entry_name <$> es)
  | Err e => (reserved (def_Name d) ∧ errors_is e ErrToolNameReservedPrefix = true) ∨
      (def_Name d ∈ (entry_name <$> es) ∧ errors_is e ErrToolNameCollision = true)
  end.
Proof.
  intros Hr. unfold add_definition. destruct (HasPrefix (def_Name d) "mcp.") eqn:Hp.
  { left. by split. }
  assert (Hres : ¬ reserved (def_Name d)) by (unfold reserved; by rewrite Hp).
  destruct (byName st.1 !! def_Name d) as [inv'|] eqn:Hb.
  { right. split; [|done]. destruct Hr as [_ _ _ Hl]. apply Hl in Hb as (d' & Hin & Hn).
    apply list_elem_of_fmap. exists (d', inv'). by split. }
  assert (Hni : def_Name d ∉ (entry_name <$> es)) by (by eapply routes_None).
  split_and!; [|done|done]. destruct Hr as [Hd Hnd Hf Hl]. split; simpl.
  - by rewrite elems_append_slice, Hd, fmap_app.
  - rewrite fmap_app, NoDup_app. split_and!; [done| |apply NoDup_singleton].
    intros n Hn ->%list_elem_of_singleton. done.
  - apply Forall_app. by split; [|apply Forall_singleton].
  - intros n i. rewrite lookup_insert_Some, Hl.
    setoid_rewrite elem_of_app. setoid_rewrite list_elem_of_singleton. split.
    + intros [[<- <-]|[_ (d' & ? & ?)]]; eauto.
    + intros (d' & [Hin|[= -> ->]] & <-); [|by left]. right. split; [|eauto].
      intros He. apply Hni. rewrite He. apply list_elem_of_fmap. by exists (d', i).
Qed.

Lemma foldM_routes es0 es st :
  routes st es0 →
  match foldM (λ st e, add_definition e.2 st e.1) st es with
  | Ok st' => routes st' (es0 ++ es)
  | Err e => (¬ NoDup (entry_name <$> es0 ++ es) ∧ errors_is e ErrToolNameCollision = true) ∨
      (¬ Forall (λ e, ¬ reserved (entry_name e)) (es0 ++ es) ∧
         errors_is e ErrToolNameReservedPrefix = true)
  end.
Proof.
  revert es0 st. induction es as [|[d inv] es IH]; intros es0 st Hr; simpl.
  { by rewrite app_nil_r. }
  pose proof (add_definition_spec st es0 d inv Hr) as Ha.
  destruct (add_definition inv st d) as [st'|e]; simpl.
  - destruct Ha as [Ha _]. specialize (IH (es0 ++ [(d, inv)]) st' Ha).
    rewrite <-(assoc_L (++)) in IH. exact IH.
  - destruct Ha as [[Hres He]|[Hin He]]; [right|left]; (split; [|done]).
    + intros Hf. apply Forall_app in Hf as [_ Hf]. by apply Forall_cons in Hf as [Hf _].
    + rewrite fmap_app, NoDup_app. intros (_ & Hd & _). apply (Hd _ Hin). csimpl. left.
Qed.

Lemma newToolRouter_routes packs r defs :
  newToolRouter packs = Ok (r, defs) → routes (r, defs) (all_entries packs).
Proof.
  unfold newToolRouter. rewrite newToolRouter_flat. intros Hr.
  pose proof (foldM_routes [] (all_entries packs) _ routes_empty) as H. by rewrite Hr in H.
Qed.

(** C29: the router is built exactly when all tool names are distinct across packs
    and none uses the reserved prefix; it then routes each name to the invoker of
    the pack that defines it, and lists the definitions in order. *)
Theorem newToolRouter_spec packs :
  let es := all_entries packs in
  match newToolRouter packs with
  | Ok (r, defs) =>
    NoDup (entry_name <$> es) ∧ Forall (λ e, ¬ reserved (entry_name e)) es ∧
    elems defs = es.*1 ∧
    ∀ n inv, byName r !! n = Some inv ↔ ∃ d, (d, inv) ∈ es ∧ def_Name d = n
  | Err e =>
    (¬ NoDup (entry_name <$> es) ∧ errors_is e ErrToolNameCollision = true) ∨
    (¬ Forall (λ e, ¬ reserved (entry_name e)) es ∧
       errors_is e ErrToolNameReservedPrefix = true)
  end.
Proof.
  intros es. unfold newToolRouter. rewrite newToolRouter_flat.
  pose proof (foldM_routes [] es _ routes_empty) as H. simpl in H. fold es.
  destruct (foldM _ _ es) as [[r defs]|e]; [|done]. destruct H as [Hd Hnd Hf Hl]. eauto.
Qed.

(** invoking the router calls the invoker of the pack that defines the tool, in
    the caller's world; a name no pack defines fails with ErrToolNotFound and no
    effect. *)
Theorem toolRouter_dispatch packs r defs ctx ictx call w :
  newToolRouter packs = Ok (r, defs) →
  (∀ p d, p ∈ packs → d ∈ elems (tp_Definitions p) → def_Name d = call_Name call →
     Invoke r ctx ictx call w = tp_Invoker p ctx ictx call w) ∧
  ((∀ p d, p ∈ packs → d ∈ elems (tp_Definitions p) → def_Name d ≠ call_Name call) →
     ∃ e, Invoke r ctx ictx call w = (Err e, w) ∧ errors_is e ErrToolNotFound = true).
Proof.
  intros [_ _ _ Hl]%newToolRouter_routes. simpl in Hl. split.
  - intros p d Hp Hd Hn.
    assert (Hs : byName r !! call_Name call = Some (tp_Invoker p)).
    { apply Hl. exists d. split; [|done]. unfold all_entries.
      apply list_elem_of_bind. exists p. split; [|done]. apply list_elem_of_fmap. by exists d. }
    unfold Invoke. fold Invoker. by rewrite Hs.
  - intros Hno. unfold Invoke. fold Invoker. destruct (byName r !! call_Name call) as [inv|] eqn:Hs.
    + apply Hl in Hs as (d & Hin & Hn). apply list_elem_of_bind in Hin as (p & Hin & Hp).
      apply list_elem_of_fmap in Hin as (d' & [= -> ->] & Hd). by destruct (Hno p d').
    + eexists. split; [done|]. done.
Qed.
End router.

(** ** Witnesses over the sample kernel *)

Definition sample_hook (name : string) (v : sample_verdict) : @PolicyHook sample_kernel :=
  λ _ _ _ w, (Ok (v, name), name :: w).

Example policyChain_short_circuit_witness :
  policyChain_Evaluate (K := sample_kernel)
    ([sample_hook "a" SLog] ++ sample_hook "b" SDeny :: [sample_hook "c" SAllow])
    Background tt "in" [] = (Ok (SDeny, "b"), ["b"; "a"]).
Proof.
  apply (policyChain_short_circuit (K := sample_kernel) [sample_hook "a" SLog]
    (sample_hook "b" SDeny) [sample_hook "c" SAllow] Background tt "in" [] ["a"] ["b"; "a"]).
  - vm_compute. reflexivity.
  - reflexivity.
  - apply (bool_decide_unpack _). vm_compute. exact I.
Defined.

Definition sample_filter (suffix : string) (d : bool * string) :
    @FilterOf sample_kernel string :=
  λ _ s w, ((s +:+ suffix, Some [d], None), suffix :: w).

Lemma sample_filter_run :
  filter_run (K := sample_kernel) Background [sample_filter "x" (false, "r1")] "s" []
    ([(false, "r1")] ++ []) "sx" ["x"].
Proof.
  apply (run_cons (K := sample_kernel) Background (sample_filter "x" (false, "r1")) [] "s" []
    "sx" (Some [(false, "r1")]) ["x"] []).
  all: try reflexivity; repeat constructor. done.
Qed.

Example filter_chain_composes_witness :
  chain_from (K := sample_kernel) "" [sample_filter "x" (false, "r1")] Background None "s" [] =
  (("sx", Some [(false, "r1")], None), ["x"]).
Proof.
  exact (filter_chain_composes (K := sample_kernel) "" Background _ "s" [] _ "sx" ["x"]
    sample_filter_run).
Defined.

(** A filter whose second decision of three blocks. *)
Definition blocking_filter : @FilterOf sample_kernel string :=
  λ _ s w, ((s +:+ "y", Some [(false, "fine"); (true, "no"); (true, "later")], None), "y" :: w).

Example filter_chain_stops_witness :
  chain_from (K := sample_kernel) ""
    ([sample_filter "x" (false, "r1")] ++ blocking_filter ::
     [sample_filter "z" (false, "")]) Background None "s" [] =
  (("", Some [(false, "r1"); (false, "fine"); (true, "no"); (true, "later")], Some (blocked "no")),
   ["y"; "x"]).
Proof.
  destruct (filter_chain_stops (K := sample_kernel) "" Background _ blocking_filter
    [sample_filter "z" (false, "")] "s" [] _ "sx" ["x"] "sxy"
    (Some [(false, "fine"); (true, "no"); (true, "later")]) None ["y"; "x"]
    sample_filter_run eq_refl) as (_ & Hb & _).
  destruct (Hb [(false, "fine")] (true, "no") [(true, "later")]) as (e & He & _ & Hm);
    [reflexivity|reflexivity|repeat constructor; discriminate|reflexivity|]. rewrite Hm in He. exact He.
Defined.

Definition sample_pack (name out : string) : @ToolPack sample_kernel :=
  mkToolPack (K := sample_kernel) (λ _ _ _, io_ret out) (Some [name]) None.

Example toolRouter_dispatch_witness :
  ∃ r defs, newToolRouter (K := sample_kernel) [sample_pack "t1" "one"; sample_pack "t2" "two"]
      = Ok (r, defs) ∧
    Invoke (K := sample_kernel) r Background tt "t2" [] = (Ok "two", []).
Proof.
  eexists _, _. split; [reflexivity|].
  apply (toolRouter_dispatch (K := sample_kernel)
    [sample_pack "t1" "one"; sample_pack "t2" "two"] _ _ Background tt "t2" [] eq_refl)
    with (p := sample_pack "t2" "two") (d := "t2").
  - right. left.
  - left.
  - reflexivity.
Defined.
