(* ===== verification/Expand.v ===== *)
(** Skill expansion (build/expand.go, build/expanded_hash.go): the components
    that skills require are injected into the composition, with attribution, and
    conflicting requirements are refused. *)

From S2P Require Import Prelude GoStrings Errors Values Types Ids Extends Canonical Hash Kernel Registry.
From stdpp Require Import options.

Record ResolvedSkill := mkResolvedSkill {
  rs_ID : ID; rs_Config : config; rs_Value : SkillValue;
}.

Record ResolvedOutputContract := mkResolvedOutputContract {
  roc_ID : ID; roc_Config : config; roc_Value : OutputContractValue;
}.

Record ExpandedSpec := mkExpandedSpec {
  es_Spec : AgentSpec;
  es_Skills : slice ResolvedSkill;
  es_ResolvedOutputContract : option ResolvedOutputContract;
  es_InjectedBy : gmap string ID;
}.

Definition errCodeEmptyContribution : string := "skill_empty_contribution".
Definition errCodeVersionDivergence : string := "skill_conflict_version_divergence".
Definition errCodeConfigDivergence : string := "skill_conflict_config_divergence".
Definition errCodeOutputMultiple : string := "skill_conflict_output_contract_multiple".
Definition errCodeOutputUserOverride : string := "skill_conflict_output_contract_user_override".

(** The assignments to [out.Spec.Tools], [out.Spec.Policies] and
    [out.Spec.OutputContract]. *)
Definition with_composition (tools policies : slice ComponentRef) (oc : option ComponentRef)
    (s : AgentSpec) : AgentSpec :=
  mkAgentSpec (APIVersion s) (Kind s) (Meta s) (Provider s) (Prompt s) tools policies
    (Filters s) (Budget s) (Telemetry s) (Credentials s) (Identity s) (Extends s) (Skills s)
    (MCPImports s) oc.

Definition set_Tools (es : ExpandedSpec) (l : slice ComponentRef) (inj : gmap string ID)
    : ExpandedSpec :=
  mkExpandedSpec
    (with_composition l (Policies (es_Spec es)) (OutputContract (es_Spec es)) (es_Spec es))
    (es_Skills es) (es_ResolvedOutputContract es) inj.
Definition set_Policies (es : ExpandedSpec) (l : slice ComponentRef) (inj : gmap string ID)
    : ExpandedSpec :=
  mkExpandedSpec
    (with_composition (Tools (es_Spec es)) l (OutputContract (es_Spec es)) (es_Spec es))
    (es_Skills es) (es_ResolvedOutputContract es) inj.
Definition set_OutputContract (es : ExpandedSpec) (oc : option ComponentRef)
    (inj : gmap string ID) : ExpandedSpec :=
  mkExpandedSpec
    (with_composition (Tools (es_Spec es)) (Policies (es_Spec es)) oc (es_Spec es))
    (es_Skills es) (es_ResolvedOutputContract es) inj.
Definition add_Skill (es : ExpandedSpec) (rs : ResolvedSkill) : ExpandedSpec :=
  mkExpandedSpec (es_Spec es) (append_slice (es_Skills es) [rs])
    (es_ResolvedOutputContract es) (es_InjectedBy es).

Definition isEmptyContribution (sk : SkillValue) : bool :=
  (bool_decide (sk_PromptFragment sk = "") &&
   bool_decide (elems (sk_RequiredTools sk) = []%list) &&
   bool_decide (elems (sk_RequiredPolicies sk) = []%list) &&
   match sk_RequiredOutputContract sk with None => true | Some _ => false end)%bool.

(** The loop of [injectRequired] over the entries already there: [true] when
    one of them is the wanted component, [false] when none has its name. *)
Fixpoint find_existing (kindLabel : string) (skillID : ID) (rc : RequiredComponent)
    (wantName wantVersion : string) (target : list ComponentRef) : res error bool :=
  match target with
  | [] => Ok false
  | existing :: target' =>
    '(gotName, gotVersion) ←
      map_err (EWrap (Sprintf "%s %s: existing ref %q: %w"
        [FS kindLabel; FS skillID; FS (cr_Ref existing)])) (ParseID (cr_Ref existing));
    if bool_decide (gotName ≠ wantName) then
      find_existing kindLabel skillID rc wantName wantVersion target'
    else if bool_decide (gotVersion ≠ wantVersion) then
      Err (EText (Sprintf
        "%s: skill %s wants %s at version %s but composition already has %s (existing ref %s)"
        [FS errCodeVersionDivergence; FS skillID; FS wantName; FS wantVersion; FS gotVersion;
         FS (cr_Ref existing)]))
    else
      eq ← map_err (EWrap (Sprintf "%s: %w" [FS errCodeConfigDivergence]))
             (CanonicalConfigsEqual (cr_Config existing) (rc_Config rc));
      if eq : bool then Ok true
      else Err (EText (Sprintf
        "%s: skill %s wants %s with a different config than the one already in the composition"
        [FS errCodeConfigDivergence; FS skillID; FS (rc_ID rc)]))
  end.

Definition injectRequired (target : slice ComponentRef) (injectedBy : gmap string ID)
    (kindLabel : string) (skillID : ID) (rc : RequiredComponent)
    : res error (slice ComponentRef * gmap string ID) :=
  if bool_decide (rc_ID rc = "") then
    Err (EText (Sprintf "%s %s: RequiredComponent missing ID" [FS kindLabel; FS skillID]))
  else
    '(wantName, wantVersion) ←
      map_err (EWrap (Sprintf "%s %s: %w" [FS kindLabel; FS skillID])) (ParseID (rc_ID rc));
    present ← find_existing kindLabel skillID rc wantName wantVersion (elems target);
    if present : bool then Ok (target, injectedBy)
    else Ok (append_slice target [mkComponentRef (rc_ID rc) (rc_Config rc)],
             <[kindLabel +:+ ":" +:+ rc_ID rc := skillID]> injectedBy).

(** The errors of two requirements on the one output-contract slot, by who filled it. *)
Definition contract_id_conflict (injected : bool) (skillID : ID) (rc : RequiredComponent)
    (oc : ComponentRef) : error :=
  if injected then
    EText (Sprintf "%s: skills require different output contracts (%s vs %s)"
      [FS errCodeOutputMultiple; FS (cr_Ref oc); FS (rc_ID rc)])
  else
    EText (Sprintf "%s: skill %s requires output contract %s but user declared %s"
      [FS errCodeOutputUserOverride; FS skillID; FS (rc_ID rc); FS (cr_Ref oc)]).
Definition contract_config_conflict (injected : bool) (skillID : ID) (rc : RequiredComponent)
    : error :=
  if injected then
    EText (Sprintf "%s: two skills require %s with divergent configs"
      [FS errCodeOutputMultiple; FS (rc_ID rc)])
  else
    EText (Sprintf "%s: skill %s requires %s but user config differs"
      [FS errCodeOutputUserOverride; FS skillID; FS (rc_ID rc)]).

Definition injectOutputContract (out : ExpandedSpec) (skillID : ID) (rc : RequiredComponent)
    : res error ExpandedSpec :=
  if bool_decide (rc_ID rc = "") then
    Err (EText (Sprintf "output_contract skill %s: RequiredOutputContract missing ID" [FS skillID]))
  else
    _ ← map_err (EWrap (Sprintf "output_contract skill %s: %w" [FS skillID])) (ParseID (rc_ID rc));
    match OutputContract (es_Spec out) with
    | None =>
      Ok (set_OutputContract out (Some (mkComponentRef (rc_ID rc) (rc_Config rc)))
            (<["output_contract:" +:+ rc_ID rc := skillID]> (es_InjectedBy out)))
    | Some oc =>
      let injected := bool_decide (is_Some (es_InjectedBy out !! ("output_contract:" +:+ cr_Ref oc))) in
      if bool_decide (cr_Ref oc ≠ rc_ID rc) then
        Err (contract_id_conflict injected skillID rc oc)
      else
        eq ← map_err (EWrap (Sprintf "%s: %w" [FS errCodeOutputUserOverride]))
               (CanonicalConfigsEqual (cr_Config oc) (rc_Config rc));
        if eq : bool then Ok out else Err (contract_config_conflict injected skillID rc)
    end.

(** The injections one resolved skill causes, in the order of the code. *)
Definition inject_tool (skillID : ID) (es : ExpandedSpec) (rc : RequiredComponent)
    : res error ExpandedSpec :=
  '(l, inj) ← injectRequired (Tools (es_Spec es)) (es_InjectedBy es) "tool_pack" skillID rc;
  Ok (set_Tools es l inj).
Definition inject_policy (skillID : ID) (es : ExpandedSpec) (rc : RequiredComponent)
    : res error ExpandedSpec :=
  '(l, inj) ← injectRequired (Policies (es_Spec es)) (es_InjectedBy es) "policy_pack" skillID rc;
  Ok (set_Policies es l inj).
Definition inject_skill (es : ExpandedSpec) (rs : ResolvedSkill) : res error ExpandedSpec :=
  let es := add_Skill es rs in
  es ← foldM (inject_tool (rs_ID rs)) es (elems (sk_RequiredTools (rs_Value rs)));
  es ← foldM (inject_policy (rs_ID rs)) es (elems (sk_RequiredPolicies (rs_Value rs)));
  match sk_RequiredOutputContract (rs_Value rs) with
  | None => Ok es
  | Some rc => injectOutputContract es (rs_ID rs) rc
  end.

(** The value-copy [expandSkills] starts from, with fresh slices. *)
Definition expansion_start (s : AgentSpec) : ExpandedSpec :=
  mkExpandedSpec
    (with_composition (append_slice None (elems (Tools s))) (append_slice None (elems (Policies s)))
       (OutputContract s) s)
    None None ∅.

Section expand.
Context `{K : Kernel}.
Local Open Scope io_scope.

(** The body of the loop over [s.Skills]. *)
Definition resolve_skill (ctx : context) (r : ComponentRegistry) (i : nat) (skillRef : ComponentRef)
    : IO ResolvedSkill :=
  let skillID := cr_Ref skillRef in
  fac <- io_lift (map_err (EWrap (Sprintf "resolve skills[%d] %s: %w" [FN i; FS (cr_Ref skillRef)]))
           (LookupSkill skillID r)) ;;
  skVal <- io_wrap (f_Build fac ctx (cr_Config skillRef))
             (EWrap (Sprintf "build skills[%d] %s: %w" [FN i; FS (cr_Ref skillRef)])) ;;
  if isEmptyContribution skVal then
    io_fail (EText (Sprintf
      "skills[%d] %s: %s: skill contributes no prompt fragment, no required components"
      [FN i; FS (cr_Ref skillRef); FS errCodeEmptyContribution]))
  else io_ret (mkResolvedSkill skillID (cr_Config skillRef) skVal).

Definition expandSkill (ctx : context) (r : ComponentRegistry) (i : nat) (out : ExpandedSpec)
    (skillRef : ComponentRef) : IO ExpandedSpec :=
  rs <- resolve_skill ctx r i skillRef ;;
  io_lift (inject_skill out rs).

Definition expandSkills (ctx : context) (s : AgentSpec) (r : ComponentRegistry)
    : IO ExpandedSpec :=
  let out := expansion_start s in
  match elems (Skills s) with
  | [] => io_ret out
  | skills => io_foldi (expandSkill ctx r) 0 out skills
  end.

Definition resolveOutputContract (ctx : context) (es : ExpandedSpec) (r : ComponentRegistry)
    : IO ExpandedSpec :=
  match OutputContract (es_Spec es) with
  | None => io_ret es
  | Some oc =>
    let id := cr_Ref oc in
    fac <- io_lift (map_err (EWrap (Sprintf "resolve outputContract: %w" []))
             (LookupOutputContract id r)) ;;
    val <- io_wrap (f_Build fac ctx (cr_Config oc))
             (EWrap (Sprintf "build outputContract %s: %w" [FS id])) ;;
    io_ret (mkExpandedSpec (es_Spec es) (es_Skills es)
      (Some (mkResolvedOutputContract id (cr_Config oc) val)) (es_InjectedBy es))
  end.
End expand.

(** The hash of the expanded spec, through a throwaway [NormalizedSpec]. *)
Definition computeExpandedHash (es : ExpandedSpec) : res error string :=
  (NormalizedHash (es_Spec es) fresh_memo).1.

(** ** What expansion means

    A requirement is a skill's id and the component it requires.  The
    requirements of each kind, in the order in which the skills state them. *)
Abbreviation requirement := (ID * RequiredComponent)%type.
Definition req_id (q : requirement) : ID := rc_ID q.2.
Definition req_ref (q : requirement) : ComponentRef := mkComponentRef (rc_ID q.2) (rc_Config q.2).

Definition tool_requirements (rss : list ResolvedSkill) : list requirement :=
  rss ≫= λ rs, pair (rs_ID rs) <$> elems (sk_RequiredTools (rs_Value rs)).
Definition policy_requirements (rss : list ResolvedSkill) : list requirement :=
  rss ≫= λ rs, pair (rs_ID rs) <$> elems (sk_RequiredPolicies (rs_Value rs)).
Definition contract_requirements (rss : list ResolvedSkill) : list requirement :=
  rss ≫= λ rs, pair (rs_ID rs) <$> option_list (sk_RequiredOutputContract (rs_Value rs)).

(** The requirements that bring a new component: neither declared nor required
    before. *)
Fixpoint introduced (seen : list ID) (qs : list requirement) : list requirement :=
  match qs with
  | [] => []
  | q :: qs' =>
    if decide (req_id q ∈ seen) then introduced seen qs'
    else q :: introduced (req_id q :: seen) qs'
  end.

Definition introduced_to (declared : list ComponentRef) (qs : list requirement)
    : list requirement := introduced (cr_Ref <$> declared) qs.

(** The declared components, then the new ones. *)
Definition injected (declared : list ComponentRef) (qs : list requirement) : list ComponentRef :=
  declared ++ (req_ref <$> introduced_to declared qs).

(** The skill whose requirement brought a component. *)
Fixpoint injector (intro : list requirement) (id : ID) : option ID :=
  match intro with
  | [] => None
  | q :: intro' => if decide (req_id q = id) then Some q.1 else injector intro' id
  end.

(** The name part of a component's reference. *)
Definition ref_name (c : ComponentRef) : string :=
  match ParseID (cr_Ref c) with Ok (n, _) => n | Err _ => "" end.

(** A component meets a requirement: same reference, same config up to the
    canonical encoding. *)
Definition meets (q : requirement) (c : ComponentRef) : Prop :=
  cr_Ref c = req_id q ∧
  (c = req_ref q ∨ CanonicalConfigsEqual (cr_Config c) (rc_Config q.2) = Ok true).

(** ** Lemmas *)

Lemma introduced_ext seen1 seen2 qs :
  (∀ id, id ∈ seen1 ↔ id ∈ seen2) → introduced seen1 qs = introduced seen2 qs.
Proof.
  revert seen1 seen2. induction qs as [|q qs IH]; intros seen1 seen2 Hs; simpl; [done|].
  rewrite (decide_ext _ _ _ _ (Hs (req_id q))). case_decide; [by apply IH|].
  f_equal. apply IH. intros id. by rewrite !elem_of_cons, Hs.
Qed.

Lemma introduced_snoc seen qs q :
  introduced seen (qs ++ [q]) =
  introduced seen qs ++
    (if decide (req_id q ∈ seen ++ (req_id <$> introduced seen qs)) then [] else [q]).
Proof.
  revert seen. induction qs as [|q' qs IH]; intros seen; csimpl.
  - rewrite app_nil_r. by case_decide.
  - case_decide; [apply IH|]. csimpl. rewrite IH. f_equal. f_equal.
    assert (Hiff : req_id q ∈ (req_id q' :: seen) ++ (req_id <$> introduced (req_id q' :: seen) qs)
      ↔ req_id q ∈ seen ++ req_id q' :: (req_id <$> introduced (req_id q' :: seen) qs))
      by set_solver.
    by rewrite (decide_ext _ _ _ _ Hiff).
Qed.

Lemma injected_refs declared qs :
  cr_Ref <$> injected declared qs = (cr_Ref <$> declared) ++ (req_id <$> introduced_to declared qs).
Proof. unfold injected. rewrite fmap_app, <-list_fmap_compose. done. Qed.

(** One more requirement. *)
Lemma injected_snoc declared qs q :
  injected declared (qs ++ [q]) =
  injected declared qs ++
    (if decide (req_id q ∈ cr_Ref <$> injected declared qs) then [] else [req_ref q]).
Proof.
  rewrite injected_refs. unfold injected, introduced_to. rewrite introduced_snoc, fmap_app.
  rewrite (assoc_L (++)). f_equal. by case_decide.
Qed.

Lemma injector_snoc intro q id :
  injector (intro ++ [q]) id =
  match injector intro id with
  | Some sk => Some sk
  | None => if decide (req_id q = id) then Some q.1 else None
  end.
Proof.
  induction intro as [|q' intro IH]; simpl; [done|]. by destruct (decide (req_id q' = id)).
Qed.

Lemma injector_None intro id : injector intro id = None ↔ id ∉ (req_id <$> intro).
Proof.
  induction intro as [|q intro IH]; csimpl; [set_solver|].
  destruct (decide (req_id q = id)); set_solver.
Qed.

Lemma introduced_not_seen seen qs id : id ∈ (req_id <$> introduced seen qs) → id ∉ seen.
Proof.
  revert seen. induction qs as [|q qs IH]; intros seen; csimpl; [by intros ?%elem_of_nil|].
  case_decide; [apply IH|]. intros [->|Hin]%elem_of_cons; [done|]. specialize (IH _ Hin). set_solver.
Qed.

(** *** One slot of the composition *)

Definition slot_key (label : string) (id : ID) : string := label +:+ ":" +:+ id.
Definition plain (label : string) : Prop := all_chars (λ c, negb (is_char ":"%char c)) label = true.

Lemma slot_key_inj l1 l2 id1 id2 :
  plain l1 → plain l2 → slot_key l1 id1 = slot_key l2 id2 → l1 = l2 ∧ id1 = id2.
Proof.
  intros H1 H2 Heq. by apply (split_at_unique (λ c, negb (is_char ":"%char c)) ":"%char).
Qed.

(** A slot after the requirements [qs]: what it holds, whom it attributes, and
    that each requirement is met. *)
Record slot_ok (label : string) (declared cur : list ComponentRef) (qs : list requirement)
    (inj : gmap string ID) : Prop := {
  so_list : cur = injected declared qs;
  so_inj id : inj !! slot_key label id = injector (introduced_to declared qs) id;
  so_met : Forall (λ q, ∃ c, c ∈ cur ∧ meets q c) qs;
  so_names : NoDup (ref_name <$> declared) → NoDup (ref_name <$> cur);
}.

Lemma slot_ok_start label declared : slot_ok label declared declared [] ∅.
Proof.
  split; [|done|constructor|done]. unfold injected. simpl. by rewrite app_nil_r.
Qed.

Lemma slot_ok_other label label' declared cur qs inj id sk :
  plain label → plain label' → label ≠ label' → slot_ok label declared cur qs inj →
  slot_ok label declared cur qs (<[slot_key label' id := sk]> inj).
Proof.
  intros Hl Hl' Hne [Hc Hi Hm Hd]. split; [done| |done|done]. intros id'.
  rewrite lookup_insert_ne; [apply Hi|]. intros Hk. by apply slot_key_inj in Hk as [-> _].
Qed.

Lemma slot_ok_present label declared cur qs inj q :
  slot_ok label declared cur qs inj → (∃ c, c ∈ cur ∧ meets q c) →
  slot_ok label declared cur (qs ++ [q]) inj.
Proof.
  intros [Hc Hi Hm Hd] Hq.
  assert (Hin : req_id q ∈ cr_Ref <$> injected declared qs).
  { destruct Hq as (c & Hin & <- & _). rewrite <-Hc. by apply list_elem_of_fmap_2. }
  split.
  - rewrite injected_snoc, decide_True by done. by rewrite app_nil_r.
  - intros id. rewrite Hi. unfold introduced_to. rewrite introduced_snoc, decide_True.
    { by rewrite app_nil_r. } by rewrite injected_refs in Hin.
  - apply Forall_app. split; [done|]. by apply Forall_singleton.
  - done.
Qed.

Lemma slot_ok_new label declared cur qs inj q :
  plain label → slot_ok label declared cur qs inj →
  ref_name (req_ref q) ∉ (ref_name <$> cur) →
  slot_ok label declared (cur ++ [req_ref q]) (qs ++ [q])
    (<[slot_key label (req_id q) := q.1]> inj).
Proof.
  intros Hl [Hc Hi Hm Hd] Hname.
  assert (Hq : req_id q ∉ (cr_Ref <$> cur)).
  { intros (c & Heq & Hin)%list_elem_of_fmap. apply Hname, list_elem_of_fmap. exists c.
    split; [|done]. unfold ref_name. simpl. unfold req_id in Heq. by rewrite Heq. }
  assert (Hni := Hq). rewrite Hc, injected_refs in Hni. split.
  - rewrite injected_snoc, decide_False by (by rewrite injected_refs). by rewrite Hc.
  - intros id. unfold introduced_to. rewrite introduced_snoc, decide_False by exact Hni.
    rewrite injector_snoc. fold (introduced_to declared qs). rewrite <-Hi.
    destruct (decide (req_id q = id)) as [<-|Hne].
    + rewrite lookup_insert_eq, Hi.
      assert (Hn : injector (introduced_to declared qs) (req_id q) = None)
        by (apply injector_None; set_solver). by rewrite Hn.
    + rewrite lookup_insert_ne; [by destruct (inj !! _)|].
      intros Hk. by apply slot_key_inj in Hk as [_ Hk].
  - apply Forall_app. split.
    + eapply Forall_impl; [done|]. intros q' (c & Hin & Hc'). exists c. set_solver.
    + apply Forall_singleton. exists (req_ref q). split; [set_solver|]. split; [done|by left].
  - intros Hnd. rewrite fmap_app, NoDup_app. split_and!; [by apply Hd| |apply NoDup_singleton].
    intros n Hn ->%list_elem_of_singleton. done.
Qed.

(** *** Injection into a list *)

Lemma find_existing_Ok label sk rc n v target b :
  ParseID (rc_ID rc) = Ok (n, v) → find_existing label sk rc n v target = Ok b →
  if b then ∃ c, c ∈ target ∧ meets (sk, rc) c else n ∉ (ref_name <$> target).
Proof.
  intros Hp. induction target as [|c target IH]; csimpl; intros Hf.
  { injection Hf as <-. by apply not_elem_of_nil. }
  destruct (ParseID (cr_Ref c)) as [[gn gv]|e] eqn:Hc; simpl in Hf; [|done].
  case_bool_decide as Hn.
  - specialize (IH Hf). destruct b; [destruct IH as (c' & ? & ?); exists c'; set_solver|].
    apply not_elem_of_cons. split; [|done]. unfold ref_name. rewrite Hc. congruence.
  - case_bool_decide as Hv; [done|]. subst gn gv.
    destruct (CanonicalConfigsEqual (cr_Config c) (rc_Config rc)) as [eq|e] eqn:He;
      simpl in Hf; [|done].
    destruct eq; [|done]. injection Hf as <-. exists c. split; [left|].
    apply ParseID_Ok in Hp as [Hr _]. apply ParseID_Ok in Hc as [Hc _].
    split; [|by right]. unfold req_id. simpl. congruence.
Qed.

Lemma injectRequired_Ok target inj label sk rc target' inj' :
  injectRequired target inj label sk rc = Ok (target', inj') →
  (target' = target ∧ inj' = inj ∧ (∃ c, c ∈ elems target ∧ meets (sk, rc) c)) ∨
  (¬ ref_name (req_ref (sk, rc)) ∈ (ref_name <$> elems target) ∧
   target' = append_slice target [req_ref (sk, rc)] ∧
   inj' = (<[slot_key label (rc_ID rc) := sk]> inj)).
Proof.
  unfold injectRequired. case_bool_decide; [done|].
  destruct (ParseID (rc_ID rc)) as [[n v]|e] eqn:Hp; simpl; [|done].
  destruct (find_existing _ _ _ _ _ _) as [b|e] eqn:Hf; simpl; [|done].
  apply find_existing_Ok in Hf; [|done].
  destruct b; intros [= <- <-]; [by left|right]. split_and!; [|done|done].
  unfold ref_name at 1. simpl. by rewrite Hp.
Qed.

Lemma slot_ok_inject label declared cur qs inj sk rc cur' inj' :
  plain label → slot_ok label declared (elems cur) qs inj →
  injectRequired cur inj label sk rc = Ok (cur', inj') →
  slot_ok label declared (elems cur') (qs ++ [(sk, rc)]) inj' ∧
  (∀ label' declared' cur'' qs', plain label' → label' ≠ label →
     slot_ok label' declared' cur'' qs' inj → slot_ok label' declared' cur'' qs' inj').
Proof.
  intros Hl Hs Hi. apply injectRequired_Ok in Hi as [(-> & -> & Hm)|(Hn & -> & ->)].
  - split; [by apply slot_ok_present|done].
  - split.
    + rewrite elems_append_slice. by apply (slot_ok_new label declared _ qs inj (sk, rc)).
    + intros. by apply slot_ok_other.
Qed.

(** *** Injection of a skill *)

Lemma injectOutputContract_Ok out sk rc out' :
  injectOutputContract out sk rc = Ok out' →
  (out' = out ∧ ∃ oc, OutputContract (es_Spec out) = Some oc ∧ meets (sk, rc) oc) ∨
  (OutputContract (es_Spec out) = None ∧
   out' = set_OutputContract out (Some (req_ref (sk, rc)))
            (<[slot_key "output_contract" (rc_ID rc) := sk]> (es_InjectedBy out))).
Proof.
  unfold injectOutputContract. case_bool_decide; [done|].
  destruct (ParseID (rc_ID rc)) as [nv|e]; simpl; [|done].
  destruct (OutputContract (es_Spec out)) as [oc|] eqn:Hoc; [|intros [= <-]; by right].
  case_bool_decide as Hr; [done|].
  destruct (CanonicalConfigsEqual _ _) as [[]|] eqn:He; simpl; [|done..].
  intros [= <-]. left. split; [done|]. exists oc. split; [done|]. by split; [|right].
Qed.

(** The composition after some requirements of each kind. *)
Record expansion_ok (s : AgentSpec) (tq pq oq : list requirement) (es : ExpandedSpec) : Prop := {
  eo_spec : es_Spec es = with_composition (Tools (es_Spec es)) (Policies (es_Spec es))
              (OutputContract (es_Spec es)) s;
  eo_tools : slot_ok "tool_pack" (elems (Tools s)) (elems (Tools (es_Spec es))) tq
               (es_InjectedBy es);
  eo_policies : slot_ok "policy_pack" (elems (Policies s)) (elems (Policies (es_Spec es))) pq
                  (es_InjectedBy es);
  eo_contract : slot_ok "output_contract" (option_list (OutputContract s))
                  (option_list (OutputContract (es_Spec es))) oq (es_InjectedBy es);
}.

Lemma expansion_ok_start s : expansion_ok s [] [] [] (expansion_start s).
Proof.
  split; [done|..]; unfold expansion_start, with_composition;
    cbn [es_Spec Tools Policies OutputContract es_InjectedBy];
    rewrite ?elems_append_slice; apply slot_ok_start.
Qed.

Lemma inject_tool_ok s tq pq oq es sk rc es' :
  expansion_ok s tq pq oq es → inject_tool sk es rc = Ok es' →
  expansion_ok s (tq ++ [(sk, rc)]) pq oq es' ∧ es_Skills es' = es_Skills es.
Proof.
  intros [Hs Ht Hp Ho]. unfold inject_tool.
  destruct (injectRequired _ _ _ _ _) as [[l inj]|e] eqn:Hi; simpl; [|done].
  intros [= <-]. eapply slot_ok_inject in Hi as [Hl Hother]; [|done|done].
  split; [|done]. split; simpl; [by rewrite Hs|done|by apply Hother..].
Qed.

Lemma inject_policy_ok s tq pq oq es sk rc es' :
  expansion_ok s tq pq oq es → inject_policy sk es rc = Ok es' →
  expansion_ok s tq (pq ++ [(sk, rc)]) oq es' ∧ es_Skills es' = es_Skills es.
Proof.
  intros [Hs Ht Hp Ho]. unfold inject_policy.
  destruct (injectRequired _ _ _ _ _) as [[l inj]|e] eqn:Hi; simpl; [|done].
  intros [= <-]. eapply slot_ok_inject in Hi as [Hl Hother]; [|done|done].
  split; [|done]. split; simpl; [by rewrite Hs|by apply Hother|done|by apply Hother].
Qed.

Lemma inject_contract_ok s tq pq oq es sk rc es' :
  expansion_ok s tq pq oq es → injectOutputContract es sk rc = Ok es' →
  expansion_ok s tq pq (oq ++ [(sk, rc)]) es' ∧ es_Skills es' = es_Skills es.
Proof.
  intros [Hs Ht Hp Ho] Hi. apply injectOutputContract_Ok in Hi as [(-> & oc & Hoc & Hm)|[Hoc ->]].
  - split; [|done]. split; [done..|]. apply slot_ok_present; [done|]. exists oc.
    split; [|done]. rewrite Hoc. left.
  - split; [|done]. split; simpl; [by rewrite Hs|by apply slot_ok_other..|].
    rewrite Hoc in Ho. apply (slot_ok_new "output_contract" _ [] _ _ (sk, rc));
      [done|done|apply not_elem_of_nil].
Qed.

Lemma inject_skill_ok s rss es rs es' :
  expansion_ok s (tool_requirements rss) (policy_requirements rss) (contract_requirements rss) es →
  elems (es_Skills es) = rss → inject_skill es rs = Ok es' →
  expansion_ok s (tool_requirements (rss ++ [rs])) (policy_requirements (rss ++ [rs]))
    (contract_requirements (rss ++ [rs])) es' ∧ elems (es_Skills es') = rss ++ [rs].
Proof.
  unfold tool_requirements, policy_requirements, contract_requirements.
  rewrite !bind_app. simpl. rewrite !app_nil_r. set (tq := rss ≫= _). set (pq := rss ≫= _).
  set (oq := rss ≫= _). intros Hok Hsk. unfold inject_skill. simpl.
  set (P t p o e := expansion_ok s t p o e ∧ es_Skills e = append_slice (es_Skills es) [rs]).
  assert (H0 : P tq pq oq (add_Skill es rs)) by (split; [by destruct Hok; split|done]).
  intros (es1 & Ht & (es2 & Hp & Hc)%bind_Ok)%bind_Ok.
  eapply (foldM_prefix (λ done, P (tq ++ (pair (rs_ID rs) <$> done)) pq oq) _ []) in Ht;
    [|intros pre rc e e' _ [He Hse] Hi|by rewrite app_nil_r].
  2:{ eapply inject_tool_ok in Hi as [? Heq]; [|exact He]. split; [|by rewrite Heq].
      by rewrite fmap_app, (assoc_L (++)). }
  set (tq' := tq ++ _) in Ht.
  eapply (foldM_prefix (λ done, P tq' (pq ++ (pair (rs_ID rs) <$> done)) oq) _ []) in Hp;
    [|intros pre rc e e' _ [He Hse] Hi|rewrite app_nil_r; exact Ht].
  2:{ eapply inject_policy_ok in Hi as [? Heq]; [|exact He]. split; [|by rewrite Heq].
      by rewrite fmap_app, (assoc_L (++)). }
  assert (Hf : P tq'
    (pq ++ (pair (rs_ID rs) <$> elems (sk_RequiredPolicies (rs_Value rs))))
    (oq ++ (pair (rs_ID rs) <$> option_list (sk_RequiredOutputContract (rs_Value rs)))) es').
  { destruct (sk_RequiredOutputContract (rs_Value rs)) as [rc|]; simpl.
    - destruct Hp as [Hp Hps]. eapply inject_contract_ok in Hc as [? Heq]; [|exact Hp].
      split; [done|]. by rewrite Heq.
    - injection Hc as <-. by rewrite app_nil_r. }
  destruct Hf as [Hf Hs']. split; [exact Hf|]. by rewrite Hs', elems_append_slice, Hsk.
Qed.

(** *** When injection succeeds

    Each slot is checked on its own, requirement by requirement: a requirement is
    compatible with what the slot holds when its id is valid and the entry it
    collides with, if any, agrees with it.  In a list an entry collides when it has
    the same name; on the single contract slot any entry does. *)
Definition agrees (q : requirement) (c : ComponentRef) : Prop :=
  cr_Ref c = req_id q ∧ CanonicalConfigsEqual (cr_Config c) (rc_Config q.2) = Ok true.

Fixpoint first_named (n : string) (l : list ComponentRef) : option ComponentRef :=
  match l with
  | [] => None
  | c :: l' => if decide (ref_name c = n) then Some c else first_named n l'
  end.

Definition selector : Type := list ComponentRef → requirement → option ComponentRef.
Definition same_name : selector := λ cur q, first_named (ref_name (req_ref q)) cur.
Definition only_entry : selector := λ cur _, head cur.

Definition compatible (sel : selector) (cur : list ComponentRef) (q : requirement) : Prop :=
  valid_id (req_id q) ∧ ∀ c, sel cur q = Some c → agrees q c.
Definition add_component (sel : selector) (cur : list ComponentRef) (q : requirement)
    : list ComponentRef :=
  match sel cur q with None => cur ++ [req_ref q] | Some _ => cur end.
Fixpoint conflict_free (sel : selector) (cur : list ComponentRef) (qs : list requirement) : Prop :=
  match qs with
  | [] => True
  | q :: qs' => compatible sel cur q ∧ conflict_free sel (add_component sel cur q) qs'
  end.

Definition valid_refs (l : list ComponentRef) : Prop := Forall (λ c, valid_id (cr_Ref c)) l.

Lemma valid_refs_add sel cur q :
  valid_refs cur → compatible sel cur q → valid_refs (add_component sel cur q).
Proof.
  intros Hv [Hq _]. unfold add_component. destruct (sel cur q); [done|].
  apply Forall_app. split; [done|]. by apply Forall_singleton.
Qed.

Lemma conflict_free_app sel cur qs1 qs2 :
  conflict_free sel cur (qs1 ++ qs2) ↔
  conflict_free sel cur qs1 ∧ conflict_free sel (foldl (add_component sel) cur qs1) qs2.
Proof.
  revert cur. induction qs1 as [|q qs1 IH]; intros cur; simpl; [tauto|]. rewrite IH. tauto.
Qed.

Lemma find_existing_iff label sk rc n v target :
  ParseID (rc_ID rc) = Ok (n, v) → valid_refs target →
  match first_named n target with
  | None => find_existing label sk rc n v target = Ok false
  | Some c => ∀ b, find_existing label sk rc n v target = Ok b ↔ b = true ∧ agrees (sk, rc) c
  end.
Proof.
  intros Hp. induction 1 as [|c target Hc _ IH]; simpl; [done|].
  apply ParseID_is_ok, is_ok_spec in Hc as [[gn gv] Hc].
  assert (Hrn : ref_name c = gn) by (unfold ref_name; by rewrite Hc).
  rewrite Hc, Hrn. simpl. destruct (decide (gn = n)) as [->|Hn].
  2:{ rewrite bool_decide_true by done. exact IH. }
  rewrite bool_decide_false by tauto. intros b. unfold agrees, req_id. simpl.
  apply ParseID_Ok in Hp as [Hr Hp]. apply ParseID_Ok in Hc as [Hc Hc'].
  case_bool_decide as Hv.
  - split; [done|]. intros (_ & Heq & _). destruct Hv.
    apply (id_split_unique n gv n v); [tauto..|]. congruence.
  - subst gv. destruct (CanonicalConfigsEqual _ _) as [[]|e]; simpl.
    + split; [intros [= <-]; split_and!; [done|congruence|done]|by intros [-> _]].
    + split; [done|by intros (_ & _ & [=])].
    + split; [done|by intros (_ & _ & [=])].
Qed.

Lemma injectRequired_iff target inj label sk rc :
  valid_refs (elems target) →
  ((∃ t, injectRequired target inj label sk rc = Ok t) ↔
   compatible same_name (elems target) (sk, rc)) ∧
  (∀ t inj', injectRequired target inj label sk rc = Ok (t, inj') →
     elems t = add_component same_name (elems target) (sk, rc)).
Proof.
  intros Hv. unfold injectRequired, compatible, add_component, same_name, ref_name. simpl.
  unfold req_id. simpl. rewrite <-ParseID_is_ok.
  case_bool_decide as He.
  { rewrite He. split; [|done]. split; [by intros [? ?]|by intros [? _]]. }
  destruct (ParseID (rc_ID rc)) as [[n v]|e] eqn:Hp; simpl.
  2:{ split; [|done]. split; [by intros [? ?]|by intros [? _]]. }
  pose proof (find_existing_iff label sk rc n v (elems target) Hp Hv) as Hf.
  destruct (first_named n (elems target)) as [c|].
  - destruct (find_existing _ _ _ _ _ _) as [b|e]; simpl.
    + destruct (Hf b) as [Hb _]. destruct (Hb eq_refl) as [-> Ha]. split.
      * split; [|by eexists]. intros _. split; [done|]. by intros ? [= <-].
      * by intros ? ? [= <- _].
    + split; [|done]. split; [by intros [? ?]|]. intros [_ Ha]. destruct (Hf true) as [_ Hb].
      by specialize (Hb (conj eq_refl (Ha c eq_refl))).
  - rewrite Hf. simpl. split; [|intros ? ? [= <- _]; by rewrite elems_append_slice].
    split; [done|by eexists].
Qed.

(** What a step does to the slot it fills, and that it leaves the rest alone. *)
Record slot_step {R : Type} (sel : selector) (proj : ExpandedSpec → list ComponentRef)
    (rest : ExpandedSpec → R) (sk : ID) (f : ExpandedSpec → RequiredComponent → res error ExpandedSpec)
    : Prop := {
  ss_iff es rc : valid_refs (proj es) →
    (∃ es', f es rc = Ok es') ↔ compatible sel (proj es) (sk, rc);
  ss_Ok es rc es' : valid_refs (proj es) → f es rc = Ok es' →
    proj es' = add_component sel (proj es) (sk, rc) ∧ rest es' = rest es;
}.

Lemma slot_step_fold {R} sel proj (rest : ExpandedSpec → R) sk f es rcs :
  slot_step sel proj rest sk f → valid_refs (proj es) →
  ((∃ es', foldM f es rcs = Ok es') ↔ conflict_free sel (proj es) (pair sk <$> rcs)) ∧
  (∀ es', foldM f es rcs = Ok es' →
     valid_refs (proj es') ∧ proj es' = foldl (add_component sel) (proj es) (pair sk <$> rcs) ∧
     rest es' = rest es).
Proof.
  intros [Hiff HOk]. revert es. induction rcs as [|rc rcs IH]; intros es Hv; csimpl.
  { split; [split; [done|by eexists]|]. by intros ? [= <-]. }
  destruct (f es rc) as [es1|e] eqn:Hf; simpl.
  - destruct (HOk _ _ _ Hv Hf) as [Hp Hr].
    assert (Hc : compatible sel (proj es) (sk, rc)) by (apply Hiff; eauto).
    destruct (IH es1) as [Hi Ho]; [rewrite Hp; by apply valid_refs_add|].
    rewrite Hp in Hi, Ho. rewrite Hr in Ho. rewrite Hi. split; [tauto|exact Ho].
  - split; [|done]. split; [by intros [? ?]|]. intros [Hc _].
    apply Hiff in Hc as [? ?]; [congruence|done].
Qed.

Lemma tool_step sk :
  slot_step same_name (λ es, elems (Tools (es_Spec es)))
    (λ es, (Policies (es_Spec es), OutputContract (es_Spec es))) sk (inject_tool sk).
Proof.
  split; intros es rc; unfold inject_tool;
    pose proof (injectRequired_iff (Tools (es_Spec es)) (es_InjectedBy es) "tool_pack" sk rc) as H;
    destruct (injectRequired _ _ _ _ _) as [[l inj]|e]; simpl.
  - intros Hv. destruct (H Hv) as [Hi _]. rewrite <-Hi. split; by eexists.
  - intros Hv. destruct (H Hv) as [Hi _]. rewrite <-Hi. by split; intros [? ?].
  - intros es' Hv [= <-]. destruct (H Hv) as [_ Ho]. simpl. split; [by apply (Ho l inj)|done].
  - done.
Qed.

Lemma policy_step sk :
  slot_step same_name (λ es, elems (Policies (es_Spec es)))
    (λ es, (Tools (es_Spec es), OutputContract (es_Spec es))) sk (inject_policy sk).
Proof.
  split; intros es rc; unfold inject_policy;
    pose proof (injectRequired_iff (Policies (es_Spec es)) (es_InjectedBy es) "policy_pack" sk rc) as H;
    destruct (injectRequired _ _ _ _ _) as [[l inj]|e]; simpl.
  - intros Hv. destruct (H Hv) as [Hi _]. rewrite <-Hi. split; by eexists.
  - intros Hv. destruct (H Hv) as [Hi _]. rewrite <-Hi. by split; intros [? ?].
  - intros es' Hv [= <-]. destruct (H Hv) as [_ Ho]. simpl. split; [by apply (Ho l inj)|done].
  - done.
Qed.

Lemma contract_step sk :
  slot_step only_entry (λ es, option_list (OutputContract (es_Spec es)))
    (λ es, (Tools (es_Spec es), Policies (es_Spec es))) sk (λ es rc, injectOutputContract es sk rc).
Proof.
  split.
  - intros es rc _. unfold injectOutputContract, compatible, only_entry, req_id. simpl.
    rewrite <-ParseID_is_ok. case_bool_decide as He.
    { rewrite He. split; [by intros [? ?]|by intros [? _]]. }
    destruct (ParseID (rc_ID rc)) as [nv|e]; simpl; [|split; [by intros [? ?]|by intros [? _]]].
    destruct (OutputContract (es_Spec es)) as [oc|]; simpl; [|split; [done|by eexists]].
    unfold agrees, req_id. simpl. case_bool_decide as Hr.
    { split; [by intros [? ?]|]. intros [_ Ha]. by destruct (Ha oc eq_refl). }
    destruct (CanonicalConfigsEqual _ _) as [[]|e] eqn:Hc; simpl.
    + split; [|by eexists]. intros _. split; [done|]. intros c [= <-]. by split.
    + split; [by intros [? ?]|]. intros [_ Ha]. destruct (Ha oc eq_refl). congruence.
    + split; [by intros [? ?]|]. intros [_ Ha]. destruct (Ha oc eq_refl). congruence.
  - intros es rc es' _ [(-> & oc & Hoc & _)|[Hoc ->]]%injectOutputContract_Ok;
      unfold add_component, only_entry; rewrite Hoc; done.
Qed.

(** The three slots of a composition. *)
Definition conflict_free_slots (s : AgentSpec) (rss : list ResolvedSkill) : Prop :=
  conflict_free same_name (elems (Tools s)) (tool_requirements rss) ∧
  conflict_free same_name (elems (Policies s)) (policy_requirements rss) ∧
  conflict_free only_entry (option_list (OutputContract s)) (contract_requirements rss).
Definition valid_slots (s : AgentSpec) : Prop :=
  valid_refs (elems (Tools s)) ∧ valid_refs (elems (Policies s)) ∧
  valid_refs (option_list (OutputContract s)).

Lemma inject_contract_fold es (rs : ResolvedSkill) :
  match sk_RequiredOutputContract (rs_Value rs) with
  | None => Ok es
  | Some rc => injectOutputContract es (rs_ID rs) rc
  end = foldM (λ es rc, injectOutputContract es (rs_ID rs) rc) es
          (option_list (sk_RequiredOutputContract (rs_Value rs))).
Proof.
  destruct (sk_RequiredOutputContract (rs_Value rs)) as [rc|]; simpl; [|done].
  by destruct (injectOutputContract es (rs_ID rs) rc).
Qed.

Lemma inject_skill_iff es rs :
  valid_slots (es_Spec es) →
  ((∃ es', inject_skill es rs = Ok es') ↔ conflict_free_slots (es_Spec es) [rs]) ∧
  (∀ es', inject_skill es rs = Ok es' →
     valid_slots (es_Spec es') ∧
     elems (Tools (es_Spec es')) =
       foldl (add_component same_name) (elems (Tools (es_Spec es))) (tool_requirements [rs]) ∧
     elems (Policies (es_Spec es')) =
       foldl (add_component same_name) (elems (Policies (es_Spec es))) (policy_requirements [rs]) ∧
     option_list (OutputContract (es_Spec es')) =
       foldl (add_component only_entry) (option_list (OutputContract (es_Spec es)))
         (contract_requirements [rs])).
Proof.
  unfold conflict_free_slots, valid_slots, tool_requirements, policy_requirements,
    contract_requirements. simpl. rewrite !app_nil_r. intros (Hvt & Hvp & Hvo).
  unfold inject_skill. set (es0 := add_Skill es rs).
  destruct (slot_step_fold _ _ _ _ _ es0 (elems (sk_RequiredTools (rs_Value rs)))
    (tool_step (rs_ID rs)) Hvt) as [Ht Ht'].
  destruct (foldM (inject_tool _) _ _) as [es1|e]; cbn [mbind res_bind].
  2:{ split; [|done]. split; [by intros [? ?]|]. by intros [[? ?]%Ht _]. }
  destruct (Ht' es1 eq_refl) as (Hvt1 & Hlt & [= Hp1 Ho1]).
  destruct (slot_step_fold _ _ _ _ _ es1 (elems (sk_RequiredPolicies (rs_Value rs)))
    (policy_step (rs_ID rs))) as [Hp Hp']; [simpl; by rewrite Hp1|].
  destruct (foldM (inject_policy _) _ _) as [es2|e]; cbn [mbind res_bind].
  2:{ rewrite Hp1 in Hp. split; [|done]. split; [by intros [? ?]|]. by intros (_ & [? ?]%Hp & _). }
  destruct (Hp' es2 eq_refl) as (Hvp2 & Hlp & [= Ht2 Ho2]). rewrite inject_contract_fold.
  destruct (slot_step_fold _ _ _ _ _ es2 (option_list (sk_RequiredOutputContract (rs_Value rs)))
    (contract_step (rs_ID rs))) as [Ho Ho']; [simpl; by rewrite Ho2, Ho1|].
  rewrite Hp1 in Hp, Hlp. rewrite Ho2, Ho1 in Ho, Ho'. split.
  - rewrite Ho. split; [|tauto]. intros H. split_and!; [apply Ht; eauto|apply Hp; eauto|done].
  - intros es3 H3. destruct (Ho' es3 H3) as (Hvo3 & Hlo & [= Ht3 Hp3]).
    rewrite Ht3, Hp3, Ht2. split_and!; done.
Qed.

Lemma foldM_inject_iff es rss :
  valid_slots (es_Spec es) →
  (∃ es', foldM inject_skill es rss = Ok es') ↔ conflict_free_slots (es_Spec es) rss.
Proof.
  revert es. induction rss as [|rs rss IH]; intros es Hv.
  { split; [done|]. intros _. by eexists. }
  destruct (inject_skill_iff es rs Hv) as [Hi Ho]. cbn [foldM].
  change (rs :: rss) with ([rs] ++ rss).
  unfold conflict_free_slots, tool_requirements, policy_requirements, contract_requirements.
  rewrite !bind_app, !conflict_free_app. destruct (inject_skill es rs) as [es1|e]; simpl.
  - destruct (Ho es1 eq_refl) as (Hv1 & Ht & Hp & Hc).
    rewrite (IH es1 Hv1). unfold conflict_free_slots. rewrite Ht, Hp, Hc.
    assert (H1 : conflict_free_slots (es_Spec es) [rs]) by (apply Hi; eauto).
    unfold conflict_free_slots, tool_requirements, policy_requirements, contract_requirements in *.
    simpl in *. tauto.
  - split; [by intros [? ?]|]. intros H.
    assert (H1 : conflict_free_slots (es_Spec es) [rs]).
    { unfold conflict_free_slots, tool_requirements, policy_requirements, contract_requirements.
      simpl in *. tauto. }
    apply Hi in H1 as [? ?]. done.
Qed.

(** *** The whole expansion

    Injection is pure, so building the skills one by one and injecting each at
    once is the same as building them all and then injecting. *)
Section expansion.
Context `{K : Kernel}.

Definition skills_built (ctx : context) (r : ComponentRegistry) (s : AgentSpec) (w : World)
    (rss : list ResolvedSkill) (w' : World) : Prop :=
  loop_run (resolve_skill ctx r) 0 (elems (Skills s)) w rss w'.

Lemma expand_loop ctx r i out l w es w' :
  io_foldi (expandSkill ctx r) i out l w = (Ok es, w') ↔
  ∃ rss, loop_run (resolve_skill ctx r) i l w rss w' ∧ foldM inject_skill out rss = Ok es.
Proof.
  revert i out w. induction l as [|x l IH]; intros i out w; simpl.
  { unfold io_ret. split.
    - intros [= <- <-]. exists []. split; [constructor|done].
    - intros (rss & Hr & Hf). inversion Hr; subst. simpl in Hf. congruence. }
  rewrite io_bind_Ok. split.
  - intros (out' & w1 & (rs & w2 & Hrs & [Hi ->]%io_lift_Ok)%io_bind_Ok & (rss & Hr & Hf)%IH).
    exists (rs :: rss). split; [by econstructor|]. simpl. by rewrite Hi.
  - intros (rss & Hr & Hf). inversion Hr as [|? ? ? ? rs w1 rss' ? Hrs Hl]; subst.
    simpl in Hf. apply bind_Ok in Hf as (out' & Hi & Hf). exists out', w1. split.
    + apply io_bind_Ok. exists rs, w1. split; [done|]. by apply io_lift_Ok.
    + apply IH. by exists rss'.
Qed.

Lemma expandSkills_Ok ctx s r w es w' :
  expandSkills ctx s r w = (Ok es, w') ↔
  ∃ rss, skills_built ctx r s w rss w' ∧ foldM inject_skill (expansion_start s) rss = Ok es.
Proof.
  unfold skills_built. rewrite <-expand_loop. unfold expandSkills.
  by destruct (elems (Skills s)) as [|x l] eqn:Hl.
Qed.

Lemma foldM_inject_ok s rss es :
  foldM inject_skill (expansion_start s) rss = Ok es →
  expansion_ok s (tool_requirements rss) (policy_requirements rss) (contract_requirements rss) es ∧
  elems (es_Skills es) = rss.
Proof.
  apply (foldM_prefix (λ pre es, expansion_ok s (tool_requirements pre) (policy_requirements pre)
    (contract_requirements pre) es ∧ elems (es_Skills es) = pre) inject_skill []).
  - intros pre rs es1 es2 _ [Hok Hs] Hi. by eapply inject_skill_ok.
  - split; [apply expansion_ok_start|done].
Qed.

Lemma expandSkills_ok ctx s r w es w' :
  expandSkills ctx s r w = (Ok es, w') →
  let rss := elems (es_Skills es) in
  skills_built ctx r s w rss w' ∧
  expansion_ok s (tool_requirements rss) (policy_requirements rss) (contract_requirements rss) es.
Proof.
  intros (rss & Hb & [Hok <-]%foldM_inject_ok)%expandSkills_Ok. by split.
Qed.

(** What resolving the declared skills means, reference by reference and in order:
    a factory is registered under the reference, it builds a value from the
    reference's config, and the value brings something: a prompt fragment, a tool,
    a policy or an output contract. *)
Definition brings_something (v : SkillValue) : Prop :=
  sk_PromptFragment v ≠ "" ∨ (∃ rc, rc ∈ elems (sk_RequiredTools v)) ∨
  (∃ rc, rc ∈ elems (sk_RequiredPolicies v)) ∨ (∃ rc, sk_RequiredOutputContract v = Some rc).

Inductive skills_resolved (ctx : context) (r : ComponentRegistry)
    : list ComponentRef → World → list ResolvedSkill → World → Prop :=
| no_skill w : skills_resolved ctx r [] w [] w
| next_skill ref refs fac v rss w w1 w' :
    factories r KindSkill !! cr_Ref ref = Some fac →
    f_Build fac ctx (cr_Config ref) w = (Ok v, w1) →
    brings_something v →
    skills_resolved ctx r refs w1 rss w' →
    skills_resolved ctx r (ref :: refs) w
      (mkResolvedSkill (cr_Ref ref) (cr_Config ref) v :: rss) w'.

Lemma isEmptyContribution_false v : isEmptyContribution v = false ↔ brings_something v.
Proof.
  assert (Hl : ∀ l : list RequiredComponent, bool_decide (l = []) = false ↔ ∃ rc, rc ∈ l).
  { intros [|rc l]; rewrite bool_decide_eq_false; [set_solver|].
    split; [intros _; exists rc; left|done]. }
  unfold isEmptyContribution, brings_something. rewrite !andb_false_iff, !Hl, bool_decide_eq_false.
  destruct (sk_RequiredOutputContract v); naive_solver.
Qed.

Lemma resolve_skill_Ok ctx r i ref w rs w1 :
  resolve_skill ctx r i ref w = (Ok rs, w1) ↔
  ∃ fac v, factories r KindSkill !! cr_Ref ref = Some fac ∧
    f_Build fac ctx (cr_Config ref) w = (Ok v, w1) ∧ brings_something v ∧
    rs = mkResolvedSkill (cr_Ref ref) (cr_Config ref) v.
Proof.
  unfold resolve_skill. rewrite io_bind_Ok. split.
  - intros (fac & w2 & [Hl%map_err_Ok ->]%io_lift_Ok & H). apply Lookup_Ok in Hl.
    apply io_bind_Ok in H as (v & w3 & Hb%io_wrap_Ok & H).
    destruct (isEmptyContribution v) eqn:He; [done|]. injection H as <- <-.
    apply isEmptyContribution_false in He. by exists fac, v.
  - intros (fac & v & Hf & Hb & He%isEmptyContribution_false & ->). exists fac, w. split.
    + apply io_lift_Ok. split; [|done]. apply map_err_Ok. by apply Lookup_Ok.
    + apply io_bind_Ok. exists v, w1. split; [by apply io_wrap_Ok|]. by rewrite He.
Qed.

Lemma skills_built_resolved ctx r i l w rss w' :
  loop_run (resolve_skill ctx r) i l w rss w' ↔ skills_resolved ctx r l w rss w'.
Proof.
  split.
  - induction 1 as [|i ref l w rs w1 rss w' Hr _ IH]; [constructor|].
    apply resolve_skill_Ok in Hr as (fac & v & Hf & Hb & He & ->). by econstructor.
  - intros H. revert i. induction H as [|ref l fac v rss w w1 w' Hf Hb He _ IH]; intros i;
      [constructor|]. econstructor; [|apply IH]. apply resolve_skill_Ok. eauto 10.
Qed.

(** ** Properties *)

(** C5: a completed expansion resolved every declared skill, in order (found in
    the registry, built from its config, and bringing something), keeps the
    composition the author declared and adds exactly the components that these
    skills require and nobody brought before, in the order of the skills; the single
    output contract is the declared one, else the first one required; no other part
    of the spec changes. *)
Theorem expandSkills_composition ctx s r w es w' :
  expandSkills ctx s r w = (Ok es, w') →
  let rss := elems (es_Skills es) in
  skills_resolved ctx r (elems (Skills s)) w rss w' ∧
  es_Spec es = with_composition (Tools (es_Spec es)) (Policies (es_Spec es))
                 (OutputContract (es_Spec es)) s ∧
  elems (Tools (es_Spec es)) = injected (elems (Tools s)) (tool_requirements rss) ∧
  elems (Policies (es_Spec es)) = injected (elems (Policies s)) (policy_requirements rss) ∧
  option_list (OutputContract (es_Spec es)) =
    injected (option_list (OutputContract s)) (contract_requirements rss).
Proof. intros [Hb%skills_built_resolved [Hs [] [] []]]%expandSkills_ok. by split_and!. Qed.

(** a component is attributed to a skill exactly when that skill is the first
    to require it and the author did not declare it; declared components are never
    attributed. *)
Theorem expandSkills_attribution ctx s r w es w' id :
  expandSkills ctx s r w = (Ok es, w') →
  let rss := elems (es_Skills es) in
  es_InjectedBy es !! slot_key "tool_pack" id =
    injector (introduced_to (elems (Tools s)) (tool_requirements rss)) id ∧
  es_InjectedBy es !! slot_key "policy_pack" id =
    injector (introduced_to (elems (Policies s)) (policy_requirements rss)) id ∧
  es_InjectedBy es !! slot_key "output_contract" id =
    injector (introduced_to (option_list (OutputContract s)) (contract_requirements rss)) id ∧
  (id ∈ (cr_Ref <$> elems (Tools s)) → es_InjectedBy es !! slot_key "tool_pack" id = None) ∧
  (id ∈ (cr_Ref <$> elems (Policies s)) → es_InjectedBy es !! slot_key "policy_pack" id = None).
Proof.
  intros [_ [_ [_ Ht _ _] [_ Hp _ _] [_ Ho _ _]]]%expandSkills_ok. rewrite Ht, Hp, Ho.
  split_and!; [done..| |]; intros Hin; apply injector_None; intros Hi;
    by apply introduced_not_seen in Hi.
Qed.

(** every component a skill requires is in the composition, with the same
    reference and an equal config, and no component name appears in two versions
    unless the author declared them. *)
Theorem expandSkills_requirements_met ctx s r w es w' :
  expandSkills ctx s r w = (Ok es, w') →
  let rss := elems (es_Skills es) in
  (∀ q, q ∈ tool_requirements rss → ∃ c, c ∈ elems (Tools (es_Spec es)) ∧ meets q c) ∧
  (∀ q, q ∈ policy_requirements rss → ∃ c, c ∈ elems (Policies (es_Spec es)) ∧ meets q c) ∧
  (∀ q, q ∈ contract_requirements rss →
     ∃ c, OutputContract (es_Spec es) = Some c ∧ meets q c) ∧
  (NoDup (ref_name <$> elems (Tools s)) → NoDup (ref_name <$> elems (Tools (es_Spec es)))) ∧
  (NoDup (ref_name <$> elems (Policies s)) → NoDup (ref_name <$> elems (Policies (es_Spec es)))).
Proof.
  intros [_ [_ [_ _ Ht Htn] [_ _ Hp Hpn] [_ _ Ho _]]]%expandSkills_ok.
  rewrite Forall_forall in Ht, Hp, Ho. split_and!; [done|done| |done|done].
  intros q Hq. destruct (Ho q Hq) as (c & Hin & Hm). exists c. split; [|done].
  destruct (OutputContract (es_Spec es)); simpl in Hin; set_solver.
Qed.

(** C22: expansion succeeds exactly when every skill is registered, builds and
    brings something (a prompt fragment or a required tool, policy or output
    contract), and no requirement collides: each required id is valid, and whatever
    already has that name has the same version and an equal config (for the output
    contract: the same reference and an equal config). *)
Theorem expandSkills_succeeds_iff ctx s r w :
  valid_slots s →
  (∃ es w', expandSkills ctx s r w = (Ok es, w')) ↔
  ∃ rss w', skills_resolved ctx r (elems (Skills s)) w rss w' ∧ conflict_free_slots s rss.
Proof.
  intros Hv. setoid_rewrite <-(skills_built_resolved ctx r 0).
  assert (Hs : valid_slots (es_Spec (expansion_start s)) ∧
    ∀ rss, conflict_free_slots (es_Spec (expansion_start s)) rss ↔ conflict_free_slots s rss).
  { unfold expansion_start, valid_slots, conflict_free_slots, with_composition.
    cbn [es_Spec Tools Policies OutputContract]. by rewrite !elems_append_slice. }
  destruct Hs as [Hv0 Hcf]. split.
  - intros (es & w' & (rss & Hb & Hf)%expandSkills_Ok). exists rss, w'. split; [done|].
    apply Hcf, foldM_inject_iff; eauto.
  - intros (rss & w' & Hb & Hc). apply Hcf, foldM_inject_iff in Hc as [es Hf]; [|done].
    exists es, w'. apply expandSkills_Ok. eauto.
Qed.

End expansion.

(** ** Witnesses

    Two skills that require the same tool, the second one also a policy; the
    author declares another tool and the policy. *)
Definition sample_skill (id : string) (frag : string) (tools policies : list RequiredComponent)
    (oc : option RequiredComponent) : @Factory sample_kernel KindSkill :=
  mkFactory (k := KindSkill) (K := sample_kernel) id "sample" (λ _ _, io_ret
    (mkSkill frag (Some tools) (Some policies) oc (mkSkillDescriptor id "" "" None))).

Definition req_http : RequiredComponent :=
  mkRequiredComponent "toolpack.http-get@1.0.0" (Some [("timeout", AInt 5)]).
Definition req_pii : RequiredComponent := mkRequiredComponent "policypack.pii@1.0.0" None.
Definition req_json : RequiredComponent := mkRequiredComponent "outputcontract.json@1.0.0" None.

Definition skill_registry : @ComponentRegistry sample_kernel :=
  (Register KindSkill (sample_skill "skill.b@1.0.0" "B" [req_http] [req_pii] (Some req_json))
    (Register KindSkill (sample_skill "skill.a@1.0.0" "A" [req_http] [] None)
      (NewComponentRegistry (K := sample_kernel))).2).2.

Definition skilled_spec : AgentSpec :=
  mkAgentSpec "v1" "AgentSpec" (mkMetadata "acme.demo" "0.1.0" "" "" None None)
    (mkComponentRef "provider.x@1.0.0" None)
    (mkPromptBlock (Some (mkComponentRef "prompt.x@1.0.0" None)) None)
    (Some [mkComponentRef "toolpack.calc@2.0.0" None])
    (Some [mkComponentRef "policypack.pii@1.0.0" None])
    (mkFilterBlock None None None) None None None None None
    (Some [mkComponentRef "skill.a@1.0.0" None; mkComponentRef "skill.b@1.0.0" None]) None None.

Definition expanded_sample : ExpandedSpec :=
  match (expandSkills (K := sample_kernel) Background skilled_spec skill_registry []).1 with
  | Ok es => es
  | Err _ => expansion_start skilled_spec
  end.

Lemma expanded_sample_run :
  expandSkills (K := sample_kernel) Background skilled_spec skill_registry [] = (Ok expanded_sample, []).
Proof. vm_compute. reflexivity. Qed.

(** Both skills are resolved, the second one's contract is in the composition and
    its policy, which the author declared, is not added again. *)
Example expandSkills_composition_witness :
  rs_ID <$> elems (es_Skills expanded_sample) = ["skill.a@1.0.0"; "skill.b@1.0.0"] ∧
  skills_resolved (K := sample_kernel) Background skill_registry (elems (Skills skilled_spec)) []
    (elems (es_Skills expanded_sample)) [] ∧
  elems (Tools (es_Spec expanded_sample)) =
    [mkComponentRef "toolpack.calc@2.0.0" None;
     mkComponentRef "toolpack.http-get@1.0.0" (Some [("timeout", AInt 5)])] ∧
  elems (Policies (es_Spec expanded_sample)) = [mkComponentRef "policypack.pii@1.0.0" None] ∧
  option_list (OutputContract (es_Spec expanded_sample)) =
    [mkComponentRef "outputcontract.json@1.0.0" None].
Proof.
  destruct (expandSkills_composition (K := sample_kernel) Background skilled_spec skill_registry []
    expanded_sample [] expanded_sample_run) as (Hs & _ & Ht & Hp & Ho).
  split; [vm_compute; reflexivity|]. split; [exact Hs|].
  rewrite Ht, Hp, Ho. split_and!; vm_compute; reflexivity.
Defined.

Example expandSkills_attribution_witness :
  es_InjectedBy expanded_sample !! slot_key "tool_pack" "toolpack.http-get@1.0.0"
    = Some "skill.a@1.0.0" ∧
  es_InjectedBy expanded_sample !! slot_key "policy_pack" "policypack.pii@1.0.0" = None.
Proof.
  destruct (expandSkills_attribution (K := sample_kernel) Background skilled_spec skill_registry []
    expanded_sample [] "toolpack.http-get@1.0.0" expanded_sample_run) as (Ht & _).
  destruct (expandSkills_attribution (K := sample_kernel) Background skilled_spec skill_registry []
    expanded_sample [] "policypack.pii@1.0.0" expanded_sample_run) as (_ & _ & _ & _ & Hp).
  split; [rewrite Ht; vm_compute; reflexivity|apply Hp; left].
Defined.

Example expandSkills_requirements_met_witness :
  ∃ c, c ∈ elems (Tools (es_Spec expanded_sample)) ∧ meets ("skill.b@1.0.0", req_http) c.
Proof.
  apply (expandSkills_requirements_met (K := sample_kernel) Background skilled_spec skill_registry []
    expanded_sample [] expanded_sample_run).
  vm_compute. right. left.
Defined.

Lemma skilled_valid_slots : valid_slots skilled_spec.
Proof. apply (bool_decide_unpack _). vm_compute. exact I. Qed.

(** A skill that brings nothing, and a composition that declares it alone. *)
Definition empty_skill_registry : @ComponentRegistry sample_kernel :=
  (Register KindSkill (sample_skill "skill.none@1.0.0" "" [] [] None)
    (NewComponentRegistry (K := sample_kernel))).2.

Definition empty_skilled_spec : AgentSpec :=
  let s := skilled_spec in
  mkAgentSpec (APIVersion s) (Kind s) (Meta s) (Provider s) (Prompt s) None None (Filters s) None None
    None None None (Some [mkComponentRef "skill.none@1.0.0" None]) None None.

Example expandSkills_succeeds_iff_witness :
  (∃ rss w', skills_resolved (K := sample_kernel) Background skill_registry
      (elems (Skills skilled_spec)) [] rss w' ∧ conflict_free_slots skilled_spec rss) ∧
  ¬ ∃ es w', expandSkills (K := sample_kernel) Background empty_skilled_spec empty_skill_registry [] =
    (Ok es, w').
Proof.
  split.
  - apply (expandSkills_succeeds_iff (K := sample_kernel) Background skilled_spec skill_registry []
      skilled_valid_slots).
    exists expanded_sample, []. exact expanded_sample_run.
  - intros H. apply (expandSkills_succeeds_iff (K := sample_kernel)) in H as (rss & w' & Hs & _);
      [|apply (bool_decide_unpack _); vm_compute; exact I].
    inversion Hs as [|? ? fac v ? ? w1 ? Hf Hb He _]; subst. vm_compute in Hf. injection Hf as <-.
    vm_compute in Hb. injection Hb as <- _.
    destruct He as [He|[[rc He]|[[rc He]|[rc He]]]]; [by apply He|by apply elem_of_nil in He..|done].
Defined.
