(* ===== verification/Resolve.v ===== *)
(** Component resolution: every reference of the composition is looked up in the
    registry and built ([resolve], build/resolver.go), and the MCP bindings with
    the components they refer to (build/mcp.go). *)

From S2P Require Import Prelude GoStrings Errors Values Types Ids Extends Kernel Registry.
From stdpp Require Import options.

(** The three parallel slices [resolved] keeps for each list of components. *)
Record group (A : Type) := mkGroup {
  g_values : slice A; g_ids : slice ID; g_cfgs : slice config;
}.
Arguments mkGroup {A}.
Arguments g_values {A}.
Arguments g_ids {A}.
Arguments g_cfgs {A}.

(** The value, id and config of a single component. *)
Record single (A : Type) := mkSingle { sg_value : A; sg_id : ID; sg_cfg : config }.
Arguments mkSingle {A}.
Arguments sg_value {A}.
Arguments sg_id {A}.
Arguments sg_cfg {A}.

Definition group_of {A} (l : list (single A)) : group A :=
  mkGroup (append_slice None (sg_value <$> l)) (append_slice None (sg_id <$> l))
    (append_slice None (sg_cfg <$> l)).
Definition group_map {A B} (f : A → B) (g : group A) : group B :=
  mkGroup (option_map (map f) (g_values g)) (g_ids g) (g_cfgs g).

Section resolve.
Context `{K : Kernel}.
Local Open Scope io_scope.

Record resolved := mkResolved {
  r_provider : single Provider_;
  r_systemPrompt : string;
  r_promptID : ID;
  r_toolPacks : group ToolPack;
  r_policyHooks : group PolicyHook;
  r_preLLMFilters : group PreLLMFilter;
  r_preToolFilters : group PreToolFilter;
  r_postToolFilters : group PostToolFilter;
  r_budget : option (single BudgetProfile);
  r_budgetOverrides : BudgetOverrides;
  r_telemetry : option (single TelemetryProfile);
  r_credResolver : option (single Resolver);
  r_identity : option (single Signer);
  r_skills : group SkillValue;
  r_outputContract : option (single OutputContractValue);
  r_mcpBindings : group MCPBindingValue;
  r_specSnapshot : AgentSpec;
}.

(** One component: look it up, then build it. *)
Definition resolve_one (k : RKind) (lookup_at build_at : string) (ctx : context)
    (r : ComponentRegistry) (ref : string) (cfg : config) : IO (single (Product k)) :=
  f <- io_lift (map_err (EWrap (Sprintf ("resolve " +:+ lookup_at +:+ ": %w") [])) (Lookup k ref r)) ;;
  v <- io_wrap (f_Build f ctx cfg)
         (EWrap (Sprintf ("build " +:+ build_at +:+ " %s: %w") [FS ref])) ;;
  io_ret (mkSingle v (f_ID f) cfg).

(** The body of the loop over a list of references. *)
Definition resolve_entry (k : RKind) (field : string) (ctx : context) (r : ComponentRegistry)
    (i : nat) (ref : ComponentRef) : IO (single (Product k)) :=
  f <- io_lift (map_err (EWrap (Sprintf ("resolve " +:+ field +:+ "[%d]: %w") [FN i]))
         (Lookup k (cr_Ref ref) r)) ;;
  v <- io_wrap (f_Build f ctx (cr_Config ref))
         (EWrap (Sprintf ("build " +:+ field +:+ "[%d] %s: %w") [FN i; FS (cr_Ref ref)])) ;;
  io_ret (mkSingle v (f_ID f) (cr_Config ref)).

Definition resolve_list (k : RKind) (field : string) (ctx : context) (r : ComponentRegistry)
    (refs : slice ComponentRef) : IO (group (Product k)) :=
  l <- io_loop (resolve_entry k field ctx r) 0 (elems refs) ;;
  io_ret (group_of l).

(** An optional component: [ref] and [config] as the code reads them. *)
Definition resolve_opt {T} (k : RKind) (field : string) (ctx : context) (r : ComponentRegistry)
    (ref : T → string) (cfg : T → config) (o : option T) : IO (option (single (Product k))) :=
  match o with
  | None => io_ret None
  | Some c => v <- resolve_one k field field ctx r (ref c) (cfg c) ;; io_ret (Some v)
  end.

Definition zeroOverrides : BudgetOverrides := mkBudgetOverrides "" 0 0 0 0.

Definition resolve_prompt (ctx : context) (r : ComponentRegistry) (s : AgentSpec)
    : IO (single string) :=
  match pb_System (Prompt s) with
  | None => io_fail (EPanic "nil pointer dereference: s.Prompt.System")
  | Some c => resolve_one KindPromptAsset "prompt.system" "prompt" ctx r (cr_Ref c) (cr_Config c)
  end.

Definition resolve (ctx : context) (s : AgentSpec) (r : ComponentRegistry) : IO resolved :=
  prov <- resolve_one KindProvider "provider" "provider" ctx r (cr_Ref (Provider s))
            (cr_Config (Provider s)) ;;
  prompt <- resolve_prompt ctx r s ;;
  tools <- resolve_list KindToolPack "tools" ctx r (Tools s) ;;
  pols <- resolve_list KindPolicyPack "policies" ctx r (Policies s) ;;
  prellm <- resolve_list KindPreLLMFilter "filters.preLLM" ctx r (fb_PreLLM (Filters s)) ;;
  pretool <- resolve_list KindPreToolFilter "filters.preTool" ctx r (fb_PreTool (Filters s)) ;;
  posttool <- resolve_list KindPostToolFilter "filters.postTool" ctx r (fb_PostTool (Filters s)) ;;
  bud <- resolve_opt KindBudgetProfile "budget" ctx r br_Ref (λ _, None) (Budget s) ;;
  tel <- resolve_opt KindTelemetryProfile "telemetry" ctx r cr_Ref cr_Config (Telemetry s) ;;
  cred <- resolve_opt KindCredentialResolver "credentials" ctx r cd_Ref (λ _, None) (Credentials s) ;;
  ident <- resolve_opt KindIdentitySigner "identity" ctx r cr_Ref cr_Config (Identity s) ;;
  io_ret (mkResolved prov (sg_value prompt) (sg_id prompt) tools (group_map pp_Hook pols)
    prellm pretool posttool bud (from_option br_Overrides zeroOverrides (Budget s)) tel cred ident
    (group_of []) None (group_of []) s).

(** ** build/mcp.go *)

Record ResolvedMCPBinding := mkResolvedMCPBinding {
  rmb_ID : ID; rmb_Config : config; rmb_Value : MCPBindingValue;
}.

Definition errCodeMCPUnresolvedFactory : string := "mcp_unresolved_factory".
Definition errCodeMCPUnresolvedPolicy : string := "mcp_unresolved_policy".
Definition errCodeMCPUnresolvedCredential : string := "mcp_unresolved_credential".

(** The loop over [val.Policies]. *)
Fixpoint check_mcp_policies (i : nat) (ref : string) (r : ComponentRegistry) (j : nat)
    (l : list ID) : res error () :=
  match l with
  | [] => Ok ()
  | pid :: l' =>
    match LookupPolicyPack pid r with
    | Err e => Err (EWrap (Sprintf "%s: mcpImports[%d] %s: policies[%d] %s: %w"
        [FS errCodeMCPUnresolvedPolicy; FN i; FS ref; FN j; FS pid]) e)
    | Ok _ => check_mcp_policies i ref r (S j) l'
    end
  end.

Definition check_mcp_auth (i : nat) (ref : string) (r : ComponentRegistry)
    (auth : option MCPAuth) : res error () :=
  match auth with
  | None => Ok ()
  | Some a =>
    match LookupCredentialResolver (ma_CredentialRef a) r with
    | Err e => Err (EWrap (Sprintf "%s: mcpImports[%d] %s: auth.credentialRef %s: %w"
        [FS errCodeMCPUnresolvedCredential; FN i; FS ref; FS (ma_CredentialRef a)]) e)
    | Ok _ => Ok ()
    end
  end.

Definition resolve_mcp_binding (ctx : context) (r : ComponentRegistry) (i : nat)
    (ref : ComponentRef) : IO ResolvedMCPBinding :=
  fac <- io_lift (map_err (EWrap (Sprintf "%s: mcpImports[%d] %s: %w"
           [FS errCodeMCPUnresolvedFactory; FN i; FS (cr_Ref ref)])) (LookupMCPBinding (cr_Ref ref) r)) ;;
  val <- io_wrap (f_Build fac ctx (cr_Config ref))
           (EWrap (Sprintf "build mcpImports[%d] %s: %w" [FN i; FS (cr_Ref ref)])) ;;
  _ <- io_lift (check_mcp_policies i (cr_Ref ref) r 0 (elems (mb_Policies val))) ;;
  _ <- io_lift (check_mcp_auth i (cr_Ref ref) r (mb_Auth val)) ;;
  io_ret (mkResolvedMCPBinding (cr_Ref ref) (cr_Config ref) val).

Definition resolveMCPBindings (ctx : context) (s : AgentSpec) (r : ComponentRegistry)
    : IO (slice ResolvedMCPBinding) :=
  match elems (MCPImports s) with
  | [] => io_ret None
  | refs => out <- io_loop (resolve_mcp_binding ctx r) 0 refs ;; io_ret (Some out)
  end.
End resolve.

(** ** Lemmas *)

Section resolve_lemmas.
Context `{K : Kernel}.

(** A component built by the factory registered under its reference, from its config. *)
Definition built_from (k : RKind) (ctx : context) (r : ComponentRegistry) (ref : string)
    (cfg : config) (v : single (Product k)) : Prop :=
  ∃ f w w', Lookup k ref r = Ok f ∧ f_Build f ctx cfg w = (Ok (sg_value v), w') ∧
    sg_id v = f_ID f ∧ sg_cfg v = cfg.

(** Components built one per reference, in order. *)
Definition group_built (k : RKind) (ctx : context) (r : ComponentRegistry)
    (refs : slice ComponentRef) (g : group (Product k)) : Prop :=
  ∃ l, g = group_of l ∧
    Forall2 (λ ref v, built_from k ctx r (cr_Ref ref) (cr_Config ref) v) (elems refs) l.

Definition opt_built {T} (k : RKind) (ctx : context) (r : ComponentRegistry) (ref : T → string)
    (cfg : T → config) (o : option T) (v : option (single (Product k))) : Prop :=
  option_Forall2 (λ c v, built_from k ctx r (ref c) (cfg c) v) o v.

Lemma resolve_one_Ok k la ba ctx r ref cfg w v w' :
  resolve_one k la ba ctx r ref cfg w = (Ok v, w') → built_from k ctx r ref cfg v.
Proof. unfold resolve_one. intros H. inv_io; inv_res. unfold built_from. simpl. eauto 10. Qed.

Lemma resolve_entry_Ok k field ctx r i ref w v w' :
  resolve_entry k field ctx r i ref w = (Ok v, w') →
  built_from k ctx r (cr_Ref ref) (cr_Config ref) v.
Proof. unfold resolve_entry. intros H. inv_io; inv_res. unfold built_from. simpl. eauto 10. Qed.

Lemma resolve_list_Ok k field ctx r refs w g w' :
  resolve_list k field ctx r refs w = (Ok g, w') → group_built k ctx r refs g.
Proof.
  unfold resolve_list. intros (l & w1 & Hl%io_loop_Ok & [= <- _])%io_bind_Ok.
  exists l. split; [done|]. eapply loop_run_Forall2; [|done]. intros. by eapply resolve_entry_Ok.
Qed.

Lemma resolve_opt_Ok {T} k field ctx r (ref : T → string) cfg o w v w' :
  resolve_opt k field ctx r ref cfg o w = (Ok v, w') → opt_built k ctx r ref cfg o v.
Proof.
  unfold resolve_opt. destruct o as [c|]; [|intros [= <- _]; constructor].
  intros (v' & w1 & Hv%resolve_one_Ok & [= <- _])%io_bind_Ok. by constructor.
Qed.

Lemma g_ids_of {A} (l : list (single A)) : elems (g_ids (group_of l)) = sg_id <$> l.
Proof. by destruct l. Qed.
Lemma g_cfgs_of {A} (l : list (single A)) : elems (g_cfgs (group_of l)) = sg_cfg <$> l.
Proof. by destruct l. Qed.
Lemma g_values_of {A} (l : list (single A)) : elems (g_values (group_of l)) = sg_value <$> l.
Proof. by destruct l. Qed.

(** In a registry that stores factories under their own id, the ids of built
    components are the references. *)
Lemma built_from_id k ctx r ref cfg v :
  keyed r → built_from k ctx r ref cfg v → sg_id v = ref ∧ sg_cfg v = cfg.
Proof.
  intros Hk (f & w & w' & Hl & _ & Hid & Hc). split; [|done].
  rewrite Hid. apply (Hk k). by apply Lookup_Ok.
Qed.

Lemma group_built_ids k ctx r refs g :
  keyed r → group_built k ctx r refs g →
  elems (g_ids g) = cr_Ref <$> elems refs ∧ elems (g_cfgs g) = cr_Config <$> elems refs ∧
  length (elems (g_values g)) = length (elems refs).
Proof.
  intros Hk (l & -> & Hl). rewrite g_ids_of, g_cfgs_of, g_values_of, length_fmap.
  induction Hl as [|ref v refs' l Hv _ IH]; [done|]. apply built_from_id in Hv as [H1 H2]; [|done].
  destruct IH as (IH1 & IH2 & IH3). csimpl. rewrite H1, H2, IH1, IH2, IH3. done.
Qed.

(** *** Total resolution

    [Settles P m]: [m] succeeds when [P] holds and otherwise fails with
    [ErrNotFound], whatever the world. *)
Definition Settles (P : Prop) {A} (m : IO A) : Prop := ∀ w,
  (P ∧ ∃ a w', m w = (Ok a, w')) ∨
  (¬ P ∧ ∃ e w', m w = (Err e, w') ∧ errors_is e ErrNotFound = true).

Lemma settles_ret {A} (a : A) : Settles True (io_ret a).
Proof. intros w. left. split; [done|]. by exists a, w. Qed.

Lemma settles_bind {A B} P Q (m : IO A) (f : A → IO B) :
  Settles P m → (∀ a, Settles Q (f a)) → Settles (P ∧ Q) (io_bind m f).
Proof.
  intros Hm Hf w. unfold io_bind. destruct (Hm w) as [[HP (a & w1 & ->)]|[HP (e & w1 & -> & He)]].
  - destruct (Hf a w1) as [[HQ H]|[HQ H]]; [left|right]; (split; [tauto|exact H]).
  - right. split; [tauto|]. by exists e, w1.
Qed.

Lemma settles_iff {A} P Q (m : IO A) : Settles P m → (P ↔ Q) → Settles Q m.
Proof. intros Hm HPQ w. destruct (Hm w) as [[? ?]|[? ?]]; [left|right]; (split; [tauto|done]). Qed.

Lemma settles_then {A B} P (m : IO A) (f : A → IO B) :
  Settles P m → (∀ a, Settles True (f a)) → Settles P (io_bind m f).
Proof. intros Hm Hf. apply (settles_iff (P ∧ True)); [by apply settles_bind|tauto]. Qed.

Definition registered (r : ComponentRegistry) (k : RKind) (ref : string) : Prop :=
  is_Some (factories r k !! ref).

(** No factory of the registry fails to build. *)
Definition builds_total (r : ComponentRegistry) : Prop :=
  ∀ k id f, Lookup k id r = Ok f →
  ∀ ctx cfg w, ∃ v w', f_Build f ctx cfg w = (Ok v, w').

Lemma builds_total_new : builds_total NewComponentRegistry.
Proof. intros k id f Hl%Lookup_Ok. simpl in Hl. by rewrite lookup_empty in Hl. Qed.

Lemma builds_total_register k (f : Factory k) r :
  (∀ ctx cfg w, ∃ v w', f_Build f ctx cfg w = (Ok v, w')) → builds_total r →
  builds_total (Register k f r).2.
Proof.
  intros Hf Hr k' id g Hl%Lookup_Ok.
  destruct (Register_lookup k f r k' id) as [Heq|(_ & _ & <- & -> & Heq)]; rewrite Heq in Hl.
  - apply (Hr k' id). by apply Lookup_Ok.
  - simpl in Hl. injection Hl as <-. done.
Qed.

Section total.
Context (r : ComponentRegistry) (Htotal : builds_total r).

Lemma settles_lookup_build {B} k ref ctx cfg (g1 g2 : error → error) (h : Factory k → Product k → B) :
  (∀ e, errors_is (g1 e) ErrNotFound = errors_is e ErrNotFound) →
  Settles (registered r k ref)
    (io_bind (io_lift (map_err g1 (Lookup k ref r)))
       (λ f, io_bind (io_wrap (f_Build f ctx cfg) g2) (λ v, io_ret (h f v)))).
Proof using Htotal.
  intros Hg w. unfold registered, io_bind, io_lift, io_wrap.
  destruct (Lookup k ref r) as [f|e] eqn:Hl; simpl.
  - left. destruct (Htotal k ref f Hl ctx cfg w) as (v & w' & ->). apply Lookup_Ok in Hl.
    rewrite Hl. simpl. split; [by eexists|]. by eexists _, _.
  - right. unfold Lookup in Hl. destruct (factories r k !! ref) as [f|] eqn:Hf; [done|].
    injection Hl as <-. split; [by intros [? ?]|]. eexists _, _. split; [done|]. by rewrite Hg.
Qed.

Lemma settles_one k la ba ctx ref cfg :
  Settles (registered r k ref) (resolve_one k la ba ctx r ref cfg).
Proof using Htotal. by apply settles_lookup_build. Qed.

Lemma settles_list k field ctx refs :
  Settles (Forall (λ c, registered r k (cr_Ref c)) (elems refs)) (resolve_list k field ctx r refs).
Proof using Htotal.
  unfold resolve_list. apply settles_then; [|intros; apply settles_ret].
  generalize 0. induction (elems refs) as [|c l IH]; intros i; simpl.
  { eapply settles_iff; [apply settles_ret|]. by rewrite Forall_nil. }
  eapply settles_iff; [eapply settles_bind|by rewrite Forall_cons].
  - by apply settles_lookup_build.
  - intros v. apply settles_then; [apply IH|intros; apply settles_ret].
Qed.

Lemma settles_opt {T} k field ctx (ref : T → string) cfg o :
  Settles (Forall (λ c, registered r k (ref c)) (option_list o))
    (resolve_opt k field ctx r ref cfg o).
Proof using Htotal.
  unfold resolve_opt. destruct o as [c|]; simpl.
  - eapply settles_iff; [apply settles_then; [apply settles_one|intros; apply settles_ret]|].
    by rewrite Forall_singleton.
  - eapply settles_iff; [apply settles_ret|]. by rewrite Forall_nil.
Qed.
End total.
End resolve_lemmas.

(** ** Properties *)

Section resolve_properties.
Context `{K : Kernel}.

(** The references of a composition, with the kind each is looked up as. *)
Definition references (s : AgentSpec) : list (RKind * string) :=
  [(KindProvider, cr_Ref (Provider s))] ++
  (pair KindPromptAsset ∘ cr_Ref <$> option_list (pb_System (Prompt s))) ++
  (pair KindToolPack ∘ cr_Ref <$> elems (Tools s)) ++
  (pair KindPolicyPack ∘ cr_Ref <$> elems (Policies s)) ++
  (pair KindPreLLMFilter ∘ cr_Ref <$> elems (fb_PreLLM (Filters s))) ++
  (pair KindPreToolFilter ∘ cr_Ref <$> elems (fb_PreTool (Filters s))) ++
  (pair KindPostToolFilter ∘ cr_Ref <$> elems (fb_PostTool (Filters s))) ++
  (pair KindBudgetProfile ∘ br_Ref <$> option_list (Budget s)) ++
  (pair KindTelemetryProfile ∘ cr_Ref <$> option_list (Telemetry s)) ++
  (pair KindCredentialResolver ∘ cd_Ref <$> option_list (Credentials s)) ++
  (pair KindIdentitySigner ∘ cr_Ref <$> option_list (Identity s)).

(** Every reference of the composition names a registered factory. *)
Definition all_registered (r : ComponentRegistry) (s : AgentSpec) : Prop :=
  Forall (λ kr, registered r kr.1 kr.2) (references s).

(** What [resolve] puts in each field of its result. *)
Record resolved_from (ctx : context) (r : ComponentRegistry) (s : AgentSpec) (res : resolved)
    : Prop := {
  rf_provider : built_from KindProvider ctx r (cr_Ref (Provider s)) (cr_Config (Provider s))
                  (r_provider res);
  rf_prompt : ∃ c, pb_System (Prompt s) = Some c ∧
    built_from KindPromptAsset ctx r (cr_Ref c) (cr_Config c)
      (mkSingle (r_systemPrompt res : Product KindPromptAsset) (r_promptID res) (cr_Config c));
  rf_tools : group_built KindToolPack ctx r (Tools s) (r_toolPacks res);
  rf_policies : ∃ packs, group_built KindPolicyPack ctx r (Policies s) packs ∧
    r_policyHooks res = group_map pp_Hook packs;
  rf_preLLM : group_built KindPreLLMFilter ctx r (fb_PreLLM (Filters s)) (r_preLLMFilters res);
  rf_preTool : group_built KindPreToolFilter ctx r (fb_PreTool (Filters s)) (r_preToolFilters res);
  rf_postTool : group_built KindPostToolFilter ctx r (fb_PostTool (Filters s))
                  (r_postToolFilters res);
  rf_budget : opt_built KindBudgetProfile ctx r br_Ref (λ _, None) (Budget s) (r_budget res);
  rf_overrides : r_budgetOverrides res = from_option br_Overrides zeroOverrides (Budget s);
  rf_telemetry : opt_built KindTelemetryProfile ctx r cr_Ref cr_Config (Telemetry s)
                   (r_telemetry res);
  rf_credentials : opt_built KindCredentialResolver ctx r cd_Ref (λ _, None) (Credentials s)
                     (r_credResolver res);
  rf_identity : opt_built KindIdentitySigner ctx r cr_Ref cr_Config (Identity s) (r_identity res);
}.

Lemma resolve_prompt_Ok ctx r s w v w' :
  resolve_prompt ctx r s w = (Ok v, w') →
  ∃ c, pb_System (Prompt s) = Some c ∧ built_from KindPromptAsset ctx r (cr_Ref c) (cr_Config c) v.
Proof.
  unfold resolve_prompt. destruct (pb_System (Prompt s)) as [c|]; [|done].
  intros H. apply (resolve_one_Ok KindPromptAsset) in H. eauto.
Qed.

Lemma resolve_from ctx s r w res w' :
  resolve ctx s r w = (Ok res, w') → resolved_from ctx r s res.
Proof.
  unfold resolve. intros H. inv_io.
  repeat match goal with
  | H : resolve_one _ _ _ _ _ _ _ _ = (Ok _, _) |- _ => apply resolve_one_Ok in H
  | H : resolve_list _ _ _ _ _ _ = (Ok _, _) |- _ => apply resolve_list_Ok in H
  | H : resolve_opt _ _ _ _ _ _ _ _ = (Ok _, _) |- _ => apply resolve_opt_Ok in H
  | H : resolve_prompt _ _ _ _ = (Ok _, _) |- _ => apply resolve_prompt_Ok in H as (c & ? & ?)
  end.
  split; simpl; try done; [|by eauto].
  exists c. split; [done|]. match goal with H : built_from KindPromptAsset _ _ _ _ ?v |- _ =>
    destruct H as (f & w1 & w2 & ? & ? & ? & ?) end. by exists f, w1, w2.
Qed.

Lemma Lookup_registered r k id :
  (registered r k id ∧ ∃ f, Lookup k id r = Ok f) ∨
  (¬ registered r k id ∧ Lookup k id r = Err (registry_error ErrNotFound k id)).
Proof.
  unfold registered, Lookup. destruct (factories r k !! id) as [f|]; [left|right].
  - split; by eexists.
  - split; [by intros [? ?]|done].
Qed.

Lemma check_mcp_policies_spec i ref r j l :
  (Forall (registered r KindPolicyPack) l ∧ check_mcp_policies i ref r j l = Ok tt) ∨
  (¬ Forall (registered r KindPolicyPack) l ∧
   ∃ e, check_mcp_policies i ref r j l = Err e ∧ errors_is e ErrNotFound = true).
Proof.
  revert j. induction l as [|pid l IH]; intros j; simpl; [by left|]. unfold LookupPolicyPack.
  destruct (Lookup_registered r KindPolicyPack pid) as [[Hr [f ->]]|[Hr ->]].
  - rewrite Forall_cons. destruct (IH (S j)) as [[? ?]|[? ?]]; [left|right]; (split; [tauto|done]).
  - right. split; [by intros [? _]%Forall_cons|]. by eexists.
Qed.

Lemma check_mcp_auth_spec i ref r auth :
  let P := ∀ a, auth = Some a → registered r KindCredentialResolver (ma_CredentialRef a) in
  (P ∧ check_mcp_auth i ref r auth = Ok tt) ∨
  (¬ P ∧ ∃ e, check_mcp_auth i ref r auth = Err e ∧ errors_is e ErrNotFound = true).
Proof.
  simpl. destruct auth as [a|]; simpl; [|by left]. unfold LookupCredentialResolver.
  destruct (Lookup_registered r KindCredentialResolver (ma_CredentialRef a)) as [[Hr [f ->]]|[Hr ->]].
  - left. split; [|done]. by intros a' [= <-].
  - right. split; [intros H; by apply Hr, H|]. by eexists.
Qed.

Lemma check_mcp_policies_Ok i ref r j l u :
  check_mcp_policies i ref r j l = Ok u → Forall (registered r KindPolicyPack) l.
Proof.
  destruct (check_mcp_policies_spec i ref r j l) as [[? _]|(_ & e & -> & _)]; done.
Qed.

Lemma check_mcp_auth_Ok i ref r auth u :
  check_mcp_auth i ref r auth = Ok u →
  ∀ a, auth = Some a → registered r KindCredentialResolver (ma_CredentialRef a).
Proof.
  destruct (check_mcp_auth_spec i ref r auth) as [[? _]|(_ & e & -> & _)]; done.
Qed.

(** a completed resolution built every component the composition references:
    each field of the result holds, in the order of the spec, the values that the
    factories registered under those references made of those configs, and records
    exactly those references and configs. *)
Theorem resolve_complete ctx s r w res w' :
  reachable r → resolve ctx s r w = (Ok res, w') →
  resolved_from ctx r s res ∧
  sg_id (r_provider res) = cr_Ref (Provider s) ∧
  Some (r_promptID res) = cr_Ref <$> pb_System (Prompt s) ∧
  elems (g_ids (r_toolPacks res)) = cr_Ref <$> elems (Tools s) ∧
  elems (g_cfgs (r_toolPacks res)) = cr_Config <$> elems (Tools s) ∧
  elems (g_ids (r_policyHooks res)) = cr_Ref <$> elems (Policies s) ∧
  elems (g_ids (r_preLLMFilters res)) = cr_Ref <$> elems (fb_PreLLM (Filters s)) ∧
  elems (g_ids (r_preToolFilters res)) = cr_Ref <$> elems (fb_PreTool (Filters s)) ∧
  elems (g_ids (r_postToolFilters res)) = cr_Ref <$> elems (fb_PostTool (Filters s)).
Proof.
  intros Hk%reachable_keyed H%resolve_from. split; [done|].
  destruct H as [Hp (c & Hc & Hpr) Ht (packs & Hpk & Hph) H1 H2 H3 _ _ _ _ _].
  apply (built_from_id _ _ _ _ _ _ Hk) in Hp as [Hp _], Hpr as [Hpr _].
  apply (group_built_ids _ _ _ _ _ Hk) in Ht as (Ht & Htc & _), Hpk as (Hpk & _ & _),
    H1 as (H1 & _), H2 as (H2 & _), H3 as (H3 & _).
  rewrite Hc, Hph. simpl in *. rewrite Hpr. by split_and!.
Qed.

(** when no factory fails to build, resolution succeeds exactly when every
    referenced component is registered under its kind; otherwise it fails with
    ErrNotFound. *)
Theorem resolve_succeeds_iff_registered ctx s r w :
  builds_total r → is_Some (pb_System (Prompt s)) →
  (all_registered r s ∧ ∃ res w', resolve ctx s r w = (Ok res, w')) ∨
  (¬ all_registered r s ∧ ∃ e w', resolve ctx s r w = (Err e, w') ∧
     errors_is e ErrNotFound = true).
Proof.
  intros Ht [c Hc]. revert w. change (Settles (all_registered r s) (resolve ctx s r)).
  unfold resolve, resolve_prompt. rewrite Hc.
  eapply settles_iff.
  { repeat first [by apply settles_one | by apply (settles_one r Ht KindPromptAsset)
      | by apply settles_list | by apply settles_opt
      | apply settles_ret | eapply settles_bind; [|intros ?]]. }
  unfold all_registered, references. rewrite Hc.
  rewrite !Forall_app, !Forall_fmap. simpl. rewrite !Forall_singleton. simpl. tauto.
Qed.

(** C27: the bindings of a completed MCP resolution are the declared ones, in
    order, built by their registered factories; every policy pack and credential
    resolver a binding names is registered. *)
Theorem mcp_bindings_governed ctx s r w out w' :
  resolveMCPBindings ctx s r w = (Ok out, w') →
  Forall2 (λ ref b,
    rmb_ID b = cr_Ref ref ∧ rmb_Config b = cr_Config ref ∧
    (∃ f w1 w2, LookupMCPBinding (cr_Ref ref) r = Ok f ∧
       f_Build f ctx (cr_Config ref) w1 = (Ok (rmb_Value b), w2)) ∧
    Forall (registered r KindPolicyPack) (elems (mb_Policies (rmb_Value b))) ∧
    (∀ a, mb_Auth (rmb_Value b) = Some a →
       registered r KindCredentialResolver (ma_CredentialRef a)))
    (elems (MCPImports s)) (elems out).
Proof.
  unfold resolveMCPBindings. destruct (elems (MCPImports s)) as [|x l]; [intros [= <- _]; constructor|].
  intros (out' & w1 & Hl%io_loop_Ok & [= <- _])%io_bind_Ok. revert Hl. apply loop_run_Forall2.
  intros i ref wi b wi' _ Hb. unfold resolve_mcp_binding in Hb. inv_io; inv_res. simpl.
  split_and!; [done|done|eauto 10|by eapply check_mcp_policies_Ok|by eapply check_mcp_auth_Ok].
Qed.

(** a built MCP binding is accepted exactly when every policy pack and the
    credential resolver it names are registered; otherwise the build stops with
    ErrNotFound. *)
Theorem mcp_binding_accepted_iff ctx r i ref f val w w1 :
  LookupMCPBinding (cr_Ref ref) r = Ok f → f_Build f ctx (cr_Config ref) w = (Ok val, w1) →
  (Forall (registered r KindPolicyPack) (elems (mb_Policies val)) ∧
   (∀ a, mb_Auth val = Some a → registered r KindCredentialResolver (ma_CredentialRef a)) ∧
   resolve_mcp_binding ctx r i ref w =
     (Ok (mkResolvedMCPBinding (cr_Ref ref) (cr_Config ref) val), w1)) ∨
  (¬ (Forall (registered r KindPolicyPack) (elems (mb_Policies val)) ∧
      ∀ a, mb_Auth val = Some a → registered r KindCredentialResolver (ma_CredentialRef a)) ∧
   ∃ e, resolve_mcp_binding ctx r i ref w = (Err e, w1) ∧ errors_is e ErrNotFound = true).
Proof.
  intros Hl Hb. unfold resolve_mcp_binding, io_bind, io_lift, io_wrap. rewrite Hl. simpl.
  rewrite Hb. simpl.
  destruct (check_mcp_policies_spec i (cr_Ref ref) r 0 (elems (mb_Policies val)))
    as [[Hp ->]|(Hp & e & -> & He)]; [|right; split; [tauto|by exists e]].
  destruct (check_mcp_auth_spec i (cr_Ref ref) r (mb_Auth val)) as [[Ha ->]|(Ha & e & -> & He)].
  - by left.
  - right. split; [tauto|by exists e].
Qed.
End resolve_properties.

(** ** Witnesses: a small registry over the sample kernel *)

Definition sample_provider : @Factory sample_kernel KindProvider :=
  mkFactory (k := KindProvider) (K := sample_kernel) "provider.x@1.0.0" "" (λ _ _, io_ret "provider").
Definition sample_prompt : @Factory sample_kernel KindPromptAsset :=
  mkFactory (k := KindPromptAsset) (K := sample_kernel) "prompt.x@1.0.0" "" (λ _ _, io_ret "You help.").
Definition sample_toolpack (id tool : string) : @Factory sample_kernel KindToolPack :=
  mkFactory (k := KindToolPack) (K := sample_kernel) id "" (λ _ _, io_ret
    (mkToolPack (K := sample_kernel) (λ _ _ call, io_ret ("ran " +:+ call)) (Some [tool]) None)).
Definition sample_policypack (id : string) : @Factory sample_kernel KindPolicyPack :=
  mkFactory (k := KindPolicyPack) (K := sample_kernel) id "" (λ _ _, io_ret
    (mkPolicyPack (K := sample_kernel) (λ _ _ _, io_ret (SAllow, "")) None)).
Definition sample_binding : MCPBindingValue :=
  mkMCPBinding "mcp.x@1.0.0" (mkMCPConnection MCPTransportHTTP None None "https://x" None) None
    None None (Some ["policypack.pii@1.0.0"]) (mkMCPTrust "" "" None) OnNewToolBlock
    (mkMCPBindingDescriptor "x" "" None).
Definition sample_mcp : @Factory sample_kernel KindMCPBinding :=
  mkFactory (k := KindMCPBinding) (K := sample_kernel) "mcp.x@1.0.0" "" (λ _ _, io_ret sample_binding).

Definition small_registry : @ComponentRegistry sample_kernel :=
  (Register KindMCPBinding sample_mcp
   (Register KindPolicyPack (sample_policypack "policypack.pii@1.0.0")
    (Register KindToolPack (sample_toolpack "toolpack.calc@2.0.0" "calc")
     (Register KindPromptAsset sample_prompt
      (Register KindProvider sample_provider
        (NewComponentRegistry (K := sample_kernel))).2).2).2).2).2.

Lemma small_registry_reachable : reachable small_registry.
Proof. unfold reachable, small_registry. repeat (eapply rtc_r; [|constructor]). constructor. Qed.

Lemma small_registry_total : builds_total small_registry.
Proof.
  unfold small_registry. repeat (apply builds_total_register; [intros; by eexists _, _|]).
  apply builds_total_new.
Qed.

Definition small_spec : AgentSpec :=
  mkAgentSpec "v1" "AgentSpec" (mkMetadata "acme.demo" "0.1.0" "" "" None None)
    (mkComponentRef "provider.x@1.0.0" None)
    (mkPromptBlock (Some (mkComponentRef "prompt.x@1.0.0" None)) None)
    (Some [mkComponentRef "toolpack.calc@2.0.0" (Some [("digits", AInt 5)])])
    (Some [mkComponentRef "policypack.pii@1.0.0" None])
    (mkFilterBlock None None None) None None None None None None
    (Some [mkComponentRef "mcp.x@1.0.0" None]) None.

Definition with_tool_ref (ref : string) (s : AgentSpec) : AgentSpec :=
  mkAgentSpec (APIVersion s) (Kind s) (Meta s) (Provider s) (Prompt s)
    (Some [mkComponentRef ref None]) (Policies s) (Filters s) (Budget s) (Telemetry s)
    (Credentials s) (Identity s) (Extends s) (Skills s) (MCPImports s) (OutputContract s).

Definition small_resolved : @resolved sample_kernel :=
  match (resolve (K := sample_kernel) Background small_spec small_registry []).1 with
  | Ok res => res
  | Err _ => mkResolved (K := sample_kernel) (mkSingle "" "" None) "" "" (group_of []) (group_of [])
      (group_of []) (group_of []) (group_of []) None zeroOverrides None None None (group_of []) None
      (group_of []) small_spec
  end.

Lemma small_resolved_run :
  resolve (K := sample_kernel) Background small_spec small_registry [] = (Ok small_resolved, []).
Proof. vm_compute. reflexivity. Qed.

Example resolve_complete_witness :
  elems (g_ids (r_toolPacks small_resolved)) = ["toolpack.calc@2.0.0"].
Proof.
  apply (resolve_complete (K := sample_kernel) Background small_spec small_registry []
    small_resolved [] small_registry_reachable small_resolved_run).
Defined.

Example resolve_succeeds_iff_registered_witness :
  ∃ e w', resolve (K := sample_kernel) Background
      (with_tool_ref "toolpack.gone@1.0.0" small_spec) small_registry [] = (Err e, w') ∧
    errors_is e ErrNotFound = true.
Proof.
  destruct (resolve_succeeds_iff_registered (K := sample_kernel) Background
    (with_tool_ref "toolpack.gone@1.0.0" small_spec) small_registry []
    small_registry_total) as [[H _]|[_ H]]; [by eexists| |exact H].
  exfalso. unfold all_registered in H. rewrite Forall_forall in H.
  destruct (H (KindToolPack, "toolpack.gone@1.0.0")) as [f Hf]; [right; right; left|].
  by vm_compute in Hf.
Defined.

Example mcp_bindings_governed_witness :
  registered small_registry KindPolicyPack "policypack.pii@1.0.0".
Proof.
  pose proof (mcp_bindings_governed (K := sample_kernel) Background small_spec small_registry []
    (Some [mkResolvedMCPBinding "mcp.x@1.0.0" None sample_binding]) [] eq_refl) as H.
  inversion H as [|? ? ? ? Hb _]; subst. destruct Hb as (_ & _ & _ & Hp & _).
  by inversion Hp.
Defined.

Example mcp_binding_accepted_iff_witness :
  ∃ e, resolve_mcp_binding (K := sample_kernel) Background
      (Register KindMCPBinding sample_mcp (NewComponentRegistry (K := sample_kernel))).2 0
      (mkComponentRef "mcp.x@1.0.0" None) [] = (Err e, []) ∧ errors_is e ErrNotFound = true.
Proof.
  destruct (mcp_binding_accepted_iff (K := sample_kernel) Background
    (Register KindMCPBinding sample_mcp (NewComponentRegistry (K := sample_kernel))).2 0
    (mkComponentRef "mcp.x@1.0.0" None) sample_mcp sample_binding [] []) as [(H & _)|[_ H]];
    [vm_compute; reflexivity|reflexivity| |exact H].
  exfalso. inversion H as [|? ? Hp]; subst. destruct Hp as [f Hf]. by vm_compute in Hf.
Defined.
