(* ===== verification/Manifest.v ===== *)
(** The build record: package manifest, with [computeCapabilities]
    (build/capabilities.go) and [buildManifest] (build/build.go). *)

From S2P Require Import Prelude GoStrings Errors Values Types Ids Extends Canonical Hash Kernel.
From S2P Require Import Registry Expand Resolve.
From stdpp Require Import options.

(** ** manifest/manifest.go, manifest/capabilities.go *)

(** What a [Descriptors any] field holds. *)
Inductive descriptor :=
| DSkill (d : SkillDescriptor)
| DOutputContract (d : OutputContractDescriptor)
| DMCPBinding (d : MCPBindingDescriptor).

Record ResolvedComponent := mkResolvedComponent {
  mr_Kind : string;
  mr_ID : string;
  mr_Config : config;
  mr_Descriptors : option descriptor;
  mr_InjectedBySkill : string;
}.

Record CapabilitySkip := mkCapabilitySkip { skip_Kind : string; skip_Reason : string }.
Record Capabilities := mkCapabilities { Present : list string; Skipped : slice CapabilitySkip }.

(** The manifest package's own copy of the overlay attribution. *)
Record OverlayRecord := mkOverlayRecord { or_Name : string; or_File : string }.

(** [lookupInjector]: an absent key gives the empty id. *)
Definition lookupInjector (expanded : option ExpandedSpec) (kindLabel id : string) : string :=
  match expanded with
  | None => ""
  | Some es => default "" (es_InjectedBy es !! (kindLabel +:+ ":" +:+ id))
  end.

Section manifest.
Context `{K : Kernel}.

Record ManifestRecord := mkManifest {
  mf_SpecID : string;
  mf_SpecVersion : string;
  mf_BuiltAt : Time;
  mf_NormalizedHash : string;
  mf_ExpandedHash : string;
  mf_Capabilities : Capabilities;
  mf_ExtendsChain : slice string;
  mf_Overlays : slice OverlayRecord;
  mf_Resolved : slice ResolvedComponent;
}.

(** ** computeCapabilities *)

(** [if c { present = append(present, k) }]. *)
Definition present_if (c : bool) (k : RKind) : list string := if c then [slug k] else [].
(** The [else] branch of the optional kinds. *)
Definition skipped_unless (c : bool) (k : RKind) : list CapabilitySkip :=
  if c then [] else [mkCapabilitySkip (slug k) "not_specified"].

Definition nonempty_slice {A} (l : slice A) : bool := match elems l with [] => false | _ => true end.
Definition non_nil {A} (o : option A) : bool := match o with None => false | Some _ => true end.

Definition computeCapabilities (s : AgentSpec) (rsv : resolved) (expanded : option ExpandedSpec)
    : Capabilities :=
  let hasContract :=
    match expanded with None => false | Some es => non_nil (OutputContract (es_Spec es)) end in
  let optional :=
    [(non_nil (Budget s), KindBudgetProfile); (non_nil (Telemetry s), KindTelemetryProfile);
     (non_nil (Credentials s), KindCredentialResolver); (non_nil (Identity s), KindIdentitySigner);
     (nonempty_slice (Skills s), KindSkill); (hasContract, KindOutputContract);
     (nonempty_slice (MCPImports s), KindMCPBinding)] in
  let present :=
    [slug KindProvider; slug KindPromptAsset] ++
    present_if (nonempty_slice (g_ids (r_toolPacks rsv))) KindToolPack ++
    present_if (nonempty_slice (g_ids (r_policyHooks rsv))) KindPolicyPack ++
    present_if (nonempty_slice (g_ids (r_preLLMFilters rsv))) KindPreLLMFilter ++
    present_if (nonempty_slice (g_ids (r_preToolFilters rsv))) KindPreToolFilter ++
    present_if (nonempty_slice (g_ids (r_postToolFilters rsv))) KindPostToolFilter ++
    (optional ≫= λ ck, present_if ck.1 ck.2) in
  mkCapabilities (sort_strings present)
    (append_slice None (optional ≫= λ ck, skipped_unless ck.1 ck.2)).

(** ** buildManifest *)

(** [l[i]]. *)
Definition index {A} (l : slice A) (i : nat) : res error A :=
  match elems l !! i with
  | Some x => Ok x
  | None => Err (EPanic "index out of range")
  end.

(** [for i, id := range ids { m.Resolved = append(m.Resolved, ...) }]. *)
Fixpoint list_group (k : RKind) (desc : nat → res error (option descriptor))
    (injector : string → string) (cfgs : slice config) (i : nat) (ids : list ID)
    : res error (list ResolvedComponent) :=
  match ids with
  | [] => Ok []
  | id :: ids' =>
    d ← desc i; cfg ← index cfgs i;
    rest ← list_group k desc injector cfgs (S i) ids';
    Ok (mkResolvedComponent (slug k) id cfg d (injector id) :: rest)
  end.

Definition manifest_group {A} (k : RKind) (desc : nat → res error (option descriptor))
    (injector : string → string) (g : group A) : res error (list ResolvedComponent) :=
  list_group k desc injector (g_cfgs g) 0 (elems (g_ids g)).

(** No descriptors, or the descriptor of the [i]-th value. *)
Definition no_descriptors (_ : nat) : res error (option descriptor) := Ok None.
Definition descriptors {A} (desc : A → descriptor) (vals : slice A) (i : nat)
    : res error (option descriptor) :=
  v ← index vals i; Ok (Some (desc v)).

Definition manifest_single {A} (k : RKind) (desc : A → option descriptor)
    (injector : string → string) (o : option (single A)) : list ResolvedComponent :=
  match o with
  | None => []
  | Some c => [mkResolvedComponent (slug k) (sg_id c) (sg_cfg c) (desc (sg_value c)) (injector (sg_id c))]
  end.

(** [if res.x != nil] for a field of interface type: the built value is tested, and
    a factory may have answered (nil, nil). *)
Definition unless_nil {A} (is_nil : A → bool) (o : option (single A)) : option (single A) :=
  match o with
  | Some c => if is_nil (sg_value c) then None else Some c
  | None => None
  end.

Definition no_descriptor {A} (_ : A) : option descriptor := None.
Definition no_injector (_ : string) : string := "".

Definition manifest_resolved (rsv : resolved) (expanded : option ExpandedSpec)
    : res error (list ResolvedComponent) :=
  tools ← manifest_group KindToolPack no_descriptors (lookupInjector expanded "tool_pack") (r_toolPacks rsv);
  pols ← manifest_group KindPolicyPack no_descriptors (lookupInjector expanded "policy_pack") (r_policyHooks rsv);
  prellm ← manifest_group KindPreLLMFilter no_descriptors no_injector (r_preLLMFilters rsv);
  pretool ← manifest_group KindPreToolFilter no_descriptors no_injector (r_preToolFilters rsv);
  posttool ← manifest_group KindPostToolFilter no_descriptors no_injector (r_postToolFilters rsv);
  skills ← manifest_group KindSkill
    (descriptors (λ sk, DSkill (sk_Descriptor sk)) (g_values (r_skills rsv))) no_injector (r_skills rsv);
  mcp ← manifest_group KindMCPBinding
    (descriptors (λ b, DMCPBinding (mb_Descriptor b)) (g_values (r_mcpBindings rsv))) no_injector
    (r_mcpBindings rsv);
  Ok ([mkResolvedComponent (slug KindProvider) (sg_id (r_provider rsv)) (sg_cfg (r_provider rsv)) None "";
       mkResolvedComponent (slug KindPromptAsset) (r_promptID rsv) None None ""] ++
      tools ++ pols ++ prellm ++ pretool ++ posttool ++
      manifest_single KindBudgetProfile no_descriptor no_injector (r_budget rsv) ++
      manifest_single KindTelemetryProfile no_descriptor no_injector (r_telemetry rsv) ++
      manifest_single KindCredentialResolver no_descriptor no_injector
        (unless_nil Resolver_nil (r_credResolver rsv)) ++
      manifest_single KindIdentitySigner no_descriptor no_injector
        (unless_nil Signer_nil (r_identity rsv)) ++
      skills ++
      manifest_single KindOutputContract (λ c, Some (DOutputContract (oc_Descriptor c)))
        (lookupInjector expanded "output_contract") (r_outputContract rsv) ++
      mcp).

(** [hash, _ := f()]: the error is dropped, and the string of a failed call is empty. *)
Definition hash_or_empty (r : res error string) : string :=
  match r with Ok h => h | Err _ => "" end.

(** The cells of [ns] are read and filled; [m] is their state. *)
Definition buildManifest (s : AgentSpec) (rsv : resolved) (ns : NormalizedSpec) (m : memo)
    (expanded : ExpandedSpec) : IO (ManifestRecord * memo) := λ w,
  let '(hash, m) := NormalizedHash (ns_Spec ns) m in
  let '(now, w) := Now_UTC w in
  match manifest_resolved rsv (Some expanded) with
  | Err e => (Err e, w)
  | Ok l =>
    (Ok (mkManifest (md_ID (Meta s)) (md_Version (Meta s)) now (hash_or_empty hash)
           (if nonempty_slice (Skills s) then hash_or_empty (computeExpandedHash expanded) else "")
           (computeCapabilities s rsv (Some expanded))
           (append_slice None (ns_ExtendsChain ns))
           (append_slice None ((λ o, mkOverlayRecord (oa_Name o) (oa_File o)) <$> ns_Overlays ns))
           (Some l), m), w)
  end.
End manifest.

(** ** Lemmas *)

Section manifest_lemmas.
Context `{K : Kernel}.

Lemma list_group_Ok k desc inj cfgs i ids cs :
  length ids = length cs →
  (∀ j c, cs !! j = Some c → desc (i + j) = Ok (c.2) ∧ elems cfgs !! (i + j) = Some (c.1)) →
  list_group k desc inj cfgs i ids =
    Ok (zip_with (λ id c, mkResolvedComponent (slug k) id c.1 c.2 (inj id)) ids cs).
Proof.
  revert i cs. induction ids as [|id ids IH]; intros i [|c cs] Hlen Hc; simplify_eq/=; [done|].
  destruct (Hc 0 c eq_refl) as [Hd Hcfg]. rewrite Nat.add_0_r in Hd, Hcfg. rewrite Hd. simpl.
  unfold index. rewrite Hcfg. simpl. rewrite (IH (S i) cs); [done|lia|].
  intros j c' Hj. specialize (Hc (S j) c' Hj). by rewrite Nat.add_succ_r in Hc.
Qed.

(** The entry of one component. *)
Definition entry_of {A} (k : RKind) (desc : A → option descriptor) (inj : string → string)
    (c : single A) : ResolvedComponent :=
  mkResolvedComponent (slug k) (sg_id c) (sg_cfg c) (desc (sg_value c)) (inj (sg_id c)).

Lemma manifest_group_Ok {A B} k desc (d : B → option descriptor) inj (g : group A)
    (l : list (single B)) :
  elems (g_ids g) = sg_id <$> l → elems (g_cfgs g) = sg_cfg <$> l →
  (∀ j c, l !! j = Some c → desc j = Ok (d (sg_value c))) →
  manifest_group k desc inj g = Ok (entry_of k d inj <$> l).
Proof.
  intros Hi Hc Hd. unfold manifest_group. rewrite Hi.
  rewrite (list_group_Ok _ _ _ _ 0 _ ((λ c, (sg_cfg c, d (sg_value c))) <$> l)).
  - f_equal. clear. induction l as [|c l IH]; [done|]. csimpl. by rewrite IH.
  - by rewrite !length_fmap.
  - intros j c. rewrite list_lookup_fmap. destruct (l !! j) as [c'|] eqn:Hj; [|done].
    intros [= <-]. rewrite Hc, list_lookup_fmap. simpl. rewrite Hj. split; [by apply Hd|done].
Qed.

Lemma descriptors_Ok {A} (desc : A → descriptor) (l : list (single A)) j c :
  l !! j = Some c →
  descriptors desc (g_values (group_of l)) j = Ok (Some (desc (sg_value c))).
Proof. intros Hj. unfold descriptors, index. by rewrite g_values_of, list_lookup_fmap, Hj. Qed.

Lemma plain_group {A} k inj (l : list (single A)) :
  manifest_group k no_descriptors inj (group_of l) = Ok (entry_of k no_descriptor inj <$> l).
Proof. apply manifest_group_Ok; [apply g_ids_of|apply g_cfgs_of|done]. Qed.

Lemma plain_group_map {A B} k inj (f : A → B) (l : list (single A)) :
  manifest_group k no_descriptors inj (group_map f (group_of l)) =
  Ok (entry_of k no_descriptor inj <$> l).
Proof. apply manifest_group_Ok; [apply g_ids_of|apply g_cfgs_of|done]. Qed.

Lemma described_group {A} k inj (desc : A → descriptor) (l : list (single A)) :
  manifest_group k (descriptors desc (g_values (group_of l))) inj (group_of l) =
  Ok (entry_of k (λ v, Some (desc v)) inj <$> l).
Proof. apply manifest_group_Ok; [apply g_ids_of|apply g_cfgs_of|]. intros. by apply descriptors_Ok. Qed.

(** The groups a completed build holds: each slice is made of one list of built
    components. *)
Record grouped (rsv : resolved) (ts : list (single ToolPack)) (ps : list (single PolicyPack))
    (f1 : list (single PreLLMFilter)) (f2 : list (single PreToolFilter))
    (f3 : list (single PostToolFilter)) (sks : list (single SkillValue))
    (bs : list (single MCPBindingValue)) : Prop := {
  gr_tools : r_toolPacks rsv = group_of ts;
  gr_policies : r_policyHooks rsv = group_map pp_Hook (group_of ps);
  gr_preLLM : r_preLLMFilters rsv = group_of f1;
  gr_preTool : r_preToolFilters rsv = group_of f2;
  gr_postTool : r_postToolFilters rsv = group_of f3;
  gr_skills : r_skills rsv = group_of sks;
  gr_bindings : r_mcpBindings rsv = group_of bs;
}.

(** The list of components the manifest records. *)
Definition resolved_entries (rsv : resolved) (es : option ExpandedSpec)
    (ts : list (single ToolPack)) (ps : list (single PolicyPack))
    (f1 : list (single PreLLMFilter)) (f2 : list (single PreToolFilter))
    (f3 : list (single PostToolFilter)) (sks : list (single SkillValue))
    (bs : list (single MCPBindingValue)) : list ResolvedComponent :=
  [mkResolvedComponent (slug KindProvider) (sg_id (r_provider rsv)) (sg_cfg (r_provider rsv)) None "";
   mkResolvedComponent (slug KindPromptAsset) (r_promptID rsv) None None ""] ++
  (entry_of KindToolPack no_descriptor (lookupInjector es "tool_pack") <$> ts) ++
  (entry_of KindPolicyPack no_descriptor (lookupInjector es "policy_pack") <$> ps) ++
  (entry_of KindPreLLMFilter no_descriptor no_injector <$> f1) ++
  (entry_of KindPreToolFilter no_descriptor no_injector <$> f2) ++
  (entry_of KindPostToolFilter no_descriptor no_injector <$> f3) ++
  (entry_of KindBudgetProfile no_descriptor no_injector <$> option_list (r_budget rsv)) ++
  (entry_of KindTelemetryProfile no_descriptor no_injector <$> option_list (r_telemetry rsv)) ++
  (entry_of KindCredentialResolver no_descriptor no_injector <$> option_list (unless_nil Resolver_nil (r_credResolver rsv))) ++
  (entry_of KindIdentitySigner no_descriptor no_injector <$> option_list (unless_nil Signer_nil (r_identity rsv))) ++
  (entry_of KindSkill (λ sk, Some (DSkill (sk_Descriptor sk))) no_injector <$> sks) ++
  (entry_of KindOutputContract (λ c, Some (DOutputContract (oc_Descriptor c)))
     (lookupInjector es "output_contract") <$> option_list (r_outputContract rsv)) ++
  (entry_of KindMCPBinding (λ b, Some (DMCPBinding (mb_Descriptor b))) no_injector <$> bs).

Lemma manifest_single_entries {A} k (desc : A → option descriptor) inj (o : option (single A)) :
  manifest_single k desc inj o = entry_of k desc inj <$> option_list o.
Proof. by destruct o. Qed.

(** No index is out of range, and the entries are listed kind by kind. *)
Lemma manifest_resolved_Ok rsv es ts ps f1 f2 f3 sks bs :
  grouped rsv ts ps f1 f2 f3 sks bs →
  manifest_resolved rsv es = Ok (resolved_entries rsv es ts ps f1 f2 f3 sks bs).
Proof.
  intros [Ht Hp H1 H2 H3 Hs Hb]. unfold manifest_resolved, resolved_entries.
  rewrite Ht, Hp, H1, H2, H3, Hs, Hb.
  rewrite (plain_group KindToolPack), (plain_group_map KindPolicyPack), (plain_group KindPreLLMFilter),
    (plain_group KindPreToolFilter), (plain_group KindPostToolFilter),
    (described_group KindSkill), (described_group KindMCPBinding).
  cbn [mbind res_bind]. by rewrite !manifest_single_entries.
Qed.
End manifest_lemmas.
