(* ===== verification/Build.v ===== *)
(** The build pipeline (build/build.go): freeze the registry, expand, resolve,
    compose the chains into kernel options, create the orchestrator and record
    the build. *)

From S2P Require Import Prelude GoStrings Errors Values Types Ids Extends Canonical Hash Kernel.
From S2P Require Import Merge Registry Budget Chains Expand Resolve Manifest.
From stdpp Require Import options.

(** ** Package orchestrator of the kernel, as the repository uses it *)
Class Orchestration `{K : Kernel} := {
  Orchestrator : Type;
  OrchOption : Type;
  WithToolInvoker : Invoker → OrchOption;
  WithPolicyHook : PolicyHook → OrchOption;
  WithPreLLMFilter : PreLLMFilter → OrchOption;
  WithPreToolFilter : PreToolFilter → OrchOption;
  WithPostToolFilter : PostToolFilter → OrchOption;
  WithBudgetGuard : Guard → OrchOption;
  WithLifecycleEmitter : Emitter → OrchOption;
  WithAttributeEnricher : Enricher → OrchOption;
  WithCredentialResolver : Resolver → OrchOption;
  WithIdentitySigner : Signer → OrchOption;
  New : Provider_ → list OrchOption → IO Orchestrator;
  InvocationRequest : Type;
  InvocationResult : Type;
  Orchestrator_Invoke : Orchestrator → context → InvocationRequest → IO InvocationResult;
}.

(** ** appendSkillFragments *)

Definition blank_line : string := String (byte 10) (str1 (byte 10)).

(** The loop: the text so far and the fragments seen. *)
Fixpoint append_fragments (seen : gset string) (out : string) (frags : list string) : string :=
  match frags with
  | [] => out
  | frag :: frags' =>
    if bool_decide (frag = "") then append_fragments seen out frags'
    else if bool_decide (frag ∈ seen) then append_fragments seen out frags'
    else append_fragments ({[frag]} ∪ seen)
           ((if bool_decide (out = "") then out else out +:+ blank_line) +:+ frag) frags'
  end.

Definition appendSkillFragments (base : string) (skills : list ResolvedSkill) : string :=
  append_fragments ∅ base ((λ rs, sk_PromptFragment (rs_Value rs)) <$> skills).

Section build.
Context `{O : Orchestration}.
Local Open Scope io_scope.

Record BuiltAgent := mkBuiltAgent {
  ba_Orchestrator : Orchestrator;
  ba_Manifest : ManifestRecord;
  ba_SystemPrompt : string;
  ba_ToolDefs : slice ToolDefinition;
  ba_NormalizedSpec : NormalizedSpec;
  ba_memo : memo;          (* the memo cells of [ba_NormalizedSpec] *)
}.

(** The artefacts of the expansion and of the MCP resolution that [Build] stamps
    on [res], and the final system prompt. *)
Definition skill_entries (es : ExpandedSpec) : list (single SkillValue) :=
  (λ rs, mkSingle (rs_Value rs) (rs_ID rs) (rs_Config rs)) <$> elems (es_Skills es).
Definition contract_entry (es : ExpandedSpec) : option (single OutputContractValue) :=
  (λ oc, mkSingle (roc_Value oc) (roc_ID oc) (roc_Config oc)) <$> es_ResolvedOutputContract es.
Definition binding_entries (binds : slice ResolvedMCPBinding) : list (single MCPBindingValue) :=
  (λ b, mkSingle (rmb_Value b) (rmb_ID b) (rmb_Config b)) <$> elems binds.

Definition stamp (rsv : resolved) (es : ExpandedSpec) (binds : slice ResolvedMCPBinding)
    : resolved :=
  mkResolved (r_provider rsv)
    (appendSkillFragments (r_systemPrompt rsv) (elems (es_Skills es))) (r_promptID rsv)
    (r_toolPacks rsv) (r_policyHooks rsv) (r_preLLMFilters rsv) (r_preToolFilters rsv)
    (r_postToolFilters rsv) (r_budget rsv) (r_budgetOverrides rsv) (r_telemetry rsv)
    (r_credResolver rsv) (r_identity rsv) (group_of (skill_entries es)) (contract_entry es)
    (group_of (binding_entries binds)) (r_specSnapshot rsv).

(** The router option and the tool definitions, when there are tool packs. *)
Definition tool_option (packs : list ToolPack) : res error (list OrchOption * slice ToolDefinition) :=
  match packs with
  | [] => Ok ([], None)
  | _ =>
    '(router, defs) ← map_err (EWrap (Sprintf "tool router: %w" [])) (newToolRouter packs);
    Ok ([WithToolInvoker (Invoke router)], defs)
  end.

Definition chain_option {A} (mk : list A → OrchOption) (l : slice A) : list OrchOption :=
  match elems l with [] => [] | chain => [mk chain] end.

Definition chain_options (rsv : resolved) : list OrchOption :=
  chain_option (λ c, WithPolicyHook (policyChain_Evaluate c)) (g_values (r_policyHooks rsv)) ++
  chain_option (λ c, WithPreLLMFilter (preLLMFilterChain_Filter c)) (g_values (r_preLLMFilters rsv)) ++
  chain_option (λ c, WithPreToolFilter (preToolFilterChain_Filter c)) (g_values (r_preToolFilters rsv)) ++
  chain_option (λ c, WithPostToolFilter (postToolFilterChain_Filter c)) (g_values (r_postToolFilters rsv)).

(** The overrides are checked; the config they give is dropped ([_, err :=]). *)
Definition budget_option (rsv : resolved) : res error (list OrchOption) :=
  match r_budget rsv with
  | None => Ok []
  | Some b =>
    _ ← applyBudgetOverrides (bp_DefaultConfig (sg_value b)) (r_budgetOverrides rsv);
    Ok [WithBudgetGuard (bp_Guard (sg_value b))]
  end.

Definition opt_options {A} (mk : A → list OrchOption) (o : option (single A)) : list OrchOption :=
  match o with None => [] | Some c => mk (sg_value c) end.

Definition runtime_options (rsv : resolved) : list OrchOption :=
  opt_options (λ t, [WithLifecycleEmitter (tp_Emitter t); WithAttributeEnricher (tp_Enricher t)])
    (r_telemetry rsv) ++
  opt_options (λ c, [WithCredentialResolver c]) (unless_nil Resolver_nil (r_credResolver rsv)) ++
  opt_options (λ i, [WithIdentitySigner i]) (unless_nil Signer_nil (r_identity rsv)).

(** From [var opts] to [orchestrator.New]. *)
Definition materialize (rsv : resolved) : IO (Orchestrator * slice ToolDefinition) :=
  tools <- io_lift (tool_option (elems (g_values (r_toolPacks rsv)))) ;;
  bud <- io_lift (budget_option rsv) ;;
  orch <- io_wrap (New (sg_value (r_provider rsv))
            (tools.1 ++ chain_options rsv ++ bud ++ runtime_options rsv))
            (EWrap (Sprintf "orchestrator.New: %w" [])) ;;
  io_ret (orch, tools.2).

(** [Build] after [r.Freeze()]. *)
Definition build_agent (ctx : context) (ns : NormalizedSpec) (m : memo) (r : ComponentRegistry)
    : IO BuiltAgent :=
  es <- expandSkills ctx (ns_Spec ns) r ;;
  es <- resolveOutputContract ctx es r ;;
  rsv <- resolve ctx (es_Spec es) r ;;
  binds <- resolveMCPBindings ctx (es_Spec es) r ;;
  let rsv := stamp rsv es binds in
  om <- materialize rsv ;;
  mm <- buildManifest (ns_Spec ns) rsv ns m es ;;
  io_ret (mkBuiltAgent om.1 mm.1 (r_systemPrompt rsv) om.2 ns mm.2).

(** The registry is shared with the caller: its state after the call is the
    second component. *)
Definition Build (ctx : context) (ns : NormalizedSpec) (m : memo) (r : ComponentRegistry) (w : World)
    : (res error BuiltAgent * World) * ComponentRegistry :=
  let r := Freeze r in (build_agent ctx ns m r w, r).
End build.

(** ** Lemmas: the system prompt *)

(** The first occurrence of each fragment that is not empty. *)
Fixpoint first_occurrences (seen frags : list string) : list string :=
  match frags with
  | [] => []
  | frag :: frags' =>
    if decide (frag = "" ∨ frag ∈ seen) then first_occurrences seen frags'
    else frag :: first_occurrences (frag :: seen) frags'
  end.

Definition nonempty_texts (l : list string) : list string := filter (λ s, s ≠ "") l.

Lemma first_occurrences_ext seen1 seen2 frags :
  (∀ f, f ∈ seen1 ↔ f ∈ seen2) → first_occurrences seen1 frags = first_occurrences seen2 frags.
Proof.
  revert seen1 seen2. induction frags as [|f frags IH]; intros seen1 seen2 Hs; simpl; [done|].
  assert (Hf : f = "" ∨ f ∈ seen1 ↔ f = "" ∨ f ∈ seen2) by (by rewrite Hs).
  rewrite (decide_ext _ _ _ _ Hf). case_decide; [by apply IH|].
  f_equal. apply IH. intros g. by rewrite !elem_of_cons, Hs.
Qed.

Lemma Join_merge a b l sep : Join (a :: b :: l) sep = Join ((a +:+ sep +:+ b) :: l) sep.
Proof. destruct l as [|c l]; cbn [Join]; autorewrite with forge_rw; done. Qed.

Lemma append_fragments_spec seen out frags :
  append_fragments seen out frags =
  Join (nonempty_texts (out :: first_occurrences (elements seen) frags)) blank_line.
Proof.
  revert seen out. induction frags as [|f frags IH]; intros seen out.
  - simpl. unfold nonempty_texts. rewrite filter_cons. case_decide as H; [done|]. by subst.
  - cbn [append_fragments first_occurrences]. case_bool_decide as Hf.
    { rewrite decide_True by auto. apply IH. }
    case_bool_decide as Hs.
    { rewrite decide_True by (right; by apply elem_of_elements). apply IH. }
    rewrite decide_False by (rewrite elem_of_elements; tauto). rewrite IH.
    rewrite (first_occurrences_ext (elements ({[f]} ∪ seen)) (f :: elements seen)).
    2:{ intros g. rewrite elem_of_elements, elem_of_cons, elem_of_elements. set_solver. }
    set (rest := first_occurrences _ frags). unfold nonempty_texts. rewrite !filter_cons.
    rewrite (decide_True (P := f ≠ "")) by done. case_bool_decide as Ho.
    + subst out. rewrite app_nil_l_str, decide_True by done. by rewrite decide_False by tauto.
    + rewrite (decide_True (P := out ≠ "")) by done. rewrite Join_merge, app_assoc_str.
      rewrite decide_True; [done|]. destruct out; [done|]. by rewrite app_cons_str.
Qed.

(** ** Lemmas: the stages of a completed build *)

Section build_lemmas.
Context `{O : Orchestration}.

Lemma tool_option_Ok packs opts defs :
  tool_option packs = Ok (opts, defs) →
  elems defs = packs ≫= (λ p, elems (tp_Definitions p)) ∧
  NoDup (def_Name <$> elems defs) ∧ Forall (λ d, ¬ reserved (def_Name d)) (elems defs) ∧
  (packs = [] ∧ opts = [] ∨
   ∃ router, packs ≠ [] ∧ newToolRouter packs = Ok (router, defs) ∧
     opts = [WithToolInvoker (Invoke router)]).
Proof.
  unfold tool_option. destruct packs as [|p packs].
  { intros [= <- <-]. split_and!; [done|constructor|constructor|by left]. }
  intros ([router defs'] & Hr & [= <- <-])%bind_Ok. apply map_err_Ok in Hr.
  destruct (newToolRouter_routes _ _ _ Hr) as [Hd Hnd Hf _]. simpl in Hd.
  assert (He : (all_entries (p :: packs)).*1 = (p :: packs) ≫= (λ p, elems (tp_Definitions p))).
  { clear. generalize (p :: packs). induction l as [|q l IH]; [done|].
    unfold all_entries in *. rewrite !bind_cons, fmap_app, IH. f_equal.
    unfold pack_entries. rewrite <-list_fmap_compose. by rewrite list_fmap_id. }
  assert (Hn : entry_name <$> all_entries (p :: packs) = def_Name <$> elems defs')
    by (by rewrite Hd, <-list_fmap_compose).
  split_and!; [by rewrite Hd|by rewrite <-Hn| |right; by exists router].
  rewrite Hd. apply Forall_fmap. eapply Forall_impl; [exact Hf|]. done.
Qed.

Lemma resolveOutputContract_Ok ctx es r w es' w' :
  resolveOutputContract ctx es r w = (Ok es', w') →
  es_Spec es' = es_Spec es ∧ es_Skills es' = es_Skills es ∧ es_InjectedBy es' = es_InjectedBy es ∧
  match OutputContract (es_Spec es) with
  | None => es' = es
  | Some oc => ∃ v, es_ResolvedOutputContract es' =
      Some (mkResolvedOutputContract (cr_Ref oc) (cr_Config oc) v)
  end.
Proof.
  unfold resolveOutputContract. destruct (OutputContract (es_Spec es)) as [oc|].
  - intros H. inv_io. split_and!; [done..|]. by eexists.
  - by intros [= <- _].
Qed.

(** Expansion resolves no output contract by itself. *)
Lemma inject_keeps_contract es rs es' :
  inject_skill es rs = Ok es' → es_ResolvedOutputContract es' = es_ResolvedOutputContract es.
Proof.
  unfold inject_skill. intros (es1 & H1 & (es2 & H2 & H3)%bind_Ok)%bind_Ok.
  assert (Hs : ∀ f l a b, (∀ e x e', f e x = Ok e' → es_ResolvedOutputContract e' =
    es_ResolvedOutputContract e) → foldM (E := error) (A := RequiredComponent) f a l = Ok b →
    es_ResolvedOutputContract b = es_ResolvedOutputContract a).
  { intros f l a b Hf Hb. revert Hb. apply (foldM_inv (λ e, es_ResolvedOutputContract e = _)); [|done].
    intros s x s' _ Hs Hx. by rewrite (Hf _ _ _ Hx). }
  apply Hs in H1; [apply Hs in H2|].
  - simpl in H1. rewrite <-H1, <-H2.
    destruct (sk_RequiredOutputContract (rs_Value rs)) as [rc|]; [|by injection H3 as <-].
    by apply injectOutputContract_Ok in H3 as [(-> & _)|[_ ->]].
  - intros e x e'. unfold inject_policy. destruct (injectRequired _ _ _ _ _) as [[? ?]|]; [|done].
    by intros [= <-].
  - intros e x e'. unfold inject_tool. destruct (injectRequired _ _ _ _ _) as [[? ?]|]; [|done].
    by intros [= <-].
Qed.

Lemma expandSkills_no_contract ctx s r w es w' :
  expandSkills ctx s r w = (Ok es, w') → es_ResolvedOutputContract es = None.
Proof.
  intros (rss & _ & Hf)%expandSkills_Ok. revert Hf.
  apply (foldM_inv (λ e, es_ResolvedOutputContract e = None)); [|done].
  intros e rs e' _ He Hi. by rewrite (inject_keeps_contract _ _ _ Hi).
Qed.

(** The ids and configs of the skills and bindings are those of the references. *)
Lemma skill_rows ctx s r w es w' :
  expandSkills ctx s r w = (Ok es, w') →
  (λ rs, (rs_ID rs, rs_Config rs)) <$> elems (es_Skills es) =
  (λ c, (cr_Ref c, cr_Config c)) <$> elems (Skills s).
Proof.
  intros [Hb _]%expandSkills_ok. apply Forall2_fmap_eq. revert Hb. apply loop_run_Forall2.
  intros i ref w1 rs w2 _ Hr. unfold resolve_skill in Hr. inv_io.
  match goal with H : context [isEmptyContribution ?v] |- _ => destruct (isEmptyContribution v) end;
    inv_io; done.
Qed.

Lemma mcp_rows ctx s r w binds w' :
  resolveMCPBindings ctx s r w = (Ok binds, w') →
  (λ b, (rmb_ID b, rmb_Config b)) <$> elems binds =
  (λ c, (cr_Ref c, cr_Config c)) <$> elems (MCPImports s).
Proof.
  unfold resolveMCPBindings. destruct (elems (MCPImports s)) as [|x l]; [by intros [= <- _]|].
  intros (out & w1 & Hl%io_loop_Ok & [= <- _])%io_bind_Ok. apply Forall2_fmap_eq.
  revert Hl. apply loop_run_Forall2.
  intros i ref wi b wi' _ Hb. unfold resolve_mcp_binding in Hb. inv_io. done.
Qed.

(** A completed build went through every stage. *)
Record build_stages ctx ns m r w ba w' (es0 es : ExpandedSpec) (rsv : resolved)
    (binds : slice ResolvedMCPBinding) (opts bud : list OrchOption) : Prop := {
  bs_expand : ∃ w1, expandSkills ctx (ns_Spec ns) r w = (Ok es0, w1);
  bs_contract : ∃ w1 w2, resolveOutputContract ctx es0 r w1 = (Ok es, w2);
  bs_resolve : ∃ w1 w2, resolve ctx (es_Spec es) r w1 = (Ok rsv, w2);
  bs_mcp : ∃ w1 w2, resolveMCPBindings ctx (es_Spec es) r w1 = (Ok binds, w2);
  bs_tools : tool_option (elems (g_values (r_toolPacks rsv))) = Ok (opts, ba_ToolDefs ba);
  bs_budget : budget_option rsv = Ok bud;
  bs_new : ∃ w1 w2, New (sg_value (r_provider rsv))
    (opts ++ chain_options (stamp rsv es binds) ++ bud ++ runtime_options (stamp rsv es binds)) w1 =
    (Ok (ba_Orchestrator ba), w2);
  bs_manifest : ∃ w1, buildManifest (ns_Spec ns) (stamp rsv es binds) ns m es w1 =
    (Ok (ba_Manifest ba, ba_memo ba), w');
  bs_prompt : ba_SystemPrompt ba =
    appendSkillFragments (r_systemPrompt rsv) (elems (es_Skills es));
  bs_ns : ba_NormalizedSpec ba = ns;
}.

Lemma build_agent_stages ctx ns m r w ba w' :
  build_agent ctx ns m r w = (Ok ba, w') →
  ∃ es0 es rsv binds opts bud, build_stages ctx ns m r w ba w' es0 es rsv binds opts bud.
Proof.
  unfold build_agent, materialize. intros H. inv_io.
  match goal with t : (list OrchOption * slice ToolDefinition)%type |- _ => destruct t as [opts defs] end.
  match goal with t : (ManifestRecord * memo)%type |- _ => destruct t as [mf m'] end.
  do 6 eexists. split; simpl; eauto.
Qed.
End build_lemmas.

(** ** What the manifest lists *)

(** Kind, id and config of a manifest entry. *)
Definition row (c : ResolvedComponent) : string * string * config :=
  (mr_Kind c, mr_ID c, mr_Config c).

Definition ref_rows (k : RKind) (l : list ComponentRef) : list (string * string * config) :=
  (λ c, (slug k, cr_Ref c, cr_Config c)) <$> l.

(** The rows a composition calls for, kind by kind.  The configs of the prompt,
    the budget profile and the credential resolver are not recorded. *)
Definition component_rows (s : AgentSpec) : list (string * string * config) :=
  ref_rows KindProvider [Provider s] ++
  ((λ c, (slug KindPromptAsset, cr_Ref c, None)) <$> option_list (pb_System (Prompt s))) ++
  ref_rows KindToolPack (elems (Tools s)) ++
  ref_rows KindPolicyPack (elems (Policies s)) ++
  ref_rows KindPreLLMFilter (elems (fb_PreLLM (Filters s))) ++
  ref_rows KindPreToolFilter (elems (fb_PreTool (Filters s))) ++
  ref_rows KindPostToolFilter (elems (fb_PostTool (Filters s))) ++
  ((λ b, (slug KindBudgetProfile, br_Ref b, None)) <$> option_list (Budget s)) ++
  ref_rows KindTelemetryProfile (option_list (Telemetry s)) ++
  ((λ c, (slug KindCredentialResolver, cd_Ref c, None)) <$> option_list (Credentials s)) ++
  ref_rows KindIdentitySigner (option_list (Identity s)) ++
  ref_rows KindSkill (elems (Skills s)) ++
  ref_rows KindOutputContract (option_list (OutputContract s)) ++
  ref_rows KindMCPBinding (elems (MCPImports s)).

Section manifest_rows.
Context `{O : Orchestration}.

Lemma built_rows {A} k ctx r (desc : Product k → option descriptor) inj ref (cfg : A → config) l l' :
  keyed r → Forall2 (λ c v, built_from k ctx r (ref c) (cfg c) v) l l' →
  row <$> (entry_of k desc inj <$> l') = (λ c, (slug k, ref c, cfg c)) <$> l.
Proof.
  intros Hk Hl. rewrite <-list_fmap_compose. apply Forall2_fmap_eq.
  eapply Forall2_impl; [exact Hl|]. intros c v [Hi Hc]%built_from_id; [|done].
  unfold compose, row. simpl. by rewrite Hi, Hc.
Qed.

Lemma option_built_rows {A} k ctx r (desc : Product k → option descriptor) inj ref (cfg : A → config) o o' :
  keyed r → opt_built k ctx r ref cfg o o' →
  row <$> (entry_of k desc inj <$> option_list o') = (λ c, (slug k, ref c, cfg c)) <$> option_list o.
Proof.
  intros Hk Ho. apply (built_rows k ctx r _ _ _ _ _ _ Hk).
  inversion Ho; subst; simpl; repeat constructor. done.
Qed.

(** Entries made of ids and configs. *)
Lemma entry_rows {A B} k (desc : A → option descriptor) inj (mk : B → single A) (id : B → ID)
    (cfg : B → config) (l : list B) :
  (∀ b, sg_id (mk b) = id b ∧ sg_cfg (mk b) = cfg b) →
  row <$> (entry_of k desc inj <$> (mk <$> l)) =
  (λ ic, (slug k, ic.1, ic.2)) <$> ((λ b, (id b, cfg b)) <$> l).
Proof.
  intros Hm. rewrite <-!list_fmap_compose. apply list_fmap_ext. intros i b _.
  unfold compose, row. simpl. by destruct (Hm b) as [-> ->].
Qed.

Lemma ref_rows_pairs k l :
  (λ ic : ID * config, (slug k, ic.1, ic.2)) <$> ((λ c, (cr_Ref c, cr_Config c)) <$> l) = ref_rows k l.
Proof. unfold ref_rows. by rewrite <-list_fmap_compose. Qed.

(** The manifest of a build lists the groups of the stamped components. *)
Lemma stages_entries ctx ns m r w ba w' es0 es rsv binds opts bud :
  build_stages ctx ns m r w ba w' es0 es rsv binds opts bud →
  ∃ ts ps f1 f2 f3,
    grouped (stamp rsv es binds) ts ps f1 f2 f3 (skill_entries es) (binding_entries binds) ∧
    group_of ts = r_toolPacks rsv ∧
    Forall2 (λ c v, built_from KindToolPack ctx r (cr_Ref c) (cr_Config c) v) (elems (Tools (es_Spec es))) ts ∧
    Forall2 (λ c v, built_from KindPolicyPack ctx r (cr_Ref c) (cr_Config c) v) (elems (Policies (es_Spec es))) ps ∧
    Forall2 (λ c v, built_from KindPreLLMFilter ctx r (cr_Ref c) (cr_Config c) v) (elems (fb_PreLLM (Filters (es_Spec es)))) f1 ∧
    Forall2 (λ c v, built_from KindPreToolFilter ctx r (cr_Ref c) (cr_Config c) v) (elems (fb_PreTool (Filters (es_Spec es)))) f2 ∧
    Forall2 (λ c v, built_from KindPostToolFilter ctx r (cr_Ref c) (cr_Config c) v) (elems (fb_PostTool (Filters (es_Spec es)))) f3 ∧
    mf_Resolved (ba_Manifest ba) =
      Some (resolved_entries (stamp rsv es binds) (Some es) ts ps f1 f2 f3 (skill_entries es)
        (binding_entries binds)) ∧
    mf_Capabilities (ba_Manifest ba) = computeCapabilities (ns_Spec ns) (stamp rsv es binds) (Some es).
Proof.
  intros [_ _ (w1 & w2 & Hr%resolve_from) _ _ _ _ (w3 & Hm) _ _].
  destruct Hr as [_ _ (ts & Ht & Hts) (? & (ps & -> & Hps) & Hp) (f1 & H1 & Hf1) (f2 & H2 & Hf2)
    (f3 & H3 & Hf3) _ _ _ _ _].
  assert (Hg : grouped (stamp rsv es binds) ts ps f1 f2 f3 (skill_entries es) (binding_entries binds))
    by (by split).
  exists ts, ps, f1, f2, f3. split_and!; try done.
  all: unfold buildManifest in Hm; destruct (NormalizedHash _ _); destruct (Now_UTC _);
    rewrite (manifest_resolved_Ok _ _ _ _ _ _ _ _ _ Hg) in Hm; by injection Hm as <-.
Qed.

(** The built credential resolver and identity signer, where there are any, are
    not nil; so it is when no factory of these kinds answers (nil, nil). *)
Definition no_nil (rsv : resolved) : Prop :=
  unless_nil Resolver_nil (r_credResolver rsv) = r_credResolver rsv ∧
  unless_nil Signer_nil (r_identity rsv) = r_identity rsv.

Record builds_no_nil (r : ComponentRegistry) : Prop := {
  no_nil_resolver id f ctx cfg w v w' :
    factories r KindCredentialResolver !! id = Some f →
    f_Build f ctx cfg w = (Ok v, w') → Resolver_nil v = false;
  no_nil_signer id f ctx cfg w v w' :
    factories r KindIdentitySigner !! id = Some f →
    f_Build f ctx cfg w = (Ok v, w') → Signer_nil v = false;
}.

Lemma unless_nil_keep {A} (is_nil : A → bool) (c : single A) :
  is_nil (sg_value c) = false → unless_nil is_nil (Some c) = Some c.
Proof. simpl. by intros ->. Qed.

Lemma builds_no_nil_resolved ctx r s rsv :
  builds_no_nil r → resolved_from ctx r s rsv → no_nil rsv.
Proof.
  intros [Hc Hi] [_ _ _ _ _ _ _ _ _ _ Hcred Hid]. split.
  - inversion Hcred as [x v (f & w & w' & Hf%Lookup_Ok & Hb & _) Hx Hv|]; [|done].
    apply unless_nil_keep. exact (Hc _ _ _ _ _ _ _ Hf Hb).
  - inversion Hid as [x v (f & w & w' & Hf%Lookup_Ok & Hb & _) Hx Hv|]; [|done].
    apply unless_nil_keep. exact (Hi _ _ _ _ _ _ _ Hf Hb).
Qed.

Lemma stages_rows ctx ns m r w ba w' es0 es rsv binds opts bud :
  keyed r → no_nil rsv → build_stages ctx ns m r w ba w' es0 es rsv binds opts bud →
  row <$> elems (mf_Resolved (ba_Manifest ba)) = component_rows (es_Spec es).
Proof.
  intros Hk [Hnc Hni] Hs. destruct (stages_entries _ _ _ _ _ _ _ _ _ _ _ _ _ Hs)
    as (ts & ps & f1 & f2 & f3 & _ & _ & Hts & Hps & Hf1 & Hf2 & Hf3 & -> & _).
  destruct Hs as [[we Hes] (wc & wc' & Hc) (w1 & w2 & Hr%resolve_from) (w3 & w4 & Hb) _ _ _ _ _ _].
  assert (Hnoc := expandSkills_no_contract _ _ _ _ _ _ Hes). assert (Hok := expandSkills_ok _ _ _ _ _ _ Hes).
  apply skill_rows in Hes. apply mcp_rows in Hb. destruct Hok as [_ [Hspec _ _ _]].
  apply resolveOutputContract_Ok in Hc as (He1 & He2 & _ & Hoc).
  destruct Hr as [Hp (pc & Hpc & Hprompt) _ _ _ _ _ Hbud _ Htel Hcred Hid].
  apply (built_from_id _ _ _ _ _ _ Hk) in Hp as [Hpi Hpcfg], Hprompt as [Hpr _]. simpl in Hpr.
  assert (Hskills : Skills (es_Spec es) = Skills (ns_Spec ns)) by (by rewrite He1, Hspec).
  unfold resolved_entries, component_rows. simpl. rewrite Hnc, Hni, !fmap_app, Hpc. simpl.
  apply (f_equal2 cons); [exact (f_equal2 (λ i c, (slug KindProvider, i, c)) Hpi Hpcfg)|].
  apply (f_equal2 cons); [by rewrite Hpr|].
  apply (f_equal2 app); [exact (built_rows _ _ _ _ _ _ _ _ _ Hk Hts)|].
  apply (f_equal2 app); [exact (built_rows _ _ _ _ _ _ _ _ _ Hk Hps)|].
  apply (f_equal2 app); [exact (built_rows _ _ _ _ _ _ _ _ _ Hk Hf1)|].
  apply (f_equal2 app); [exact (built_rows _ _ _ _ _ _ _ _ _ Hk Hf2)|].
  apply (f_equal2 app); [exact (built_rows _ _ _ _ _ _ _ _ _ Hk Hf3)|].
  apply (f_equal2 app); [exact (option_built_rows _ _ _ _ _ _ _ _ _ Hk Hbud)|].
  apply (f_equal2 app); [exact (option_built_rows _ _ _ _ _ _ _ _ _ Hk Htel)|].
  apply (f_equal2 app); [exact (option_built_rows _ _ _ _ _ _ _ _ _ Hk Hcred)|].
  apply (f_equal2 app); [exact (option_built_rows _ _ _ _ _ _ _ _ _ Hk Hid)|].
  unfold skill_entries, binding_entries.
  rewrite (entry_rows _ _ _ _ rs_ID rs_Config) by done.
  rewrite (entry_rows _ _ _ _ rmb_ID rmb_Config) by done.
  rewrite He2, Hes, Hb, !ref_rows_pairs, Hskills.
  apply (f_equal2 app); [done|]. apply (f_equal2 app); [|done]. unfold contract_entry.
  destruct (OutputContract (es_Spec es0)) as [oc|] eqn:Ho.
  - destruct Hoc as [v ->]. by rewrite He1, Ho.
  - subst es. by rewrite Hnoc, Ho.
Qed.
End manifest_rows.

(** ** Which kinds a composition has *)

Section kinds.
Context `{O : Orchestration}.

(** The composition names a component of the kind. *)
Definition kind_declared (s : AgentSpec) (k : RKind) : bool :=
  match k with
  | KindProvider => true
  | KindPromptAsset => non_nil (pb_System (Prompt s))
  | KindToolPack => nonempty_slice (Tools s)
  | KindPolicyPack => nonempty_slice (Policies s)
  | KindPreLLMFilter => nonempty_slice (fb_PreLLM (Filters s))
  | KindPreToolFilter => nonempty_slice (fb_PreTool (Filters s))
  | KindPostToolFilter => nonempty_slice (fb_PostTool (Filters s))
  | KindBudgetProfile => non_nil (Budget s)
  | KindTelemetryProfile => non_nil (Telemetry s)
  | KindCredentialResolver => non_nil (Credentials s)
  | KindIdentitySigner => non_nil (Identity s)
  | KindSkill => nonempty_slice (Skills s)
  | KindOutputContract => non_nil (OutputContract s)
  | KindMCPBinding => nonempty_slice (MCPImports s)
  end.

Definition optional_kind (k : RKind) : bool :=
  match k with
  | KindBudgetProfile | KindTelemetryProfile | KindCredentialResolver | KindIdentitySigner
  | KindSkill | KindOutputContract | KindMCPBinding => true
  | _ => false
  end.

Lemma slug_inj k1 k2 : slug k1 = slug k2 → k1 = k2.
Proof. by destruct k1, k2. Qed.

Lemma elem_present_if x c k : x ∈ present_if c k ↔ x = slug k ∧ c = true.
Proof. unfold present_if. destruct c; rewrite ?list_elem_of_singleton; set_solver. Qed.

Lemma elem_kind_fmap {A} x k (f : A → string * string * config) l :
  (∀ a, (f a).1.1 = slug k) → x ∈ ((λ r, r.1.1) <$> (f <$> l)) ↔ x = slug k ∧ l ≠ [].
Proof.
  intros Hf. rewrite <-list_fmap_compose, list_elem_of_fmap. unfold compose. split.
  - intros (a & -> & Hin). split; [apply Hf|]. by destruct l; [apply elem_of_nil in Hin|].
  - intros [-> Hl]. destruct l as [|a l]; [done|]. exists a. rewrite Hf. split; [done|left].
Qed.

Lemma nonempty_slice_true {A} (l : slice A) : nonempty_slice l = true ↔ elems l ≠ [].
Proof. unfold nonempty_slice. by destruct (elems l). Qed.
Lemma non_nil_true {A} (o : option A) : non_nil o = true ↔ option_list o ≠ [].
Proof. by destruct o. Qed.

(** The kinds of the rows of a composition are those it declares. *)
Lemma component_rows_kinds s x :
  x ∈ ((λ r, r.1.1) <$> component_rows s) ↔ ∃ k, x = slug k ∧ kind_declared s k = true.
Proof.
  unfold component_rows, ref_rows. rewrite !fmap_app, !elem_of_app.
  rewrite !(elem_kind_fmap x _) by done. rewrite <-!nonempty_slice_true, <-!non_nil_true. split.
  - intros H. repeat (destruct H as [H|H]); destruct H as [-> H];
      match goal with |- ∃ k, slug ?k0 = _ ∧ _ => by exists k0 end.
  - intros (k & -> & Hk). destruct k; simpl in Hk; try tauto. by left.
Qed.

(** What [computeCapabilities] reads of its arguments, kind by kind. *)
Definition kind_present (s : AgentSpec) (rsv : resolved) (es : ExpandedSpec) (k : RKind) : bool :=
  match k with
  | KindProvider | KindPromptAsset => true
  | KindToolPack => nonempty_slice (g_ids (r_toolPacks rsv))
  | KindPolicyPack => nonempty_slice (g_ids (r_policyHooks rsv))
  | KindPreLLMFilter => nonempty_slice (g_ids (r_preLLMFilters rsv))
  | KindPreToolFilter => nonempty_slice (g_ids (r_preToolFilters rsv))
  | KindPostToolFilter => nonempty_slice (g_ids (r_postToolFilters rsv))
  | KindOutputContract => non_nil (OutputContract (es_Spec es))
  | k => kind_declared s k
  end.

Lemma computeCapabilities_spec s rsv es :
  let c := computeCapabilities s rsv (Some es) in
  Sorted String.le (Present c) ∧
  (∀ x, x ∈ Present c ↔ ∃ k, x = slug k ∧ kind_present s rsv es k = true) ∧
  (∀ x, x ∈ elems (Skipped c) ↔ ∃ k, x = mkCapabilitySkip (slug k) "not_specified" ∧
     optional_kind k = true ∧ kind_present s rsv es k = false).
Proof.
  intros c. subst c. split_and!; [apply sort_strings_sorted| |]; intros x.
  - simpl. rewrite sort_strings_perm. rewrite !elem_of_cons, !elem_of_app, !elem_present_if, elem_of_nil.
    split.
    + intros H. repeat (destruct H as [H|H]); try done;
        try match type of H with _ ∧ _ => destruct H as [H Hc] end; subst x;
        first [by exists KindProvider | by exists KindPromptAsset
          | match goal with |- ∃ k, slug ?k0 = _ ∧ _ => by exists k0 end].
    + intros (k & -> & Hk). destruct k; simpl in *; tauto.
  - unfold computeCapabilities. cbn [Skipped]. rewrite elems_append_slice.
    cbn [mbind list_bind fst snd foldr app]. rewrite !elem_of_app, elem_of_nil.
    assert (Hs : ∀ c k, x ∈ skipped_unless c k ↔ x = mkCapabilitySkip (slug k) "not_specified" ∧ c = false).
    { intros c k. unfold skipped_unless. destruct c; set_solver. }
    rewrite !Hs. change (elems None) with (@nil CapabilitySkip). rewrite elem_of_nil. split.
    + intros H. repeat (destruct H as [H|H]); try done; destruct H as [-> Hc];
        match goal with |- ∃ k, mkCapabilitySkip (slug ?k0) _ = _ ∧ _ => by exists k0 end.
    + intros (k & -> & Ho & Hk). destruct k; simpl in *; try done; tauto.
Qed.
End kinds.

(** ** Properties *)

Section build_properties.
Context `{O : Orchestration}.

Lemma reachable_freeze_keyed r : reachable r → keyed (Freeze r).
Proof. intros Hr%reachable_keyed k id f. apply Hr. Qed.

Lemma stages_no_nil ctx ns m r w ba w' es0 es rsv binds opts bud :
  builds_no_nil r → build_stages ctx ns m (Freeze r) w ba w' es0 es rsv binds opts bud → no_nil rsv.
Proof.
  intros Hn [_ _ (? & ? & Hr%resolve_from) _ _ _ _ _ _ _]. eapply builds_no_nil_resolved; [|exact Hr].
  destruct Hn. by split.
Qed.

(** The composition the capabilities are computed from is the expanded one. *)
Lemma stages_kinds ctx ns m r w ba w' es0 es rsv binds opts bud k :
  keyed r → build_stages ctx ns m r w ba w' es0 es rsv binds opts bud →
  kind_present (ns_Spec ns) (stamp rsv es binds) es k = kind_declared (es_Spec es) k.
Proof.
  intros Hk [(we & He) (? & ? & Hc) (? & ? & Hr%resolve_from) _ _ _ _ _ _ _].
  apply expandSkills_ok in He as [_ [Hspec _ _ _]].
  apply resolveOutputContract_Ok in Hc as (Hc & _). rewrite <-Hc in Hspec.
  destruct Hr as [_ (pc & Hpc & _) Ht (packs & Hp & Hpm) H1 H2 H3 _ _ _ _ _].
  assert (Hg : ∀ k refs (g : group (Product k)), group_built k ctx r refs g →
    nonempty_slice (g_ids g) = nonempty_slice refs).
  { intros k' refs g (Hi & _)%group_built_ids; [|done]. unfold nonempty_slice. rewrite Hi.
    by destruct (elems refs). }
  destruct k; simpl; try done;
    try (by rewrite Hspec); try (by rewrite Hpc);
    try (exact (Hg _ _ _ Ht)); try (exact (Hg _ _ _ H1)); try (exact (Hg _ _ _ H2));
    try (exact (Hg _ _ _ H3)).
  rewrite Hpm. exact (Hg _ _ _ Hp).
Qed.

Lemma Build_stages ctx ns m r w ba w' r' :
  Build ctx ns m r w = ((Ok ba, w'), r') →
  ∃ es0 es rsv binds opts bud, r' = Freeze r ∧
    build_stages ctx ns m (Freeze r) w ba w' es0 es rsv binds opts bud.
Proof.
  unfold Build. intros [= H <-].
  destruct (build_agent_stages _ _ _ _ _ _ _ H) as (es0 & es & rsv & binds & opts & bud & Hs).
  by exists es0, es, rsv, binds, opts, bud.
Qed.

(** The header of the manifest. *)
Lemma Build_header ctx ns m r w ba w' r' :
  Build ctx ns m r w = ((Ok ba, w'), r') →
  ba_NormalizedSpec ba = ns ∧
  mf_SpecID (ba_Manifest ba) = md_ID (Meta (ns_Spec ns)) ∧
  mf_SpecVersion (ba_Manifest ba) = md_Version (Meta (ns_Spec ns)) ∧
  elems (mf_ExtendsChain (ba_Manifest ba)) = ns_ExtendsChain ns ∧
  elems (mf_Overlays (ba_Manifest ba)) =
    (λ o, mkOverlayRecord (oa_Name o) (oa_File o)) <$> ns_Overlays ns.
Proof.
  intros (es0 & es & rsv & binds & opts & bud & _ & Hs)%Build_stages.
  destruct Hs as [_ _ _ _ _ _ _ (w3 & Hm) _ Hns]. unfold buildManifest in Hm.
  destruct (NormalizedHash _ _), (Now_UTC _), (manifest_resolved _ _); [|done].
  injection Hm as <- _.
  split_and!; [done|done|done|exact (elems_append_slice None _)|exact (elems_append_slice None _)].
Qed.

(** The router of the tool packs, where there is one. *)
Definition router_of (packs : list ToolPack) (defs : slice ToolDefinition)
    (router : option toolRouter) : Prop :=
  match router with
  | None => packs = [] ∧ defs = None
  | Some router => packs ≠ [] ∧ newToolRouter packs = Ok (router, defs)
  end.

(** The members of a group, where there are any. *)
Definition members {A} (g : group A) : option (list A) :=
  match elems (g_values g) with [] => None | l => Some l end.

(** What the kernel is told about a resolved agent: the table of the options, in
    the order they are passed (a later option overrides an earlier one), each
    there when its component is, and is not nil. *)
Definition wiring (rsv : resolved) (router : option toolRouter) : list OrchOption :=
  omap id
    [(λ t, WithToolInvoker (Invoke t)) <$> router;
     (λ c, WithPolicyHook (policyChain_Evaluate c)) <$> members (r_policyHooks rsv);
     (λ c, WithPreLLMFilter (preLLMFilterChain_Filter c)) <$> members (r_preLLMFilters rsv);
     (λ c, WithPreToolFilter (preToolFilterChain_Filter c)) <$> members (r_preToolFilters rsv);
     (λ c, WithPostToolFilter (postToolFilterChain_Filter c)) <$> members (r_postToolFilters rsv);
     (λ b, WithBudgetGuard (bp_Guard (sg_value b))) <$> r_budget rsv;
     (λ t, WithLifecycleEmitter (tp_Emitter (sg_value t))) <$> r_telemetry rsv;
     (λ t, WithAttributeEnricher (tp_Enricher (sg_value t))) <$> r_telemetry rsv;
     c ← r_credResolver rsv;
       if Resolver_nil (sg_value c) then None else Some (WithCredentialResolver (sg_value c));
     i ← r_identity rsv;
       if Signer_nil (sg_value i) then None else Some (WithIdentitySigner (sg_value i))].

Lemma omap_id_cons {A} (o : option A) l : omap id (o :: l) = option_list o ++ omap id l.
Proof. by destruct o. Qed.

Lemma chain_option_members {A} (mk : list A → OrchOption) (g : group A) :
  chain_option mk (g_values g) = option_list (mk <$> members g).
Proof. unfold chain_option, members. by destruct (elems (g_values g)). Qed.

Lemma opt_options_one {A} (mk : A → OrchOption) (o : option (single A)) :
  opt_options (λ c, [mk c]) o = option_list ((λ s, mk (sg_value s)) <$> o).
Proof. by destruct o. Qed.

Lemma options_wiring rsv es binds opts bud defs :
  tool_option (elems (g_values (r_toolPacks rsv))) = Ok (opts, defs) → budget_option rsv = Ok bud →
  ∃ router, router_of (elems (g_values (r_toolPacks rsv))) defs router ∧
    opts ++ chain_options (stamp rsv es binds) ++ bud ++ runtime_options (stamp rsv es binds) =
    wiring rsv router.
Proof.
  intros Ht Hb.
  assert (∃ router, router_of (elems (g_values (r_toolPacks rsv))) defs router ∧
    opts = option_list ((λ t, WithToolInvoker (Invoke t)) <$> router)) as (router & Hr & ->).
  { unfold tool_option in Ht. destruct (elems (g_values (r_toolPacks rsv))) as [|p packs].
    - injection Ht as <- <-. by exists None.
    - apply bind_Ok in Ht as ([router defs'] & Hr%map_err_Ok & [= <- <-]). by exists (Some router). }
  assert (bud = option_list ((λ b, WithBudgetGuard (bp_Guard (sg_value b))) <$> r_budget rsv)) as ->.
  { unfold budget_option in Hb. destruct (r_budget rsv); [|by injection Hb as <-].
    by apply bind_Ok in Hb as (? & _ & [= <-]). }
  exists router. split; [done|]. unfold wiring, chain_options, runtime_options.
  rewrite !omap_id_cons, !chain_option_members, !opt_options_one, <-!(assoc_L (++)). simpl.
  rewrite app_nil_r.
  assert (Hn : ∀ A (is_nil : A → bool) (mk : A → OrchOption) o,
    option_list ((λ s, mk (sg_value s)) <$> unless_nil is_nil o) =
    option_list (c ← o; if is_nil (sg_value c) then None else Some (mk (sg_value c)))).
  { intros A is_nil mk [c|]; [|done]. simpl. by destruct (is_nil (sg_value c)). }
  rewrite !Hn. by destruct (r_telemetry rsv).
Qed.

(** C3: a completed build left the registry frozen and wired the agent from the
    expanded composition: the kernel orchestrator was created from the resolved
    provider with exactly the options of the parts that are present, in the fixed
    order (tool router, policy hooks, the three filter chains, budget guard,
    emitter, enricher, credential resolver, identity signer); the tool definitions
    are those of all tool packs, with distinct names outside the reserved prefix;
    the system prompt is the prompt asset followed by the distinct skill fragments,
    separated by blank lines. *)
Theorem Build_wires ctx ns m r w ba w' r' :
  Build ctx ns m r w = ((Ok ba, w'), r') →
  r' = Freeze r ∧ ba_NormalizedSpec ba = ns ∧
  ∃ es rsv router w1 w2 w3,
    expandSkills ctx (ns_Spec ns) r' w = (Ok es, w1) ∧ resolved_from ctx r' (es_Spec es) rsv ∧
    New (sg_value (r_provider rsv)) (wiring rsv router) w2 = (Ok (ba_Orchestrator ba), w3) ∧
    router_of (elems (g_values (r_toolPacks rsv))) (ba_ToolDefs ba) router ∧
    elems (ba_ToolDefs ba) =
      elems (g_values (r_toolPacks rsv)) ≫= (λ p, elems (tp_Definitions p)) ∧
    NoDup (def_Name <$> elems (ba_ToolDefs ba)) ∧
    Forall (λ d, ¬ reserved (def_Name d)) (elems (ba_ToolDefs ba)) ∧
    ba_SystemPrompt ba = Join (nonempty_texts (r_systemPrompt rsv ::
      first_occurrences [] ((λ rs, sk_PromptFragment (rs_Value rs)) <$> elems (es_Skills es)))) blank_line.
Proof.
  intros (es0 & es & rsv & binds & opts & bud & -> & Hs)%Build_stages. split; [done|].
  destruct Hs as [(w1 & He) (? & ? & Hc) (? & ? & Hr%resolve_from) _ Ht Hb (w2 & w3 & Hn) _ Hp Hns].
  split; [done|]. apply resolveOutputContract_Ok in Hc as (Hc1 & Hc2 & _ & _). rewrite Hc1 in Hr.
  destruct (tool_option_Ok _ _ _ Ht) as (Hd & Hnd & Hres & _).
  destruct (options_wiring _ es binds _ _ _ Ht Hb) as (router & Hro & Hw). rewrite Hw in Hn.
  eexists es0, rsv, router, w1, w2, w3. split_and!; try done.
  rewrite Hp. unfold appendSkillFragments. by rewrite append_fragments_spec, Hc2.
Qed.

(** C6: the manifest lists exactly the components of the expanded composition, kind
    by kind and in order, each with its reference and config (the prompt, budget
    and credential entries carry no config), when no credential-resolver or
    identity-signer factory answers a nil value without an error: a nil one would
    not be listed. *)
Theorem manifest_lists_composition ctx ns m r w ba w' r' :
  reachable r → builds_no_nil r → Build ctx ns m r w = ((Ok ba, w'), r') →
  ∃ es w1, expandSkills ctx (ns_Spec ns) (Freeze r) w = (Ok es, w1) ∧
    row <$> elems (mf_Resolved (ba_Manifest ba)) = component_rows (es_Spec es).
Proof.
  intros Hk%reachable_freeze_keyed Hnil (es0 & es & rsv & binds & opts & bud & -> & Hs)%Build_stages.
  assert (Hrows := stages_rows _ _ _ _ _ _ _ _ _ _ _ _ _ Hk (stages_no_nil _ _ _ _ _ _ _ _ _ _ _ _ _ Hnil Hs) Hs).
  destruct Hs as [(w1 & He) (? & ? & Hc) _ _ _ _ _ _ _ _].
  apply resolveOutputContract_Ok in Hc as (Hc & _). exists es0, w1. by rewrite <-Hc.
Qed.

(** C19: the capabilities of a manifest agree with its component list: the sorted
    present kinds are exactly the kinds of the listed components, and the skipped
    kinds are exactly the optional kinds without a component (again when no
    credential-resolver or identity-signer factory answers a nil value). *)
Theorem capabilities_match_manifest ctx ns m r w ba w' r' :
  reachable r → builds_no_nil r → Build ctx ns m r w = ((Ok ba, w'), r') →
  let mf := ba_Manifest ba in
  Sorted String.le (Present (mf_Capabilities mf)) ∧
  (∀ x, x ∈ Present (mf_Capabilities mf) ↔ x ∈ (mr_Kind <$> elems (mf_Resolved mf))) ∧
  (∀ x, x ∈ elems (Skipped (mf_Capabilities mf)) ↔
     ∃ k, x = mkCapabilitySkip (slug k) "not_specified" ∧ optional_kind k = true ∧
       slug k ∉ (mr_Kind <$> elems (mf_Resolved mf))).
Proof.
  intros Hk%reachable_freeze_keyed Hnil (es0 & es & rsv & binds & opts & bud & -> & Hs)%Build_stages.
  assert (Hrows := stages_rows _ _ _ _ _ _ _ _ _ _ _ _ _ Hk (stages_no_nil _ _ _ _ _ _ _ _ _ _ _ _ _ Hnil Hs) Hs).
  destruct (stages_entries _ _ _ _ _ _ _ _ _ _ _ _ _ Hs)
    as (_ & _ & _ & _ & _ & _ & _ & _ & _ & _ & _ & _ & _ & Hcap).
  assert (Hkinds : ∀ x, x ∈ (mr_Kind <$> elems (mf_Resolved (ba_Manifest ba))) ↔
    ∃ k, x = slug k ∧ kind_declared (es_Spec es) k = true).
  { intros x. rewrite <-component_rows_kinds, <-Hrows, <-list_fmap_compose. done. }
  assert (Hsame : ∀ k, kind_present (ns_Spec ns) (stamp rsv es binds) es k = kind_declared (es_Spec es) k)
    by (intros k; eapply stages_kinds; eauto).
  simpl. rewrite Hcap.
  destruct (computeCapabilities_spec (ns_Spec ns) (stamp rsv es binds) es) as (Hsort & Hp & Hsk).
  split_and!; [done| |].
  - intros x. rewrite Hp, Hkinds. by setoid_rewrite Hsame.
  - intros x. rewrite Hsk. setoid_rewrite Hkinds. setoid_rewrite Hsame.
    split; intros (k & -> & Ho & Hn); exists k; (split; [done|split; [done|]]).
    + intros (k' & ->%slug_inj & Hk'). congruence.
    + apply not_true_is_false. intros Hd. by destruct Hn; exists k.
Qed.

(** The skill a manifest entry names, by the kind of the entry. *)
Definition expected_injector (s : AgentSpec) (rss : list ResolvedSkill) (k : RKind) (id : ID) : string :=
  match k with
  | KindToolPack =>
    default "" (injector (introduced_to (elems (Tools s)) (tool_requirements rss)) id)
  | KindPolicyPack =>
    default "" (injector (introduced_to (elems (Policies s)) (policy_requirements rss)) id)
  | KindOutputContract =>
    default "" (injector (introduced_to (option_list (OutputContract s)) (contract_requirements rss)) id)
  | _ => ""
  end.

Lemma lookupInjector_slot es label declared cur qs id :
  slot_ok label declared cur qs (es_InjectedBy es) →
  lookupInjector (Some es) label id = default "" (injector (introduced_to declared qs) id).
Proof. intros [_ Hi _ _]. unfold lookupInjector. by rewrite <-Hi. Qed.

(** a manifest entry names the first skill that required the component, and no
    skill when the author declared it or when its kind cannot be injected. *)
Theorem manifest_attributes_injection ctx ns m r w ba w' r' c :
  Build ctx ns m r w = ((Ok ba, w'), r') → c ∈ elems (mf_Resolved (ba_Manifest ba)) →
  ∃ es w1 k, expandSkills ctx (ns_Spec ns) (Freeze r) w = (Ok es, w1) ∧ mr_Kind c = slug k ∧
    mr_InjectedBySkill c = expected_injector (ns_Spec ns) (elems (es_Skills es)) k (mr_ID c).
Proof.
  intros (es0 & es & rsv & binds & opts & bud & -> & Hs)%Build_stages Hin.
  destruct (stages_entries _ _ _ _ _ _ _ _ _ _ _ _ _ Hs)
    as (ts & ps & f1 & f2 & f3 & _ & _ & _ & _ & _ & _ & _ & Hm & _). rewrite Hm in Hin.
  destruct Hs as [(w1 & He) (? & ? & Hc) _ _ _ _ _ _ _ _]. exists es0, w1.
  apply resolveOutputContract_Ok in Hc as (_ & _ & Hinj & _).
  assert (Hok := He). apply expandSkills_ok in Hok as [_ [_ Ht Hp Ho]]. rewrite <-Hinj in Ht, Hp, Ho.
  simpl in Hin. unfold resolved_entries in Hin. simpl in Hin.
  rewrite !elem_of_cons, !elem_of_app, !list_elem_of_fmap in Hin.
  destruct Hin as [->|[->|Hin]]; [by exists KindProvider|by exists KindPromptAsset|].
  repeat (destruct Hin as [Hin|Hin]); destruct Hin as (entry & -> & _);
    match goal with |- context [entry_of ?k0 _ _ _] => exists k0 end;
    (split; [done|split; [done|]]);
    first [reflexivity | exact (lookupInjector_slot _ _ _ _ _ _ Ht)
      | exact (lookupInjector_slot _ _ _ _ _ _ Hp) | exact (lookupInjector_slot _ _ _ _ _ _ Ho)].
Qed.

(** the hashes of the manifest are those of the normalised and of the expanded
    spec; when a config cannot be marshalled the build still completes and the
    manifest carries an empty hash. *)
Theorem manifest_hashes ctx ns r w ba w' r' :
  Build ctx ns fresh_memo r w = ((Ok ba, w'), r') →
  ∃ es w1, expandSkills ctx (ns_Spec ns) (Freeze r) w = (Ok es, w1) ∧
    mf_NormalizedHash (ba_Manifest ba) = hash_or_empty (hash_of (ns_Spec ns)) ∧
    mf_ExpandedHash (ba_Manifest ba) =
      (if nonempty_slice (Skills (ns_Spec ns)) then hash_or_empty (hash_of (es_Spec es)) else "") ∧
    NormalizedHash (ns_Spec (ba_NormalizedSpec ba)) (ba_memo ba) = (hash_of (ns_Spec ns), ba_memo ba).
Proof.
  intros (es0 & es & rsv & binds & opts & bud & -> & Hs)%Build_stages.
  destruct Hs as [(w1 & He) (? & ? & Hc) _ _ _ _ _ (w3 & Hm) _ Hns]. exists es0, w1.
  split; [done|]. apply resolveOutputContract_Ok in Hc as (Hc & _). rewrite Hns.
  unfold buildManifest in Hm. unfold hash_of, computeExpandedHash in *.
  destruct (NormalizedHash (ns_Spec ns) fresh_memo) as [h m'] eqn:Hh. destruct (Now_UTC w3).
  destruct (manifest_resolved _ _); [|done]. injection Hm as <- <-.
  rewrite <-Hc. split_and!; [done|done|]. unfold NormalizedHash in Hh. simpl in Hh.
  injection Hh as <- <-. done.
Qed.

(** The components of [rsv] with other budget overrides. *)
Definition with_overrides (ov : BudgetOverrides) (rsv : resolved) : resolved :=
  mkResolved (r_provider rsv) (r_systemPrompt rsv) (r_promptID rsv) (r_toolPacks rsv)
    (r_policyHooks rsv) (r_preLLMFilters rsv) (r_preToolFilters rsv) (r_postToolFilters rsv)
    (r_budget rsv) ov (r_telemetry rsv) (r_credResolver rsv) (r_identity rsv) (r_skills rsv)
    (r_outputContract rsv) (r_mcpBindings rsv) (r_specSnapshot rsv).

(** budget overrides only accept or refuse a build: any two overrides that are
    accepted give the same orchestrator, so an accepted override never reaches the
    kernel. *)
Theorem accepted_overrides_have_no_effect rsv b ov1 ov2 c1 c2 :
  r_budget rsv = Some b →
  applyBudgetOverrides (bp_DefaultConfig (sg_value b)) ov1 = Ok c1 →
  applyBudgetOverrides (bp_DefaultConfig (sg_value b)) ov2 = Ok c2 →
  ∀ w, materialize (with_overrides ov1 rsv) w = materialize (with_overrides ov2 rsv) w.
Proof.
  intros Hb H1 H2 w. unfold materialize, budget_option. simpl. by rewrite Hb, H1, H2.
Qed.
End build_properties.

(** ** Witnesses

    An orchestrator that records what it was created with, and the skilled spec of
    the expansion file with a registry that holds all its components. *)
Inductive sample_option :=
| SO_Tool (i : @Invoker sample_kernel) | SO_Policy (h : @PolicyHook sample_kernel)
| SO_PreLLM (f : @PreLLMFilter sample_kernel) | SO_PreTool (f : @PreToolFilter sample_kernel)
| SO_PostTool (f : @PostToolFilter sample_kernel) | SO_Unit (name : string).

Definition sample_orchestration : @Orchestration sample_kernel :=
  Build_Orchestration sample_kernel (string * list sample_option) sample_option
    SO_Tool SO_Policy SO_PreLLM SO_PreTool SO_PostTool (λ _, SO_Unit "guard") (λ _, SO_Unit "emitter")
    (λ _, SO_Unit "enricher") (λ _, SO_Unit "resolver") (λ _, SO_Unit "signer")
    (λ p opts, io_ret (p, opts)) unit string (λ o _ _, io_ret o.1).

Definition sample_contract : @Factory sample_kernel KindOutputContract :=
  mkFactory (k := KindOutputContract) (K := sample_kernel) "outputcontract.json@1.0.0" ""
    (λ _ _, io_ret (mkOutputContract None (mkOutputContractDescriptor "json" "" ""))).

Definition sample_budget : @Factory sample_kernel KindBudgetProfile :=
  mkFactory (k := KindBudgetProfile) (K := sample_kernel) "budgetprofile.x@1.0.0" ""
    (λ _ _, io_ret (mkBudgetProfile (K := sample_kernel) tt (30000000000, 0, 0, 24, 0)%Z)).

Definition full_registry : @ComponentRegistry sample_kernel :=
  (Register KindBudgetProfile sample_budget
   (Register KindOutputContract sample_contract
    (Register KindPolicyPack (sample_policypack "policypack.pii@1.0.0")
     (Register KindToolPack (sample_toolpack "toolpack.http-get@1.0.0" "http_get")
      (Register KindToolPack (sample_toolpack "toolpack.calc@2.0.0" "calc")
       (Register KindPromptAsset sample_prompt
        (Register KindProvider sample_provider skill_registry).2).2).2).2).2).2).2.

Lemma full_registry_reachable : reachable full_registry.
Proof. unfold reachable, full_registry, skill_registry. repeat (eapply rtc_r; [|constructor]). constructor. Qed.

Lemma full_registry_no_nil : builds_no_nil full_registry.
Proof.
  split; intros id f ctx cfg w v w' Hf; vm_compute in Hf; discriminate Hf.
Qed.

Definition sample_ns : NormalizedSpec :=
  mkNormalizedSpec skilled_spec ["acme.base@1.0.0"] [mkOverlayAttribution "prod" "prod.yaml"]
    initialProvenance.

(** The outcome of a build of [sample_ns], which completes. *)
Lemma sample_build_run (ns : NormalizedSpec) (r : ComponentRegistry) :
  is_ok (Build (O := sample_orchestration) Background ns fresh_memo r []).1.1 = true →
  ∃ ba w' r', Build (O := sample_orchestration) Background ns fresh_memo r [] =
    ((Ok ba, w'), r').
Proof.
  destruct (Build _ _ _ _ _) as [[[ba|e] w'] r']; [by eauto|done].
Qed.

Lemma sample_ns_builds :
  is_ok (Build (O := sample_orchestration) Background sample_ns fresh_memo full_registry []).1.1 = true.
Proof. vm_compute. reflexivity. Qed.

Definition option_name (o : sample_option) : string :=
  match o with
  | SO_Tool _ => "tools" | SO_Policy _ => "policies" | SO_PreLLM _ => "prellm"
  | SO_PreTool _ => "pretool" | SO_PostTool _ => "posttool" | SO_Unit name => name
  end.

Definition sample_telemetry : @Factory sample_kernel KindTelemetryProfile :=
  mkFactory (k := KindTelemetryProfile) (K := sample_kernel) "telemetryprofile.x@1.0.0" ""
    (λ _ _, io_ret (mkTelemetryProfile (K := sample_kernel) tt tt)).

(** The sample composition with a budget and a telemetry profile. *)
Definition wired_spec : AgentSpec :=
  let s := skilled_spec in
  mkAgentSpec (APIVersion s) (Kind s) (Meta s) (Provider s) (Prompt s) (Tools s) (Policies s)
    (Filters s) (Some (mkBudgetRef "budgetprofile.x@1.0.0" (mkBudgetOverrides "" 0 0 0 0)))
    (Some (mkComponentRef "telemetryprofile.x@1.0.0" None)) (Credentials s) (Identity s) (Extends s)
    (Skills s) (MCPImports s) (OutputContract s).

Definition wired_ns : NormalizedSpec := mkNormalizedSpec wired_spec [] [] initialProvenance.

Definition wired_registry : @ComponentRegistry sample_kernel :=
  (Register KindTelemetryProfile sample_telemetry full_registry).2.

Definition wired_expanded : ExpandedSpec :=
  match (expandSkills (K := sample_kernel) Background wired_spec (Freeze wired_registry) []).1 with
  | Ok es => es
  | Err _ => expansion_start wired_spec
  end.

Lemma wired_build_options :
  match (Build (O := sample_orchestration) Background wired_ns fresh_memo wired_registry []).1.1 with
  | Ok ba => option_name <$> (ba_Orchestrator ba).2 =
      ["tools"; "policies"; "guard"; "emitter"; "enricher"]
  | Err _ => False
  end.
Proof. vm_compute. reflexivity. Qed.

Lemma wired_ns_builds :
  is_ok (Build (O := sample_orchestration) Background wired_ns fresh_memo wired_registry []).1.1 = true.
Proof. vm_compute. reflexivity. Qed.

Lemma res_Ok_inj {E A} (a b : A) : Ok (E := E) a = Ok b → a = b.
Proof. by intros [= ->]. Qed.

Example Build_wires_witness :
  ∃ (ba : BuiltAgent (O := sample_orchestration)) rsv router,
    ba_SystemPrompt ba = "You help." +:+ blank_line +:+ "A" +:+ blank_line +:+ "B" ∧
    NoDup (def_Name <$> elems (ba_ToolDefs ba)) ∧
    ba_Orchestrator ba = (sg_value (r_provider rsv), wiring (O := sample_orchestration) rsv router) ∧
    option_name <$> wiring (O := sample_orchestration) rsv router =
      ["tools"; "policies"; "guard"; "emitter"; "enricher"].
Proof.
  destruct (sample_build_run wired_ns _ wired_ns_builds) as (ba & w' & r' & H).
  assert (Hnames := wired_build_options). rewrite H in Hnames. simpl in Hnames.
  destruct (Build_wires _ _ _ _ _ _ _ _ H) as (-> & _ & es0 & rsv & router & w1 & w2 & w3 & He & Hr
    & Hnew & _ & _ & Hnd & _ & Hprompt). exists ba, rsv, router.
  injection Hnew as Horch _. rewrite <-Horch in Hnames. simpl in Hnames.
  rewrite Hprompt. split; [|split; [exact Hnd|split; [by rewrite <-Horch|exact Hnames]]].
  assert (H2 : expandSkills (K := sample_kernel) Background wired_spec (Freeze wired_registry) [] =
    (Ok wired_expanded, [])) by (vm_compute; reflexivity).
  assert (H1 : (expandSkills (K := sample_kernel) Background wired_spec (Freeze wired_registry) []).1 =
    Ok es0) by (change wired_spec with (ns_Spec wired_ns); rewrite He; reflexivity).
  rewrite H2 in H1. assert (es0 = wired_expanded) as -> by (exact (eq_sym (res_Ok_inj _ _ H1))). clear H1.
  destruct Hr as [_ (c & Hc & f & w4 & w5 & Hf & Hb & _) _ _ _ _ _ _ _ _ _ _].
  vm_compute in Hc. injection Hc as <-. simpl in Hf, Hb.
  assert (Hs : f = sample_prompt) by (apply Lookup_Ok in Hf; vm_compute in Hf; by injection Hf).
  subst f. simpl in Hb. injection Hb as <- _. vm_compute. reflexivity.
Defined.

Example manifest_lists_composition_witness :
  ∃ ba, row <$> elems (mf_Resolved (ba_Manifest (O := sample_orchestration) ba)) =
    component_rows (es_Spec expanded_sample).
Proof.
  destruct (sample_build_run sample_ns _ sample_ns_builds) as (ba & w' & r' & H). exists ba.
  destruct (manifest_lists_composition _ _ _ _ _ _ _ _ full_registry_reachable full_registry_no_nil H)
    as (es & w1 & He & ->).
  assert (H2 : expandSkills (K := sample_kernel) Background skilled_spec (Freeze full_registry) [] =
    (Ok expanded_sample, [])) by (vm_compute; reflexivity).
  change (ns_Spec sample_ns) with skilled_spec in He. rewrite H2 in He. by injection He as <- _.
Defined.

Example capabilities_match_manifest_witness :
  ∃ ba : BuiltAgent (O := sample_orchestration),
    Sorted String.le (Present (mf_Capabilities (ba_Manifest ba))).
Proof.
  destruct (sample_build_run sample_ns _ sample_ns_builds) as (ba & w' & r' & H). exists ba.
  apply (capabilities_match_manifest _ _ _ _ _ _ _ _ full_registry_reachable full_registry_no_nil H).
Defined.

Example manifest_attributes_injection_witness :
  ∃ (ba : BuiltAgent (O := sample_orchestration)) c, c ∈ elems (mf_Resolved (ba_Manifest ba)) ∧
    mr_Kind c = "provider" ∧ mr_InjectedBySkill c = "".
Proof.
  destruct (sample_build_run sample_ns _ sample_ns_builds) as (ba & w' & r' & H).
  destruct (Build_stages _ _ _ _ _ _ _ _ H) as (? & ? & ? & ? & ? & ? & _ & Hs).
  destruct (stages_entries (O := sample_orchestration) _ _ _ _ _ _ _ _ _ _ _ _ _ Hs)
    as (? & ? & ? & ? & ? & _ & _ & _ & _ & _ & _ & _ & Hm & _).
  eexists ba, _. assert (Hin : _ ∈ elems (mf_Resolved (ba_Manifest ba))) by (rewrite Hm; left).
  split; [exact Hin|].
  destruct (manifest_attributes_injection _ _ _ _ _ _ _ _ _ H Hin) as (es & w1 & k & _ & Hk & ->).
  split; [reflexivity|]. assert (k = KindProvider) as -> by (by apply slug_inj).
  reflexivity.
Defined.

(** A credential-resolver factory that answers (nil, nil): the capabilities name the
    kind, and neither the manifest nor the kernel hears of it. *)
Definition nil_resolver : @Factory sample_kernel KindCredentialResolver :=
  mkFactory (k := KindCredentialResolver) (K := sample_kernel) "credresolver.nil@1.0.0" ""
    (λ _ _, io_ret None).

Definition nil_resolver_ns : NormalizedSpec :=
  let s := wired_spec in
  mkNormalizedSpec (mkAgentSpec (APIVersion s) (Kind s) (Meta s) (Provider s) (Prompt s) (Tools s)
    (Policies s) (Filters s) (Budget s) (Telemetry s) (Some (mkCredRef "credresolver.nil@1.0.0" None))
    (Identity s) (Extends s) (Skills s) (MCPImports s) (OutputContract s)) [] [] initialProvenance.

Lemma nil_resolver_unlisted :
  match (Build (O := sample_orchestration) Background nil_resolver_ns fresh_memo
           (Register KindCredentialResolver nil_resolver wired_registry).2 []).1.1 with
  | Ok ba =>
    bool_decide ("credential_resolver" ∈ Present (mf_Capabilities (ba_Manifest ba))) = true ∧
    bool_decide ("credential_resolver" ∈ (mr_Kind <$> elems (mf_Resolved (ba_Manifest ba)))) = false ∧
    option_name <$> (ba_Orchestrator ba).2 = ["tools"; "policies"; "guard"; "emitter"; "enricher"]
  | Err _ => False
  end.
Proof. vm_compute. done. Qed.

(** A config that holds a value [encoding/json] refuses: the build completes and
    the manifest carries no hash. *)
Definition unhashable_ns : NormalizedSpec :=
  mkNormalizedSpec
    (with_composition (Some [mkComponentRef "toolpack.calc@2.0.0" (Some [("f", AOther "func()" None)])])
       None None skilled_spec) [] [] initialProvenance.

Lemma unhashable_ns_builds :
  is_ok (Build (O := sample_orchestration) Background unhashable_ns fresh_memo full_registry []).1.1 = true.
Proof. vm_compute. reflexivity. Qed.

Example manifest_hashes_witness :
  ∃ ba, mf_NormalizedHash (ba_Manifest (O := sample_orchestration) ba) = "".
Proof.
  destruct (sample_build_run unhashable_ns _ unhashable_ns_builds) as (ba & w' & r' & H). exists ba.
  destruct (manifest_hashes _ _ _ _ _ _ _ H) as (_ & _ & _ & -> & _). vm_compute. reflexivity.
Defined.

Definition sample_profile : single (@BudgetProfile sample_kernel) :=
  mkSingle (mkBudgetProfile (K := sample_kernel) tt (30000000000, 0, 0, 24, 0)%Z) "budgetprofile.x@1.0.0" None.
Definition budgeted (ov : BudgetOverrides) : @resolved sample_kernel :=
  mkResolved (K := sample_kernel) (mkSingle "provider" "provider.x@1.0.0" None) "" "" (group_of [])
    (group_of []) (group_of []) (group_of []) (group_of []) (Some sample_profile) ov None None None
    (group_of []) None (group_of []) zeroAgentSpec.

Example accepted_overrides_have_no_effect_witness :
  materialize (O := sample_orchestration) (budgeted (mkBudgetOverrides "1s" 0 0 3 0)) [] =
  materialize (O := sample_orchestration) (budgeted zeroOverrides) [].
Proof.
  apply (accepted_overrides_have_no_effect (O := sample_orchestration) (budgeted zeroOverrides)
    sample_profile (mkBudgetOverrides "1s" 0 0 3 0) zeroOverrides
    (1000000000, 0, 0, 3, 0)%Z (30000000000, 0, 0, 24, 0)%Z); vm_compute; reflexivity.
Defined.
