(* ===== verification/Forge.v ===== *)
(** The entry points: forge.go, spec/load.go and spec/load_overlay.go; the version
    constant of internal/version.

    Reading a file and decoding YAML are the standard library's and yaml.v3's:
    they are parameters of the loaders. *)

From S2P Require Import Prelude GoStrings Regex Errors Values Types Ids Extends Merge Validate Normalize.
From S2P Require Import Canonical Hash Kernel Registry Budget Chains Expand Resolve Manifest Build.
From stdpp Require Import options.

(** ** internal/version *)

Definition Version : string := "0.7.0".

(** The version of the module is one Validate would accept of a spec. *)
Example Version_semver : full_match semverRegexp Version = true.
Proof. vm_compute. reflexivity. Qed.

(** ** Options *)

Record options := mkOptions {
  o_overlays : list (option AgentOverlay);
  o_store : option SpecStore;
}.
Definition Option : Type := options → options.

Definition WithOverlays (overlays : list (option AgentOverlay)) : Option := λ o,
  mkOptions (o_overlays o ++ overlays) (o_store o).
Definition WithSpecStore (store : option SpecStore) : Option := λ o,
  mkOptions (o_overlays o) store.

Definition run_options (opts : list Option) : options :=
  fold_left (λ o opt, opt o) opts (mkOptions [] None).

(** ** Build *)

Section forge.
Context `{O : Orchestration}.

Definition forge_Build (ctx : context) (s : AgentSpec) (r : ComponentRegistry)
    (opts : list Option) (w : World) : (res error BuiltAgent * World) * ComponentRegistry :=
  let o := run_options opts in
  match Normalize ctx s (o_overlays o) (o_store o) with
  | Err e => ((Err e, w), r)
  | Ok ns => Build ctx ns fresh_memo r w
  end.

(** The methods of a built agent. *)
Definition BuiltAgent_Invoke (b : BuiltAgent) (ctx : context) (req : InvocationRequest)
    : IO InvocationResult := Orchestrator_Invoke (ba_Orchestrator b) ctx req.
Definition BuiltAgent_Manifest (b : BuiltAgent) : ManifestRecord := ba_Manifest b.
Definition BuiltAgent_SystemPrompt (b : BuiltAgent) : string := ba_SystemPrompt b.
Definition BuiltAgent_NormalizedSpec (b : BuiltAgent) : NormalizedSpec := ba_NormalizedSpec b.
End forge.

(** ** Loaders *)

Section load.
Context `{K : Kernel}.
Local Open Scope io_scope.

(** [os.Open] and reading, and the YAML decoder with [KnownFields(true)]. *)
Context (os_Open : string → IO string).
Context (yaml_AgentSpec : string → res error AgentSpec).
Context (yaml_AgentOverlay : string → res error AgentOverlay).

Definition LoadSpec (path : string) : IO AgentSpec :=
  f <- io_wrap (os_Open path) (EWrap (Sprintf "open spec: %w" [])) ;;
  io_lift (map_err (EWrap (Sprintf "decode spec %s: %w" [FS path])) (yaml_AgentSpec f)).

Definition set_File (path : string) (ov : AgentOverlay) : AgentOverlay :=
  mkAgentOverlay (ov_APIVersion ov) (ov_Kind ov) (ov_Name ov) (ov_Spec ov) path.

(** The envelope check after decoding. *)
Definition check_envelope (path : string) (ov : AgentOverlay) : res error AgentOverlay :=
  if bool_decide (ov_APIVersion ov ≠ expectedAPIVersion) then
    Err (EText (Sprintf "overlay %s: apiVersion: want %q, got %q"
      [FS path; FS expectedAPIVersion; FS (ov_APIVersion ov)]))
  else if bool_decide (ov_Kind ov ≠ "AgentOverlay") then
    Err (EText (Sprintf "overlay %s: kind: want %q, got %q"
      [FS path; FS "AgentOverlay"; FS (ov_Kind ov)]))
  else Ok (set_File path ov).

Definition LoadOverlay (path : string) : IO AgentOverlay :=
  f <- io_wrap (os_Open path) (EWrap (Sprintf "open overlay: %w" [])) ;;
  ov <- io_lift (map_err (EWrap (Sprintf "decode overlay %s: %w" [FS path])) (yaml_AgentOverlay f)) ;;
  io_lift (check_envelope path ov).

(** [overlays[i] = ov] for each path; the result has as many entries as paths. *)
Definition LoadOverlays (paths : list string) : IO (list AgentOverlay) :=
  io_loop (λ _ path, LoadOverlay path) 0 paths.
End load.

(** ** Properties *)

(** One option of a call to [Build]. *)
Inductive option_call :=
| CallWithOverlays (overlays : list (option AgentOverlay))
| CallWithSpecStore (store : option SpecStore).
Definition option_of (c : option_call) : Option :=
  match c with
  | CallWithOverlays l => WithOverlays l
  | CallWithSpecStore st => WithSpecStore st
  end.
Definition overlays_of (c : option_call) : list (option AgentOverlay) :=
  match c with CallWithOverlays l => l | CallWithSpecStore _ => [] end.

Lemma fold_options calls o :
  o_overlays (fold_left (λ o opt, opt o) (option_of <$> calls) o) =
    o_overlays o ++ (calls ≫= overlays_of) ∧
  o_store (fold_left (λ o opt, opt o) (option_of <$> calls) o) =
    fold_left (λ st c, match c with CallWithSpecStore st' => st' | _ => st end) calls (o_store o).
Proof.
  revert o. induction calls as [|c calls IH]; intros o; csimpl.
  { by rewrite app_nil_r. }
  destruct (IH (option_of c o)) as [-> ->]. destruct c; simpl; [|done].
  by rewrite (assoc_L (++)).
Qed.

(** options accumulate: the overlays of all WithOverlays calls are applied in
    call order, and the last WithSpecStore decides the store, wherever it comes
    among the other options. *)
Theorem options_accumulate calls pre post st :
  o_overlays (run_options (option_of <$> calls)) = calls ≫= overlays_of ∧
  (calls = pre ++ CallWithSpecStore st :: post →
   Forall (λ c, ∃ l, c = CallWithOverlays l) post →
   o_store (run_options (option_of <$> calls)) = st).
Proof.
  unfold run_options. destruct (fold_options calls (mkOptions [] None)) as [-> ->].
  split; [done|]. intros -> Hpost. rewrite fold_left_app. simpl.
  induction Hpost as [|c post [l ->] _ IH]; [done|]. exact IH.
Qed.

Section forge_properties.
Context `{O : Orchestration}.

(** Build freezes the registry exactly when normalisation accepts the spec,
    whatever happens afterwards: a spec that is refused leaves the registry open
    for registration and the world untouched. *)
Theorem forge_Build_freezes ctx s r opts w :
  let o := run_options opts in
  match Normalize ctx s (o_overlays o) (o_store o) with
  | Ok ns => forge_Build ctx s r opts w = (build_agent ctx ns fresh_memo (Freeze r) w, Freeze r)
  | Err e => forge_Build ctx s r opts w = ((Err e, w), r)
  end.
Proof. unfold forge_Build, Build. simpl. by destruct (Normalize _ _ _ _). Qed.

(** C16: end to end, an agent is built only from a spec that normalises; the
    normalised spec it carries is valid, and its manifest names that spec's id and
    version, the resolved extends chain and the applied overlays in order. *)
Theorem forge_Build_end_to_end ctx s r opts w ba w' r' :
  forge_Build ctx s r opts w = ((Ok ba, w'), r') →
  let o := run_options opts in
  let ns := ba_NormalizedSpec ba in
  Normalize ctx s (o_overlays o) (o_store o) = Ok ns ∧ valid_spec (ns_Spec ns) ∧
  Extends (ns_Spec ns) = None ∧
  mf_SpecID (ba_Manifest ba) = md_ID (Meta (ns_Spec ns)) ∧
  mf_SpecVersion (ba_Manifest ba) = md_Version (Meta (ns_Spec ns)) ∧
  (∃ parents, resolveExtendsChain ctx s (o_store o) =
     Ok (parents, elems (mf_ExtendsChain (ba_Manifest ba)))) ∧
  elems (mf_Overlays (ba_Manifest ba)) =
    omap (λ ov, (λ ov, mkOverlayRecord (ov_Name ov) (ov_File ov)) <$> ov) (o_overlays o).
Proof.
  intros H o ns. unfold forge_Build in H. fold o in H.
  destruct (Normalize _ _ _ _) as [ns'|e] eqn:Hn; [|done].
  apply Build_header in H as (Hns & Hid & Hv & He & Ho).
  assert (ns = ns') as Heq by (unfold ns; done). rewrite Heq.
  assert (Hok := Hn). apply Normalize_Ok in Hok as (parents & Hnm).
  assert (Hx := normalizes_Extends _ _ _ _ _ _ Hnm). destruct Hnm as [Hr _ _ Hvs _ Hat].
  split_and!; try done.
  - exists parents. by rewrite He.
  - rewrite Ho, Hat. unfold attributions. clear. induction (o_overlays o) as [|[ov|] l IH]; csimpl;
      [done|by rewrite IH|exact IH].
Qed.
End forge_properties.

Section load_properties.
Context `{K : Kernel}.
Context (os_Open : string → IO string) (yaml_AgentOverlay : string → res error AgentOverlay).

(** LoadOverlays yields one overlay per path, in order, each decoded from that
    file, stamped with its path and carrying the expected envelope; a file that
    cannot be read, decoded or has another envelope fails the whole call. *)
Theorem LoadOverlays_in_order paths w ovs w' :
  LoadOverlays os_Open yaml_AgentOverlay paths w = (Ok ovs, w') →
  Forall2 (λ path ov, ov_File ov = path ∧ ov_APIVersion ov = expectedAPIVersion ∧
    ov_Kind ov = "AgentOverlay" ∧
    ∃ text dec w1 w2, os_Open path w1 = (Ok text, w2) ∧ yaml_AgentOverlay text = Ok dec ∧
      ov_Name ov = ov_Name dec ∧ ov_Spec ov = ov_Spec dec) paths ovs.
Proof.
  intros H%io_loop_Ok. revert H. apply loop_run_Forall2.
  intros _ path w1 ov w2 _ H. unfold LoadOverlay in H. inv_io. inv_res.
  match goal with H : check_envelope _ _ = Ok _ |- _ => unfold check_envelope in H end.
  repeat case_bool_decide; try done. simplify_eq/=. split_and!; eauto 10.
Qed.

(** an overlay file with another apiVersion or kind is refused after decoding. *)
Theorem LoadOverlay_envelope_refused path w text dec w' :
  os_Open path w = (Ok text, w') → yaml_AgentOverlay text = Ok dec →
  ov_APIVersion dec ≠ expectedAPIVersion ∨ ov_Kind dec ≠ "AgentOverlay" →
  ∃ e, LoadOverlay os_Open yaml_AgentOverlay path w = (Err e, w').
Proof.
  intros Ho Hy He. unfold LoadOverlay, io_bind, io_wrap, io_lift. rewrite Ho. simpl. rewrite Hy. simpl.
  unfold check_envelope. repeat case_bool_decide; simpl; [by eexists|by eexists|]. tauto.
Qed.
End load_properties.

(** ** Witnesses *)

Example options_accumulate_witness :
  o_store (run_options (option_of <$>
    [CallWithOverlays [None]; CallWithSpecStore (Some demo_store); CallWithOverlays []])) =
  Some demo_store.
Proof.
  apply (options_accumulate
    [CallWithOverlays [None]; CallWithSpecStore (Some demo_store); CallWithOverlays []]
    [CallWithOverlays [None]] [CallWithOverlays []] (Some demo_store)).
  - reflexivity.
  - constructor; [by eexists|constructor].
Defined.

(** The demo spec of the normalisation file, built with its overlays and store. *)
Definition demo_registry : @ComponentRegistry sample_kernel :=
  (Register KindToolPack (sample_toolpack "toolpack.b@1.0.0" "b")
   (Register KindPromptAsset
      (mkFactory (k := KindPromptAsset) (K := sample_kernel) "prompt.sys@1.0.0" "" (λ _ _, io_ret "Hi."))
    (Register KindProvider
      (mkFactory (k := KindProvider) (K := sample_kernel) "provider.fake@1.0.0" "" (λ _ _, io_ret "fake"))
      (NewComponentRegistry (K := sample_kernel))).2).2).2.

Definition demo_options : list Option :=
  [WithOverlays demo_overlays; WithSpecStore (Some demo_store)].

Lemma demo_builds :
  is_ok (forge_Build (O := sample_orchestration) Background (demo_base (Some ["acme.base@2.0.0"]))
    demo_registry demo_options []).1.1 = true.
Proof. vm_compute. reflexivity. Qed.

Lemma forge_run {K : Kernel} {O : Orchestration} ctx s r opts w :
  is_ok (forge_Build (O := O) ctx s r opts w).1.1 = true →
  ∃ ba w' r', forge_Build ctx s r opts w = ((Ok ba, w'), r').
Proof. destruct (forge_Build ctx s r opts w) as [[[ba|e] w'] r']; [by eauto|done]. Qed.

Example forge_Build_end_to_end_witness :
  ∃ ba : BuiltAgent (O := sample_orchestration),
    elems (mf_Overlays (ba_Manifest ba)) = [mkOverlayRecord "prod" "prod.yaml"] ∧
    Extends (ns_Spec (ba_NormalizedSpec ba)) = None.
Proof.
  destruct (forge_run _ _ _ _ _ demo_builds) as (ba & w' & r' & H). exists ba.
  destruct (forge_Build_end_to_end _ _ _ _ _ _ _ _ H) as (_ & _ & He & _ & _ & _ & Ho).
  split; [exact Ho|exact He].
Defined.

(** A file system of one overlay file, and a decoder that knows its text. *)
Definition sample_open (path : string) : IO (K := sample_kernel) string :=
  if bool_decide (path = "prod.yaml") then io_ret "prod" else io_fail (EOpaque "no such file").
Definition sample_decode (kind text : string) : res error AgentOverlay :=
  Ok (mkAgentOverlay expectedAPIVersion kind text zeroBody "").

Example LoadOverlays_in_order_witness :
  ∃ ov, LoadOverlays (K := sample_kernel) sample_open (sample_decode "AgentOverlay") ["prod.yaml"] [] =
      (Ok [ov], []) ∧ ov_File ov = "prod.yaml".
Proof.
  eexists. split; [vm_compute; reflexivity|].
  pose proof (LoadOverlays_in_order (K := sample_kernel) sample_open (sample_decode "AgentOverlay")
    ["prod.yaml"] [] [mkAgentOverlay expectedAPIVersion "AgentOverlay" "prod" zeroBody "prod.yaml"] []
    eq_refl) as H.
  inversion H as [|? ? ? ? Hov _]; subst. apply Hov.
Defined.

Example LoadOverlay_envelope_refused_witness :
  ∃ e, LoadOverlay (K := sample_kernel) sample_open (sample_decode "AgentSpec") "prod.yaml" [] = (Err e, []).
Proof.
  apply (LoadOverlay_envelope_refused (K := sample_kernel) sample_open (sample_decode "AgentSpec")
    "prod.yaml" [] "prod" (mkAgentOverlay expectedAPIVersion "AgentSpec" "prod" zeroBody "") []).
  - reflexivity.
  - reflexivity.
  - by right.
Defined.
