(* ===== verification/Safety.v ===== *)
(** How the build pipeline fails, whatever makes it fail: on a validated spec, no
    nil pointer is dereferenced and no index is out of range, and every error it
    makes itself is a sentinel or a [fmt.Errorf] whose format matches its
    arguments.  The walk over the pipeline is done once, for any class of errors
    closed under these; "not a panic" and "has a text that names its cause" are two
    of them. *)

From S2P Require Import Prelude GoStrings Errors Values Types Ids Extends Merge Validate Canonical.
From S2P Require Import Hash Kernel Registry Budget Chains Expand Resolve Manifest Build Render.
From S2P Require Import Normalize Forge ErrorText.
From stdpp Require Import options.

Section calm.
Context (ok : error → Prop) `{C : !ErrorClass ok}.
#[local] Set Default Proof Using "Type*".

(** Failures are in the class: of a pure step, of an effectful one. *)
Definition calm {A} (r : res error A) : Prop := ∀ e, r = Err e → ok e.
Definition Calm `{K : Kernel} {A} (m : IO A) : Prop := ∀ w e w', m w = (Err e, w') → ok e.

(** ** Pure steps *)

Lemma calm_Ok {A} (a : A) : calm (Ok a).
Proof. done. Qed.
Lemma calm_Err {A} e : ok e → calm (Err (A := A) e).
Proof. by intros He e' [= <-]. Qed.
Lemma calm_map_err {A} m (r : res error A) :
  message_fits m true = true → operand_errors m = [] → calm r → calm (map_err (EWrap m) r).
Proof.
  intros Hm Ho Hr e. destruct r as [a|e']; simpl; [done|]. intros [= <-].
  apply ok_wrap; [done|done|]. exact (Hr e' eq_refl).
Qed.
Lemma calm_bind {A B} (r : res error A) (f : A → res error B) :
  calm r → (∀ a, calm (f a)) → calm (r ≫= f).
Proof.
  intros Hr Hf e. destruct r as [a|e']; simpl; [apply Hf|]. intros [= <-]. by apply Hr.
Qed.
Lemma calm_foldM {St A} (f : St → A → res error St) acc l :
  (∀ s x, calm (f s x)) → calm (foldM f acc l).
Proof.
  intros Hf. revert acc. induction l as [|x l IH]; intros acc; simpl; [done|]. by apply calm_bind.
Qed.
Lemma calm_ParseID s : calm (ParseID s).
Proof. intros e [_ ->]%ParseID_Err. solve_ok. Qed.

#[local] Hint Resolve calm_Ok calm_bind calm_foldM calm_ParseID : forge.

(** [solve_calm]: follow the structure of a step. *)
Ltac solve_calm :=
  repeat first
    [ progress simpl
    | match goal with
      | |- calm (Err _) => apply calm_Err; repeat case_match; solve [solve_ok]
      | |- calm (map_err _ _) => apply calm_map_err; [reflexivity|reflexivity|]
      | |- calm (mbind _ _) => apply calm_bind; [|intros ?]
      | |- calm (match ?x with _ => _ end) => destruct x eqn:?
      | |- calm (if ?x then _ else _) => destruct x eqn:?
      end
    | solve [eauto with forge] ].

(** *** Every pure step of the build *)

Lemma calm_canonicalizeConfig c : calm (canonicalizeConfig c).
Proof.
  unfold canonicalizeConfig, json_of_config. apply calm_bind.
  - apply calm_map_err; [done|done|]. intros e He. rewrite (json_of_any_Err _ _ He). solve_ok.
  - intros t. by destruct (pruneEmpty t).
Qed.

Lemma calm_CanonicalConfigsEqual a b : calm (CanonicalConfigsEqual a b).
Proof. unfold CanonicalConfigsEqual. auto using calm_canonicalizeConfig, calm_bind, calm_Ok. Qed.

Lemma calm_ParseDuration s : calm (ParseDuration s).
Proof. unfold ParseDuration. destruct s; solve_calm. Qed.
#[local] Hint Resolve calm_CanonicalConfigsEqual calm_ParseDuration : forge.

Lemma calm_find_existing label sk rc n v l : calm (find_existing label sk rc n v l).
Proof. induction l as [|c l IH]; simpl; solve_calm. Qed.
#[local] Hint Resolve calm_find_existing : forge.

Lemma calm_injectRequired t inj label sk rc : calm (injectRequired t inj label sk rc).
Proof. unfold injectRequired. solve_calm. Qed.
#[local] Hint Resolve calm_injectRequired : forge.

Lemma calm_injectOutputContract es sk rc : calm (injectOutputContract es sk rc).
Proof.
  unfold injectOutputContract, contract_id_conflict, contract_config_conflict. solve_calm.
Qed.
Lemma calm_inject_tool sk es rc : calm (inject_tool sk es rc).
Proof. unfold inject_tool. solve_calm. Qed.
Lemma calm_inject_policy sk es rc : calm (inject_policy sk es rc).
Proof. unfold inject_policy. solve_calm. Qed.
#[local] Hint Resolve calm_injectOutputContract calm_inject_tool calm_inject_policy : forge.

Lemma calm_inject_skill es rs : calm (inject_skill es rs).
Proof. unfold inject_skill. solve_calm. Qed.
#[local] Hint Resolve calm_inject_skill : forge.

Section pipeline.
Context `{O : Orchestration}.

Lemma calm_Lookup k id r : calm (Lookup k id r).
Proof. unfold Lookup. solve_calm. Qed.

Lemma calm_check_mcp_policies i ref r j l : calm (check_mcp_policies i ref r j l).
Proof.
  revert j. induction l as [|pid l IH]; intros j; simpl; [done|].
  unfold LookupPolicyPack. destruct (Lookup _ _ _) as [f|e] eqn:Hl; [apply IH|].
  apply calm_Err, ok_wrap; [done|done|]. exact (calm_Lookup _ _ _ e Hl).
Qed.

Lemma calm_check_mcp_auth i ref r auth : calm (check_mcp_auth i ref r auth).
Proof.
  unfold check_mcp_auth, LookupCredentialResolver. destruct auth as [a|]; [|done].
  destruct (Lookup _ _ _) as [f|e] eqn:Hl; [done|].
  apply calm_Err, ok_wrap; [done|done|]. exact (calm_Lookup _ _ _ e Hl).
Qed.

Lemma calm_newToolRouter packs : calm (newToolRouter packs).
Proof.
  unfold newToolRouter. apply calm_foldM. intros st p. apply calm_foldM. intros st' d.
  unfold add_definition. solve_calm.
Qed.

Lemma calm_tool_option packs : calm (tool_option packs).
Proof.
  unfold tool_option. destruct packs; [done|]. apply calm_bind; [|by intros []].
  apply calm_map_err; [done|done|]. apply calm_newToolRouter.
Qed.

Lemma calm_tightenInt64 f ov def out : calm (tightenInt64 f ov def out).
Proof. unfold tightenInt64. solve_calm. Qed.

Lemma calm_budget_option rsv : calm (budget_option rsv).
Proof.
  unfold budget_option. destruct (r_budget rsv) as [b|]; [|done]. apply calm_bind; [|done].
  unfold applyBudgetOverrides. repeat (apply calm_bind; [|intros ?]); auto using calm_tightenInt64.
  unfold applyWallClock. solve_calm.
Qed.

(** ** Effectful steps *)

Lemma Calm_ret {A} (a : A) : Calm (io_ret a).
Proof. by intros w e w'. Qed.
Lemma Calm_fail {A} e : ok e → Calm (io_fail (A := A) e).
Proof. by intros He w e' w' [= <- _]. Qed.
Lemma Calm_lift {A} (r : res error A) : calm r → Calm (io_lift r).
Proof. intros Hr w e w' [= H _]. by apply Hr. Qed.
Lemma Calm_wrap {A} (m : IO A) t :
  message_fits t true = true → operand_errors t = [] → Calm m → Calm (io_wrap m (EWrap t)).
Proof.
  intros Ht Ho Hm w e w' (e' & H & ->)%io_wrap_Err. apply ok_wrap; [done|done|]. exact (Hm _ _ _ H).
Qed.
Lemma Calm_bind {A B} (m : IO A) (f : A → IO B) :
  Calm m → (∀ w a w', m w = (Ok a, w') → Calm (f a)) → Calm (io_bind m f).
Proof.
  intros Hm Hf w e w' [H|(a & w1 & Ha & H)]%io_bind_Err; [exact (Hm _ _ _ H)|].
  exact (Hf _ _ _ Ha _ _ _ H).
Qed.
Lemma Calm_loop {A B} (f : nat → A → IO B) i l : (∀ i x, Calm (f i x)) → Calm (io_loop f i l).
Proof.
  intros Hf. revert i. induction l as [|x l IH]; intros i; simpl; [apply Calm_ret|].
  apply Calm_bind; [apply Hf|intros _ y _ _]. apply Calm_bind; [apply IH|intros _ ys _ _].
  apply Calm_ret.
Qed.
Lemma Calm_foldi {St A} (f : nat → St → A → IO St) i acc l :
  (∀ i s x, Calm (f i s x)) → Calm (io_foldi f i acc l).
Proof.
  intros Hf. revert i acc. induction l as [|x l IH]; intros i acc; simpl; [apply Calm_ret|].
  apply Calm_bind; [apply Hf|intros _ y _ _; apply IH].
Qed.

(** Factories and the kernel's constructor do not panic. *)
Definition calm_factories (r : ComponentRegistry) : Prop :=
  ∀ k id f ctx cfg, Lookup k id r = Ok f → Calm (f_Build f ctx cfg).

Section registry.
Context (r : ComponentRegistry) (Hf : calm_factories r).

Lemma Calm_lookup_build {B} k ref ctx cfg t1 t2 (g : Factory k → Product k → IO B) :
  message_fits t1 true = true → operand_errors t1 = [] →
  message_fits t2 true = true → operand_errors t2 = [] → (∀ f v, Calm (g f v)) →
  Calm (io_bind (io_lift (map_err (EWrap t1) (Lookup k ref r)))
    (λ f, io_bind (io_wrap (f_Build f ctx cfg) (EWrap t2)) (g f))).
Proof.
  intros H1 O1 H2 O2 Hg. apply Calm_bind.
  - apply Calm_lift, calm_map_err; [done|done|]. apply calm_Lookup.
  - intros w f w' [Hl%map_err_Ok _]%io_lift_Ok. apply Calm_bind; [|by intros].
    apply Calm_wrap; [done|done|]. by eapply Hf.
Qed.

Lemma Calm_expandSkills ctx s : Calm (expandSkills ctx s r).
Proof.
  unfold expandSkills. destruct (elems (Skills s)); [apply Calm_ret|]. apply Calm_foldi.
  intros i es ref. unfold expandSkill. apply Calm_bind.
  - unfold resolve_skill. apply Calm_lookup_build; [done..|]. intros f v.
    destruct (isEmptyContribution v); [apply Calm_fail; solve_ok|apply Calm_ret].
  - intros _ rs _ _. apply Calm_lift, calm_inject_skill.
Qed.

Lemma Calm_resolveOutputContract ctx es : Calm (resolveOutputContract ctx es r).
Proof.
  unfold resolveOutputContract. destruct (OutputContract (es_Spec es)); [|apply Calm_ret].
  apply Calm_lookup_build; [done..|]. intros. apply Calm_ret.
Qed.

(** The names of the fields are parts of the formats: they hold no verb. *)
Lemma Calm_resolve_one k la ba ctx ref cfg :
  message_fits (Sprintf ("resolve " +:+ la +:+ ": %w") []) true = true →
  message_fits (Sprintf ("build " +:+ ba +:+ " %s: %w") [FS ref]) true = true →
  Calm (resolve_one k la ba ctx r ref cfg).
Proof. intros Hl Hb. apply Calm_lookup_build; [done..|]. intros. apply Calm_ret. Qed.

Lemma Calm_resolve_list k field ctx refs :
  (∀ i, message_fits (Sprintf ("resolve " +:+ field +:+ "[%d]: %w") [FN i]) true = true) →
  (∀ i ref, message_fits (Sprintf ("build " +:+ field +:+ "[%d] %s: %w") [FN i; FS ref]) true = true) →
  Calm (resolve_list k field ctx r refs).
Proof.
  intros Hl Hb. apply Calm_bind; [|intros; apply Calm_ret]. apply Calm_loop. intros i ref.
  apply Calm_lookup_build; [done..|]. intros. apply Calm_ret.
Qed.

Lemma Calm_resolve_opt {T} k field ctx (ref : T → string) cfg o :
  message_fits (Sprintf ("resolve " +:+ field +:+ ": %w") []) true = true →
  (∀ ref, message_fits (Sprintf ("build " +:+ field +:+ " %s: %w") [FS ref]) true = true) →
  Calm (resolve_opt k field ctx r ref cfg o).
Proof.
  intros Hl Hb. destruct o; [|apply Calm_ret].
  apply Calm_bind; [by apply Calm_resolve_one|intros; apply Calm_ret].
Qed.

Lemma Calm_resolve ctx s : is_Some (pb_System (Prompt s)) → Calm (resolve ctx s r).
Proof.
  intros [c Hc]. unfold resolve, resolve_prompt. rewrite Hc.
  repeat lazymatch goal with |- Calm (io_bind _ _) => apply Calm_bind; [|intros _ ? _ _] end;
    first [by apply Calm_resolve_one | by apply (Calm_resolve_one KindPromptAsset)
      | by apply Calm_resolve_list | by apply Calm_resolve_opt | apply Calm_ret].
Qed.

Lemma Calm_resolveMCPBindings ctx s : Calm (resolveMCPBindings ctx s r).
Proof.
  unfold resolveMCPBindings. destruct (elems (MCPImports s)); [apply Calm_ret|].
  apply Calm_bind; [|intros; apply Calm_ret]. apply Calm_loop. intros i ref.
  apply Calm_lookup_build; [done..|]. intros f v.
  apply Calm_bind; [apply Calm_lift, calm_check_mcp_policies|intros _ _ _ _].
  apply Calm_bind; [apply Calm_lift, calm_check_mcp_auth|intros _ _ _ _]. apply Calm_ret.
Qed.
End registry.

Lemma Calm_materialize rsv :
  (∀ p opts, Calm (New p opts)) → Calm (materialize rsv).
Proof.
  intros Hnew. unfold materialize. apply Calm_bind; [apply Calm_lift, calm_tool_option|intros _ ? _ _].
  apply Calm_bind; [apply Calm_lift, calm_budget_option|intros _ ? _ _].
  apply Calm_bind; [apply Calm_wrap; [done|done|apply Hnew]|intros _ ? _ _]. apply Calm_ret.
Qed.

(** What resolution leaves in its result can be indexed. *)
Lemma buildManifest_completes ctx s r rsv es binds s' ns m w :
  resolved_from ctx r s rsv →
  ∃ mm w', buildManifest s' (stamp rsv es binds) ns m es w = (Ok mm, w').
Proof.
  intros [_ _ (ts & Ht & _) (? & (ps & -> & _) & Hp) (f1 & H1 & _) (f2 & H2 & _) (f3 & H3 & _) _ _ _ _ _].
  assert (Hg : grouped (stamp rsv es binds) ts ps f1 f2 f3 (skill_entries es) (binding_entries binds))
    by (by split).
  unfold buildManifest. destruct (NormalizedHash _ _), (Now_UTC _).
  rewrite (manifest_resolved_Ok _ _ _ _ _ _ _ _ _ Hg). by eexists _, _.
Qed.

Lemma Calm_buildManifest ctx s r rsv es binds s' ns m :
  resolved_from ctx r s rsv → Calm (buildManifest s' (stamp rsv es binds) ns m es).
Proof.
  intros Hr w e w' H. destruct (buildManifest_completes _ _ _ _ es binds s' ns m w Hr) as (? & ? & H').
  by rewrite H' in H.
Qed.

(** The failures of the build of a validated spec. *)
Lemma calm_Build ctx ns m r w e w' r' :
  Validate (ns_Spec ns) = None → calm_factories r → (∀ p opts, Calm (New p opts)) →
  Build ctx ns m r w = ((Err e, w'), r') → ok e.
Proof.
  intros Hv Hf Hnew [= H _]. revert H. change (calm_factories (Freeze r)) in Hf.
  enough (Hc : Calm (build_agent ctx ns m (Freeze r))) by exact (Hc w e w').
  unfold build_agent. apply Calm_bind; [by apply Calm_expandSkills|].
  intros w0 es0 w1 He. apply Calm_bind; [by apply Calm_resolveOutputContract|].
  intros w2 es w3 Hoc. apply resolveOutputContract_Ok in Hoc as (Hs & _).
  apply expandSkills_ok in He as [_ [Hspec _ _ _]].
  apply Calm_bind.
  { apply Calm_resolve; [done|]. rewrite Hs, Hspec. exact (Validate_system _ Hv). }
  intros w4 rsv w5 Hr%resolve_from. apply Calm_bind; [by apply Calm_resolveMCPBindings|].
  intros _ binds _ _. apply Calm_bind; [by apply Calm_materialize|]. intros _ om _ _.
  apply Calm_bind; [by eapply Calm_buildManifest|]. intros _ mm _ _. apply Calm_ret.
Qed.
End pipeline.
End calm.
Arguments Calm _ {K A} _.
Arguments calm_factories _ {K} _.

(** ** Properties *)

Section properties.
Context `{O : Orchestration}.

(** C20: building a validated spec never panics: if neither the registered factories
    nor the kernel's constructor panic, every failure of Build is an ordinary error.
    In particular the system prompt is never a nil pointer and the manifest never
    indexes out of range. *)
Theorem Build_never_panics ctx ns m r w e w' r' :
  Validate (ns_Spec ns) = None → calm_factories ordinary r →
  (∀ p opts, Calm ordinary (New p opts)) →
  Build ctx ns m r w = ((Err e, w'), r') → is_panic e = false.
Proof. exact (calm_Build ordinary ctx ns m r w e w' r'). Qed.

(** C21: every failure of forge.Build, from the normalisation on, has a text without a
    marker of [fmt] (no operand missing, left over or of the wrong kind, at any
    depth of the wrapping), and the text spells out every sentinel of the registry
    and of the build that errors.Is finds in it, if this holds of the errors of the
    context, the store, the factories and the kernel's constructor and the store does
    not answer a load with a nil specification. *)
Theorem forge_Build_error_text IsPrint foreign ctx s r opts w e w' r' :
  let readable_error := legible IsPrint foreign in
  (∀ n e, ctx_Err ctx n = Some e → readable_error e) →
  (∀ st n ref t e, o_store (run_options opts) = Some st → store_Load st ctx n ref = (t, Err e) →
     readable_error e) →
  (∀ st n ref t, o_store (run_options opts) = Some st → store_Load st ctx n ref ≠ (t, Ok None)) →
  calm_factories readable_error r → (∀ p opts, Calm readable_error (New p opts)) →
  forge_Build ctx s r opts w = ((Err e, w'), r') →
  ∃ t, Error_text IsPrint foreign e = Some t ∧
    ∀ x, spelled_out x = true → errors_is e x = true → Contains t (sentinel_text x) = true.
Proof.
  intros P Hctx Hstore Hnil Hf Hnew. unfold forge_Build.
  destruct (Normalize ctx s _ _) as [ns|e0] eqn:Hn.
  - apply Normalize_Ok in Hn as [parents Hn].
    apply (calm_Build P); [apply Validate_None; by destruct Hn|done|done].
  - intros [= -> _ _]. exact (Normalize_legible IsPrint foreign _ _ _ _ _ Hctx Hstore Hnil Hn).
Qed.
End properties.

(** ** Witness: a registry without the tool pack the spec names *)

Definition valid_ns : NormalizedSpec :=
  mkNormalizedSpec
    (mkAgentSpec expectedAPIVersion expectedKind (mkMetadata "acme.demo" "1.0.0" "" "" None None)
      (mkComponentRef "provider.x@1.0.0" None)
      (mkPromptBlock (Some (mkComponentRef "prompt.x@1.0.0" None)) None)
      (Some [mkComponentRef "toolpack.gone@1.0.0" None]) None (mkFilterBlock None None None)
      None None None None None None None None) [] [] initialProvenance.

Lemma calm_register ok `{K : Kernel} k (f : Factory k) r :
  (∀ ctx cfg, Calm ok (f_Build f ctx cfg)) → calm_factories ok r → calm_factories ok (Register k f r).2.
Proof.
  intros Hf Hr k' id g ctx cfg Hl%Lookup_Ok.
  destruct (Register_lookup k f r k' id) as [Heq|(_ & _ & <- & -> & Heq)]; rewrite Heq in Hl.
  - eapply Hr. by apply Lookup_Ok.
  - simpl in Hl. injection Hl as <-. apply Hf.
Qed.

Lemma small_registry_calm ok : calm_factories ok small_registry.
Proof.
  unfold small_registry. repeat (apply calm_register; [intros ctx cfg; by intros w e w'|]).
  intros k id f ctx cfg Hl%Lookup_Ok. simpl in Hl. by rewrite lookup_empty in Hl.
Qed.

Definition missing_tool_build :=
  Build (O := sample_orchestration) Background valid_ns fresh_memo small_registry [].

Lemma missing_tool_fails : ∃ e w' r', missing_tool_build = ((Err e, w'), r').
Proof.
  assert (Hb : is_ok missing_tool_build.1.1 = false) by (vm_compute; reflexivity).
  destruct missing_tool_build as [[[ba|e] w'] r'] eqn:H; [|eauto].
  simpl in Hb. discriminate Hb.
Qed.

Example Build_never_panics_witness :
  ∃ e w' r', missing_tool_build = ((Err e, w'), r') ∧ is_panic e = false.
Proof.
  destruct missing_tool_fails as (e & w' & r' & H). exists e, w', r'. split; [exact H|].
  apply (Build_never_panics (O := sample_orchestration) Background valid_ns fresh_memo small_registry []
    e w' r').
  - vm_compute. reflexivity.
  - exact (small_registry_calm ordinary).
  - intros p opts. by intros w1 e1 w1'.
  - exact H.
Defined.

(** The text of that error. *)
Definition error_of {A} (r : res error A) : option error :=
  match r with Err e => Some e | Ok _ => None end.
Example missing_tool_text :
  Error_text (λ _, true) id <$> error_of missing_tool_build.1.1 =
  Some (Some "resolve tools[0]: registry: factory not found: kind=tool_pack id=toolpack.gone@1.0.0").
Proof. vm_compute. reflexivity. Qed.

Definition missing_tool_forge :=
  forge_Build (O := sample_orchestration) Background (ns_Spec valid_ns) small_registry [] [].

Lemma missing_tool_forge_fails : ∃ e w' r', missing_tool_forge = ((Err e, w'), r').
Proof.
  assert (Hb : is_ok missing_tool_forge.1.1 = false) by (vm_compute; reflexivity).
  destruct missing_tool_forge as [[[ba|e] w'] r'] eqn:H; [|eauto].
  simpl in Hb. discriminate Hb.
Qed.

Example forge_Build_error_text_witness :
  ∃ e w' r' t, missing_tool_forge = ((Err e, w'), r') ∧ Error_text (λ _, true) id e = Some t ∧
    (errors_is e ErrNotFound = true → Contains t "registry: factory not found" = true).
Proof.
  destruct missing_tool_forge_fails as (e & w' & r' & H).
  destruct (forge_Build_error_text (O := sample_orchestration) (λ _, true) id Background (ns_Spec valid_ns)
    small_registry [] [] e w' r') as (t & Ht & Hs).
  - done.
  - done.
  - done.
  - exact (small_registry_calm _).
  - intros p opts. by intros w1 e1 w1'.
  - exact H.
  - exists e, w', r', t. split; [exact H|]. split; [exact Ht|]. exact (Hs ErrNotFound eq_refl).
Defined.
