(* ===== verification/Completeness.v ===== *)
(** When a build completes: the other half of the pipeline's contract.  Build.v
    tells what a completed build did and Safety.v that a failed one did not panic;
    here, a composition whose references are all registered, whose factories
    accept their configs and whose tools, budget and MCP bindings fit together
    does build. *)

From S2P Require Import Prelude GoStrings Errors Values Types Ids Extends Canonical Hash Kernel.
From S2P Require Import Merge Registry Budget Chains Expand Resolve Manifest Build Safety.
From stdpp Require Import options.

(** [m] succeeds from every world. *)
Definition Runs `{K : Kernel} {A} (m : IO A) : Prop := ∀ w, ∃ a w', m w = (Ok a, w').

Section runs.
Context `{K : Kernel}.

Lemma Runs_ret {A} (a : A) : Runs (io_ret a).
Proof. intros w. by exists a, w. Qed.
Lemma Runs_lift {A} (r : res error A) a : r = Ok a → Runs (io_lift r).
Proof. intros -> w. by exists a, w. Qed.
Lemma Runs_wrap {A} (m : IO A) f : Runs m → Runs (io_wrap m f).
Proof. intros Hm w. destruct (Hm w) as (a & w' & H). exists a, w'. by apply io_wrap_Ok. Qed.
Lemma Runs_bind {A B} (m : IO A) (f : A → IO B) :
  Runs m → (∀ w a w', m w = (Ok a, w') → Runs (f a)) → Runs (io_bind m f).
Proof.
  intros Hm Hf w. destruct (Hm w) as (a & w1 & Ha). destruct (Hf _ _ _ Ha w1) as (b & w2 & Hb).
  exists b, w2. apply io_bind_Ok. eauto.
Qed.
Lemma Runs_then {A B} (m : IO A) (f : A → B) : Runs m → Runs (io_bind m (λ a, io_ret (f a))).
Proof. intros Hm. apply Runs_bind; [done|]. intros. apply Runs_ret. Qed.
Lemma Runs_loop {A B} (f : nat → A → IO B) i l :
  Forall (λ x, ∀ i, Runs (f i x)) l → Runs (io_loop f i l).
Proof.
  intros Hl. revert i. induction Hl as [|x l Hx _ IH]; intros i; simpl; [apply Runs_ret|].
  apply Runs_bind; [done|]. intros. by apply Runs_then.
Qed.

(** ** The parts of a composition *)

(** Every component the spec names, with the kind it is looked up as. *)
Definition parts (s : AgentSpec) : list (RKind * ComponentRef) :=
  (KindProvider, Provider s) ::
  (pair KindPromptAsset <$> option_list (pb_System (Prompt s))) ++
  (pair KindToolPack <$> elems (Tools s)) ++
  (pair KindPolicyPack <$> elems (Policies s)) ++
  (pair KindPreLLMFilter <$> elems (fb_PreLLM (Filters s))) ++
  (pair KindPreToolFilter <$> elems (fb_PreTool (Filters s))) ++
  (pair KindPostToolFilter <$> elems (fb_PostTool (Filters s))) ++
  ((λ b, (KindBudgetProfile, mkComponentRef (br_Ref b) None)) <$> option_list (Budget s)) ++
  (pair KindTelemetryProfile <$> option_list (Telemetry s)) ++
  ((λ c, (KindCredentialResolver, mkComponentRef (cd_Ref c) None)) <$> option_list (Credentials s)) ++
  (pair KindIdentitySigner <$> option_list (Identity s)) ++
  (pair KindOutputContract <$> option_list (OutputContract s)) ++
  (pair KindMCPBinding <$> elems (MCPImports s)).

(** The component is registered and its factory accepts the config. *)
Definition buildable (ctx : context) (r : ComponentRegistry) (kc : RKind * ComponentRef) : Prop :=
  ∃ f, Lookup kc.1 (cr_Ref kc.2) r = Ok f ∧ Runs (f_Build f ctx (cr_Config kc.2)).

(** The references a binding makes itself are registered. *)
Definition binding_refers (r : ComponentRegistry) (b : MCPBindingValue) : Prop :=
  Forall (registered r KindPolicyPack) (elems (mb_Policies b)) ∧
  ∀ a, mb_Auth b = Some a → registered r KindCredentialResolver (ma_CredentialRef a).

(** The component is registered and its factory gives [v] without touching the world. *)
Definition gives (ctx : context) (r : ComponentRegistry) (k : RKind) (c : ComponentRef) (v : Product k)
    : Prop :=
  ∃ f, Lookup k (cr_Ref c) r = Ok f ∧ ∀ w, f_Build f ctx (cr_Config c) w = (Ok v, w).

Lemma gives_buildable ctx r k c v : gives ctx r k c v → buildable ctx r (k, c).
Proof. intros (f & Hl & Hf). exists f. split; [done|]. intros w. rewrite Hf. by eexists _, _. Qed.

Lemma total_buildable ctx r k c :
  builds_total r → registered r k (cr_Ref c) → buildable ctx r (k, c).
Proof.
  intros Ht [f Hf]. apply Lookup_Ok in Hf. exists f. split; [done|]. intros w. by eapply Ht.
Qed.

Lemma gives_built ctx r k ref cfg v u :
  gives ctx r k (mkComponentRef ref cfg) v → built_from k ctx r ref cfg u → sg_value u = v.
Proof.
  intros (f & Hl & Hf) (f' & w & w' & Hl' & Hf' & _). simpl in *. rewrite Hl in Hl'.
  injection Hl' as <-. rewrite Hf in Hf'. congruence.
Qed.

(** What resolution makes of references whose products are known. *)
Lemma gives_group ctx r k refs g vs :
  Forall2 (gives ctx r k) (elems refs) vs → group_built k ctx r refs g → elems (g_values g) = vs.
Proof.
  intros Hv (l & -> & Hl). rewrite g_values_of. revert vs Hv.
  induction Hl as [|[ref cfg] u refs' l Hu _ IH]; intros vs Hv; inversion Hv; subst; [done|].
  csimpl. f_equal; [by eapply gives_built|by apply IH].
Qed.

Section stages.
Context (ctx : context) (r : ComponentRegistry).

Lemma Runs_lookup_build {B} k c (g1 g2 : error → error) (h : Factory k → Product k → IO B) :
  buildable ctx r (k, c) →
  (∀ f v w w', Lookup k (cr_Ref c) r = Ok f → f_Build f ctx (cr_Config c) w = (Ok v, w') → Runs (h f v)) →
  Runs (io_bind (io_lift (map_err g1 (Lookup k (cr_Ref c) r)))
    (λ f, io_bind (io_wrap (f_Build f ctx (cr_Config c)) g2) (h f))).
Proof.
  intros (f & Hl & Hf) Hh. simpl in *. apply Runs_bind.
  { apply (Runs_lift _ f). by rewrite Hl. }
  intros w f' w' [Hf'%map_err_Ok _]%io_lift_Ok. rewrite Hl in Hf'. injection Hf' as <-.
  apply Runs_bind; [by apply Runs_wrap|]. intros w1 v w2 Hv%io_wrap_Ok. by eapply Hh.
Qed.

Lemma Runs_one k la ba ref cfg :
  buildable ctx r (k, mkComponentRef ref cfg) → Runs (resolve_one k la ba ctx r ref cfg).
Proof. intros H. apply (Runs_lookup_build k (mkComponentRef ref cfg)); [done|]. intros. apply Runs_ret. Qed.

Lemma Runs_list k field refs :
  Forall (λ c, buildable ctx r (k, c)) (elems refs) → Runs (resolve_list k field ctx r refs).
Proof.
  intros H. apply Runs_then, Runs_loop. eapply Forall_impl; [exact H|]. intros c Hc i.
  apply Runs_lookup_build; [done|]. intros. apply Runs_ret.
Qed.

Lemma Runs_opt {T} k field (ref : T → string) cfg o :
  Forall (λ c, buildable ctx r (k, mkComponentRef (ref c) (cfg c))) (option_list o) →
  Runs (resolve_opt k field ctx r ref cfg o).
Proof.
  intros H. destruct o as [c|]; [|apply Runs_ret]. apply Runs_then, Runs_one. by inversion H.
Qed.

Lemma Runs_resolve s :
  is_Some (pb_System (Prompt s)) → Forall (buildable ctx r) (parts s) → Runs (resolve ctx s r).
Proof.
  intros [c Hc]. unfold parts, resolve, resolve_prompt. rewrite Hc, Forall_cons, !Forall_app, !Forall_fmap.
  intros (H0 & H1 & H2 & H3 & H4 & H5 & H6 & H7 & H8 & H9 & H10 & _ & _).
  repeat lazymatch goal with |- Runs (io_bind _ _) => apply Runs_bind; [|intros _ ? _ _] end;
    first [apply Runs_one | apply (Runs_one KindPromptAsset) | apply Runs_list | apply Runs_opt
          | apply Runs_ret]; auto.
  by inversion_clear H1.
Qed.

Lemma Runs_resolveOutputContract es :
  Forall (buildable ctx r) (parts (es_Spec es)) → Runs (resolveOutputContract ctx es r).
Proof.
  intros H. unfold resolveOutputContract. destruct (OutputContract (es_Spec es)) as [oc|] eqn:Ho;
    [|apply Runs_ret].
  apply Runs_lookup_build; [|intros; apply Runs_ret]. rewrite Forall_forall in H. apply H.
  unfold parts. rewrite Ho. set_solver.
Qed.

(** The two checks pass when the references are registered. *)
Lemma binding_checks_pass i ref j b :
  binding_refers r b →
  check_mcp_policies i ref r j (elems (mb_Policies b)) = Ok tt ∧ check_mcp_auth i ref r (mb_Auth b) = Ok tt.
Proof.
  intros [Hp Ha]. split.
  - destruct (check_mcp_policies_spec i ref r j (elems (mb_Policies b))) as [[_ ?]|[? _]]; done.
  - destruct (check_mcp_auth_spec i ref r (mb_Auth b)) as [[_ ?]|[? _]]; done.
Qed.

Lemma Runs_resolveMCPBindings s :
  Forall (buildable ctx r) (parts s) →
  (∀ c f w v w', c ∈ elems (MCPImports s) → LookupMCPBinding (cr_Ref c) r = Ok f →
     f_Build f ctx (cr_Config c) w = (Ok v, w') → binding_refers r v) →
  Runs (resolveMCPBindings ctx s r).
Proof.
  intros H Hb. unfold resolveMCPBindings.
  assert (Hl : Forall (λ c, ∀ i, Runs (resolve_mcp_binding ctx r i c)) (elems (MCPImports s))).
  { apply Forall_forall. intros c Hc i. apply Runs_lookup_build.
    - rewrite Forall_forall in H. apply H. unfold parts. set_solver.
    - intros f v w w' Hf Hv.
      destruct (binding_checks_pass i (cr_Ref c) 0 v (Hb _ _ _ _ _ Hc Hf Hv)) as [-> ->].
      do 2 (apply Runs_bind; [by eapply Runs_lift|intros _ _ _ _]). apply Runs_ret. }
  destruct (elems (MCPImports s)) as [|c l]; [apply Runs_ret|]. by apply Runs_then, Runs_loop.
Qed.
End stages.
End runs.

Section completes.
Context `{O : Orchestration}.

(** The resolved tools, budget and overrides fit together. *)
Record compatible (rsv : resolved) : Prop := {
  cp_distinct : NoDup (entry_name <$> all_entries (elems (g_values (r_toolPacks rsv))));
  cp_reserved : Forall (λ e, ¬ reserved (entry_name e)) (all_entries (elems (g_values (r_toolPacks rsv))));
  cp_budget b : r_budget rsv = Some b →
    is_ok (applyBudgetOverrides (bp_DefaultConfig (sg_value b)) (r_budgetOverrides rsv)) = true;
}.

Lemma tool_option_completes packs :
  NoDup (entry_name <$> all_entries packs) → Forall (λ e, ¬ reserved (entry_name e)) (all_entries packs) →
  ∃ x, tool_option packs = Ok x.
Proof.
  intros Hn Hr. unfold tool_option. destruct packs as [|p packs]; [by eexists|].
  unfold newToolRouter. rewrite newToolRouter_flat.
  pose proof (foldM_routes [] (all_entries (p :: packs)) _ routes_empty) as H. simpl in H.
  destruct (foldM _ _ _) as [[router defs]|e]; simpl; [by eexists|]. tauto.
Qed.

Lemma Runs_materialize rsv :
  compatible rsv → (∀ p opts, Runs (New p opts)) → Runs (materialize rsv).
Proof.
  intros [Hd Hr Hb] Hnew. unfold materialize. apply Runs_bind.
  { destruct (tool_option_completes _ Hd Hr) as [x Hx]. by eapply Runs_lift. }
  intros _ tools _ _. apply Runs_bind.
  { unfold budget_option. destruct (r_budget rsv) as [b|]; [|by eapply Runs_lift].
    specialize (Hb b eq_refl). destruct (applyBudgetOverrides _ _); [by eapply Runs_lift|done]. }
  intros _ bud _ _. apply Runs_then, Runs_wrap, Hnew.
Qed.

Lemma build_agent_runs ctx ns m r es w w1 :
  expandSkills ctx (ns_Spec ns) r w = (Ok es, w1) → is_Some (pb_System (Prompt (es_Spec es))) →
  Forall (buildable ctx r) (parts (es_Spec es)) →
  (∀ rsv, resolved_from ctx r (es_Spec es) rsv → compatible rsv) →
  (∀ c f w v w', c ∈ elems (MCPImports (es_Spec es)) → LookupMCPBinding (cr_Ref c) r = Ok f →
     f_Build f ctx (cr_Config c) w = (Ok v, w') → binding_refers r v) →
  (∀ p opts, Runs (New p opts)) →
  ∃ ba w', build_agent ctx ns m r w = (Ok ba, w').
Proof.
  intros He Hs Hp Hc Hb Hnew. unfold build_agent. setoid_rewrite io_bind_Ok.
  enough (Hr : Runs (io_bind (resolveOutputContract ctx es r) (λ es, io_bind (resolve ctx (es_Spec es) r)
    (λ rsv, io_bind (resolveMCPBindings ctx (es_Spec es) r) (λ binds,
      io_bind (materialize (stamp rsv es binds)) (λ om,
      io_bind (buildManifest (ns_Spec ns) (stamp rsv es binds) ns m es) (λ mm,
        io_ret (mkBuiltAgent om.1 mm.1 (r_systemPrompt (stamp rsv es binds)) om.2 ns mm.2)))))))).
  { destruct (Hr w1) as (ba & w' & Hba). exists ba, w', es, w1. by split. }
  apply Runs_bind; [by apply Runs_resolveOutputContract|].
  intros w2 es' w3 (-> & _)%resolveOutputContract_Ok. apply Runs_bind; [by apply Runs_resolve|].
  intros w4 rsv w5 Hr%resolve_from. apply Runs_bind; [by apply Runs_resolveMCPBindings|].
  intros _ binds _ _. apply Runs_bind.
  { apply Runs_materialize; [|done]. destruct (Hc _ Hr) as [H1 H2 H3]. by split. }
  intros _ om _ _. apply Runs_bind; [intros w6; by eapply buildManifest_completes|].
  intros _ mm _ _. apply Runs_ret.
Qed.
(** C4: a build completes when its parts fit: if the skills expand, every component of
    the expanded composition is registered under its reference and accepts its
    config, the tool names of the resolved packs are distinct and not reserved, the
    overrides stay within the budget, the MCP bindings refer to registered policies
    and credentials, and the kernel accepts the wiring, then Build returns an agent. *)
Theorem Build_completes ctx ns m r es w w1 :
  expandSkills ctx (ns_Spec ns) (Freeze r) w = (Ok es, w1) →
  is_Some (pb_System (Prompt (es_Spec es))) →
  Forall (buildable ctx r) (parts (es_Spec es)) →
  (∀ rsv, resolved_from ctx (Freeze r) (es_Spec es) rsv → compatible rsv) →
  (∀ c f w v w', c ∈ elems (MCPImports (es_Spec es)) → LookupMCPBinding (cr_Ref c) r = Ok f →
     f_Build f ctx (cr_Config c) w = (Ok v, w') → binding_refers r v) →
  (∀ p opts, Runs (New p opts)) →
  ∃ ba w', Build ctx ns m r w = ((Ok ba, w'), Freeze r).
Proof.
  intros He Hs Hp Hc Hb Hnew.
  destruct (build_agent_runs ctx ns m (Freeze r) es w w1 He Hs) as (ba & w' & H); try done.
  exists ba, w'. unfold Build. by rewrite H.
Qed.
End completes.

(** ** Witness: the small composition of Resolve.v *)

Lemma small_expands :
  expandSkills (K := sample_kernel) Background small_spec (Freeze small_registry) [] =
    (Ok (expansion_start small_spec), []).
Proof. reflexivity. Qed.

Definition calc_pack : @ToolPack sample_kernel :=
  mkToolPack (K := sample_kernel) (λ _ _ call, io_ret ("ran " +:+ call)) (Some ["calc"]) None.

Lemma small_compatible rsv :
  resolved_from (K := sample_kernel) Background (Freeze small_registry) small_spec rsv →
  compatible (K := sample_kernel) rsv.
Proof.
  intros [_ _ Ht _ _ _ _ Hb _ _ _ _].
  assert (Hp : elems (g_values (r_toolPacks rsv)) = [calc_pack]).
  { refine (gives_group Background (Freeze small_registry) KindToolPack _ _ [calc_pack] _ Ht).
    repeat constructor. by exists (sample_toolpack "toolpack.calc@2.0.0" "calc"). }
  split; rewrite ?Hp.
  - apply (NoDup_singleton "calc").
  - apply Forall_singleton. discriminate.
  - inversion Hb. congruence.
Qed.

Lemma small_parts : Forall (buildable (K := sample_kernel) Background small_registry) (parts small_spec).
Proof.
  repeat constructor;
    (apply total_buildable; [exact small_registry_total|apply (bool_decide_unpack _); vm_compute; exact I]).
Qed.

Example Build_completes_witness :
  ∃ ba w', Build (O := sample_orchestration) Background
    (mkNormalizedSpec small_spec [] [] initialProvenance) fresh_memo small_registry [] =
    ((Ok ba, w'), Freeze small_registry).
Proof.
  apply (Build_completes (O := sample_orchestration) Background
    (mkNormalizedSpec small_spec [] [] initialProvenance) fresh_memo small_registry
    (expansion_start small_spec) [] []).
  - exact small_expands.
  - eexists. reflexivity.
  - exact small_parts.
  - exact small_compatible.
  - intros c f w v w' Hc Hf Hv. apply list_elem_of_singleton in Hc as ->.
    assert (f = sample_mcp) as -> by (apply Lookup_Ok in Hf; vm_compute in Hf; by injection Hf).
    injection Hv as <- _. split; [|discriminate]. repeat constructor. eexists. vm_compute. reflexivity.
  - intros p opts. apply (Runs_ret (K := sample_kernel)).
Defined.
