(* ===== verification/McpFactory.v ===== *)
(** The generic MCP binding factory (factories/mcpbinding/factory.go): it decodes a
    config into a governance contract, re-validating what [spec.Validate] checked. *)

From S2P Require Import Prelude GoStrings Errors Values Glob Ids Types Extends Validate Kernel Registry.
From stdpp Require Import options.

(** ** stringList, stringMap and their defaults *)

(** The loop over a [[]any]. *)
Fixpoint all_strings (i : nat) (l : list any) : res error (list string) :=
  match l with
  | [] => Ok []
  | el :: l' =>
    match as_string el with
    | None => Err (EText (Sprintf "[%d]: want string, got %T" [FN i; FS (type_name el)]))
    | Some s => rest ← all_strings (S i) l'; Ok (s :: rest)
    end
  end.

Definition stringList (raw : any) : res error (slice string) :=
  match raw with
  | ANil => Ok None
  | AList v => l ← all_strings 0 (elems v); Ok (Some l)
  | AStrings v => Ok (append_slice None (elems v))
  | _ => Err (EText (Sprintf "want []string or []any, got %T" [FS (type_name raw)]))
  end.

(** The loop over the entries, in the iteration order of the map. *)
Fixpoint string_entries (m : list (string * any)) : res error (list (string * string)) :=
  match m with
  | [] => Ok []
  | (k, v) :: m' =>
    match as_string v with
    | None => Err (EText (Sprintf "%q: want string, got %T" [FS k; FS (type_name v)]))
    | Some s => rest ← string_entries m'; Ok ((k, s) :: rest)
    end
  end.

Definition stringMap (raw : any) : res error (gomap string) :=
  match raw with
  | ANil => Ok None
  | AMap m => l ← string_entries (entries m); Ok (Some l)
  | _ => Err (EText (Sprintf "want map[string]any, got %T" [FS (type_name raw)]))
  end.

(** [s, _ := m[k].(string)]. *)
Definition string_of (m : config) (k : string) : string := default "" (as_string (at_key m k)).

Definition stringOr (m : config) (key fallback : string) : string :=
  match as_string (at_key m key) with
  | Some s => if bool_decide (s = "") then fallback else s
  | None => fallback
  end.

Definition stringListOr (m : config) (key : string) : slice string :=
  match stringList (at_key m key) with Ok l => l | Err _ => None end.

Section decode.
Context (id : ID).

(** ** decodeConnection *)

Definition decodeStdio (m : config) : res error MCPConnection :=
  let missing := EText (Sprintf
    "%s: connection.command: stdio transport requires non-empty command" [FS id]) in
  match stringList (at_key m "command") with
  | Err _ => Err missing
  | Ok cmd =>
    if bool_decide (elems cmd = []) then Err missing
    else if bool_decide (string_of m "url" ≠ "") then
      Err (EText (Sprintf "%s: connection.url: stdio transport must not set url" [FS id]))
    else
      env ← map_err (EWrap (Sprintf "%s: connection.env: %w" [FS id])) (stringMap (at_key m "env"));
      Ok (mkMCPConnection MCPTransportStdio cmd env "" None)
  end.

Definition decodeHTTP (m : config) : res error MCPConnection :=
  let url := string_of m "url" in
  if bool_decide (url = "") then
    Err (EText (Sprintf "%s: connection.url: http transport requires url" [FS id]))
  else if bool_decide (elems (stringListOr m "command") ≠ []) then
    Err (EText (Sprintf "%s: connection.command: http transport must not set command" [FS id]))
  else
    headers ← map_err (EWrap (Sprintf "%s: connection.headers: %w" [FS id]))
                (stringMap (at_key m "headers"));
    Ok (mkMCPConnection MCPTransportHTTP None None url headers).

Definition decodeConnection (raw : any) : res error MCPConnection :=
  match raw with
  | AMap (Some l) =>
    let m := Some l in
    let transport := string_of m "transport" in
    if bool_decide (transport = "stdio") then decodeStdio m
    else if bool_decide (transport = "http") then decodeHTTP m
    else Err (EText (Sprintf "%s: connection.transport %q: want stdio|http" [FS id; FS transport]))
  | _ => Err (EText (Sprintf "%s: connection: required" [FS id]))
  end.

(** ** decodeAuth *)

Definition decodeAuth (raw : any) : res error (option MCPAuth) :=
  match raw with
  | ANil => Ok None
  | AMap m =>
    let credRef := string_of m "credentialRef" in
    let scheme := string_of m "scheme" in
    let headerName := string_of m "headerName" in
    if bool_decide (credRef = "") then
      Err (EText (Sprintf "%s: auth.credentialRef: required" [FS id]))
    else if bool_decide (scheme = "") then
      Err (EText (Sprintf "%s: auth.scheme: required" [FS id]))
    else if bool_decide (scheme = "api-key" ∧ headerName = "") then
      Err (EText (Sprintf "%s: auth.headerName: required when scheme == api-key" [FS id]))
    else
      parsed ← map_err (EWrap (Sprintf "%s: auth.credentialRef: %w" [FS id])) (registry_ParseID credRef);
      Ok (Some (mkMCPAuth parsed scheme headerName))
  | _ => Err (EText (Sprintf "%s: auth: want map, got %T" [FS id; FS (type_name raw)]))
  end.

(** ** decodeGlobList, decodePolicyIDs *)

Fixpoint check_globs (field : string) (i : nat) (l : list string) : res error () :=
  match l with
  | [] => Ok ()
  | p :: l' =>
    if glob_ok p then check_globs field (S i) l'
    else Err (EWrap (Sprintf "%s: %s[%d] %q: %w" [FS id; FS field; FN i; FS p]) ErrBadPattern)
  end.

Definition decodeGlobList (field : string) (raw : any) : res error (slice string) :=
  match raw with
  | ANil => Ok None
  | _ =>
    list ← map_err (EWrap (Sprintf "%s: %s: %w" [FS id; FS field])) (stringList raw);
    _ ← check_globs field 0 (elems list);
    Ok list
  end.

Fixpoint parse_ids (i : nat) (l : list string) : res error (list ID) :=
  match l with
  | [] => Ok []
  | s :: l' =>
    parsed ← map_err (EWrap (Sprintf "%s: policies[%d] %q: %w" [FS id; FN i; FS s])) (registry_ParseID s);
    rest ← parse_ids (S i) l';
    Ok (parsed :: rest)
  end.

Definition decodePolicyIDs (raw : any) : res error (slice ID) :=
  match raw with
  | ANil => Ok None
  | _ =>
    list ← map_err (EWrap (Sprintf "%s: policies: %w" [FS id])) (stringList raw);
    out ← parse_ids 0 (elems list);
    Ok (Some out)
  end.

(** ** decodeTrust, decodeOnNewTool *)

Definition decodeTrust (raw : any) : res error MCPTrust :=
  match raw with
  | AMap (Some l) =>
    let m := Some l in
    let tier := string_of m "tier" in
    let owner := string_of m "owner" in
    if bool_decide (tier = "" ∨ owner = "") then
      Err (EText (Sprintf "%s: trust.tier and trust.owner: required" [FS id]))
    else
      tags ← map_err (EWrap (Sprintf "%s: trust.tags: %w" [FS id])) (stringList (at_key m "tags"));
      Ok (mkMCPTrust tier owner tags)
  | _ => Err (EText (Sprintf "%s: trust: required" [FS id]))
  end.

Definition decodeOnNewTool (raw : any) : res error OnNewToolPolicy :=
  match as_string raw with
  | None | Some "" => Ok OnNewToolBlock
  | Some s =>
    if bool_decide (s = "block") then Ok OnNewToolBlock
    else if bool_decide (s = "allow-if-match-allowlist") then Ok OnNewToolAllowIfMatch
    else if bool_decide (s = "require-reapproval") then Ok OnNewToolRequireReapprove
    else Err (EText (Sprintf "%s: onNewTool %q: want block|allow-if-match-allowlist|require-reapproval"
                       [FS id; FS s]))
  end.

(** ** Build *)

Definition mcp_decode (cfg : config) : res error MCPBindingValue :=
  match cfg with
  | None => Err (EText (Sprintf "%s: config required" [FS id]))
  | Some _ =>
    let bid := string_of cfg "id" in
    if bool_decide (bid = "") then Err (EText (Sprintf "%s: id: required" [FS id]))
    else
      conn ← decodeConnection (at_key cfg "connection");
      auth ← decodeAuth (at_key cfg "auth");
      allow ← decodeGlobList "allow" (at_key cfg "allow");
      deny ← decodeGlobList "deny" (at_key cfg "deny");
      policies ← decodePolicyIDs (at_key cfg "policies");
      trust ← decodeTrust (at_key cfg "trust");
      onNewTool ← decodeOnNewTool (at_key cfg "onNewTool");
      Ok (mkMCPBinding bid conn auth allow deny policies trust onNewTool
            (mkMCPBindingDescriptor (stringOr cfg "name" "generic-mcp-binding")
               (stringOr cfg "summary" "generic MCP binding contract") (stringListOr cfg "tags")))
  end.
End decode.

Definition mcp_NewFactory `{K : Kernel} (id : ID) : Factory KindMCPBinding :=
  mkFactory (k := KindMCPBinding) id "generic MCP binding contract (stdio or streamable-HTTP)"
    (λ _ cfg, io_lift (mcp_decode id cfg)).

(** ** Lemmas *)

Lemma all_strings_Ok i l ss : all_strings i l = Ok ss ↔ l = AString <$> ss.
Proof.
  revert i ss. induction l as [|el l IH]; intros i ss; simpl.
  { split; [by intros [= <-]|by destruct ss]. }
  destruct el; simpl; try (split; [done|by destruct ss]).
  rewrite bind_Ok. split.
  - intros (rest & ->%IH & [= <-]). done.
  - destruct ss as [|s' ss]; csimpl; [done|]. intros [= -> Hl]. exists ss. by rewrite IH.
Qed.

(** The elements a list-typed value holds. *)
Definition any_list (raw : any) : list any :=
  match raw with
  | AList v => elems v
  | AStrings v => AString <$> elems v
  | _ => []
  end.

(** A nil value or a list of strings. *)
Definition string_list (raw : any) (l : list string) : Prop :=
  any_list raw = AString <$> l ∧
  match raw with ANil | AList _ | AStrings _ => True | _ => False end.

Lemma AString_inj (l1 l2 : list string) : AString <$> l1 = AString <$> l2 → l1 = l2.
Proof.
  revert l2. induction l1 as [|s l1 IH]; intros [|t l2]; csimpl; [done..|].
  intros [= -> H]. by rewrite (IH l2 H).
Qed.

Lemma stringList_Ok raw ss :
  stringList raw = Ok ss → string_list raw (elems ss).
Proof.
  unfold stringList, string_list. destruct raw as [| | | | | |v|v| |]; simpl; try done.
  - by intros [= <-].
  - intros (l & ->%all_strings_Ok & [= <-])%bind_Ok. done.
  - intros [= <-]. by destruct v as [[|s v]|].
Qed.

Lemma string_list_Ok raw l : string_list raw l → ∃ ss, stringList raw = Ok ss ∧ elems ss = l.
Proof.
  intros [Hl Ht]. unfold stringList. destruct raw as [| | | | | |v|v| |]; simpl in *; try done.
  - exists None. split; [done|]. by destruct l.
  - exists (Some l). split; [|done]. by rewrite (proj2 (all_strings_Ok 0 _ l) Hl).
  - eexists. split; [done|]. apply AString_inj in Hl. subst l. by destruct v as [[|s v]|].
Qed.

Lemma string_entries_Ok m l :
  string_entries m = Ok l ↔ m = prod_map (λ x, x) AString <$> l.
Proof.
  revert l. induction m as [|[k v] m IH]; intros l; simpl.
  { split; [by intros [= <-]|by destruct l]. }
  destruct v; simpl; try (split; [done|by destruct l as [|[? ?] ?]]).
  rewrite bind_Ok. split.
  - intros (rest & ->%IH & [= <-]). done.
  - destruct l as [|[k' s'] l]; csimpl; [done|]. intros [= -> -> Hl]. exists l. by rewrite IH.
Qed.

Lemma check_globs_Ok id field i l u :
  check_globs id field i l = Ok u ↔ Forall (λ p, glob_ok p = true) l.
Proof.
  destruct u. revert i. induction l as [|p l IH]; intros i; simpl; [by rewrite Forall_nil|].
  rewrite Forall_cons. destruct (glob_ok p) eqn:Hp; [rewrite IH; tauto|]. split; [done|by intros [? _]].
Qed.

Lemma registry_ParseID_Ok s p : registry_ParseID s = Ok p ↔ p = s ∧ valid_id s.
Proof.
  unfold registry_ParseID. rewrite <-ParseID_is_ok.
  destruct (ParseID s); simpl; naive_solver.
Qed.

Lemma parse_ids_Ok id i l out : parse_ids id i l = Ok out ↔ out = l ∧ Forall valid_id l.
Proof.
  revert i out. induction l as [|s l IH]; intros i out; simpl.
  { rewrite Forall_nil. split; [by intros [= <-]|by intros [-> _]]. }
  rewrite bind_Ok, Forall_cons. split.
  - intros (p & [-> Hs]%map_err_Ok%registry_ParseID_Ok & (rest & [-> Hl]%IH & [= <-])%bind_Ok). done.
  - intros (-> & Hs & Hl). exists s. split; [by apply map_err_Ok, registry_ParseID_Ok|].
    apply bind_Ok. exists l. split; [by apply IH|done].
Qed.

(** *** What each decoder accepts and gives *)

Definition glob_list (raw : any) (l : list string) : Prop :=
  string_list raw l ∧ Forall (λ p, glob_ok p = true) l.

Lemma decodeGlobList_Ok id field raw ss :
  decodeGlobList id field raw = Ok ss → glob_list raw (elems ss).
Proof.
  unfold decodeGlobList. intros H. assert (H' : raw = ANil ∧ ss = None ∨
    ∃ l u, stringList raw = Ok l ∧ check_globs id field 0 (elems l) = Ok u ∧ ss = l).
  { destruct raw; [left; by injection H as <-|right..]; inv_res; eauto 10. }
  destruct H' as [[-> ->]|(l & u & Hl & Hc & ->)]; [by split; [split|constructor]|].
  split; [by apply stringList_Ok|by apply check_globs_Ok in Hc].
Qed.

Lemma glob_list_Ok id field raw l :
  glob_list raw l → ∃ ss, decodeGlobList id field raw = Ok ss ∧ elems ss = l.
Proof.
  intros [(ss & Hs & <-)%string_list_Ok Hg]. unfold decodeGlobList.
  destruct raw; try (exists ss; rewrite Hs; simpl;
    by rewrite (proj2 (check_globs_Ok id field 0 (elems ss) tt) Hg)).
  exists ss. split; [|done]. exact Hs.
Qed.

Lemma decodePolicyIDs_Ok id raw ss :
  decodePolicyIDs id raw = Ok ss → string_list raw (elems ss) ∧ Forall valid_id (elems ss).
Proof.
  unfold decodePolicyIDs. intros H. assert (H' : raw = ANil ∧ ss = None ∨
    ∃ l out, stringList raw = Ok l ∧ parse_ids id 0 (elems l) = Ok out ∧ ss = Some out).
  { destruct raw; [left; by injection H as <-|right..]; inv_res; eauto 10. }
  destruct H' as [[-> ->]|(l & out & Hl & [-> Hv]%parse_ids_Ok & ->)]; [by split; [|constructor]|].
  split; [exact (stringList_Ok _ _ Hl)|done].
Qed.

Definition auth_typed (raw : any) : Prop :=
  raw = ANil ∨ ∃ m, raw = AMap m ∧ valid_id (stringAt m "credentialRef") ∧ stringAt m "scheme" ≠ "" ∧
    (stringAt m "scheme" = "api-key" → stringAt m "headerName" ≠ "").

Lemma decodeAuth_Ok id raw a :
  decodeAuth id raw = Ok a →
  auth_typed raw ∧
  (∀ x, a = Some x → valid_id (ma_CredentialRef x) ∧ ma_Scheme x ≠ "" ∧
     (ma_Scheme x = "api-key" → ma_HeaderName x ≠ "")).
Proof.
  unfold decodeAuth. destruct raw as [| | | | | | | |m|]; try done.
  { intros [= <-]. split; [by left|done]. }
  repeat (case_bool_decide; [done|]). intros (p & [-> Hv]%map_err_Ok%registry_ParseID_Ok & [= <-])%bind_Ok.
  assert (Hh : string_of m "scheme" = "api-key" → string_of m "headerName" ≠ "") by tauto.
  split; [right; by exists m|]. intros x [= <-]. by split_and!.
Qed.

Lemma decodeConnection_Ok id raw c :
  decodeConnection id raw = Ok c →
  ∃ l, raw = AMap (Some l) ∧
    ((stringAt (Some l) "transport" = "stdio" ∧ mc_Transport c = MCPTransportStdio ∧
      string_list (at_key (Some l) "command") (elems (mc_Command c)) ∧ elems (mc_Command c) ≠ [] ∧
      stringAt (Some l) "url" = "" ∧ mc_URL c = "" ∧ mc_Headers c = None) ∨
     (stringAt (Some l) "transport" = "http" ∧ mc_Transport c = MCPTransportHTTP ∧
      elems (stringListOr (Some l) "command") = [] ∧ mc_Command c = None ∧ mc_Env c = None ∧
      stringAt (Some l) "url" ≠ "" ∧ mc_URL c = stringAt (Some l) "url")).
Proof.
  unfold decodeConnection. destruct raw as [| | | | | | | |[l|]|]; try done.
  intros H. exists l. split; [done|]. case_bool_decide as H1; [left|case_bool_decide as H2; [right|done]].
  - unfold decodeStdio in H. destruct (stringList _) as [cmd|e] eqn:Hc; [|done].
    apply stringList_Ok in Hc. case_bool_decide as H3; [done|]. case_bool_decide as H4; [done|].
    apply bind_Ok in H as (env & _ & [= <-]). by split_and!.
  - unfold decodeHTTP in H. case_bool_decide as H3; [done|]. case_bool_decide as H4; [done|].
    apply bind_Ok in H as (h & _ & [= <-]). by split_and!.
Qed.

Lemma decodeTrust_Ok id raw t :
  decodeTrust id raw = Ok t → mt_Tier t ≠ "" ∧ mt_Owner t ≠ "".
Proof.
  unfold decodeTrust. destruct raw as [| | | | | | | |[l|]|]; try done.
  case_bool_decide as H; [done|]. intros (tags & _ & [= <-])%bind_Ok. simpl. tauto.
Qed.

Definition on_new_tool_policies : list OnNewToolPolicy :=
  [OnNewToolBlock; OnNewToolAllowIfMatch; OnNewToolRequireReapprove].

Lemma decodeOnNewTool_Ok id raw v :
  decodeOnNewTool id raw = Ok v →
  v ∈ on_new_tool_policies ∧ default "" (as_string raw) ∈ "" :: on_new_tool_values.
Proof.
  unfold decodeOnNewTool. destruct (as_string raw) as [s|]; simpl.
  2:{ intros [= <-]. split; left. }
  destruct s as [|c s]; [intros [= <-]; split; left|].
  repeat case_bool_decide; intros ?; simplify_eq; split;
    apply (bool_decide_unpack _); vm_compute; exact I.
Qed.

Lemma mcp_decode_Ok id cfg b :
  mcp_decode id cfg = Ok b →
  is_Some cfg ∧ mb_ID b = stringAt cfg "id" ∧ stringAt cfg "id" ≠ "" ∧
  decodeConnection id (at_key cfg "connection") = Ok (mb_Connection b) ∧
  decodeAuth id (at_key cfg "auth") = Ok (mb_Auth b) ∧
  decodeGlobList id "allow" (at_key cfg "allow") = Ok (mb_Allow b) ∧
  decodeGlobList id "deny" (at_key cfg "deny") = Ok (mb_Deny b) ∧
  decodePolicyIDs id (at_key cfg "policies") = Ok (mb_Policies b) ∧
  decodeTrust id (at_key cfg "trust") = Ok (mb_Trust b) ∧
  decodeOnNewTool id (at_key cfg "onNewTool") = Ok (mb_OnNewTool b).
Proof.
  unfold mcp_decode. destruct cfg as [l|]; [|done]. case_bool_decide as Hid; [done|].
  intros H. inv_res. simpl. by split_and!.
Qed.

(** *** The configs the factory accepts *)

Definition string_map (raw : any) : Prop :=
  raw = ANil ∨ ∃ m, raw = AMap m ∧ Forall (λ kv, ∃ s, kv.2 = AString s) (entries m).

Lemma string_entries_iff m :
  (∃ l, string_entries m = Ok l) ↔ Forall (λ kv, ∃ s, kv.2 = AString s) m.
Proof.
  induction m as [|[k v] m IH]; simpl; [split; [constructor|by eexists]|]. rewrite Forall_cons, <-IH.
  destruct v; simpl; try (split; [by intros [? ?]|by intros [[? ?] _]]).
  destruct (string_entries m); simpl; split; [|by eexists|by intros [? ?]|by intros [_ [? ?]]].
  intros _. split; by eexists.
Qed.

Lemma stringMap_iff raw : (∃ m, stringMap raw = Ok m) ↔ string_map raw.
Proof.
  unfold stringMap, string_map. destruct raw as [| | | | | | | |m|];
    try (split; [by intros [? ?]|by intros [?|(? & ? & _)]]).
  - split; [by left|by eexists].
  - transitivity (∃ l, string_entries (entries m) = Ok l).
    + destruct (string_entries (entries m)); simpl; [|by split; intros [? ?]].
      split; intros _; eexists; reflexivity.
    + rewrite string_entries_iff. split; [right; by exists m|]. by intros [?|(? & [= <-] & ?)].
Qed.

Lemma decodeConnection_iff id raw :
  (∃ c, decodeConnection id raw = Ok c) ↔
  ∃ l, raw = AMap (Some l) ∧
    ((stringAt (Some l) "transport" = "stdio" ∧
      (∃ c, string_list (at_key (Some l) "command") c ∧ c ≠ []) ∧
      stringAt (Some l) "url" = "" ∧ string_map (at_key (Some l) "env")) ∨
     (stringAt (Some l) "transport" = "http" ∧ elems (stringListOr (Some l) "command") = [] ∧
      stringAt (Some l) "url" ≠ "" ∧ string_map (at_key (Some l) "headers"))).
Proof.
  setoid_rewrite <-stringMap_iff. unfold decodeConnection.
  change string_of with stringAt.
  destruct raw as [| | | | | | | |[l|]|]; try (split; [by intros [? ?]|by intros (? & ? & _)]).
  transitivity ((stringAt (Some l) "transport" = "stdio" ∧ ∃ c, decodeStdio id (Some l) = Ok c) ∨
    (stringAt (Some l) "transport" = "http" ∧ ∃ c, decodeHTTP id (Some l) = Ok c)).
  { case_bool_decide as H1; [rewrite H1; naive_solver|case_bool_decide as H2; [naive_solver|]].
    split; [by intros [? ?]|by intros [[? _]|[? _]]]. }
  assert (Hs : (∃ c, decodeStdio id (Some l) = Ok c) ↔
    (∃ c, string_list (at_key (Some l) "command") c ∧ c ≠ []) ∧ stringAt (Some l) "url" = "" ∧
    ∃ m, stringMap (at_key (Some l) "env") = Ok m).
  { unfold decodeStdio. change string_of with stringAt.
    destruct (stringList (at_key (Some l) "command")) as [cmd|e] eqn:Hc.
    2:{ split; [by intros [? ?]|]. intros [(c & (ss & Hss & _)%string_list_Ok & _) _]. congruence. }
    apply stringList_Ok in Hc. case_bool_decide as H1.
    { split; [by intros [? ?]|]. intros [(c & [Hc' _] & Hne) _]. destruct Hc as [Hc _].
      rewrite Hc, H1 in Hc'. by destruct c. }
    case_bool_decide as H2; [split; [by intros [? ?]|by intros (_ & ? & _)]|].
    destruct (stringMap _) as [m|e]; simpl; split; try (by intros [? ?]); try (by intros (_ & _ & ? & ?)).
    - intros _. split_and!; [by exists (elems cmd)|done|by eexists].
    - by eexists. }
  assert (Hh : (∃ c, decodeHTTP id (Some l) = Ok c) ↔
    elems (stringListOr (Some l) "command") = [] ∧ stringAt (Some l) "url" ≠ "" ∧
    ∃ m, stringMap (at_key (Some l) "headers") = Ok m).
  { unfold decodeHTTP. change string_of with stringAt. case_bool_decide as H1.
    { split; [by intros [? ?]|by intros (_ & ? & _)]. }
    case_bool_decide as H2; [split; [by intros [? ?]|by intros (? & _)]|].
    destruct (stringMap (at_key (Some l) "headers")) as [m|e]; simpl; split; try (by intros [? ?]); try (by intros (_ & _ & ? & ?)).
    - intros _. split; [assumption|split; [exact H1|exact (ex_intro _ m eq_refl)]].
    - by eexists. }
  rewrite Hs, Hh. naive_solver.
Qed.

Record decodable (cfg : config) : Prop := {
  de_some : is_Some cfg;
  de_id : stringAt cfg "id" ≠ "";
  de_connection : ∃ l, at_key cfg "connection" = AMap (Some l) ∧
    ((stringAt (Some l) "transport" = "stdio" ∧
      (∃ c, string_list (at_key (Some l) "command") c ∧ c ≠ []) ∧
      stringAt (Some l) "url" = "" ∧ string_map (at_key (Some l) "env")) ∨
     (stringAt (Some l) "transport" = "http" ∧ elems (stringListOr (Some l) "command") = [] ∧
      stringAt (Some l) "url" ≠ "" ∧ string_map (at_key (Some l) "headers")));
  de_auth : auth_typed (at_key cfg "auth");
  de_allow : ∃ l, glob_list (at_key cfg "allow") l;
  de_deny : ∃ l, glob_list (at_key cfg "deny") l;
  de_policies : ∃ l, string_list (at_key cfg "policies") l ∧ Forall valid_id l;
  de_trust : ∃ m, at_key cfg "trust" = AMap (Some m) ∧ stringAt (Some m) "tier" ≠ "" ∧
    stringAt (Some m) "owner" ≠ "" ∧ ∃ l, string_list (at_key (Some m) "tags") l;
  de_onNewTool : default "" (as_string (at_key cfg "onNewTool")) ∈ "" :: on_new_tool_values;
}.

Lemma decodeAuth_iff id raw : (∃ a, decodeAuth id raw = Ok a) ↔ auth_typed raw.
Proof.
  split; [by intros [a [H _]%decodeAuth_Ok]|]. unfold decodeAuth. change string_of with stringAt.
  intros [->|(m & -> & Hv & Hs & Hh)]; [by eexists|].
  rewrite bool_decide_false.
  2:{ intros He. rewrite He in Hv. apply valid_id_not_empty in Hv. done. }
  rewrite bool_decide_false by done. rewrite bool_decide_false by tauto.
  rewrite (proj2 (registry_ParseID_Ok _ _) (conj eq_refl Hv)). by eexists.
Qed.

Lemma decodePolicyIDs_iff id raw :
  (∃ ss, decodePolicyIDs id raw = Ok ss) ↔ ∃ l, string_list raw l ∧ Forall valid_id l.
Proof.
  split; [intros [ss H%decodePolicyIDs_Ok]; by exists (elems ss)|].
  intros (l & (ss & Hs & <-)%string_list_Ok & Hv). unfold decodePolicyIDs.
  destruct raw; try (rewrite Hs; simpl;
    rewrite (proj2 (parse_ids_Ok id 0 _ _) (conj eq_refl Hv)); by eexists).
  by eexists.
Qed.

Lemma decodeTrust_iff id raw :
  (∃ t, decodeTrust id raw = Ok t) ↔
  ∃ m, raw = AMap (Some m) ∧ stringAt (Some m) "tier" ≠ "" ∧ stringAt (Some m) "owner" ≠ "" ∧
    ∃ l, string_list (at_key (Some m) "tags") l.
Proof.
  unfold decodeTrust. change string_of with stringAt. split.
  - intros [t H]. destruct raw as [| | | | | | | |[m|]|]; try done. case_bool_decide as Hb; [done|].
    apply bind_Ok in H as (tags & Ht%map_err_Ok%stringList_Ok & _). exists m.
    split_and!; [done|tauto|tauto|by eexists].
  - intros (m & -> & Ht & Ho & l & (ss & Hs & _)%string_list_Ok).
    rewrite bool_decide_false by tauto. rewrite Hs. by eexists.
Qed.

Lemma decodeOnNewTool_iff id raw :
  (∃ v, decodeOnNewTool id raw = Ok v) ↔ default "" (as_string raw) ∈ "" :: on_new_tool_values.
Proof.
  split; [by intros [v [_ H]%decodeOnNewTool_Ok]|]. unfold decodeOnNewTool.
  destruct (as_string raw) as [s|]; [|by eexists]. simpl. intros Hs.
  repeat (apply elem_of_cons in Hs as [->|Hs]; [by eexists|]). by apply elem_of_nil in Hs.
Qed.

Lemma decodeGlobList_iff id field raw :
  (∃ ss, decodeGlobList id field raw = Ok ss) ↔ ∃ l, glob_list raw l.
Proof.
  split; [intros [ss H%decodeGlobList_Ok]; by exists (elems ss)|].
  intros [l (ss & Hs & _)%(glob_list_Ok id field)]. by exists ss.
Qed.

(** ** Properties *)

(** the factory accepts a config exactly when it has the documented shape: an
    id, one transport with only its own fields, string lists and maps where lists
    and maps are expected, well-formed globs and references, a trust block with
    tier and owner, and a known onNewTool policy if any. *)
Theorem mcp_decode_iff id cfg : (∃ b, mcp_decode id cfg = Ok b) ↔ decodable cfg.
Proof.
  split.
  - intros [b (Hs & _ & Hid & Hc & Ha & Hal & Hd & Hp & Ht & Ho)%mcp_decode_Ok]. split; try done.
    + apply (decodeConnection_iff id). by eexists.
    + apply (decodeAuth_iff id). by eexists.
    + apply (decodeGlobList_iff id "allow"). by eexists.
    + apply (decodeGlobList_iff id "deny"). by eexists.
    + apply (decodePolicyIDs_iff id). by eexists.
    + apply (decodeTrust_iff id). by eexists.
    + apply (decodeOnNewTool_iff id). by eexists.
  - intros [[l ->] Hid Hc Ha Hal Hd Hp Ht Ho]. unfold mcp_decode. change string_of with stringAt.
    rewrite bool_decide_false by done.
    apply (decodeConnection_iff id) in Hc as [c ->]. apply (decodeAuth_iff id) in Ha as [a ->].
    apply (decodeGlobList_iff id "allow") in Hal as [al ->].
    apply (decodeGlobList_iff id "deny") in Hd as [d ->].
    apply (decodePolicyIDs_iff id) in Hp as [p ->]. apply (decodeTrust_iff id) in Ht as [t ->].
    apply (decodeOnNewTool_iff id) in Ho as [o ->]. by eexists.
Qed.

(** The contract every built binding satisfies. *)
Record governed (b : MCPBindingValue) : Prop := {
  go_id : mb_ID b ≠ "";
  go_connection :
    (mc_Transport (mb_Connection b) = MCPTransportStdio ∧ elems (mc_Command (mb_Connection b)) ≠ [] ∧
     mc_URL (mb_Connection b) = "" ∧ mc_Headers (mb_Connection b) = None) ∨
    (mc_Transport (mb_Connection b) = MCPTransportHTTP ∧ mc_URL (mb_Connection b) ≠ "" ∧
     mc_Command (mb_Connection b) = None ∧ mc_Env (mb_Connection b) = None);
  go_auth : ∀ a, mb_Auth b = Some a → valid_id (ma_CredentialRef a) ∧ ma_Scheme a ≠ "" ∧
    (ma_Scheme a = "api-key" → ma_HeaderName a ≠ "");
  go_allow : Forall (λ p, glob_ok p = true) (elems (mb_Allow b));
  go_deny : Forall (λ p, glob_ok p = true) (elems (mb_Deny b));
  go_policies : Forall valid_id (elems (mb_Policies b));
  go_trust : mt_Tier (mb_Trust b) ≠ "" ∧ mt_Owner (mb_Trust b) ≠ "";
  go_onNewTool : mb_OnNewTool b ∈ on_new_tool_policies;
}.

(** C34: every binding the factory builds is governed: it has an id, exactly the
    connection fields of its transport, valid credential and policy references,
    well-formed globs, a trust tier and owner, and one of the three onNewTool
    policies (block when none is given). *)
Theorem mcp_binding_is_governed id cfg b : mcp_decode id cfg = Ok b → governed b.
Proof.
  intros (_ & Hid & Hne & Hc & Ha & Hal & Hd & Hp & Ht & Ho)%mcp_decode_Ok.
  apply decodeConnection_Ok in Hc as (l & _ & Hc). apply decodeAuth_Ok in Ha as [_ Ha].
  apply decodeGlobList_Ok in Hal as [_ Hal], Hd as [_ Hd]. apply decodePolicyIDs_Ok in Hp as [_ Hp].
  apply decodeTrust_Ok in Ht. apply decodeOnNewTool_Ok in Ho as [Ho _].
  split; try done; [by rewrite Hid|].
  destruct Hc as [(_ & Ht1 & _ & H2 & _ & H3 & H4)|(_ & Ht1 & _ & H2 & H3 & H4 & H5)]; [left|right].
  - by split_and!.
  - split_and!; [done|by rewrite H5|done|done].
Qed.

(** the factory re-validates what Validate checks: a config it accepts passes
    the structural validation, with one exception: an http connection whose command
    is not a list of strings, which Validate refuses and the factory lets through. *)
Theorem mcp_decode_revalidates id cfg b :
  mcp_decode id cfg = Ok b →
  valid_mcp_config cfg ∨
  (let conn := mapAt cfg "connection" in
   stringAt conn "transport" = "http" ∧ anyListAt conn "command" ≠ [] ∧
   is_ok (stringList (at_key conn "command")) = false).
Proof.
  intros (Hs & _ & Hne & Hc & Ha & Hal & Hd & _ & _ & Ho)%mcp_decode_Ok.
  apply decodeConnection_Ok in Hc as (l & Hl & Hc). apply decodeAuth_Ok in Ha as [Ha _].
  apply decodeGlobList_Ok in Hal as [[Hal _] Hg], Hd as [[Hd _] Hg']. apply decodeOnNewTool_Ok in Ho as [_ Ho].
  assert (Hm : mapAt cfg "connection" = Some l) by (unfold mapAt; by rewrite Hl).
  assert (Hlist : ∀ k ss, any_list (at_key cfg k) = AString <$> ss →
    Forall (λ p, glob_ok p = true) ss → Forall valid_glob (anyListAt cfg k)).
  { intros k ss Hk Hf. change (anyListAt cfg k) with (any_list (at_key cfg k)). rewrite Hk.
    apply Forall_fmap. eapply Forall_impl; [exact Hf|]. intros p Hp. by exists p. }
  assert (Hv : valid_connection (Some l) → valid_mcp_config cfg).
  { intros Hcv. split; try done; [by rewrite Hm| |by eapply Hlist|by eapply Hlist].
    unfold valid_auth, mapAt. destruct Ha as [->|(m & -> & Hcr & Hsc & Hh)]; simpl; [by intros [? ?]|].
    intros _. split_and!; [by apply valid_id_not_empty|done|done]. }
  simpl. rewrite Hm. change (anyListAt (Some l) "command") with (any_list (at_key (Some l) "command")).
  destruct Hc as [(Ht & _ & [Hcmd _] & Hc & Hu & _)|(Ht & _ & Hc & _ & _ & Hu & _)].
  - left. apply Hv. split; [by eexists|]. left. split_and!; [done| |done].
    change (anyListAt (Some l) "command") with (any_list (at_key (Some l) "command")).
    rewrite Hcmd. by destruct (elems _).
  - destruct (stringList (at_key (Some l) "command")) as [ss|e] eqn:Hss.
    + left. apply Hv. split; [by eexists|]. right. split_and!; [done| |done].
      change (anyListAt (Some l) "command") with (any_list (at_key (Some l) "command")).
      unfold stringListOr in Hc. rewrite Hss in Hc. apply stringList_Ok in Hss as [-> _]. by rewrite Hc.
    + destruct (decide (any_list (at_key (Some l) "command") = [])) as [He|He]; [|by right].
      left. apply Hv. split; [by eexists|]. right. by split_and!.
Qed.

(** ** Witnesses *)

Definition stdio_config : config := Some
  [("id", AString "fs"); ("connection", AMap (Some [("transport", AString "stdio");
     ("command", AList (Some [AString "mcp-fs"]))])); ("allow", AList (Some [AString "fs.*"]));
   ("policies", AStrings (Some ["policypack.pii@1.0.0"]));
   ("trust", AMap (Some [("tier", AString "internal"); ("owner", AString "platform")]))].

(** Accepted by the factory, refused by Validate. *)
Definition http_with_command : config := Some
  [("id", AString "x"); ("connection", AMap (Some [("transport", AString "http");
     ("url", AString "https://x"); ("command", AList (Some [AInt 1]))]));
   ("trust", AMap (Some [("tier", AString "t"); ("owner", AString "o")]))].

Definition built_of (cfg : config) : MCPBindingValue :=
  match mcp_decode "mcp.x@1.0.0" cfg with
  | Ok b => b
  | Err _ => mkMCPBinding "" (mkMCPConnection "" None None "" None) None None None None
      (mkMCPTrust "" "" None) "" (mkMCPBindingDescriptor "" "" None)
  end.

Example mcp_binding_is_governed_witness : governed (built_of stdio_config).
Proof. apply (mcp_binding_is_governed "mcp.x@1.0.0" stdio_config). vm_compute. reflexivity. Defined.

Example mcp_decode_revalidates_witness :
  let conn := mapAt http_with_command "connection" in
  stringAt conn "transport" = "http" ∧ anyListAt conn "command" ≠ [] ∧
  is_ok (stringList (at_key conn "command")) = false.
Proof.
  destruct (mcp_decode_revalidates "mcp.x@1.0.0" http_with_command (built_of http_with_command) eq_refl)
    as [H|H]; [|exact H].
  exfalso. destruct (vm_connection _ H) as [_ [(Ht & _)|(_ & Hc & _)]]; vm_compute in *; discriminate.
Defined.
