(* ===== verification/Factories.v ===== *)
(** Built-in factories that are pure functions of their config: the literal prompt
    asset, the JSON-Schema output contract and the structured-output skill
    (factories/promptassetliteral, outputcontractjsonschema, skillstructuredoutput). *)

From S2P Require Import Prelude GoStrings Errors Values JsonText Canonical Types Ids Extends Kernel.
From S2P Require Import Registry Expand.
From stdpp Require Import options.

(** ** promptassetliteral *)

Definition literal_decode (id : ID) (cfg : config) : res error string :=
  match map_at cfg "text" with
  | None => Err (EText (Sprintf "%s: config.text: required" [FS id]))
  | Some raw =>
    match as_string raw with
    | None => Err (EText (Sprintf "%s: config.text: want string, got %T" [FS id; FS (type_name raw)]))
    | Some s =>
      if bool_decide (s = "") then
        Err (EText (Sprintf "%s: config.text: must be non-empty" [FS id]))
      else Ok s
    end
  end.

Definition literal_NewFactory `{K : Kernel} (id : ID) : Factory KindPromptAsset :=
  mkFactory (k := KindPromptAsset) id "literal prompt asset" (λ _ cfg, io_lift (literal_decode id cfg)).

(** ** outputcontractjsonschema *)

Definition allowedRootKeys : list string := ["$schema"; "type"; "properties"; "$ref"].

(** The list as [%v] prints it. *)
Definition allowedRootKeys_text : string := "[" +:+ Join allowedRootKeys " " +:+ "]".

Definition schema_decode (id : ID) (cfg : config) : res error OutputContractValue :=
  match map_at cfg "schema" with
  | None => Err (EText (Sprintf "%s: schema: required" [FS id]))
  | Some raw =>
    match as_map raw with
    | None => Err (EText (Sprintf "%s: schema: want map, got %T" [FS id; FS (type_name raw)]))
    | Some schema =>
      if bool_decide (length (entries schema) = 0) then
        Err (EText (Sprintf "%s: schema: empty; need at least one of %v at the root"
          [FS id; FS allowedRootKeys_text]))
      else if existsb (λ k, bool_decide (is_Some (map_at schema k))) allowedRootKeys then
        Ok (mkOutputContract schema (mkOutputContractDescriptor "json-schema" "core"
              "structural JSON Schema; semantic validation deferred"))
      else Err (EText (Sprintf "%s: schema: must contain at least one of %v at the root"
          [FS id; FS allowedRootKeys_text]))
    end
  end.

Definition schema_NewFactory `{K : Kernel} (id : ID) : Factory KindOutputContract :=
  mkFactory (k := KindOutputContract) id "JSON Schema output contract (structural validation only)"
    (λ _ cfg, io_lift (schema_decode id cfg)).

(** ** skillstructuredoutput *)

Definition promptFragment : string :=
  "Respond with JSON matching the required schema. Do not include prose outside the JSON.".

Definition json_schema_id : ID := "outputcontract.json-schema@1.0.0".

Definition structured_skill : SkillValue :=
  mkSkill promptFragment None
    (Some [mkRequiredComponent "policypack.pii-redaction@1.0.0" (Some [("strictness", AString "medium")])])
    (Some (mkRequiredComponent json_schema_id None))
    (mkSkillDescriptor "structured-output" "core"
       "Emit JSON matching a schema; default PII-redaction policy."
       (Some ["structured"; "json"; "governance"])).

Definition structured_NewFactory `{K : Kernel} (id : ID) : Factory KindSkill :=
  mkFactory (k := KindSkill) id "forces structured JSON output matching a supplied schema"
    (λ _ _, io_ret structured_skill).

(** ** Properties *)

(** the literal prompt factory returns the configured text and nothing else:
    it succeeds exactly when [text] is a non-empty string, with that string. *)
Theorem literal_decode_iff id cfg s :
  literal_decode id cfg = Ok s ↔ map_at cfg "text" = Some (AString s) ∧ s ≠ "".
Proof.
  unfold literal_decode. destruct (map_at cfg "text") as [raw|]; [|naive_solver].
  destruct raw; simpl; try naive_solver. case_bool_decide; naive_solver.
Qed.

(** the JSON-Schema factory stamps the configured schema unchanged, exactly
    when it is a map with one of the root keywords. *)
Theorem schema_decode_iff id cfg :
  (∃ v, schema_decode id cfg = Ok v) ↔
  ∃ schema k, map_at cfg "schema" = Some (AMap schema) ∧ k ∈ allowedRootKeys ∧
    is_Some (map_at schema k).
Proof.
  unfold schema_decode. destruct (map_at cfg "schema") as [raw|]; [|naive_solver].
  destruct raw as [| | | | | | | |schema|]; cbn [as_map];
    try (split; [by intros [? ?]|by intros (? & ? & [=] & _)]).
  case_bool_decide as Hl.
  - split; [by intros [? ?]|]. intros (schema' & k & [= <-] & _ & Hk).
    unfold map_at in Hk. destruct (entries schema); [by destruct Hk|done].
  - destruct (existsb (λ k, bool_decide (is_Some (map_at schema k))) allowedRootKeys) eqn:He.
    + split; [|by eexists]. intros _. apply existsb_exists in He as (k & Hk & Hb).
      exists schema, k. split; [done|]. split; [by apply list_elem_of_In|].
      by apply bool_decide_eq_true in Hb.
    + split; [by intros [? ?]|]. intros (schema' & k & [= <-] & Hk & Hs).
      assert (Ht : existsb (λ k, bool_decide (is_Some (map_at schema k))) allowedRootKeys = true).
      { apply existsb_exists. exists k. split; [by apply list_elem_of_In|]. by apply bool_decide_eq_true. }
      congruence.
Qed.

Section structured.
Context `{K : Kernel}.

Lemma canonicalizeConfig_None : canonicalizeConfig None = Ok "null".
Proof. vm_compute. reflexivity. Qed.

Lemma equal_to_nil_config cfg :
  CanonicalConfigsEqual cfg None = Ok true → canonicalizeConfig cfg = Ok "null".
Proof.
  unfold CanonicalConfigsEqual. rewrite canonicalizeConfig_None.
  intros (ab & -> & [= ->%bool_decide_eq_true])%bind_Ok. done.
Qed.

Lemma structured_requirement ctx s r w es w' sid :
  LookupSkill sid r = Ok (structured_NewFactory sid) → sid ∈ (cr_Ref <$> elems (Skills s)) →
  expandSkills ctx s r w = (Ok es, w') →
  ∃ q, q ∈ contract_requirements (elems (es_Skills es)) ∧
    q.2 = mkRequiredComponent json_schema_id None.
Proof.
  intros Hl Hin [Hb _]%expandSkills_ok.
  apply (loop_run_Forall2 (λ ref rs, cr_Ref ref = sid → rs_Value rs = structured_skill)) in Hb.
  2:{ intros i ref w1 rs w2 _ Hr Heq. unfold resolve_skill in Hr. rewrite Heq, Hl in Hr.
      simpl in Hr. unfold io_bind, io_wrap, io_ret in Hr. simpl in Hr. by injection Hr as <- _. }
  apply list_elem_of_fmap in Hin as (ref & Hsid & Hin).
  apply list_elem_of_lookup in Hin as [i Hi].
  destruct (Forall2_lookup_l _ _ _ _ _ Hb Hi) as (rs & Hrs & Hv). specialize (Hv (eq_sym Hsid)).
  exists (rs_ID rs, mkRequiredComponent json_schema_id None). split; [|done].
  unfold contract_requirements. apply list_elem_of_bind. exists rs. rewrite Hv. simpl.
  split; [left|]. by eapply list_elem_of_lookup_2.
Qed.

(** the structured-output skill requires the JSON-Schema contract without a
    config, and expansion refuses a contract whose config differs: whenever a build
    with this skill resolves its output contract, the schema in it canonicalises to
    nothing, so no schema with content can be used with the skill. *)
Theorem structured_output_needs_empty_schema ctx s r w es w1 es' w2 sid :
  LookupSkill sid r = Ok (structured_NewFactory sid) →
  LookupOutputContract json_schema_id r = Ok (schema_NewFactory json_schema_id) →
  sid ∈ (cr_Ref <$> elems (Skills s)) →
  expandSkills ctx s r w = (Ok es, w1) → resolveOutputContract ctx es r w1 = (Ok es', w2) →
  ∃ oc schema, OutputContract (es_Spec es) = Some oc ∧ cr_Ref oc = json_schema_id ∧
    map_at (cr_Config oc) "schema" = Some (AMap schema) ∧
    canonicalizeConfig (cr_Config oc) = Ok "null".
Proof.
  intros Hs Hf Hin He Ho. destruct (structured_requirement _ _ _ _ _ _ _ Hs Hin He) as (q & Hq & Hq2).
  apply expandSkills_ok in He as [_ [_ _ _ [_ _ Hm _]]]. rewrite Forall_forall in Hm.
  destruct (Hm q Hq) as (oc & Hoc & Hmeet). unfold meets, req_id, req_ref in Hmeet. rewrite Hq2 in Hmeet.
  simpl in Hmeet. destruct Hmeet as [Href Hcfg].
  assert (Hes : OutputContract (es_Spec es) = Some oc).
  { destruct (OutputContract (es_Spec es)) as [oc'|]; simpl in Hoc; [|by apply elem_of_nil in Hoc].
    apply list_elem_of_singleton in Hoc. by subst. }
  unfold resolveOutputContract in Ho. rewrite Hes, Href, Hf in Ho. simpl in Ho.
  unfold io_bind, io_lift, io_wrap in Ho. simpl in Ho.
  destruct (schema_decode json_schema_id (cr_Config oc)) as [v|e] eqn:Hd; [|done].
  assert (Hschema : ∃ schema, map_at (cr_Config oc) "schema" = Some (AMap schema)).
  { unfold schema_decode in Hd. destruct (map_at (cr_Config oc) "schema") as [raw|]; [|done].
    destruct raw as [| | | | | | | |schema|]; try done. by exists schema. }
  destruct Hschema as [schema Hschema]. exists oc, schema. split_and!; [done|done|done|].
  destruct Hcfg as [->|Hcfg]; [done|]. by apply equal_to_nil_config.
Qed.
End structured.

(** ** Witnesses *)

Definition structured_registry : @ComponentRegistry sample_kernel :=
  (Register KindOutputContract (schema_NewFactory (K := sample_kernel) json_schema_id)
   (Register KindSkill (structured_NewFactory (K := sample_kernel) "skill.structured-output@1.0.0")
     (NewComponentRegistry (K := sample_kernel))).2).2.

Definition structured_spec (schema : config) : AgentSpec :=
  mkAgentSpec "v1" "AgentSpec" (mkMetadata "acme.demo" "0.1.0" "" "" None None)
    (mkComponentRef "provider.x@1.0.0" None) (mkPromptBlock None None) None None
    (mkFilterBlock None None None) None None None None None
    (Some [mkComponentRef "skill.structured-output@1.0.0" None]) None
    (Some (mkComponentRef json_schema_id (Some [("schema", AMap schema)]))).

Definition structured_expanded (schema : config) : ExpandedSpec :=
  match (expandSkills (K := sample_kernel) Background (structured_spec schema) structured_registry []).1 with
  | Ok es => es
  | Err _ => expansion_start (structured_spec schema)
  end.

(** The shape of examples/demo/agent-structured.yaml: refused. *)
Example structured_with_schema_refused :
  is_ok (expandSkills (K := sample_kernel) Background
    (structured_spec (Some [("type", AString "object")])) structured_registry []).1 = false.
Proof. vm_compute. reflexivity. Qed.

Example structured_output_needs_empty_schema_witness :
  ∃ oc schema, OutputContract (es_Spec (structured_expanded (Some [("properties", AMap (Some []))])))
      = Some oc ∧ cr_Ref oc = json_schema_id ∧
    map_at (cr_Config oc) "schema" = Some (AMap schema) ∧
    canonicalizeConfig (cr_Config oc) = Ok "null".
Proof.
  eapply (structured_output_needs_empty_schema (K := sample_kernel) Background
    (structured_spec (Some [("properties", AMap (Some []))])) structured_registry []
    (structured_expanded (Some [("properties", AMap (Some []))])) [] _ [] "skill.structured-output@1.0.0").
  - vm_compute. reflexivity.
  - vm_compute. reflexivity.
  - left.
  - vm_compute. reflexivity.
  - vm_compute. reflexivity.
Defined.
