(* ===== verification/Filepath.v ===== *)
(** The lexical functions of Go's package [path/filepath] on Unix that the
    filesystem spec store calls: [IsAbs], [Clean], [Join], [Abs] and [Rel].

    A path is split into its elements at the slashes; [Clean] is a stack machine
    over the elements (what Go writes to its buffer, last element first). *)

From S2P Require Import Prelude GoStrings Errors.
From stdpp Require Import options.

Definition Separator : ascii := "/"%char.

(** The elements of a path, the empty ones included; never the empty list. *)
Fixpoint split_path (s : string) : list string :=
  match s with
  | "" => [""]
  | String c s' =>
    if decide (c = Separator) then "" :: split_path s'
    else match split_path s' with
         | [] => [str1 c]
         | e :: l => String c e :: l
         end
  end.

Definition IsAbs (path : string) : bool := HasPrefix path "/".

(** One element: [st] is what is written so far, last element first.  A [..] is
    kept only where there is nothing to remove. *)
Definition clean_step (rooted : bool) (st : list string) (e : string) : list string :=
  if bool_decide (e = "") then st
  else if bool_decide (e = ".") then st
  else if bool_decide (e = "..") then
    match st with
    | e' :: st' => if bool_decide (e' = "..") then e :: st else st'
    | [] => if rooted then [] else [e]
    end
  else e :: st.

Definition clean_elems (rooted : bool) (l : list string) : list string :=
  reverse (fold_left (clean_step rooted) l []).

Definition Clean (path : string) : string :=
  if bool_decide (path = "") then "."
  else
    let es := clean_elems (IsAbs path) (split_path path) in
    if IsAbs path then "/" +:+ Join es "/"
    else match es with [] => "." | _ => Join es "/" end.

(** [filepath.Join]: leading empty elements are dropped. *)
Fixpoint JoinPath (l : list string) : string :=
  match l with
  | [] => ""
  | e :: l' => if bool_decide (e = "") then JoinPath l' else Clean (Join l "/")
  end.

(** [filepath.Abs], with the answer of [os.Getwd]. *)
Definition Abs (getwd : res error string) (path : string) : res error string :=
  if IsAbs path then Ok (Clean path)
  else wd ← getwd; Ok (JoinPath [wd; path]).

(** The non-empty elements. *)
Definition path_elems (path : string) : list string := filter (λ e, e ≠ "") (split_path path).

Fixpoint strip_common (b t : list string) : list string * list string :=
  match b, t with
  | x :: b', y :: t' => if decide (x = y) then strip_common b' t' else (b, t)
  | _, _ => (b, t)
  end.

Definition rel_error : error := EOpaque "Rel: can't make targpath relative to basepath".

Definition Rel (basepath targpath : string) : res error string :=
  let base := Clean basepath in
  let targ := Clean targpath in
  if bool_decide (targ = base) then Ok "."
  else
    let base := if bool_decide (base = ".") then "" else base in
    if xorb (IsAbs base) (IsAbs targ) then Err rel_error
    else match strip_common (path_elems base) (path_elems targ) with
         | (".." :: _, _ :: _) => Err rel_error
         | (b, t) => Ok (Join (((λ _, "..") <$> b) ++ t) "/")
         end.

Example Clean_tests :
  Clean <$> [""; "/"; "a//b/./c/.."; "/../a"; "../../x"; "a/../.."; "./"; "/a/b/../../../c"] =
  ["."; "/"; "a/b"; "/a"; "../../x"; ".."; "."; "/c"].
Proof. vm_compute. reflexivity. Qed.

Example Rel_tests :
  Rel "/a/b" "/a/b/c/d" = Ok "c/d" ∧ Rel "/a/b" "/a/c" = Ok "../c" ∧ Rel "/a/b" "/" = Ok "../.." ∧
  Rel "/" "/x" = Ok "x" ∧ Rel "/a" "/a/" = Ok "." ∧ Rel "../a" "b" = Err rel_error ∧
  Rel "../.." ".." = Ok ".." ∧ Rel "/a" "b" = Err rel_error.
Proof. vm_compute. repeat split. Qed.

(** ** Splitting and joining *)

Definition no_slash (e : string) : Prop := all_chars (λ c, negb (is_char Separator c)) e = true.

Lemma no_slash_cons c e : no_slash (String c e) ↔ c ≠ Separator ∧ no_slash e.
Proof.
  unfold no_slash, is_char. simpl. rewrite andb_true_iff, negb_true_iff, bool_decide_eq_false. naive_solver.
Qed.

Lemma split_path_ne s : split_path s ≠ [].
Proof. destruct s as [|c s]; simpl; [done|]. case_decide; [done|]. by destruct (split_path s). Qed.

Lemma split_path_no_slash s : Forall no_slash (split_path s).
Proof.
  induction s as [|c s IH]; simpl; [by constructor|]. case_decide; [by constructor|].
  destruct (split_path s) as [|e l].
  - constructor; [|done]. by apply no_slash_cons.
  - inversion IH; subst. constructor; [|done]. by apply no_slash_cons.
Qed.

Lemma split_path_app e s : no_slash e → split_path (e +:+ String Separator s) = e :: split_path s.
Proof.
  induction e as [|c e IH]; intros He; [done|]. apply no_slash_cons in He as [Hc He].
  rewrite app_cons_str. simpl. rewrite decide_False by done. by rewrite IH.
Qed.

Lemma split_path_one e : no_slash e → split_path e = [e].
Proof.
  induction e as [|c e IH]; intros He; [done|]. apply no_slash_cons in He as [Hc He].
  simpl. rewrite decide_False by done. by rewrite IH.
Qed.

(** Splitting at any slash splits the elements there. *)
Lemma split_path_cut s t : split_path (s +:+ String Separator t) = split_path s ++ split_path t.
Proof.
  induction s as [|c s IH]; [done|]. rewrite app_cons_str. simpl. rewrite IH.
  case_decide; [done|]. destruct (split_path s) as [|e l] eqn:E; [by apply split_path_ne in E|done].
Qed.

Lemma Join_cons2 (a b : string) l sep : Join (a :: b :: l) sep = a +:+ sep +:+ Join (b :: l) sep.
Proof. done. Qed.

Lemma split_Join l : l ≠ [] → Forall no_slash l → split_path (Join l "/") = l.
Proof.
  induction l as [|e l IH]; intros Hne Hl; [done|]. inversion Hl as [|? ? He Hl']; subst.
  destruct l as [|e' l]; [by apply split_path_one|].
  rewrite Join_cons2. change ("/" +:+ Join (e' :: l) "/") with (String Separator (Join (e' :: l) "/")).
  rewrite split_path_app by done. by rewrite IH.
Qed.

Lemma Join_split s : Join (split_path s) "/" = s.
Proof.
  induction s as [|c s IH]; [done|]. simpl. case_decide as Hc.
  - destruct (split_path s) as [|e l] eqn:E; [by apply split_path_ne in E|].
    rewrite Join_cons2, IH. by subst.
  - destruct (split_path s) as [|e l] eqn:E; [by apply split_path_ne in E|].
    destruct l as [|e' l]; simpl in *; [by subst|].
    rewrite app_cons_str. by f_equal.
Qed.

(** ** Absolute clean paths *)

(** An element that names an entry of a directory. *)
Definition plain (e : string) : Prop := e ≠ "" ∧ e ≠ "." ∧ e ≠ ".." ∧ no_slash e.

Definition rooted (es : list string) : string := "/" +:+ Join es "/".

Lemma clean_step_plain st e : no_slash e → Forall plain st → Forall plain (clean_step true st e).
Proof.
  unfold clean_step. intros He Hst. repeat case_bool_decide; try done.
  - destruct Hst as [|e' st' He' Hst']; [done|]. rewrite bool_decide_false by apply He'. done.
  - by constructor.
Qed.

Lemma clean_fold_plain l st :
  Forall no_slash l → Forall plain st → Forall plain (fold_left (clean_step true) l st).
Proof.
  intros Hl. revert st. induction Hl as [|e l He _ IH]; intros st Hst; simpl; [done|].
  apply IH. by apply clean_step_plain.
Qed.

Lemma clean_elems_plain l : Forall no_slash l → Forall plain (clean_elems true l).
Proof. intros Hl. apply Forall_reverse. by apply clean_fold_plain. Qed.

Lemma clean_step_push r st e : plain e → clean_step r st e = e :: st.
Proof. intros (? & ? & ? & _). unfold clean_step. by rewrite !bool_decide_false. Qed.

Lemma clean_fold_push r l st : Forall plain l → fold_left (clean_step r) l st = reverse l ++ st.
Proof.
  intros Hl. revert st. induction Hl as [|e l He _ IH]; intros st; simpl; [done|].
  rewrite clean_step_push, IH by done. by rewrite reverse_cons, <-(assoc_L (++)).
Qed.

Lemma plain_no_slash l : Forall plain l → Forall no_slash l.
Proof. intros H. eapply Forall_impl; [exact H|]. by intros e (_ & _ & _ & ?). Qed.

Lemma split_rooted es :
  Forall plain es → split_path (rooted es) = "" :: match es with [] => [""] | _ => es end.
Proof.
  intros Hes. unfold rooted. change ("/" +:+ Join es "/") with (String Separator (Join es "/")). simpl.
  f_equal. destruct es as [|e es]; [done|].
  apply split_Join; [done|]. by apply plain_no_slash.
Qed.

Lemma path_elems_rooted es : Forall plain es → path_elems (rooted es) = es.
Proof.
  intros Hes. unfold path_elems. rewrite split_rooted by done. rewrite filter_cons_False by auto.
  destruct Hes as [|e es He Hes]; [done|].
  apply filter_all. constructor; [apply He|]. eapply Forall_impl; [done|]. by intros ? [? _].
Qed.

Lemma rooted_inj es es' : Forall plain es → Forall plain es' → rooted es = rooted es' → es = es'.
Proof. intros H1 H2 E. by rewrite <-(path_elems_rooted es), <-(path_elems_rooted es'), E. Qed.

Lemma Clean_abs p : IsAbs p = true → Clean p = rooted (clean_elems true (split_path p)).
Proof. intros Hp. unfold Clean. rewrite bool_decide_false by (by intros ->). by rewrite Hp. Qed.

Lemma clean_elems_app l1 l2 :
  clean_elems true (l1 ++ l2) = reverse (fold_left (clean_step true) l2 (reverse (clean_elems true l1))).
Proof. unfold clean_elems. by rewrite fold_left_app, reverse_involutive. Qed.

Lemma clean_elems_rooted es : Forall plain es → clean_elems true (split_path (rooted es)) = es.
Proof.
  intros Hes. rewrite split_rooted by done. unfold clean_elems. simpl.
  destruct Hes as [|e es He Hes]; [done|].
  rewrite clean_fold_push by (by constructor). by rewrite app_nil_r, reverse_involutive.
Qed.

Lemma Clean_rooted es : Forall plain es → Clean (rooted es) = rooted es.
Proof. intros Hes. rewrite Clean_abs by done. by rewrite clean_elems_rooted. Qed.

Lemma Clean_is_rooted p : IsAbs p = true → ∃ es, Forall plain es ∧ Clean p = rooted es.
Proof.
  intros Hp. eexists. split; [|by apply Clean_abs]. apply clean_elems_plain, split_path_no_slash.
Qed.

Lemma IsAbs_app p s : IsAbs p = true → IsAbs (p +:+ s) = true.
Proof. unfold IsAbs. rewrite !HasPrefix_spec. intros [t ->]. exists (t +:+ s). by rewrite app_assoc_str. Qed.

(** [Abs] gives an absolute clean path, provided the working directory is one. *)
Lemma Abs_rooted getwd path r :
  (∀ wd, getwd = Ok wd → IsAbs wd = true) → Abs getwd path = Ok r →
  ∃ es, Forall plain es ∧ r = rooted es.
Proof.
  unfold Abs. intros Hwd. destruct (IsAbs path) eqn:Ha.
  - intros [= <-]. by apply Clean_is_rooted.
  - intros (wd & H & [= <-])%bind_Ok. specialize (Hwd _ H).
    assert (wd ≠ "") as Hne by (by intros ->). simpl. rewrite bool_decide_false by done.
    apply Clean_is_rooted. by apply IsAbs_app.
Qed.

(** *** Rel *)

Lemma strip_common_spec b t b' t' :
  strip_common b t = (b', t') → ∃ c, b = c ++ b' ∧ t = c ++ t'.
Proof.
  revert t. induction b as [|x b IH]; intros [|y t]; simpl; try (intros [= <- <-]; by exists []).
  case_decide; [|intros [= <- <-]; by exists []]. intros (c & -> & ->)%IH. subst. by exists (y :: c).
Qed.

Lemma strip_common_prefix b t : strip_common b (b ++ t) = ([], t).
Proof. induction b as [|x b IH]; simpl; [by destruct t|]. by rewrite decide_True. Qed.

Lemma Rel_rooted b t :
  Forall plain b → Forall plain t →
  Rel (rooted b) (rooted t) =
  Ok (if decide (t = b) then "." else
      let '(b', t') := strip_common b t in Join (((λ _, "..") <$> b') ++ t') "/").
Proof.
  intros Hb Ht. unfold Rel. rewrite !Clean_rooted by done. case_decide as Heq.
  { subst. by rewrite bool_decide_true. }
  rewrite bool_decide_false by (intros ?; by apply Heq, rooted_inj).
  rewrite (bool_decide_false (rooted b = ".")) by done.
  change (IsAbs (rooted b)) with true. change (IsAbs (rooted t)) with true. cbn [xorb].
  rewrite !path_elems_rooted by done. destruct (strip_common b t) as [b' t'] eqn:E.
  apply strip_common_spec in E as (c & -> & _). apply Forall_app in Hb as [_ Hb].
  destruct Hb as [|x b' Hx _]; [done|]. destruct Hx as (_ & _ & Hx & _).
  repeat (case_match; try done).
Qed.
