(* ===== verification/FsStore.v ===== *)
(** The filesystem spec store (spec/store.go): [FilesystemSpecStore].

    The working directory, the files and the YAML decoder are parameters; the
    files do not change while a chain is resolved.  Links are the operating
    system's: confinement is about the path that is opened. *)

From S2P Require Import Prelude GoStrings Errors Types Extends Filepath.
From stdpp Require Import options.

Record FilesystemSpecStore := mkFilesystemSpecStore { Root : string }.

(** [rel == ".." || len(rel) >= 3 && rel[:3] == "../"]. *)
Definition escapes (rel : string) : bool :=
  (bool_decide (rel = "..") ||
   (Nat.leb 3 (String.length rel) && bool_decide (String.substring 0 3 rel = "../")))%bool.

Section store.
(** os.Getwd, os.Open with reading to the end, os.IsNotExist and the strict YAML
    decoder. *)
Context (getwd : res error string).
Context (os_Open : string → res error string) (IsNotExist : error → bool).
Context (yaml_AgentSpec : string → res error AgentSpec).

Definition resolve_ref (s : FilesystemSpecStore) (ref : string) : option string :=
  if IsAbs ref then None
  else match Abs getwd (Root s) with
  | Err _ => None
  | Ok rootAbs =>
    let candidate := JoinPath [rootAbs; Clean ref] in
    match Rel rootAbs candidate with
    | Err _ => None
    | Ok rel => if escapes rel then None else Some candidate
    end
  end.

Definition not_found (ref : string) : error :=
  EWrap (Sprintf "FilesystemSpecStore: %s: %w" [FS ref]) (ESentinel ErrSpecNotFound).

Definition read_spec (ref clean : string) : res error AgentSpec :=
  match os_Open clean with
  | Err err =>
    if IsNotExist err then Err (not_found ref)
    else Err (EWrap (Sprintf "FilesystemSpecStore: open %s: %w" [FS ref]) err)
  | Ok f => map_err (EWrap (Sprintf "FilesystemSpecStore: decode %s: %w" [FS ref])) (yaml_AgentSpec f)
  end.

Definition FilesystemSpecStore_Load (s : FilesystemSpecStore) (ctx : context) (clock : nat)
    (ref : string) : nat * res error (option AgentSpec) :=
  (S clock,
   match ctx_Err ctx clock with
   | Some err => Err err
   | None =>
     match resolve_ref s ref with
     | None => Err (not_found ref)
     | Some clean => Some <$> read_spec ref clean
     end
   end).

Definition filesystem_store (s : FilesystemSpecStore) : SpecStore :=
  mkSpecStore (FilesystemSpecStore_Load s).

(** What the store holds. *)
Definition fs_content (s : FilesystemSpecStore) (ref : string) : option AgentSpec :=
  clean ← resolve_ref s ref;
  match os_Open clean with
  | Ok f => match yaml_AgentSpec f with Ok sp => Some sp | Err _ => None end
  | Err _ => None
  end.

(** A tree where every file under the root can be read and decoded. *)
Definition tidy (s : FilesystemSpecStore) : Prop :=
  ∀ ref clean, resolve_ref s ref = Some clean →
  match os_Open clean with
  | Ok f => is_ok (yaml_AgentSpec f) = true
  | Err e => IsNotExist e = true
  end.
End store.

(** ** The escape test *)

Lemma escapes_spec rel : escapes rel = true ↔ rel = ".." ∨ ∃ u, rel = ".." +:+ String Separator u.
Proof.
  unfold escapes. rewrite orb_true_iff, andb_true_iff, !bool_decide_eq_true. split.
  - intros [->|[_ H]]; [by left|]. destruct rel as [|a [|b [|c u]]]; simpl in H; simplify_eq.
    right. by exists u.
  - intros [->|[u ->]]; [by left|]. right. split; [done|]. simpl. by destruct u.
Qed.

(** Of a relative path given by its elements, the first one decides. *)
Lemma escapes_Join l :
  l ≠ [] → Forall no_slash l → escapes (Join l "/") = true ↔ head l = Some "..".
Proof.
  intros Hne Hl. rewrite escapes_spec. split.
  - intros H. rewrite <-(split_Join l) by done. destruct H as [->|[u ->]]; [done|].
    by rewrite split_path_app.
  - destruct l as [|e [|e' l]]; simpl; intros ?; simplify_eq; [by left|]. right. by eexists.
Qed.

Lemma escapes_Rel b t :
  Forall plain b → Forall plain t →
  (∃ rel, Rel (rooted b) (rooted t) = Ok rel ∧ escapes rel = false) ↔ b `prefix_of` t.
Proof.
  intros Hb Ht. rewrite Rel_rooted by done. case_decide as Heq.
  { subst. split; [done|]. intros _. by eexists. }
  destruct (strip_common b t) as [b' t'] eqn:E.
  assert (b' = [] ↔ b `prefix_of` t) as <-.
  { split.
    - intros ->. apply strip_common_spec in E as (c & -> & ->). rewrite app_nil_r. by exists t'.
    - intros [u ->]. rewrite strip_common_prefix in E. naive_solver. }
  apply strip_common_spec in E as (c & -> & ->).
  apply Forall_app in Hb as [_ Hb]. apply Forall_app in Ht as [_ Ht].
  assert (Hns : Forall no_slash (((λ _ : string, "..") <$> b') ++ t')).
  { apply Forall_app. split; [|by apply plain_no_slash]. apply Forall_fmap, Forall_true. done. }
  destruct b' as [|x b'].
  - split; [done|]. intros _. eexists. split; [done|]. apply not_true_iff_false.
    destruct t' as [|y t']; [done|]. rewrite escapes_Join by done.
    intros [= ->]. inversion Ht as [|? ? Hy]; subst. by destruct Hy as (_ & _ & ? & _).
  - split; [|done]. intros (rel & Hrel & He).
    assert (rel = Join (((λ _ : string, "..") <$> x :: b') ++ t') "/") as -> by congruence.
    assert (Hne : ((λ _ : string, "..") <$> x :: b') ++ t' ≠ []) by (by csimpl).
    destruct (escapes_Join _ Hne Hns) as [_ H']. by rewrite H' in He.
Qed.

(** ** Confinement *)

(** The candidate path, by its elements. *)
Lemma candidate_rooted re c :
  Forall plain re →
  JoinPath [rooted re; c] = rooted (clean_elems true (split_path (rooted re) ++ split_path c)).
Proof.
  intros Hre. cbn [JoinPath]. rewrite bool_decide_false by done.
  rewrite Join_cons2. change (Join [c] "/") with c. change ("/" +:+ c) with (String Separator c).
  rewrite Clean_abs by (by apply IsAbs_app). by rewrite split_path_cut.
Qed.

Lemma candidate_plain re c :
  Forall plain (clean_elems true (split_path (rooted re) ++ split_path c)).
Proof. apply clean_elems_plain, Forall_app. split; apply split_path_no_slash. Qed.

Lemma resolve_ref_spec getwd s ref p :
  (∀ wd, getwd = Ok wd → IsAbs wd = true) →
  resolve_ref getwd s ref = Some p ↔
  IsAbs ref = false ∧ ∃ re rest, Forall plain (re ++ rest) ∧
    Abs getwd (Root s) = Ok (rooted re) ∧ p = rooted (re ++ rest) ∧
    JoinPath [rooted re; Clean ref] = p.
Proof.
  intros Hwd. unfold resolve_ref. destruct (IsAbs ref); [split; [done|by intros [? _]]|].
  destruct (Abs getwd (Root s)) as [r|e] eqn:Ha; [|split; [done|]; intros (_ & ? & ? & _ & ? & _); done].
  destruct (Abs_rooted _ _ _ Hwd Ha) as (re & Hre & ->).
  set (ce := clean_elems true (split_path (rooted re) ++ split_path (Clean ref))).
  assert (Hce : Forall plain ce) by apply candidate_plain.
  rewrite candidate_rooted by done. fold ce.
  pose proof (escapes_Rel re ce Hre Hce) as Hesc. split.
  - destruct (Rel (rooted re) (rooted ce)) as [rel|] eqn:Hrel; [|done].
    destruct (escapes rel) eqn:He; [done|]. intros [= <-].
    destruct (proj1 Hesc) as [rest Hrest]; [by eexists|]. split; [done|].
    exists re, rest. rewrite <-Hrest. split_and!; [done..|]. by apply candidate_rooted.
  - intros (_ & re' & rest & Hpl & Er & -> & E).
    assert (Hre' : Forall plain re') by (by apply Forall_app in Hpl as [? _]).
    assert (re = re') as <- by (apply rooted_inj; [done|done|congruence]).
    rewrite candidate_rooted in E by done. apply rooted_inj in E; [|done|done].
    destruct (proj2 Hesc) as (rel & -> & ->); [by exists rest|]. fold ce in E. by rewrite E.
Qed.

Section store_properties.
Context (getwd : res error string).
Context (os_Open : string → res error string) (IsNotExist : error → bool).
Context (yaml_AgentSpec : string → res error AgentSpec).
Hypothesis getwd_absolute : ∀ wd, getwd = Ok wd → IsAbs wd = true.

(** C25: a reference is resolved exactly when it is relative and the joined path
    stays below the root: the path that is opened is then absolute and clean,
    and its elements are the root's followed by plain names, so no [..] is left
    to lead out of the root. *)
Theorem store_path_confined s ref p :
  resolve_ref getwd s ref = Some p ↔
  IsAbs ref = false ∧ ∃ re rest, Forall plain (re ++ rest) ∧
    Abs getwd (Root s) = Ok (rooted re) ∧ p = rooted (re ++ rest) ∧
    JoinPath [rooted re; Clean ref] = p.
Proof using getwd_absolute. by apply resolve_ref_spec. Qed.

(** every reference made of plain names is resolved, to the file of that
    name under the root. *)
Theorem store_accepts_names s re es :
  Forall plain re → Abs getwd (Root s) = Ok (rooted re) → es ≠ [] → Forall plain es →
  resolve_ref getwd s (Join es "/") = Some (rooted (re ++ es)).
Proof using getwd_absolute.
  intros Hre Ha Hne Hes. assert (Hns := plain_no_slash _ Hes).
  assert (Hsp := split_Join es Hne Hns).
  assert (Habs : IsAbs (Join es "/") = false).
  { apply not_true_iff_false. unfold IsAbs. intros [t Ht]%HasPrefix_spec.
    rewrite Ht in Hsp. simpl in Hsp. destruct Hes as [|e es [He _] _]; [done|]. congruence. }
  assert (Hc : Clean (Join es "/") = Join es "/").
  { unfold Clean. rewrite Habs, Hsp. unfold clean_elems.
    rewrite clean_fold_push, app_nil_r, reverse_involutive by done.
    destruct es; [done|]. rewrite bool_decide_false; [done|]. intros E. rewrite E in Hsp.
    simplify_eq/=. inversion Hes as [|? ? [? _]]; done. }
  apply resolve_ref_spec; [done|]. split; [done|].
  assert (Hpl : Forall plain (re ++ es)) by (by apply Forall_app).
  exists re, es. split_and!; [done..|].
  rewrite Hc, candidate_rooted, Hsp by done.
  rewrite clean_elems_app, clean_elems_rooted, clean_fold_push by done.
  by rewrite reverse_app, !reverse_involutive.
Qed.
End store_properties.

(** ** The contract of a SpecStore *)

Section store_contract.
Context (getwd : res error string).
Context (os_Open : string → res error string) (IsNotExist : error → bool).
Context (yaml_AgentSpec : string → res error AgentSpec).
Local Abbreviation store := (filesystem_store getwd os_Open IsNotExist yaml_AgentSpec).
Local Abbreviation content := (fs_content getwd os_Open yaml_AgentSpec).

(** The filesystem store keeps the promise that chain resolution relies on, as
    long as every file below the root can be read. *)
#[export] Instance filesystem_store_holds s :
  tidy getwd os_Open IsNotExist yaml_AgentSpec s → Holds (store s) (content s).
Proof.
  intros Ht. split; simpl; unfold FilesystemSpecStore_Load, fs_content, read_spec.
  - intros ctx t ref t' sp. destruct (ctx_Err ctx t); [done|].
    destruct (resolve_ref getwd s ref) as [p|]; [|done]. simpl.
    destruct (os_Open p) as [f|e]; [|by destruct (IsNotExist e)].
    destruct (yaml_AgentSpec f); naive_solver.
  - intros ctx t ref sp Hl. rewrite (Hl t). destruct (resolve_ref getwd s ref) as [p|]; [|done]. simpl.
    destruct (os_Open p) as [f|e]; [|done]. destruct (yaml_AgentSpec f); naive_solver.
  - intros ctx t ref Hl. rewrite (Hl t). specialize (Ht ref).
    destruct (resolve_ref getwd s ref) as [p|]; simpl; [|by eauto].
    specialize (Ht p eq_refl). destruct (os_Open p) as [f|e].
    + destruct (yaml_AgentSpec f); [done|discriminate Ht].
    + rewrite Ht. by eauto.
Qed.

(** Errors of the operating system and of the decoder are not the store's. *)
Hypothesis foreign_open : ∀ p e, os_Open p = Err e → errors_is e ErrSpecNotFound = false.
Hypothesis foreign_yaml : ∀ f e, yaml_AgentSpec f = Err e → errors_is e ErrSpecNotFound = false.

(** a load that is not cancelled answers in one of two ways: the
    specification decoded from the confined path, or an error, which is
    ErrSpecNotFound exactly when the reference leaves the root or names no
    file; unreadable and malformed files are reported as other errors. *)
Theorem store_load_branches s ctx clock ref :
  ctx_Err ctx clock = None →
  match (FilesystemSpecStore_Load getwd os_Open IsNotExist yaml_AgentSpec s ctx clock ref).2 with
  | Ok o => ∃ sp p f, o = Some sp ∧ resolve_ref getwd s ref = Some p ∧ os_Open p = Ok f ∧
      yaml_AgentSpec f = Ok sp
  | Err e =>
    errors_is e ErrSpecNotFound = true ↔
    resolve_ref getwd s ref = None ∨
    ∃ p e', resolve_ref getwd s ref = Some p ∧ os_Open p = Err e' ∧ IsNotExist e' = true
  end.
Proof using foreign_open foreign_yaml.
  intros Hc. unfold FilesystemSpecStore_Load, read_spec. rewrite Hc. cbn [snd].
  destruct (resolve_ref getwd s ref) as [p|]; [|split; [by left|done]].
  destruct (os_Open p) as [f|e] eqn:Ho.
  - destruct (yaml_AgentSpec f) as [sp|e] eqn:Hy; simpl; [eauto 10|].
    rewrite (foreign_yaml _ _ Hy). split; [done|]. intros [?|(?&?&?&?&?)]; congruence.
  - destruct (IsNotExist e) eqn:Hn; simpl.
    + split; [|done]. intros _. right. eauto.
    + rewrite (foreign_open _ _ Ho). split; [done|]. intros [?|(?&?&?&?&?)]; congruence.
Qed.
End store_contract.

(** ** Witnesses *)

(** A tree with one parent file below the root /srv/specs. *)
Definition sample_fs (p : string) : res error string :=
  if bool_decide (p = "/srv/specs/base.yaml") then Ok "base" else Err (EOpaque "no such file").
Definition sample_store : FilesystemSpecStore := mkFilesystemSpecStore "specs/".
Definition sample_getwd : res error string := Ok "/srv".
Definition sample_yaml (f : string) : res error AgentSpec := Ok zeroAgentSpec.

Lemma sample_getwd_absolute : ∀ wd, sample_getwd = Ok wd → IsAbs wd = true.
Proof. by intros wd [= <-]. Qed.

Example store_path_confined_witness :
  resolve_ref sample_getwd sample_store "sub/../base.yaml" = Some "/srv/specs/base.yaml" ∧
  resolve_ref sample_getwd sample_store "../secret.yaml" = None ∧ IsAbs "sub/../base.yaml" = false.
Proof.
  split_and!; [vm_compute; reflexivity..|].
  apply (store_path_confined sample_getwd sample_getwd_absolute sample_store "sub/../base.yaml"
    "/srv/specs/base.yaml"). vm_compute. reflexivity.
Defined.

Example store_accepts_names_witness :
  resolve_ref sample_getwd sample_store "base.yaml" = Some "/srv/specs/base.yaml".
Proof.
  apply (store_accepts_names sample_getwd sample_getwd_absolute sample_store ["srv"; "specs"] ["base.yaml"]).
  - repeat constructor; try discriminate; vm_compute; reflexivity.
  - vm_compute. reflexivity.
  - discriminate.
  - repeat constructor; try discriminate; vm_compute; reflexivity.
Defined.

Example store_load_branches_witness :
  match (FilesystemSpecStore_Load sample_getwd sample_fs (λ _, true) sample_yaml sample_store Background 0
           "../secret.yaml").2 with
  | Ok _ => False
  | Err e => errors_is e ErrSpecNotFound = true
  end.
Proof.
  assert (Ho : ∀ p e, sample_fs p = Err e → errors_is e ErrSpecNotFound = false).
  { intros p e. unfold sample_fs. case_bool_decide; intros [=]; subst; reflexivity. }
  pose proof (store_load_branches sample_getwd sample_fs (λ _, true) sample_yaml Ho
    ltac:(discriminate) sample_store Background 0 "../secret.yaml" eq_refl) as H.
  assert (Hr : resolve_ref sample_getwd sample_store "../secret.yaml" = None) by (vm_compute; reflexivity).
  destruct (_.2) as [sp|e] in H |- *.
  - destruct H as (sp' & p & f & _ & Hp & _). rewrite Hr in Hp. discriminate.
  - apply (proj2 H). left. exact Hr.
Defined.
