(* ===== verification/Overlay.v ===== *)
(** Decoding of an overlay body (spec/overlay.go): the tri-state [RefList] and
    the strict [UnmarshalYAML] methods of [AgentOverlayBody], [OverlayMetadata]
    and [FilterOverlay].

    A [Node] is the tree of gopkg.in/yaml.v3, as far as the code looks at it.
    [node.Decode(&x)] is the library's: one parameter per type it is called at;
    where the type has an [UnmarshalYAML] method of its own or in a field, the
    parameter takes that method as an argument. *)

From S2P Require Import Prelude GoStrings Errors Types Merge.
From stdpp Require Import options.

(** [yaml.Kind], a bit set of one element; [OtherKind] is any other value. *)
Inductive yaml_Kind :=
| DocumentNode | SequenceNode | MappingNode | ScalarNode | AliasNode | OtherKind (k : nat).
#[export] Instance yaml_Kind_eq_dec : EqDecision yaml_Kind.
Proof. solve_decision. Defined.

Inductive Node := mkNode {
  n_Kind : yaml_Kind; n_Tag : string; n_Value : string; n_Line : Z; n_Content : list Node;
}.

Definition yamlNullTag : string := "!!null".

Definition nodeKindName (k : yaml_Kind) : string :=
  match k with
  | DocumentNode => "document"
  | SequenceNode => "sequence"
  | MappingNode => "mapping"
  | ScalarNode => "scalar"
  | AliasNode => "alias"
  | OtherKind k => "kind(" +:+ Itoa k +:+ ")"
  end.

(** [allowedFields[keyNode.Value]] for every key of the mapping: the first pass of
    the three methods. *)
Fixpoint check_fields (allowed : list string) (tname : string) (content : list Node) : res error () :=
  match content with
  | [] => Ok ()
  | keyNode :: rest =>
    if bool_decide (n_Value keyNode ∈ allowed) then
      match rest with [] => Ok () | _ :: rest' => check_fields allowed tname rest' end
    else Err (EText (Sprintf "field %q not found in type spec.%s" [FS (n_Value keyNode); FS tname]))
  end.

(** The loop over the key and value nodes; [node.Content[i+1]] panics when the
    last key has no value. *)
Fixpoint each_field {St} (f : St → string → Node → res error St) (st : St) (content : list Node)
    : res error St :=
  match content with
  | [] => Ok st
  | [_] => Err (EPanic "index out of range")
  | keyNode :: valueNode :: rest =>
    st' ← f st (n_Value keyNode) valueNode; each_field f st' rest
  end.

Definition want_mapping (tname : string) (node : Node) : res error () :=
  if bool_decide (n_Kind node = MappingNode) then Ok ()
  else Err (EText (Sprintf "%s: expected mapping, got %s" [FS tname; FS (nodeKindName (n_Kind node))])).

Definition metadata_fields : list string :=
  ["id"; "version"; "displayName"; "description"; "owners"; "labels"].
Definition body_fields : list string :=
  ["metadata"; "provider"; "prompt"; "tools"; "policies"; "filters"; "budget"; "telemetry";
   "credentials"; "identity"].
Definition filter_fields : list string := ["preLLM"; "preTool"; "postTool"].

(** The fields the second pass of the body decodes. *)
Record rawBody := mkRawBody {
  rb_Metadata : option OverlayMetadata; rb_Provider : option ComponentRef;
  rb_Prompt : option PromptBlock; rb_Filters : option FilterOverlay;
  rb_Budget : option BudgetRef; rb_Telemetry : option ComponentRef;
  rb_Credentials : option CredRef; rb_Identity : option ComponentRef;
}.

Section decode.
(** [node.Decode] at []ComponentRef, rawMetadata, rawBody and RefList. *)
Context (Decode_Items : Node → res error (slice ComponentRef)).
Context (Decode_rawMetadata : Node → res error OverlayMetadata).
Context (Decode_rawBody :
  (Node → res error OverlayMetadata) → (Node → res error FilterOverlay) → Node → res error rawBody).
Context (Decode_RefList : (Node → res error RefList) → Node → res error RefList).

(** [UnmarshalYAML] of RefList, on the zero RefList its callers pass. *)
Definition RefList_UnmarshalYAML (node : Node) : res error RefList :=
  match n_Kind node with
  | SequenceNode =>
    items ← map_err (EWrap (Sprintf "decode RefList at line %d: %w" [FD (n_Line node)]))
              (Decode_Items node);
    Ok (mkRefList true items (n_Line node))
  | ScalarNode =>
    if (bool_decide (n_Tag node = "!!null") || bool_decide (n_Value node = ""))%bool
    then Ok (mkRefList true None (n_Line node))
    else Err (EText (Sprintf "RefList at line %d: expected sequence or null, got scalar %q"
           [FD (n_Line node); FS (n_Value node)]))
  | k => Err (EText (Sprintf "RefList at line %d: expected sequence or null, got %s"
           [FD (n_Line node); FS (nodeKindName k)]))
  end.

Definition decodeRefList (node : Node) : res error RefList :=
  if (bool_decide (n_Kind node = ScalarNode) && bool_decide (n_Tag node = yamlNullTag))%bool
  then Ok (mkRefList true None (n_Line node))
  else Decode_RefList RefList_UnmarshalYAML node.

Definition decodeFilterRefList : Node → res error RefList := decodeRefList.

Definition OverlayMetadata_UnmarshalYAML (node : Node) : res error OverlayMetadata :=
  _ ← want_mapping "OverlayMetadata" node;
  _ ← check_fields metadata_fields "OverlayMetadata" (n_Content node);
  Decode_rawMetadata node.

Definition zeroFilterOverlay : FilterOverlay := mkFilterOverlay zeroRefList zeroRefList zeroRefList.

Definition set_filter (f : FilterOverlay) (key : string) (valueNode : Node) : res error FilterOverlay :=
  if bool_decide (key = "preLLM") then
    r ← decodeFilterRefList valueNode; Ok (mkFilterOverlay r (fo_PreTool f) (fo_PostTool f))
  else if bool_decide (key = "preTool") then
    r ← decodeFilterRefList valueNode; Ok (mkFilterOverlay (fo_PreLLM f) r (fo_PostTool f))
  else if bool_decide (key = "postTool") then
    r ← decodeFilterRefList valueNode; Ok (mkFilterOverlay (fo_PreLLM f) (fo_PreTool f) r)
  else Ok f.

Definition FilterOverlay_UnmarshalYAML (node : Node) : res error FilterOverlay :=
  _ ← want_mapping "FilterOverlay" node;
  _ ← check_fields filter_fields "FilterOverlay" (n_Content node);
  each_field set_filter zeroFilterOverlay (n_Content node).

Definition body_of_raw (raw : rawBody) (tools policies : RefList) : AgentOverlayBody :=
  mkAgentOverlayBody (rb_Metadata raw) (rb_Provider raw) (rb_Prompt raw) tools policies
    (rb_Filters raw) (rb_Budget raw) (rb_Telemetry raw) (rb_Credentials raw) (rb_Identity raw).

(** The third pass: [b.Tools] and [b.Policies]. *)
Definition set_list (b : RefList * RefList) (key : string) (valueNode : Node)
    : res error (RefList * RefList) :=
  if bool_decide (key = "tools") then r ← decodeRefList valueNode; Ok (r, b.2)
  else if bool_decide (key = "policies") then r ← decodeRefList valueNode; Ok (b.1, r)
  else Ok b.

Definition AgentOverlayBody_UnmarshalYAML (node : Node) : res error AgentOverlayBody :=
  _ ← want_mapping "AgentOverlayBody" node;
  _ ← check_fields body_fields "AgentOverlayBody" (n_Content node);
  raw ← Decode_rawBody OverlayMetadata_UnmarshalYAML FilterOverlay_UnmarshalYAML node;
  lists ← each_field set_list (zeroRefList, zeroRefList) (n_Content node);
  Ok (body_of_raw raw lists.1 lists.2).
End decode.

(** ** Lemmas *)

(** The keys of a mapping, and the last value of a key. *)
Fixpoint keys_of (content : list Node) : list string :=
  match content with
  | [] => []
  | [k] => [n_Value k]
  | k :: _ :: rest => n_Value k :: keys_of rest
  end.
Fixpoint value_of (key : string) (content : list Node) : option Node :=
  match content with
  | k :: v :: rest =>
    match value_of key rest with
    | Some v' => Some v'
    | None => if decide (n_Value k = key) then Some v else None
    end
  | _ => None
  end.

(** Induction over key and value nodes. *)
Lemma content_ind (P : list Node → Prop) :
  P [] → (∀ k, P [k]) → (∀ k v l, P l → P (k :: v :: l)) → ∀ l, P l.
Proof.
  intros H0 H1 H2. fix IH 1. intros [|k [|v l]]; [done|apply H1|]. apply H2, IH.
Qed.

Lemma check_fields_Ok allowed tname content :
  check_fields allowed tname content = Ok () ↔ Forall (λ k, k ∈ allowed) (keys_of content).
Proof.
  induction content as [|k|k v l IH] using content_ind; simpl.
  - split; [by constructor|done].
  - case_bool_decide; rewrite Forall_cons; split; try done; naive_solver.
  - case_bool_decide; rewrite Forall_cons; [rewrite IH|]; naive_solver.
Qed.

Lemma check_fields_result allowed tname content (r : ()) :
  check_fields allowed tname content = Ok r ↔ Forall (λ k, k ∈ allowed) (keys_of content).
Proof. destruct r. apply check_fields_Ok. Qed.

Lemma want_mapping_Ok tname node (r : ()) : want_mapping tname node = Ok r ↔ n_Kind node = MappingNode.
Proof. unfold want_mapping. destruct r. case_bool_decide; naive_solver. Qed.

(** What a pass over the fields leaves in one component of its state: the
    decoded last value of a key, or the value from before. *)
Lemma each_field_last {St} (f : St → string → Node → res error St) (get : St → RefList)
    (dec : Node → res error RefList) key :
  (∀ st k v st', f st k v = Ok st' →
     (k = key ∧ dec v = Ok (get st')) ∨ (k ≠ key ∧ get st' = get st)) →
  ∀ content st st', each_field f st content = Ok st' →
  match value_of key content with
  | Some v => dec v = Ok (get st')
  | None => get st' = get st
  end.
Proof.
  intros Hf content. induction content as [|k|k v l IH] using content_ind; intros st st' H; simpl in H.
  - by simplify_eq.
  - done.
  - inv_res. specialize (IH _ _ ltac:(eassumption)). simpl. destruct (value_of key l) as [v'|]; [done|].
    rewrite IH. edestruct Hf as [[-> Hd]|[Hn He]]; [eassumption|..].
    + by rewrite decide_True.
    + by rewrite decide_False.
Qed.

Section decode_properties.
Context (Decode_Items : Node → res error (slice ComponentRef)).
Context (Decode_rawMetadata : Node → res error OverlayMetadata).
Context (Decode_rawBody :
  (Node → res error OverlayMetadata) → (Node → res error FilterOverlay) → Node → res error rawBody).
Context (Decode_RefList : (Node → res error RefList) → Node → res error RefList).
Local Abbreviation unmarshal_body :=
  (AgentOverlayBody_UnmarshalYAML Decode_Items Decode_rawMetadata Decode_rawBody Decode_RefList).
Local Abbreviation unmarshal_filters := (FilterOverlay_UnmarshalYAML Decode_Items Decode_RefList).
Local Abbreviation decode_list := (decodeRefList Decode_Items Decode_RefList).

Lemma set_list_tools st k v st' :
  set_list Decode_Items Decode_RefList st k v = Ok st' →
  (k = "tools" ∧ decode_list v = Ok st'.1) ∨ (k ≠ "tools" ∧ st'.1 = st.1).
Proof.
  unfold set_list. repeat case_bool_decide; intros; inv_res; simpl; auto.
Qed.

Lemma set_list_policies st k v st' :
  set_list Decode_Items Decode_RefList st k v = Ok st' →
  (k = "policies" ∧ decode_list v = Ok st'.2) ∨ (k ≠ "policies" ∧ st'.2 = st.2).
Proof.
  unfold set_list. repeat case_bool_decide; intros; inv_res; simpl; subst; auto.
Qed.

Lemma set_filter_stage st k v st' :
  set_filter Decode_Items Decode_RefList st k v = Ok st' →
  ((k = "preLLM" ∧ decode_list v = Ok (fo_PreLLM st')) ∨ (k ≠ "preLLM" ∧ fo_PreLLM st' = fo_PreLLM st)) ∧
  ((k = "preTool" ∧ decode_list v = Ok (fo_PreTool st')) ∨ (k ≠ "preTool" ∧ fo_PreTool st' = fo_PreTool st)) ∧
  ((k = "postTool" ∧ decode_list v = Ok (fo_PostTool st')) ∨
   (k ≠ "postTool" ∧ fo_PostTool st' = fo_PostTool st)).
Proof.
  unfold set_filter, decodeFilterRefList.
  repeat case_bool_decide; intros; inv_res; subst; simpl; split_and!; auto.
Qed.

Lemma unmarshal_body_Ok node b :
  unmarshal_body node = Ok b →
  n_Kind node = MappingNode ∧ Forall (λ k, k ∈ body_fields) (keys_of (n_Content node)) ∧
  ∃ raw lists,
    Decode_rawBody (OverlayMetadata_UnmarshalYAML Decode_rawMetadata) unmarshal_filters node = Ok raw ∧
    each_field (set_list Decode_Items Decode_RefList) (zeroRefList, zeroRefList) (n_Content node) =
      Ok lists ∧ b = body_of_raw raw lists.1 lists.2.
Proof.
  unfold AgentOverlayBody_UnmarshalYAML. intros H. inv_res.
  repeat match goal with
  | H : want_mapping _ _ = Ok _ |- _ => apply want_mapping_Ok in H
  | H : check_fields _ _ _ = Ok _ |- _ => apply check_fields_result in H
  end. eauto 10.
Qed.

(** What one list of an overlay may hold: [v] is the node its field has. *)
Inductive list_field : option Node → RefList → Prop :=
| list_absent : list_field None zeroRefList
| list_null v :
    n_Kind v = ScalarNode → (n_Tag v = "!!null" ∨ n_Value v = "") →
    list_field (Some v) (mkRefList true None (n_Line v))
| list_items v items :
    n_Kind v = SequenceNode → Decode_Items v = Ok items →
    list_field (Some v) (mkRefList true items (n_Line v)).

(** The library calls [UnmarshalYAML] on the node itself, except for aliases
    (it follows them) and nulls (it does not call it). *)
Hypothesis Decode_calls_method : ∀ method node,
  n_Kind node ≠ AliasNode → n_Tag node ≠ yamlNullTag → Decode_RefList method node = method node.

(** The yaml library tags only scalars as null. *)
Definition well_tagged (node : Node) : Prop := n_Tag node = yamlNullTag → n_Kind node = ScalarNode.

Lemma decode_list_field v r :
  n_Kind v ≠ AliasNode → well_tagged v → decode_list v = Ok r → list_field (Some v) r.
Proof using Decode_calls_method.
  intros Ha Ht. unfold decodeRefList.
  destruct (decide (n_Tag v = yamlNullTag)) as [Hn|Hn].
  - rewrite (bool_decide_true _ (Ht Hn)), (bool_decide_true _ Hn). simpl. intros [= <-].
    constructor; auto.
  - rewrite (bool_decide_false (n_Tag v = yamlNullTag)) by done.
    rewrite andb_false_r, Decode_calls_method by done. unfold RefList_UnmarshalYAML.
    destruct (n_Kind v) eqn:Hk; try done.
    + intros H. inv_res. by constructor.
    + destruct (_ || _)%bool eqn:Hb; [|done]. intros [= <-].
      apply orb_true_iff in Hb as [?%bool_decide_eq_true|?%bool_decide_eq_true]; constructor; auto.
Qed.

(** No alias among the values of a mapping, and nulls tagged as such. *)
Definition direct (content : list Node) : Prop :=
  ∀ key v, value_of key content = Some v → n_Kind v ≠ AliasNode ∧ well_tagged v.

Lemma field_of {St} (f : St → string → Node → res error St) (get : St → RefList) key st0 content st :
  (∀ st k v st', f st k v = Ok st' →
     (k = key ∧ decode_list v = Ok (get st')) ∨ (k ≠ key ∧ get st' = get st)) →
  get st0 = zeroRefList → direct content → each_field f st0 content = Ok st →
  list_field (value_of key content) (get st).
Proof using Decode_calls_method.
  intros Hf H0 Hd He. pose proof (each_field_last f get _ key Hf _ _ _ He) as Hl.
  specialize (Hd key). destruct (value_of key content) as [v|].
  - destruct (Hd v eq_refl). by apply decode_list_field.
  - rewrite Hl, H0. constructor.
Qed.

(** the tri-state of overlay lists: in a decoded body a list is unset exactly
    when its key is absent; an explicit null (or an empty scalar) sets it to no
    list at all, and a sequence sets it to the decoded items, with the line of the
    node; nothing else decodes.  The same holds of the three filter stages. *)
Theorem overlay_lists_tristate node b :
  direct (n_Content node) → unmarshal_body node = Ok b →
  list_field (value_of "tools" (n_Content node)) (ob_Tools b) ∧
  list_field (value_of "policies" (n_Content node)) (ob_Policies b) ∧
  (∀ fnode f, direct (n_Content fnode) → unmarshal_filters fnode = Ok f →
     list_field (value_of "preLLM" (n_Content fnode)) (fo_PreLLM f) ∧
     list_field (value_of "preTool" (n_Content fnode)) (fo_PreTool f) ∧
     list_field (value_of "postTool" (n_Content fnode)) (fo_PostTool f)).
Proof using Decode_calls_method.
  intros Hd (_ & _ & raw & lists & _ & He & ->)%unmarshal_body_Ok. split_and!.
  - apply (field_of _ fst _ (zeroRefList, zeroRefList) _ _ set_list_tools eq_refl Hd He).
  - apply (field_of _ snd _ (zeroRefList, zeroRefList) _ _ set_list_policies eq_refl Hd He).
  - intros fnode f Hfd H. unfold FilterOverlay_UnmarshalYAML in H. inv_res.
    split_and!; (eapply (field_of (set_filter Decode_Items Decode_RefList) _ _ zeroFilterOverlay); [|done..]);
      intros ? ? ? ? (? & ? & ?)%set_filter_stage; done.
Qed.

(** decoding is strict: a body, metadata or filter block that is not a
    mapping, or that has any key outside its own fields, never decodes. *)
Theorem overlay_decoding_strict node :
  (is_ok (unmarshal_body node) = true →
     n_Kind node = MappingNode ∧ Forall (λ k, k ∈ body_fields) (keys_of (n_Content node))) ∧
  (is_ok (OverlayMetadata_UnmarshalYAML Decode_rawMetadata node) = true →
     n_Kind node = MappingNode ∧ Forall (λ k, k ∈ metadata_fields) (keys_of (n_Content node))) ∧
  (is_ok (unmarshal_filters node) = true →
     n_Kind node = MappingNode ∧ Forall (λ k, k ∈ filter_fields) (keys_of (n_Content node))).
Proof.
  split_and!; intros [? H]%is_ok_spec.
  - by apply unmarshal_body_Ok in H as (? & ? & _).
  - unfold OverlayMetadata_UnmarshalYAML in H. inv_res.
    by split; [eapply want_mapping_Ok|eapply check_fields_result].
  - unfold FilterOverlay_UnmarshalYAML in H. inv_res.
    by split; [eapply want_mapping_Ok|eapply check_fields_result].
Qed.

(** C26: what an overlay file's [tools] key does to the spec it is applied to: without
    the key the tools and their provenance stay, with a null or an empty scalar
    they are cleared, with a sequence they are replaced by its items, and then the
    provenance names the overlay and the line of the key's value. *)
Theorem overlay_tools_applied node b merged p prov :
  direct (n_Content node) → unmarshal_body node = Ok b →
  let r := applyOne merged b p prov in
  match value_of "tools" (n_Content node) with
  | None => Tools r.1 = Tools merged ∧ pf_Tools r.2 = pf_Tools prov
  | Some v =>
    pf_Tools r.2 = with_line p (n_Line v) ∧
    (n_Kind v = ScalarNode ∧ Tools r.1 = None ∨
     n_Kind v = SequenceNode ∧ Decode_Items v = Ok (Tools r.1))
  end.
Proof using Decode_calls_method.
  intros Hd (_ & _ & raw & lists & _ & He & ->)%unmarshal_body_Ok.
  pose proof (field_of _ fst _ (zeroRefList, zeroRefList) _ _ set_list_tools eq_refl Hd He) as Hf. simpl.
  inversion Hf as [E1 E2|v Hk Ht E1 E2|v items Hk Hi E1 E2]; simpl; auto.
Qed.
End decode_properties.

(** ** Witnesses *)

(** A decoder over plain trees: references are the scalar items of a sequence. *)
Definition sample_items (n : Node) : res error (slice ComponentRef) :=
  Ok (Some ((λ c, mkComponentRef (n_Value c) None) <$> n_Content n)).
Definition sample_metadata (n : Node) : res error OverlayMetadata :=
  Ok (mkOverlayMetadata "" "" "" "" None None).
Definition sample_raw (um : Node → res error OverlayMetadata) (uf : Node → res error FilterOverlay)
    (n : Node) : res error rawBody :=
  fs ← match value_of "filters" (n_Content n) with
       | Some v => f ← uf v; Ok (Some f)
       | None => Ok None
       end;
  Ok (mkRawBody None None None fs None None None None).
Definition sample_reflist (method : Node → res error RefList) (n : Node) : res error RefList :=
  if bool_decide (n_Kind n = AliasNode) then
    match n_Content n with t :: _ => method t | [] => Ok zeroRefList end
  else if bool_decide (n_Tag n = yamlNullTag) then Ok zeroRefList else method n.

Lemma sample_calls_method method n :
  n_Kind n ≠ AliasNode → n_Tag n ≠ yamlNullTag → sample_reflist method n = method n.
Proof. intros. unfold sample_reflist. by rewrite !bool_decide_false. Qed.

Definition scalar (tag value : string) : Node := mkNode ScalarNode tag value 1 [].
(** {tools: null, policies: [policypack.a@1.0.0], filters: {preTool: []}}. *)
Definition sample_body : Node := mkNode MappingNode "!!map" "" 1
  [scalar "!!str" "tools"; scalar "!!null" "";
   scalar "!!str" "policies"; mkNode SequenceNode "!!seq" "" 2 [scalar "!!str" "policypack.a@1.0.0"];
   scalar "!!str" "filters";
   mkNode MappingNode "!!map" "" 3 [scalar "!!str" "preTool"; mkNode SequenceNode "!!seq" "" 3 []]].
Definition decoded_body : AgentOverlayBody :=
  mkAgentOverlayBody None None None (mkRefList true None 1)
    (mkRefList true (Some [mkComponentRef "policypack.a@1.0.0" None]) 2)
    (Some (mkFilterOverlay zeroRefList (mkRefList true (Some []) 3) zeroRefList))
    None None None None.

Lemma sample_body_decodes :
  AgentOverlayBody_UnmarshalYAML sample_items sample_metadata sample_raw sample_reflist sample_body =
  Ok decoded_body.
Proof. vm_compute. reflexivity. Qed.

Lemma direct_tree content :
  forallb (λ v, bool_decide (n_Kind v ≠ AliasNode) &&
    (bool_decide (n_Tag v ≠ yamlNullTag) || bool_decide (n_Kind v = ScalarNode)))%bool content = true →
  direct content.
Proof.
  intros H key v Hv. assert (v ∈ content) as Hin.
  { revert Hv. clear H. induction content as [|k|k v' l IH] using content_ind; simpl; try done.
    destruct (value_of key l); [set_solver|]. case_decide; [|done]. intros [= ->]. set_solver. }
  apply forallb_forall with (x := v) in H; [|by apply list_elem_of_In].
  apply andb_true_iff in H as [?%bool_decide_eq_true Ht]. split; [done|]. unfold well_tagged.
  apply orb_true_iff in Ht as [?%bool_decide_eq_true|?%bool_decide_eq_true]; done.
Qed.

Example overlay_lists_tristate_witness :
  list_field sample_items (value_of "tools" (n_Content sample_body)) (mkRefList true None 1).
Proof.
  apply (overlay_lists_tristate sample_items sample_metadata sample_raw sample_reflist
    sample_calls_method sample_body decoded_body).
  - apply direct_tree. vm_compute. reflexivity.
  - exact sample_body_decodes.
Defined.

Example overlay_decoding_strict_witness :
  Forall (λ k, k ∈ body_fields) (keys_of (n_Content sample_body)).
Proof.
  apply (overlay_decoding_strict sample_items sample_metadata sample_raw sample_reflist sample_body).
  vm_compute. reflexivity.
Defined.

Example overlay_tools_applied_witness :
  Tools (applyOne zeroAgentSpec decoded_body baseProvenance initialProvenance).1 = None.
Proof.
  pose proof (overlay_tools_applied sample_items sample_metadata sample_raw sample_reflist
    sample_calls_method sample_body decoded_body zeroAgentSpec baseProvenance initialProvenance) as H.
  destruct H as [_ [[_ H]|[H _]]].
  - apply direct_tree. vm_compute. reflexivity.
  - exact sample_body_decodes.
  - exact H.
  - discriminate H.
Defined.

(** A quoted empty string, which is not a null, clears the list as well. *)
Example empty_string_clears_tools :
  AgentOverlayBody_UnmarshalYAML sample_items sample_metadata sample_raw sample_reflist
    (mkNode MappingNode "!!map" "" 1 [scalar "!!str" "tools"; scalar "!!str" ""]) =
  Ok (mkAgentOverlayBody None None None (mkRefList true None 1) zeroRefList None None None None None).
Proof. vm_compute. reflexivity. Qed.
