(* ===== verification/RegexReplace.v ===== *)
(** [FindAllStringIndex] and [ReplaceAllString] of the Go package [regexp], for
    expressions that match no empty text (all those praxis-forge replaces).

    Both run over the text from left to right; at each place the preferred match
    is taken if there is one, and the scan goes on after it.  [pieces] is that
    scan: the bytes kept and the texts matched. *)

From S2P Require Import Prelude GoStrings Regex.
From stdpp Require Import options.

Inductive piece := Keep (c : ascii) | Hit (t : string).

Fixpoint pieces (r : regex) (fuel : nat) (x : place) : list piece :=
  match fuel with
  | 0 => []
  | S fuel' =>
    let keep := match x.2 with "" => [] | String c s => Keep c :: pieces r fuel' (Some c, s) end in
    match head (ends r x) with
    | Some y =>
      if Nat.ltb (String.length y.2) (String.length x.2)
      then Hit (consumed x y) :: pieces r fuel' y else keep
    | None => keep
    end
  end.

(** Every turn reads at least one byte: as many turns as bytes are enough. *)
Definition scan (r : regex) (s : string) : list piece := pieces r (String.length s) (start s).

Definition hit_text (p : piece) : option string := match p with Keep _ => None | Hit t => Some t end.
(** The texts of the matches [FindAllStringIndex(s, -1)] locates. *)
Definition FindAllString (r : regex) (s : string) : list string := omap hit_text (scan r s).

Definition piece_source (p : piece) : string := match p with Keep c => str1 c | Hit t => t end.
Definition piece_render (repl : string) (p : piece) : string :=
  match p with Keep c => str1 c | Hit _ => repl end.
Definition concat_map (f : piece → string) (l : list piece) : string :=
  foldr (λ p s, f p +:+ s) "" l.

(** [r.ReplaceAllString(s, repl)], for a replacement without [$]. *)
Definition ReplaceAllString (r : regex) (s repl : string) : string :=
  concat_map (piece_render repl) (scan r s).

(** ** Prefixes and parts of a text *)

Definition starts (P : string → Prop) (s : string) : Prop := ∃ t u, s = t +:+ u ∧ P t.
Definition has (P : string → Prop) (s : string) : Prop := ∃ a t b, s = a +:+ t +:+ b ∧ P t.
Definition free (c : ascii) (t : string) : Prop := all_chars (λ d, negb (is_char c d)) t = true.

Lemma free_cons c d t : free c (String d t) ↔ d ≠ c ∧ free c t.
Proof.
  unfold free, is_char. simpl. rewrite andb_true_iff, negb_true_iff, bool_decide_eq_false. naive_solver.
Qed.

Lemma has_cons P c s : has P (String c s) ↔ starts P (String c s) ∨ has P s.
Proof.
  split.
  - intros ([|c' a] & t & b & H & HP); [left; by exists t, b|].
    right. exists a, t, b. rewrite app_cons_str in H. by simplify_eq.
  - intros [(t & u & H & HP)|(a & t & b & -> & HP)]; [by exists "", t, u|by exists (String c a), t, b].
Qed.

Lemma has_nil P : has P "" → P "".
Proof.
  intros (a & t & b & H & HP). destruct a, t; try done.
Qed.

Lemma prefix_free c t b s1 s2 :
  free c t → t +:+ b = s1 +:+ String c s2 → ∃ b', s1 = t +:+ b'.
Proof.
  revert s1. induction t as [|d t IH]; intros s1 Ht H; [by exists s1|].
  apply free_cons in Ht as [Hd Ht]. rewrite app_cons_str in H.
  destruct s1 as [|d' s1]; rewrite ?app_cons_str, ?app_nil_l_str in H; injection H as ? Heq; [done|].
  subst d'. destruct (IH s1 Ht Heq) as [b' ->]. by exists b'.
Qed.

(** A part without the byte [c] lies on one side of it. *)
Lemma has_split P c s1 s2 :
  (∀ t, P t → t ≠ "" ∧ free c t) → has P (s1 +:+ String c s2) → has P s1 ∨ has P s2.
Proof.
  intros HP. induction s1 as [|d s1 IH].
  - rewrite app_nil_l_str, has_cons. intros [(t & u & Ht & Hp)|]; [|by right].
    destruct (HP t Hp) as [Hne Hf]. destruct t as [|e t]; [done|].
    apply free_cons in Hf as [? _]. rewrite app_cons_str in Ht. by simplify_eq.
  - rewrite app_cons_str, has_cons. intros [(t & u & Ht & Hp)|[H|H]%IH]; [left|left|by right].
    + destruct (HP t Hp) as [_ Hf]. rewrite <-app_cons_str in Ht.
      destruct (prefix_free c t u (String d s1) s2 Hf) as [b' Hb]; [done|].
      exists "", t, b'. by rewrite app_nil_l_str.
    + apply has_cons. by right.
Qed.

Lemma starts_has P s : starts P s → has P s.
Proof. intros (t & u & -> & HP). by exists "", t, u. Qed.

(** ** The scan *)

Lemma place_after t u b : ∃ b', follows (b, t +:+ u) (b', u).
Proof.
  revert b. induction t as [|c t IH]; intros b; [eauto with forge|].
  destruct (IH (Some c)) as [b' ?]. rewrite app_cons_str. eauto with forge.
Qed.

Section scan.
Context (r : regex) (P : string → Prop) {HR : Reads r P}.
Hypothesis P_nonempty : ∀ t, P t → t ≠ "".

Lemma ends_starts x : ends r x ≠ [] ↔ starts P x.2.
Proof using HR.
  clear P_nonempty. split.
  - destruct (ends r x) as [|y l] eqn:E; [done|]. intros _.
    assert (Hy : y ∈ ends r x) by (rewrite E; left).
    apply ends_spec, reads in Hy as (t & Ht & HP & _). by exists t, y.2.
  - destruct x as [b s]. intros (t & u & Hs & HP). simpl in Hs. subst.
    destruct (place_after t u b) as [b' Hf].
    assert (Hin : (b', u) ∈ ends r (b, t +:+ u)).
    { apply ends_spec, reads. by exists t. }
    intros E. rewrite E in Hin. set_solver.
Qed.

(** A preferred match reads a text of the language, and at least one byte. *)
Lemma head_ends x y : head (ends r x) = Some y →
  x.2 = consumed x y +:+ y.2 ∧ P (consumed x y) ∧ String.length y.2 < String.length x.2.
Proof using HR P_nonempty.
  intros H. assert (Hy : y ∈ ends r x) by (destruct (ends r x); simplify_eq/=; left).
  apply ends_spec, reads in Hy as (t & Ht & HP & _).
  rewrite (consumed_app x y t Ht). split_and!; [done..|].
  apply P_nonempty in HP. rewrite Ht, length_app_str. destruct t; [done|]. simpl. lia.
Qed.

(** What a scan does: every place is kept only if nothing matches there. *)
Inductive scanned : string → list piece → Prop :=
| scanned_nil : scanned "" []
| scanned_keep c s l : ¬ starts P (String c s) → scanned s l → scanned (String c s) (Keep c :: l)
| scanned_hit t s l : P t → scanned s l → scanned (t +:+ s) (Hit t :: l).

Lemma pieces_scanned fuel x : String.length x.2 ≤ fuel → scanned x.2 (pieces r fuel x).
Proof using HR P_nonempty.
  revert x. induction fuel as [|fuel IH]; intros [b s] Hf; simpl in *.
  { destruct s; [constructor|simpl in Hf; lia]. }
  destruct (head (ends r (b, s))) as [y|] eqn:He.
  - destruct (head_ends _ _ He) as (Hs & HP & Hlt). simpl in Hlt.
    rewrite (proj2 (Nat.ltb_lt _ _) Hlt). simpl in Hs. rewrite Hs at 1. constructor; [done|].
    apply IH. lia.
  - destruct s as [|c s]; constructor.
    + intros Hst. apply (ends_starts (b, String c s)) in Hst. by destruct (ends r _).
    + apply (IH (Some c, s)). simpl in *. lia.
Qed.

Lemma scan_scanned s : scanned s (scan r s).
Proof using HR P_nonempty. by apply (pieces_scanned (String.length s) (start s)). Qed.

Lemma scan_source s : concat_map piece_source (scan r s) = s.
Proof using HR P_nonempty.
  induction (scan_scanned s) as [|c s' l _ _ IH|t s' l _ _ IH]; [done|..]; simpl; by rewrite IH.
Qed.

(** Only texts of the language are located, and there is one exactly when the
    text has a part in the language. *)
Lemma FindAllString_spec s :
  Forall P (FindAllString r s) ∧ (FindAllString r s = [] ↔ ¬ has P s).
Proof using HR P_nonempty.
  unfold FindAllString.
  induction (scan_scanned s) as [|c s' l Hn _ [Hl Hiff]|t s' l Ht _ [Hl Hiff]]; csimpl.
  - split; [by constructor|]. split; [|done]. intros _ H%has_nil. by eapply P_nonempty.
  - split; [done|]. rewrite Hiff, has_cons. tauto.
  - split; [by constructor|]. split; [done|]. intros []. by exists "", t, s'.
Qed.
End scan.

(** ** Replacing by a bracketed word

    When the replacement is a word between two bytes that no match contains,
    replacing neither leaves a match nor makes a new one. *)
Section bracketed.
Context (c1 c2 : ascii) (mid : string).
Definition bracketed : string := String c1 (mid +:+ str1 c2).
Definition outside (Q : string → Prop) : Prop := ∀ t, Q t → t ≠ "" ∧ free c1 t ∧ free c2 t.

Lemma bracketed_app s : bracketed +:+ s = String c1 (mid +:+ String c2 s).
Proof. unfold bracketed, str1. by rewrite app_cons_str, app_assoc_str, app_cons_str, app_nil_l_str. Qed.

Lemma has_bracketed Q s : outside Q → has Q (bracketed +:+ s) → has Q mid ∨ has Q s.
Proof.
  intros HQ. rewrite bracketed_app, has_cons. intros [(t & u & Ht & Hq)|H].
  - destruct (HQ t Hq) as (Hne & Hf & _). destruct t as [|d t]; [done|].
    apply free_cons in Hf as [? _]. rewrite app_cons_str in Ht. by simplify_eq.
  - apply has_split in H as [?|?]; [by left|by right|]. intros t Hq. by destruct (HQ t Hq) as (? & _ & ?).
Qed.

Context (r : regex) (P : string → Prop) {HR : Reads r P}.
Hypothesis P_outside : outside P.
Local Abbreviation render := (concat_map (piece_render bracketed)).

Lemma P_outside_nonempty t : P t → t ≠ "".
Proof using P_outside. intros H. by destruct (P_outside t H). Qed.

Lemma scanned_result s : scanned P s (scan r s).
Proof using HR P_outside. by apply scan_scanned, P_outside_nonempty. Qed.

(** A prefix of the result without the brackets is one of the text. *)
Lemma render_prefix s l t u :
  scanned P s l → free c1 t → render l = t +:+ u → ∃ u', s = t +:+ u'.
Proof.
  intros Hs. revert t u. induction Hs as [|c s l _ _ IH|t' s l _ _ _]; intros t u Hf H.
  - by exists u.
  - destruct t as [|d t]; [by eexists|]. apply free_cons in Hf as [_ Hf]. injection H as <- H.
    destruct (IH t u Hf H) as [u' ->]. by exists u'.
  - destruct t as [|d t]; [by eexists|]. apply free_cons in Hf as [Hne _].
    simpl in H. by injection H as <- _.
Qed.

Lemma render_starts Q c s l :
  outside Q → scanned P s l → starts Q (String c (render l)) → starts Q (String c s).
Proof.
  intros HQ Hs (t & u & Ht & Hq). destruct (HQ t Hq) as (Hne & Hf & _).
  destruct t as [|d t]; [done|]. apply free_cons in Hf as [_ Hf].
  rewrite app_cons_str in Ht. injection Ht as <- Ht.
  destruct (render_prefix s l t u Hs Hf Ht) as [u' ->]. by exists (String c t), u'.
Qed.

(** The result has no part that neither the text nor the word has. *)
Lemma ReplaceAllString_adds_none Q s :
  outside Q → has Q (ReplaceAllString r s bracketed) → has Q s ∨ has Q mid.
Proof using HR P_outside.
  intros HQ. unfold ReplaceAllString.
  induction (scanned_result s) as [|c s' l _ Hs IH|t s' l _ _ IH]; [by left|..].
  - simpl. change (str1 c +:+ render l) with (String c (render l)).
    rewrite !has_cons. intros [H|H]; [|tauto]. left. left. by eapply render_starts.
  - intros [?|[(a & q & b & -> & Hq)|?]%IH]%has_bracketed; [by right| |by right|done].
    left. exists (t +:+ a), q, b. by rewrite !app_assoc_str.
Qed.

(** The result has no match left. *)
Lemma ReplaceAllString_removes s : ¬ has P mid → ¬ has P (ReplaceAllString r s bracketed).
Proof using HR P_outside.
  intros Hmid. unfold ReplaceAllString.
  induction (scanned_result s) as [|c s' l Hn Hs IH|t s' l _ _ IH].
  - intros H%has_nil. by destruct (P_outside _ H).
  - simpl. change (str1 c +:+ render l) with (String c (render l)).
    rewrite has_cons. intros [H|H]; [|done]. apply Hn. by eapply render_starts.
  - by intros [?|?]%has_bracketed.
Qed.
End bracketed.

(** ** Counted classes and literals *)

#[export] Instance reads_lit s : Reads (RLit s) (λ t, t = s).
Proof.
  induction s as [|c s IH]; [apply reads_eps|]. simpl.
  intros x y. rewrite (reads (Reads := reads_seq _ _ _ _ (reads_char (is_char c)) IH) x y).
  split; intros (t & Ht & HP & Hf); exists t; split_and!; try done.
  - destruct HP as (? & ? & -> & (d & -> & Hd) & ->). apply bool_decide_eq_true in Hd. by subst.
  - subst. exists (str1 c), s. split; [done|]. split; [|done]. exists c. split; [done|].
    by apply bool_decide_eq_true.
Qed.

Definition counted (n : nat) (p : ascii → bool) (t : string) : Prop :=
  String.length t = n ∧ all_chars p t = true.
Definition at_least (n : nat) (p : ascii → bool) (t : string) : Prop :=
  n ≤ String.length t ∧ all_chars p t = true.

#[export] Instance reads_times n p : Reads (RTimes n (RChar p)) (counted n p).
Proof.
  induction n as [|n IH]; simpl; intros x y.
  - rewrite (reads (Reads := reads_eps) x y). unfold counted.
    split; intros (t & Ht & HP & Hf); exists t.
    + by subst.
    + destruct HP as [? _]. by destruct t.
  - rewrite (reads (Reads := reads_seq _ _ _ _ (reads_char p) IH) x y).
    split; intros (t & Ht & HP & Hf); exists t; split_and!; try done; unfold counted in *.
    + destruct HP as (? & s & -> & (c & -> & Hc) & Hl & Ha). simpl.
      by rewrite app_nil_l_str, Hl, Hc.
    + destruct HP as [Hl Ha]. destruct t as [|c t]; [done|]. simpl in *.
      apply andb_true_iff in Ha as [? ?]. exists (str1 c), t.
      split; [done|]. split; [by exists c|]. split; [lia|done].
Qed.

Lemma split_length t n : n ≤ String.length t → ∃ a b, t = a +:+ b ∧ String.length a = n.
Proof.
  revert t. induction n as [|n IH]; intros t H; [by exists "", t|].
  destruct t as [|c t]; simpl in H; [lia|]. destruct (IH t) as (a & b & -> & <-); [lia|].
  by exists (String c a), b.
Qed.

#[export] Instance reads_at_least n p : Reads (RAtLeast n (RChar p)) (at_least n p).
Proof.
  intros x y. unfold RAtLeast.
  rewrite (reads (Reads := reads_seq _ _ _ _ (reads_times n p) (reads_star_char p)) x y).
  split; intros (t & Ht & HP & Hf); exists t; split_and!; try done.
  - destruct HP as (a & b & -> & [Hl Ha] & Hb). unfold at_least.
    rewrite length_app_str, all_chars_app, Ha, Hb. split; [lia|done].
  - destruct HP as [Hl Ha]. apply split_length in Hl as (a & b & -> & Hl).
    rewrite all_chars_app in Ha. apply andb_true_iff in Ha as [? ?]. by exists a, b.
Qed.
