(* ===== verification/Payloads.v ===== *)
(** The fields of the kernel's values that the concrete factories and the
    examples read and build: llm.Message and its parts, tools.ToolCall and
    ToolResult, hooks.FilterDecision, Decision and PolicyInput.

    The laws are those of Go structs: a composite literal has the fields it
    names. *)

From S2P Require Import Prelude GoStrings Errors Values Extends Kernel.
From stdpp Require Import options.

Create Rewrite HintDb payload.

Class Payloads `{K : Kernel} := {
  (** llm *)
  llm_Role : Type;
  llm_Role_eq_dec :: EqDecision llm_Role;
  RoleSystem : llm_Role;
  RoleUser : llm_Role;
  MessagePart : Type;
  PartType : Type;
  PartType_eq_dec :: EqDecision PartType;
  PartTypeText : PartType;
  part_Type : MessagePart → PartType;
  part_Text : MessagePart → string;
  part_set_Text : string → MessagePart → MessagePart;       (* p.Text = s *)
  TextPart : string → MessagePart;
  m_Role : Message → llm_Role;
  m_Parts : Message → slice MessagePart;
  mk_Message : llm_Role → slice MessagePart → Message;       (* llm.Message{Role:, Parts:} *)
  (** tools *)
  call_ArgumentsJSON : ToolCall → string;
  ToolStatus : Type;
  ToolStatusError : ToolStatus;
  ToolStatusSuccess : ToolStatus;
  tr_Status : ToolResult → ToolStatus;
  tr_Content : ToolResult → string;
  tr_set_Content : string → ToolResult → ToolResult;         (* r.Content = s *)
  mk_ToolResult : ToolStatus → string → ToolResult;          (* tools.ToolResult{Status:, Content:} *)
  (** hooks *)
  FilterActionLog : FilterAction;
  FilterActionRedact : FilterAction;
  mk_FilterDecision : FilterAction → string → string → FilterDecision;  (* {Action:, Field:, Reason:} *)
  mk_Decision : Verdict → string → config → Decision_;       (* {Verdict:, Reason:, Metadata:} *)
  d_Reason : Decision_ → string;
  d_Metadata : Decision_ → config;
  hooks_Allow : Decision_;                                   (* hooks.Allow() *)
  hooks_RequireApproval : string → config → Decision_;       (* hooks.RequireApproval(reason, metadata) *)
  Phase_eq_dec :: EqDecision Phase;
  PhasePreInvocation : Phase;
  pi_SystemPrompt : PolicyInput → string;
  pi_Messages : PolicyInput → slice Message;
  pi_Metadata : PolicyInput → gomap string;
  (** laws *)
  actions_distinct : NoDup [FilterActionBlock; FilterActionLog; FilterActionRedact];
  part_Text_set s p : part_Text (part_set_Text s p) = s;
  part_Type_set s p : part_Type (part_set_Text s p) = part_Type p;
  part_Type_TextPart s : part_Type (TextPart s) = PartTypeText;
  part_Text_TextPart s : part_Text (TextPart s) = s;
  m_Role_mk r ps : m_Role (mk_Message r ps) = r;
  m_Parts_mk r ps : m_Parts (mk_Message r ps) = ps;
  tr_Content_set s r : tr_Content (tr_set_Content s r) = s;
  tr_Status_set s r : tr_Status (tr_set_Content s r) = tr_Status r;
  tr_Content_mk st s : tr_Content (mk_ToolResult st s) = s;
  tr_Status_mk st s : tr_Status (mk_ToolResult st s) = st;
  fd_Action_mk a f r : fd_Action (mk_FilterDecision a f r) = a;
  fd_Reason_mk a f r : fd_Reason (mk_FilterDecision a f r) = r;
  d_Verdict_mk v r m : d_Verdict (mk_Decision v r m) = v;
  d_Reason_mk v r m : d_Reason (mk_Decision v r m) = r;
  d_Metadata_mk v r m : d_Metadata (mk_Decision v r m) = m;
  d_Verdict_Allow : d_Verdict hooks_Allow = VerdictAllow;
  d_Verdict_RequireApproval r m : d_Verdict (hooks_RequireApproval r m) = VerdictRequireApproval;
}.
#[export] Hint Rewrite @part_Text_set @part_Type_set @part_Type_TextPart @part_Text_TextPart
  @m_Role_mk @m_Parts_mk @tr_Content_set @tr_Status_set @tr_Content_mk @tr_Status_mk
  @fd_Action_mk @fd_Reason_mk @d_Verdict_mk @d_Reason_mk @d_Metadata_mk
  @d_Verdict_Allow @d_Verdict_RequireApproval : payload.

(** ** A concrete instance

    A kernel whose messages, calls and results are plain data. *)

Inductive sample_role := SSystem | SUser | SAssistant.
#[export] Instance sample_role_eq_dec : EqDecision sample_role.
Proof. solve_decision. Defined.
Inductive sample_action := ActBlock | ActLog | ActRedact.
#[export] Instance sample_action_eq_dec : EqDecision sample_action.
Proof. solve_decision. Defined.

Record sample_message := mkSampleMessage { sm_role : sample_role; sm_parts : slice (bool * string) }.
Record sample_decision := mkSampleDecision {
  sdec_verdict : sample_verdict; sdec_reason : string; sdec_metadata : config;
}.
Record sample_input := mkSampleInput {
  si_system : string; si_messages : slice sample_message; si_metadata : gomap string;
}.

Definition payload_kernel : Kernel.
Proof.
  refine {|
    World := list string;
    Provider_ := string; Message := sample_message;
    ToolDefinition := string; def_Name := id;
    ToolCall := string * string; call_Name := fst; zero_ToolCall := ("", "");
    ToolResult := bool * string; zero_ToolResult := (false, ""); InvocationContext := unit;
    Phase := bool; PolicyInput := sample_input;
    Verdict := sample_verdict; VerdictAllow := SAllow; VerdictDeny := SDeny;
    VerdictRequireApproval := SApproval; VerdictLog := SLog; VerdictContinue := SContinue;
    Decision_ := sample_decision; d_Verdict := sdec_verdict;
    Decision_of := λ v, mkSampleDecision v "" None;
    FilterAction := sample_action; FilterActionBlock := ActBlock;
    FilterDecision := sample_action * string * string; fd_Action := λ d, d.1.1; fd_Reason := snd;
    Guard := unit; BudgetConfig := Z * Z * Z * Z * Z;
    cfg_get := sample_cfg_get; cfg_set := sample_cfg_set;
    Emitter := unit; Enricher := unit; Resolver := string → string;
    Resolver_nil := λ _, false; Signer := string * Z; Signer_nil := λ _, false;
    Time := nat; Now_UTC := λ w, (length w, "tick" :: w);
  |}.
  - apply (bool_decide_unpack _). vm_compute. exact I.
  - done.
  - by intros [] v [[[[? ?] ?] ?] ?].
  - by intros [] [] v [[[[? ?] ?] ?] ?] ?.
Defined.

#[export] Instance payload_sample : @Payloads payload_kernel.
Proof.
  refine (Build_Payloads payload_kernel
    sample_role _ SSystem SUser
    (bool * string) bool _ true fst snd (λ s p, (p.1, s)) (λ s, (true, s))
    sm_role sm_parts mkSampleMessage
    snd bool false true fst snd (λ s r, (r.1, s)) (λ st s, (st, s))
    ActLog ActRedact (λ a f r, (a, f, r))
    mkSampleDecision sdec_reason sdec_metadata
    (mkSampleDecision SAllow "" None) (mkSampleDecision SApproval)
    _ true si_system si_messages si_metadata
    _ _ _ _ _ _ _ _ _ _ _ _ _ _ _ _ _ _); try done.
  apply (bool_decide_unpack _). vm_compute. exact I.
Defined.
