(* ===== verification/Filters.v ===== *)
(** The concrete filters: path escape, output truncation and secret scrubbing
    (factories/filterpathescape, filteroutputtruncate, filtersecretscrubber) and
    the sliding window of examples/sliding-window-filter. *)

From S2P Require Import Prelude GoStrings Errors Values Regex RegexReplace.
From S2P Require Import Ids Extends Kernel Registry Chains Payloads.
From stdpp Require Import options.

(** ** Texts of secrets *)

Definition alnum (c : ascii) : bool := (is_upper c || is_lower c || is_digit c)%bool.
Definition digit_upper (c : ascii) : bool := (is_digit c || is_upper c)%bool.

Definition reSk : regex := RSeq (RLit "sk-") (RAtLeast 16 (RChar alnum)).
Definition reGhp : regex := RSeq (RLit "ghp_") (RAtLeast 20 (RChar alnum)).
Definition reAkia : regex := RSeq (RLit "AKIA") (RTimes 16 (RChar digit_upper)).
Definition patterns : list regex := [reSk; reGhp; reAkia].

Definition redacted : string := "[REDACTED]".

(** One turn of the loop of [scrub]. *)
Definition scrub_step (st : string * nat) (p : regex) : string * nat :=
  let loc := FindAllString p st.1 in
  if Nat.ltb 0 (length loc) then (ReplaceAllString p st.1 redacted, st.2 + length loc) else st.

Definition scrub (s : string) : string * nat := fold_left scrub_step patterns (s, 0).

Section filters.
Context `{K : Kernel} {L : Payloads}.

(** ** filterpathescape *)

Definition needle : string := "../".

Definition pathescape_Filter : PreToolFilter := λ _ call w,
  if Contains (call_ArgumentsJSON call) needle
  then ((call, Some [mk_FilterDecision FilterActionBlock "" "path traversal '../' in tool arguments"],
         None), w)
  else ((call, None, None), w).

Definition pathescape_NewFactory (id : ID) : Factory KindPreToolFilter :=
  mkFactory (k := KindPreToolFilter) id "blocks ../ path traversal in tool args"
    (λ _ _, io_ret pathescape_Filter).

(** ** filteroutputtruncate *)

(** [int(x)] of a float64 outside the int range is the platform's. *)
Context (int_of_float : SpecFloat.spec_float → Z).

Definition requireInt (cfg : config) (key : string) : res error Z :=
  match map_at cfg key with
  | None => Err (EText (Sprintf "%s: required" [FS key]))
  | Some (AInt x) => Ok x
  | Some (AInt64 x) => Ok x
  | Some (AFloat64 x) => Ok (int_of_float x)
  | Some raw => Err (EText (Sprintf "%s: want int, got %T" [FS key; FS (type_name raw)]))
  end.

Definition truncate_Filter (maxBytes : Z) : PostToolFilter := λ _ r w,
  if bool_decide (Z.of_nat (String.length (tr_Content r)) ≤ maxBytes)%Z then ((r, None, None), w)
  else
    let orig := String.length (tr_Content r) in
    ((tr_set_Content (String.substring 0 (Z.to_nat maxBytes) (tr_Content r)) r,
      Some [mk_FilterDecision FilterActionLog ""
        ("truncated tool output from " +:+ Itoa orig +:+ " to " +:+ pretty maxBytes +:+ " bytes")],
      None), w).

Definition truncate_decode (id : ID) (cfg : config) : res error PostToolFilter :=
  n ← map_err (EWrap (Sprintf "%s: %w" [FS id])) (requireInt cfg "maxBytes");
  if bool_decide (n ≤ 0)%Z then Err (EText (Sprintf "%s: maxBytes must be > 0" [FS id]))
  else Ok (truncate_Filter n).

Definition truncate_NewFactory (id : ID) : Factory KindPostToolFilter :=
  mkFactory (k := KindPostToolFilter) id "truncates tool output to maxBytes"
    (λ _ cfg, io_lift (truncate_decode id cfg)).

(** ** filtersecretscrubber *)

(** The loop over the parts of a message: the new parts and [msgHits]. *)
Fixpoint scrub_parts (ps : list MessagePart) : list MessagePart * nat :=
  match ps with
  | [] => ([], 0)
  | p :: ps' =>
    let '(newParts, msgHits) := scrub_parts ps' in
    if bool_decide (part_Type p = PartTypeText)
    then let '(scrubbed, hits) := scrub (part_Text p) in
         (part_set_Text scrubbed p :: newParts, hits + msgHits)
    else (p :: newParts, msgHits)
  end.

Definition scrub_message (m : Message) : Message * nat :=
  let '(newParts, msgHits) := scrub_parts (elems (m_Parts m)) in
  (mk_Message (m_Role m) (Some newParts), msgHits).

Definition scrub_decisions (hits : nat) : list FilterDecision :=
  if Nat.ltb 0 hits then [mk_FilterDecision FilterActionRedact "" "secret pattern redacted"] else [].

Definition scrubber_Filter : PreLLMFilter := λ _ msgs w,
  let scrubbed := scrub_message <$> elems msgs in
  ((Some (scrubbed.*1), append_slice None (scrubbed.*2 ≫= scrub_decisions), None), w).

Definition scrubber_NewFactory (id : ID) : Factory KindPreLLMFilter :=
  mkFactory (k := KindPreLLMFilter) id "redacts sk-*, ghp_*, AKIA patterns"
    (λ _ _, io_ret scrubber_Filter).

(** ** examples/sliding-window-filter *)

Definition is_system (m : Message) : Prop := m_Role m = RoleSystem.
#[export] Instance is_system_dec m : Decision (is_system m).
Proof. unfold is_system. apply _. Defined.

(** [convo[len(convo)-MaxTurns:]] panics for a negative MaxTurns. *)
Definition slidingWindow_Filter (MaxTurns : Z) : PreLLMFilter := λ _ messages w,
  let system := filter is_system (elems messages) in
  let convo := filter (λ m, ¬ is_system m) (elems messages) in
  if bool_decide (Z.of_nat (length convo) ≤ MaxTurns)%Z then ((messages, None, None), w)
  else if bool_decide (MaxTurns < 0)%Z then ((None, None, Some (EPanic "slice bounds out of range")), w)
  else
    let kept := drop (length convo - Z.to_nat MaxTurns) convo in
    let dropped := length convo - length kept in
    ((Some (system ++ kept),
      Some [mk_FilterDecision FilterActionRedact "messages"
        ("sliding-window truncation: dropped " +:+ Itoa dropped +:+ " oldest turns")],
      None), w).

Definition slidingWindow_turns (cfg : config) : Z :=
  let n := match at_key cfg "maxTurns" with AInt n => n | _ => 0%Z end in
  if bool_decide (n ≤ 0)%Z then 10%Z else n.

Definition slidingWindow_NewFactory (id : ID) : Factory KindPreLLMFilter :=
  mkFactory (k := KindPreLLMFilter) id "sliding-window filter: keep last N non-system turns"
    (λ _ cfg, io_ret (slidingWindow_Filter (slidingWindow_turns cfg))).
End filters.

(** The scrubber, on the texts its patterns are about. *)
Example scrub_key : scrub "key sk-abcdefghijklmnopqrst, ok" = ("key [REDACTED], ok", 1).
Proof. vm_compute. reflexivity. Qed.
Example scrub_many :
  scrub "AKIAABCDEFGHIJKLMNOPsk-0123456789abcdef sk-short" = ("[REDACTED][REDACTED] sk-short", 2).
Proof. vm_compute. reflexivity. Qed.

(** ** Scrubbing leaves no secret *)

(** A pattern whose matches the replacement neither contains nor can be part of. *)
Record secret (r : regex) (P : string → Prop) : Prop := {
  secret_reads : Reads r P;
  secret_outside : outside "["%char "]"%char P;
  secret_mid : ¬ has P "REDACTED";
}.

Lemma all_chars_free (c : ascii) p t : p c = false → all_chars p t = true → free c t.
Proof.
  intros Hc. induction t as [|d t IH]; [done|]. simpl. rewrite andb_true_iff. intros [Hd Ht].
  apply free_cons. split; [intros ->; congruence|by apply IH].
Qed.

Lemma free_app c s t : free c (s +:+ t) ↔ free c s ∧ free c t.
Proof. unfold free. rewrite all_chars_app. apply andb_true_iff. Qed.

(** A literal followed by enough bytes of a class without brackets. *)
Lemma secret_pattern lit p n r P :
  Reads r P → (∀ t, P t → ∃ s, t = lit +:+ s ∧ n ≤ String.length s ∧ all_chars p s = true) →
  free "["%char lit → free "]"%char lit → p "["%char = false → p "]"%char = false →
  8 < n → secret r P.
Proof.
  intros Hr HP Hl1 Hl2 H1 H2 Hn. split; [done| |].
  - intros t (s & -> & Hlen & Ha)%HP. rewrite !free_app.
    split_and!; try done; [|by eapply all_chars_free..].
    intros [= Hs]. apply (f_equal String.length) in Hs. rewrite length_app_str in Hs. simpl in Hs. lia.
  - intros (a & t & b & Ht & (s & -> & Hlen & _)%HP). apply (f_equal String.length) in Ht.
    rewrite !length_app_str in Ht. simpl in Ht. lia.
Qed.

Lemma patterns_secret : Forall (λ r, ∃ P, secret r P) patterns.
Proof.
  repeat constructor; eexists.
  - eapply (secret_pattern "sk-" alnum 16); [apply _| |done..|lia].
    intros t (a & s & -> & -> & Hl & Hs). by exists s.
  - eapply (secret_pattern "ghp_" alnum 20); [apply _| |done..|lia].
    intros t (a & s & -> & -> & Hl & Hs). by exists s.
  - eapply (secret_pattern "AKIA" digit_upper 16); [apply _| |done..|lia].
    intros t (a & s & -> & -> & Hl & Hs). exists s. by rewrite Hl.
Qed.

Lemma redacted_bracketed : redacted = bracketed "["%char "]"%char "REDACTED".
Proof. reflexivity. Qed.

Lemma search_has r P s : Reads r P → search r s = true ↔ has P s.
Proof.
  intros Hr. rewrite search_spec. split.
  - intros (x & y & Hf & Hm). apply reads in Hm as (t & Ht & HP & _).
    apply follows_consumed in Hf as [a Ha]. exists a, t, y.2. by rewrite <-Ht.
  - intros (a & t & b & -> & HP). destruct (place_after a (t +:+ b) None) as [b1 H1].
    destruct (place_after t b b1) as [b2 H2]. exists (b1, t +:+ b), (b2, b). split; [done|].
    apply reads. by exists t.
Qed.

(** One turn: this pattern is gone, and no other pattern appears. *)
Lemma scrub_step_spec st r P :
  secret r P →
  let st' := scrub_step st r in
  st.2 ≤ st'.2 ∧ (st'.2 = st.2 ↔ search r st.1 = false) ∧ (st'.2 = st.2 → st' = st) ∧
  search r st'.1 = false ∧
  ∀ r' P', secret r' P' → search r' st.1 = false → search r' st'.1 = false.
Proof.
  intros [Hr Hout Hmid]. destruct st as [s h]. unfold scrub_step. cbn [fst snd].
  destruct (FindAllString_spec r P (P_outside_nonempty _ _ P Hout) s) as [_ Hnil].
  assert (Hs : search r s = false ↔ ¬ has P s) by (by rewrite <-(search_has r P s), not_true_iff_false).
  destruct (FindAllString r s) as [|t l]; simpl.
  - assert (search r s = false) by (apply Hs, Hnil; done). by split_and!.
  - rewrite redacted_bracketed. split_and!; try lia.
    + split; [lia|]. intros H%Hs%Hnil. done.
    + apply not_true_iff_false. rewrite (search_has r P) by done. by apply ReplaceAllString_removes.
    + intros r' P' [Hr' Hout' Hmid'] Hn. apply not_true_iff_false. rewrite (search_has r' P') by done.
      intros H. apply (ReplaceAllString_adds_none _ _ _ r P Hout P' s Hout') in H as [H|H]; [|done].
      apply (search_has r' P') in H; [congruence|done].
Qed.

Lemma scrub_fold_spec l st :
  Forall (λ r, ∃ P, secret r P) l →
  let st' := fold_left scrub_step l st in
  st.2 ≤ st'.2 ∧ (st'.2 = st.2 ↔ Forall (λ r, search r st.1 = false) l) ∧
  (st'.2 = st.2 → st' = st) ∧ Forall (λ r, search r st'.1 = false) l ∧
  ∀ r P, secret r P → search r st.1 = false → search r st'.1 = false.
Proof.
  intros Hl. revert st. induction Hl as [|r l [P Hr] Hl IH]; intros st; simpl.
  { split_and!; try done. }
  destruct (scrub_step_spec st r P Hr) as (Hle & Hiff & Heq & Hgone & Hkeep).
  destruct (IH (scrub_step st r)) as (Hle' & Hiff' & Heq' & Hgone' & Hkeep').
  rewrite Forall_cons. split_and!.
  - lia.
  - split.
    + intros H. assert (E : (scrub_step st r).2 = st.2) by lia. split; [by apply Hiff|].
      rewrite <-(Heq E). apply Hiff'. lia.
    + intros [H1 H2]. apply Hiff in H1. rewrite <-H1. apply Hiff'. by rewrite (Heq H1).
  - intros H. assert (E : (scrub_step st r).2 = st.2) by lia.
    rewrite Heq' by lia. by apply Heq.
  - constructor; [by eapply Hkeep'|done].
  - intros r' P' Hr' Hn. by eapply Hkeep', Hkeep.
Qed.

Lemma scrub_spec s :
  Forall (λ r, search r (scrub s).1 = false) patterns ∧
  ((scrub s).2 = 0 ↔ Forall (λ r, search r s = false) patterns) ∧
  ((scrub s).2 = 0 → (scrub s).1 = s).
Proof.
  destruct (scrub_fold_spec patterns (s, 0) patterns_secret) as (_ & Hiff & Heq & Hgone & _).
  fold (scrub s) in *. split_and!; [done|done|]. intros H. by rewrite (Heq H).
Qed.

(** ** Properties *)

Section filter_properties.
Context `{K : Kernel} {L : Payloads}.

(** *** The scrubber *)

(** A part after scrubbing: only the text of a text part may change, and it
    holds no secret. *)
Definition clean_text (s : string) : Prop := Forall (λ r, search r s = false) patterns.
Definition part_scrubbed (p p' : MessagePart) : Prop :=
  part_Type p' = part_Type p ∧
  (part_Type p = PartTypeText → clean_text (part_Text p')) ∧
  (part_Type p ≠ PartTypeText → p' = p) ∧
  (clean_text (part_Text p) → part_Text p' = part_Text p).
Definition part_dirty (p : MessagePart) : Prop :=
  part_Type p = PartTypeText ∧ ¬ clean_text (part_Text p).
Definition message_dirty (m : Message) : Prop := Exists part_dirty (elems (m_Parts m)).
#[export] Instance message_dirty_dec m : Decision (message_dirty m).
Proof. unfold message_dirty, part_dirty, clean_text. apply _. Defined.

Lemma scrub_parts_spec ps :
  Forall2 part_scrubbed ps (scrub_parts ps).1 ∧ (0 < (scrub_parts ps).2 ↔ Exists part_dirty ps).
Proof.
  induction ps as [|p ps [IH1 IH2]]; simpl.
  { split; [constructor|]. rewrite Exists_nil. lia. }
  destruct (scrub_parts ps) as [newParts hits]. cbn [fst snd] in IH1, IH2. rewrite Exists_cons.
  unfold part_dirty at 1. case_bool_decide as Ht.
  - destruct (scrub_spec (part_Text p)) as (Hc & H0 & He). fold (clean_text (scrub (part_Text p)).1) in Hc.
    fold (clean_text (part_Text p)) in H0.
    destruct (scrub (part_Text p)) as [s h]. cbn [fst snd] in *. split.
    + constructor; [|done]. unfold part_scrubbed. autorewrite with payload.
      split_and!; try done. intros Hcl. by apply He, H0.
    + rewrite <-IH2, <-H0. split; [|naive_solver lia]. intros. destruct h; [right; lia|by left].
  - cbn [fst snd]. split; [constructor; [by split_and!|done]|]. rewrite IH2. naive_solver.
Qed.

Lemma scrub_message_spec m :
  let r := scrub_message m in
  m_Role r.1 = m_Role m ∧ Forall2 part_scrubbed (elems (m_Parts m)) (elems (m_Parts r.1)) ∧
  (0 < r.2 ↔ message_dirty m).
Proof.
  unfold scrub_message. destruct (scrub_parts_spec (elems (m_Parts m))) as [H1 H2].
  destruct (scrub_parts _) as [ps h]. cbn [fst snd] in *. autorewrite with payload. by split_and!.
Qed.

(** C24: the secret scrubber never fails and leaves no secret: every message of
    the conversation comes out in its place with its role and its parts in order;
    only the text of text parts may change, no pattern matches it any more, and a
    text without a secret is kept as it is.  One redact decision is recorded per
    message that held a secret. *)
Theorem scrubber_leaves_no_secret ctx msgs w :
  ∃ out decs, scrubber_Filter ctx msgs w = ((out, decs, None), w) ∧
    Forall2 (λ m m', m_Role m' = m_Role m ∧
      Forall2 part_scrubbed (elems (m_Parts m)) (elems (m_Parts m'))) (elems msgs) (elems out) ∧
    Forall (λ d, fd_Action d = FilterActionRedact) (elems decs) ∧
    length (elems decs) = length (filter message_dirty (elems msgs)).
Proof.
  unfold scrubber_Filter. eexists _, _. split; [done|]. cbn [elems default]. rewrite elems_append_slice.
  induction (elems msgs) as [|m l (IH1 & IH2 & IH3)]; csimpl; [by split_and!; constructor|].
  destruct (scrub_message_spec m) as (Hr & Hp & Hd). split_and!.
  - by constructor.
  - apply Forall_app. split; [|done]. unfold scrub_decisions. case_match; [|done].
    constructor; [by autorewrite with payload|done].
  - simpl in *. rewrite length_app, IH3. unfold scrub_decisions. rewrite filter_cons.
    case_decide as Hdirty.
    + by rewrite (proj2 (Nat.ltb_lt _ _)) by (by apply Hd).
    + rewrite (proj2 (Nat.ltb_ge _ _)); [done|]. apply Nat.nlt_ge. by rewrite Hd.
Qed.

(** *** Path escape *)

Lemma pathescape_passes ctx call w out decs err w' :
  pathescape_Filter ctx call w = ((out, decs, err), w') → err = None → blockingDec decs = None →
  out = call ∧ Contains (call_ArgumentsJSON call) needle = false.
Proof.
  unfold pathescape_Filter, blockingDec. destruct (Contains _ _) eqn:Hc; intros [= <- <- <- <-] _; [|done].
  simpl. rewrite filter_cons_True; [done|]. by autorewrite with payload.
Qed.

(** a tool call whose arguments contain ../ never passes a chain of pre-tool
    filters that ends with the path-escape filter: whatever the filters before it
    do, when the chain succeeds the call it returns has no ../ in its arguments. *)
Theorem pathescape_guards_chain ctx c call w out decs w' :
  preToolFilterChain_Filter (c ++ [pathescape_Filter]) ctx call w = ((out, decs, None), w') →
  Contains (call_ArgumentsJSON out) needle = false.
Proof.
  unfold preToolFilterChain_Filter. generalize (@None (list FilterDecision)). revert call w.
  induction c as [|f c IH]; intros call w all; cbn [app chain_from].
  - destruct (pathescape_Filter ctx call w) as [[[cur ds] err] w1] eqn:Hp. destruct err; [done|].
    destruct (blockingDec ds) eqn:Hb; [done|]. intros [= <- _ _].
    by destruct (pathescape_passes _ _ _ _ _ _ _ Hp eq_refl Hb) as [-> ?].
  - destruct (f ctx call w) as [[[cur ds] err] w1]. destruct err; [done|].
    destruct (blockingDec ds); [done|]. apply IH.
Qed.

(** *** Truncation *)

Context (int_of_float : SpecFloat.spec_float → Z).

Lemma substring_prefix n s : ∃ u, s = String.substring 0 n s +:+ u.
Proof.
  revert n. induction s as [|c s IH]; intros [|n]; simpl; [by exists ""..| |].
  - by exists (String c s).
  - destruct (IH n) as [u Hu]. exists u. rewrite app_cons_str. by f_equal.
Qed.

Lemma substring_length n s : String.length (String.substring 0 n s) = n `min` String.length s.
Proof.
  revert n. induction s as [|c s IH]; intros [|n]; simpl; try done. by rewrite IH.
Qed.

(** C38: output truncation keeps its bound: a filter the factory accepts returns a
    content of at most maxBytes bytes, a prefix of the original one, with the
    status kept; content within the bound is returned unchanged with no decision,
    and a cut is recorded by one log decision. *)
Theorem truncate_bounds id cfg f ctx r w :
  truncate_decode int_of_float id cfg = Ok f →
  ∃ n out decs, requireInt int_of_float cfg "maxBytes" = Ok n ∧ (0 < n)%Z ∧
    f ctx r w = ((out, decs, None), w) ∧ tr_Status out = tr_Status r ∧
    (∃ cut, tr_Content r = tr_Content out +:+ cut) ∧
    Z.of_nat (String.length (tr_Content out)) =
      Z.min n (Z.of_nat (String.length (tr_Content r))) ∧
    (if bool_decide (Z.of_nat (String.length (tr_Content r)) ≤ n)%Z then out = r ∧ decs = None
     else ∃ d, decs = Some [d] ∧ fd_Action d = FilterActionLog).
Proof.
  unfold truncate_decode. intros H. inv_res. case_bool_decide as Hn; [done|]. inv_res.
  exists x. unfold truncate_Filter. case_bool_decide as Hle.
  - exists r, None. split_and!; try done; [lia| |lia]. exists "". by rewrite app_nil_r_str.
  - eexists _, _. split_and!; [done|lia|done|by autorewrite with payload|..].
    + destruct (substring_prefix (Z.to_nat x) (tr_Content r)) as [u Hu]. exists u.
      by autorewrite with payload.
    + autorewrite with payload. rewrite substring_length. lia.
    + eexists. split; [done|]. by autorewrite with payload.
Qed.

(** *** The sliding window *)

Lemma slidingWindow_turns_pos cfg : (0 < slidingWindow_turns cfg)%Z.
Proof. unfold slidingWindow_turns. case_bool_decide; lia. Qed.

(** the sliding window keeps every system message and exactly the most recent
    turns: the messages of other roles in the result are the last n of the input
    (n the configured size, 10 by default), in their order; it never fails, a
    conversation within the window is returned as it is, and otherwise the system
    messages come first and one redact decision is recorded. *)
Theorem sliding_window_keeps_recent cfg ctx msgs w :
  let n := Z.to_nat (slidingWindow_turns cfg) in
  let convo := filter (λ m, ¬ is_system m) (elems msgs) in
  ∃ out decs, slidingWindow_Filter (slidingWindow_turns cfg) ctx msgs w = ((out, decs, None), w) ∧
    filter is_system (elems out) = filter is_system (elems msgs) ∧
    filter (λ m, ¬ is_system m) (elems out) = drop (length convo - n) convo ∧
    length (filter (λ m, ¬ is_system m) (elems out)) = n `min` length convo ∧
    (if decide (length convo ≤ n) then out = msgs ∧ decs = None
     else elems out = filter is_system (elems msgs) ++ drop (length convo - n) convo ∧
       ∃ d, decs = Some [d] ∧ fd_Action d = FilterActionRedact).
Proof.
  intros n convo. pose proof (slidingWindow_turns_pos cfg) as Hn. unfold slidingWindow_Filter.
  fold convo. case_bool_decide as Hle.
  - assert (length convo ≤ n) by (unfold n; lia).
    exists msgs, None. rewrite decide_True by done. fold convo. replace (length convo - n) with 0 by lia.
    split_and!; try done. lia.
  - rewrite bool_decide_false by lia. fold n.
    eexists _, _. split; [done|]. rewrite decide_False by (unfold n; lia).
    assert (Hc : Forall (λ m, ¬ is_system m) (drop (length convo - n) convo)).
    { apply Forall_drop, Forall_forall. by intros m [? _]%list_elem_of_filter. }
    assert (Hs : Forall is_system (filter is_system (elems msgs))).
    { apply Forall_forall. by intros m [? _]%list_elem_of_filter. }
    rewrite !elems_Some, !filter_app, (filter_all is_system (filter _ _)) by done.
    rewrite (filter_none is_system (drop _ _)), app_nil_r by done.
    rewrite (filter_none _ (filter is_system _)), app_nil_l, (filter_all _ (drop _ _)); [|done|].
    2: { eapply Forall_impl; [exact Hs|]. auto. }
    split_and!; try done.
    + rewrite length_drop. unfold n in *. lia.
    + eexists. split; [done|]. by autorewrite with payload.
Qed.
End filter_properties.

(** ** Witnesses *)

(** A filter that copies the name of the tool into the arguments, before the
    path-escape filter. *)
Definition sample_rewriter : PreToolFilter (K := payload_kernel) := λ _ call w,
  (((call.1, call.2 +:+ call.1), None, None), w).

Example pathescape_guards_chain_witness :
  (preToolFilterChain_Filter (K := payload_kernel) ([sample_rewriter] ++ [pathescape_Filter])
     Background ("read", "/tmp/") []).1.2 = None ∧
  Contains (call_ArgumentsJSON (K := payload_kernel) ("read", "/tmp/read")) needle = false.
Proof.
  split; [vm_compute; reflexivity|].
  apply (pathescape_guards_chain (K := payload_kernel) Background [sample_rewriter] ("read", "/tmp/") []
    ("read", "/tmp/read") None []).
  vm_compute. reflexivity.
Defined.

Example truncate_bounds_witness :
  ∃ out decs, truncate_Filter (K := payload_kernel) 3 Background (true, "abcdef") [] = ((out, decs, None), []) ∧
    tr_Content (K := payload_kernel) out = "abc".
Proof.
  destruct (truncate_bounds (K := payload_kernel) (λ _, 0%Z) "filter.cut@1.0.0" (Some [("maxBytes", AInt 3)])
    (truncate_Filter 3) Background (true, "abcdef") [] eq_refl)
    as (n & out & decs & Hn & _ & Hf & _ & _ & _ & _).
  exists out, decs. split; [exact Hf|]. vm_compute in Hf. injection Hf as <- _. vm_compute. reflexivity.
Defined.
