(* ===== verification/Policies.v ===== *)
(** The concrete policies: the PII detector (factories/policypackpiiredact) and
    the approval gate of examples/session-pattern. *)

From S2P Require Import Prelude GoStrings Errors Values Regex RegexReplace.
From S2P Require Import Ids Extends Kernel Registry Chains Payloads.
From stdpp Require Import options.

(** ** The detectors *)

Definition chars (s : string) (c : ascii) : bool := bool_decide (c ∈ String.list_ascii_of_string s).
Definition alpha (c : ascii) : bool := (is_upper c || is_lower c)%bool.
(** [\s]: tab, line feed, form feed, carriage return, space. *)
Definition is_space (c : ascii) : bool :=
  (N.eqb (code c) 9 || N.eqb (code c) 10 || N.eqb (code c) 12 || N.eqb (code c) 13 || N.eqb (code c) 32)%bool.

Definition digits (n : nat) : regex := RTimes n (RChar is_digit).

Definition reEmail : regex :=
  RSeq (RPlus (RChar (λ c, (alpha c || is_digit c || chars "._%+-" c)%bool)))
  (RSeq (RLit "@")
  (RSeq (RPlus (RChar (λ c, (alpha c || is_digit c || chars ".-" c)%bool)))
  (RSeq (RLit ".") (RAtLeast 2 (RChar alpha))))).
Definition rePhone : regex :=
  let sep := RChar (λ c, (chars "-." c || is_space c)%bool) in
  RSeq RWordB (RSeq (digits 3) (RSeq sep (RSeq (digits 3) (RSeq sep (RSeq (digits 4) RWordB))))).
Definition reSSN : regex :=
  RSeq RWordB (RSeq (digits 3) (RSeq (RLit "-") (RSeq (digits 2) (RSeq (RLit "-") (RSeq (digits 4) RWordB))))).
Definition reCC : regex :=
  RSeq RWordB (RSeq (RBetween 13 16 (RSeq (RChar is_digit) (ROpt (RChar (chars " -"))))) RWordB).

(** The detectors in the order of [Evaluate], with the name they report. *)
Definition detectors : list (regex * string) :=
  [(reEmail, "email"); (rePhone, "phone"); (reSSN, "ssn"); (reCC, "credit_card")].

Abbreviation strictness := string.
Definition strictLow : strictness := "low".
Definition strictMedium : strictness := "medium".
Definition strictHigh : strictness := "high".

Definition newline : string := str1 (byte 10).

Section policies.
Context `{K : Kernel} {L : Payloads}.

(** The text parts of the messages, each followed by a line feed. *)
Definition extractText (i : PolicyInput) : string :=
  (if bool_decide (pi_SystemPrompt i ≠ "") then pi_SystemPrompt i +:+ newline else "") +:+
  foldr (λ m s,
    foldr (λ p s, if bool_decide (part_Type p = PartTypeText) then part_Text p +:+ newline +:+ s else s)
      s (elems (m_Parts m)))
    "" (elems (pi_Messages i)).

Definition pii_matches (text : string) : list string :=
  omap (λ d, if search d.1 text then Some d.2 else None) detectors.

Definition high_risk (m : string) : Prop := m = "ssn" ∨ m = "credit_card".

Definition pii_metadata (matches : list string) : config := Some [("pii.matches", AStrings (Some matches))].

Definition pii_Evaluate (mode : strictness) : PolicyHook := λ _ _ i,
  let matches := pii_matches (extractText i) in
  match matches with
  | [] => io_ret (Decision_of VerdictAllow)
  | _ =>
    match (if bool_decide (mode = strictHigh) then filter high_risk matches else []) with
    | m :: _ => io_ret (mk_Decision VerdictDeny ("high-risk PII detected: " +:+ m) (pii_metadata matches))
    | [] => io_ret (mk_Decision VerdictLog "PII detected" (pii_metadata matches))
    end
  end.

Definition pii_decode (id : ID) (cfg : config) : res error PolicyPack :=
  match at_key cfg "strictness" with
  | AString s =>
    if bool_decide (s ∈ ["low"; "medium"; "high"]) then
      Ok (mkPolicyPack (pii_Evaluate s)
            (Some [mkPolicyDescriptor "pii-redaction" "" (Some ["pii"; "privacy"]) id]))
    else Err (EText (Sprintf "%s: strictness: want low|medium|high, got %q" [FS id; FS s]))
  | _ => Err (EText (Sprintf "%s: strictness: required string" [FS id]))
  end.

Definition pii_NewFactory (id : ID) : Factory KindPolicyPack :=
  mkFactory (k := KindPolicyPack) id "regex PII detector with tiered strictness"
    (λ _ cfg, io_lift (pii_decode id cfg)).

(** ** examples/session-pattern: sensitivityPolicy *)

(** [strings.ToUpper] maps other letters than the ASCII ones by Unicode tables. *)
Context (ToUpper : string → string).

Definition part_sensitive (p : MessagePart) : bool :=
  (bool_decide (part_Type p = PartTypeText) && Contains (ToUpper (part_Text p)) "SENSITIVE")%bool.

(** The loop from the last message back: the first user message decides. *)
Fixpoint latest_user (rev_messages : list Message) : option Message :=
  match rev_messages with
  | [] => None
  | m :: rest => if bool_decide (m_Role m ≠ RoleUser) then latest_user rest else Some m
  end.

Definition approved_metadata (i : PolicyInput) : bool :=
  bool_decide (default "" (map_at (pi_Metadata i) "approval_decision") = "approved").

Definition sensitivity_Evaluate : PolicyHook := λ _ phase i,
  if bool_decide (phase ≠ PhasePreInvocation) then io_ret hooks_Allow
  else if approved_metadata i then io_ret hooks_Allow
  else match latest_user (reverse (elems (pi_Messages i))) with
  | Some m =>
    if existsb part_sensitive (elems (m_Parts m)) then
      io_ret (hooks_RequireApproval "latest user message contains SENSITIVE marker"
                (Some [("marker", AString "SENSITIVE")]))
    else io_ret hooks_Allow
  | None => io_ret hooks_Allow
  end.

Definition sensitivity_Factory (id : ID) : Factory KindPolicyPack :=
  mkFactory (k := KindPolicyPack) id "pauses on SENSITIVE marker"
    (λ _ _, io_ret (mkPolicyPack sensitivity_Evaluate None)).
End policies.

Example detect_tests :
  pii_matches "mail bob@example.org or 555-123-4567" = ["email"; "phone"] ∧
  pii_matches "ssn 123-45-6789" = ["ssn"] ∧
  pii_matches "4111 1111 1111 1111" = ["credit_card"] ∧
  pii_matches "x123-45-6789 and 12345678901234567" = [].
Proof. vm_compute. repeat split. Qed.

(** ** Matches survive in a longer text

    Text added before, up to a byte that is not a word byte, and text added after,
    from such a byte on, keep every match, [\b] included. *)

Definition plain_tail (t : string) : Prop :=
  match t with "" => True | String c _ => is_word c = false end.

Definition lifted (t : string) (x x' : place) : Prop :=
  x'.2 = x.2 +:+ t ∧ from_option is_word false x'.1 = from_option is_word false x.1.

Lemma lifted_boundary t x x' : plain_tail t → lifted t x x' → at_word_boundary x' = at_word_boundary x.
Proof.
  destruct x as [b s], x' as [b' s']. intros Ht [Hs Hb]. simpl in *. subst.
  unfold at_word_boundary. simpl. rewrite Hb. f_equal. destruct s as [|c s]; [|done].
  rewrite app_nil_l_str. by destruct t.
Qed.

Lemma rmatch_lift t r x y x' :
  plain_tail t → rmatch r x y → lifted t x x' → ∃ y', lifted t y y' ∧ rmatch r x' y'.
Proof.
  intros Ht H. revert x'. induction H as [x|p b c s Hp|x Hw|r1 r2 x y z _ IH1 _ IH2|r1 r2 x y _ IH|
    r1 r2 x y _ IH|r x|r x y z _ IH1 _ IH2]; intros x' Hl.
  - eauto with forge.
  - destruct x' as [b' s'], Hl as [Hs _]. simpl in Hs. subst. exists (Some c, s +:+ t).
    split; [done|]. rewrite app_cons_str. by constructor.
  - exists x'. split; [done|]. constructor. by rewrite (lifted_boundary t x x').
  - destruct (IH1 _ Hl) as (y' & Hy & ?). destruct (IH2 _ Hy) as (z' & Hz & ?). eauto with forge.
  - destruct (IH _ Hl) as (y' & Hy & ?). eauto with forge.
  - destruct (IH _ Hl) as (y' & Hy & ?). eauto with forge.
  - eauto with forge.
  - destruct (IH1 _ Hl) as (y' & Hy & ?). destruct (IH2 _ Hy) as (z' & Hz & ?). eauto with forge.
Qed.

Lemma follows_lift t x y x' : follows x y → lifted t x x' → ∃ y', lifted t y y' ∧ follows x' y'.
Proof.
  intros H. revert x'. induction H as [x|b c s y _ IH]; intros x' Hl; [eauto with forge|].
  destruct x' as [b' s'], Hl as [Hs _]. simpl in Hs. subst.
  destruct (IH (Some c, s +:+ t)) as (y' & ? & ?); [done|]. exists y'. split; [done|].
  rewrite app_cons_str. by constructor.
Qed.

Lemma search_lift r s t : plain_tail t → search r s = true → search r (s +:+ t) = true.
Proof.
  rewrite !search_spec. intros Ht (x & y & Hf & Hm).
  destruct (follows_lift t _ _ (start (s +:+ t)) Hf) as (x' & Hx & ?); [done|].
  destruct (rmatch_lift t _ _ _ _ Ht Hm Hx) as (y' & _ & ?). eauto.
Qed.

Lemma search_after r a c s : is_word c = false → search r s = true → search r (a +:+ String c s) = true.
Proof.
  rewrite !search_spec. intros Hc (x & y & Hf & Hm).
  destruct (place_after a (String c s) None) as [b Hb].
  assert (Hl : lifted "" (start s) (Some c, s)) by (split; [by rewrite app_nil_r_str|done]).
  destruct (follows_lift "" _ _ _ Hf Hl) as (x' & Hx & Hx').
  destruct (rmatch_lift "" _ _ _ _ I Hm Hx) as (y' & _ & ?). exists x', y'. split; [|done].
  eapply follows_trans; [exact Hb|]. by constructor.
Qed.

(** A text made of lines: a match within one of them is a match of the whole. *)
Definition lines (l : list string) : string := foldr (λ s acc, s +:+ newline +:+ acc) "" l.

Lemma lines_app l1 l2 : lines (l1 ++ l2) = lines l1 +:+ lines l2.
Proof.
  induction l1 as [|s l1 IH]; [done|]. simpl. by rewrite IH, !app_assoc_str.
Qed.

Lemma search_lines r s l : s ∈ l → search r s = true → search r (lines l) = true.
Proof.
  intros Hin Hs. induction l as [|s' l IH]; [set_solver|].
  change (lines (s' :: l)) with (s' +:+ String (byte 10) (lines l)).
  apply elem_of_cons in Hin as [<-|Hin].
  - by apply search_lift.
  - apply search_after; [done|]. by apply IH.
Qed.

(** ** Properties *)

Section policy_properties.
Context `{K : Kernel} {L : Payloads}.

Definition text_parts (m : Message) : list string :=
  part_Text <$> filter (λ p, part_Type p = PartTypeText) (elems (m_Parts m)).
(** Every text the policy looks at. *)
Definition input_texts (i : PolicyInput) : list string :=
  (if bool_decide (pi_SystemPrompt i ≠ "") then [pi_SystemPrompt i] else []) ++
  (elems (pi_Messages i) ≫= text_parts).

Lemma extractText_lines i : extractText i = lines (input_texts i).
Proof.
  unfold extractText, input_texts. rewrite lines_app. f_equal.
  - case_bool_decide; [|done]. simpl. by rewrite app_nil_r_str.
  - induction (elems (pi_Messages i)) as [|m l IH]; [done|]. csimpl. rewrite lines_app, <-IH.
    unfold text_parts. generalize (foldr (λ m s, foldr (λ p s, if bool_decide (part_Type p = PartTypeText)
      then part_Text p +:+ newline +:+ s else s) s (elems (m_Parts m))) "" l).
    intros acc. induction (elems (m_Parts m)) as [|p ps IHp]; csimpl; [done|].
    rewrite filter_cons. case_bool_decide; [rewrite decide_True by done|by rewrite decide_False].
    csimpl. by rewrite IHp, !app_assoc_str.
Qed.

Lemma pii_matches_nil text : pii_matches text = [] ↔ Forall (λ d, search d.1 text = false) detectors.
Proof.
  unfold pii_matches. induction detectors as [|d l IH]; csimpl; [by split; [constructor|]|].
  rewrite Forall_cons, <-IH. destruct (search d.1 text); naive_solver.
Qed.

Lemma pii_matches_elem text n : n ∈ pii_matches text ↔ ∃ d, d ∈ detectors ∧ d.2 = n ∧ search d.1 text = true.
Proof.
  unfold pii_matches. rewrite list_elem_of_omap. split.
  - intros (d & Hd & H). exists d. destruct (search d.1 text); naive_solver.
  - intros (d & Hd & <- & H). exists d. by rewrite H.
Qed.

Lemma high_risk_matches text :
  filter high_risk (pii_matches text) ≠ [] ↔ search reSSN text = true ∨ search reCC text = true.
Proof.
  split.
  - destruct (filter _ _) as [|n l] eqn:E; [done|]. intros _.
    assert (Hn : n ∈ filter high_risk (pii_matches text)) by (rewrite E; left).
    apply list_elem_of_filter in Hn as [Hh (d & Hd & <- & Hs)%pii_matches_elem].
    unfold detectors in Hd. destruct Hh; set_unfold; naive_solver.
  - intros H E. assert (Hno : ∀ n, n ∉ filter high_risk (pii_matches text)) by (rewrite E; set_solver).
    destruct H as [H|H].
    + apply (Hno "ssn"), list_elem_of_filter. split; [by left|]. apply pii_matches_elem.
      exists (reSSN, "ssn"). split_and!; [set_solver|done..].
    + apply (Hno "credit_card"), list_elem_of_filter. split; [by right|]. apply pii_matches_elem.
      exists (reCC, "credit_card"). split_and!; [set_solver|done..].
Qed.

(** The verdict of the detector, by what its expressions find. *)
Lemma pii_verdict_cases mode ctx ph i w :
  let text := extractText i in
  ∃ d, pii_Evaluate mode ctx ph i w = (Ok d, w) ∧
    (Forall (λ r, search r.1 text = false) detectors ∧ d_Verdict d = VerdictAllow ∨
     (mode = strictHigh ∧ (search reSSN text = true ∨ search reCC text = true)) ∧
       d_Verdict d = VerdictDeny ∧ d_Metadata d = pii_metadata (pii_matches text) ∨
     ¬ Forall (λ r, search r.1 text = false) detectors ∧
       ¬ (mode = strictHigh ∧ (search reSSN text = true ∨ search reCC text = true)) ∧
       d_Verdict d = VerdictLog ∧ d_Metadata d = pii_metadata (pii_matches text)).
Proof.
  intros text. unfold pii_Evaluate. fold text.
  pose proof (pii_matches_nil text) as Hnil. pose proof (high_risk_matches text) as Hhigh.
  destruct (pii_matches text) as [|n l] eqn:E.
  - eexists. split; [done|]. left. rewrite Decision_of_Verdict. by rewrite <-Hnil.
  - case_bool_decide as Hm.
    + destruct (filter high_risk (n :: l)) as [|m l'] eqn:Ef.
      * eexists. split; [done|]. right. right. autorewrite with payload.
        rewrite <-Hnil, <-Hhigh. split_and!; try done. by intros [_ ?].
      * eexists. split; [done|]. right. left. autorewrite with payload. by rewrite <-Hhigh.
    + eexists. split; [done|]. right. right. autorewrite with payload. rewrite <-Hnil.
      split_and!; try done. by intros [? _].
Qed.

Lemma detectors_silent text :
  Forall (λ r, search r.1 text = false) detectors ↔
  search reEmail text ≠ true ∧ search rePhone text ≠ true ∧ search reSSN text ≠ true ∧
  search reCC text ≠ true.
Proof. unfold detectors. rewrite !Forall_cons. simpl. rewrite !not_true_iff_false. intuition. Qed.

Lemma pii_matches_spelled text :
  pii_matches text =
  (if decide (search reEmail text = true) then ["email"] else []) ++
  (if decide (search rePhone text = true) then ["phone"] else []) ++
  (if decide (search reSSN text = true) then ["ssn"] else []) ++
  (if decide (search reCC text = true) then ["credit_card"] else []).
Proof.
  unfold pii_matches, detectors. cbn [omap list_omap fst snd].
  by destruct (search reEmail text), (search rePhone text), (search reSSN text), (search reCC text).
Qed.

(** C35: the PII policy answers exactly by the four patterns (email, phone, social
    security number, credit card), which it looks for in every mode, low included:
    it allows when none of them occurs, denies when it is in high mode and a social
    security or a credit card number occurs, and logs in all other cases; whenever it
    does not allow, the decision lists the kinds that occur, in that order; it never
    fails.  A pattern that occurs in one text part or in the system prompt alone also
    occurs in the text the policy assembles, so no part escapes the check.  (The
    comment of the package says that the low mode looks for email and phone only; the
    code does not restrict it, as the findings record.) *)
Theorem pii_detects_every_part mode ctx ph i w :
  let finds r := search r (extractText i) = true in
  (∃ d, pii_Evaluate mode ctx ph i w = (Ok d, w) ∧
     (d_Verdict d = VerdictAllow ↔ ¬ finds reEmail ∧ ¬ finds rePhone ∧ ¬ finds reSSN ∧ ¬ finds reCC) ∧
     (d_Verdict d = VerdictDeny ↔ mode = strictHigh ∧ (finds reSSN ∨ finds reCC)) ∧
     (d_Verdict d = VerdictLog ↔
        (finds reEmail ∨ finds rePhone ∨ finds reSSN ∨ finds reCC) ∧
        ¬ (mode = strictHigh ∧ (finds reSSN ∨ finds reCC))) ∧
     (d_Verdict d ≠ VerdictAllow → d_Metadata d = Some [("pii.matches", AStrings (Some
        ((if decide (finds reEmail) then ["email"] else []) ++
         (if decide (finds rePhone) then ["phone"] else []) ++
         (if decide (finds reSSN) then ["ssn"] else []) ++
         (if decide (finds reCC) then ["credit_card"] else []))))])) ∧
  (∀ r s, s ∈ input_texts i → search r s = true → search r (extractText i) = true).
Proof.
  intros finds. split; [|intros r s Hin Hs; rewrite extractText_lines; by eapply search_lines].
  destruct (pii_verdict_cases mode ctx ph i w) as (d & He & H). exists d. split; [done|].
  pose proof verdicts_distinct as Hv. rewrite !NoDup_cons, !elem_of_cons, elem_of_nil in Hv.
  rewrite detectors_silent, pii_matches_spelled in H. fold (finds reEmail) in H.
  unfold pii_metadata in H. fold (finds rePhone) (finds reSSN) (finds reCC) in H.
  destruct H as [[H1 ->]|[(H1 & -> & Hm)|(H1 & H2 & -> & Hm)]].
  - split_and!; try done; intuition congruence.
  - split_and!; try done; intuition congruence.
  - split_and!; try done; try intuition congruence.
    assert (Hall : ∀ r, Decision (finds r)) by (intros r; apply _).
    split; [|done]. intros _. split; [|done].
    destruct (Hall reEmail), (Hall rePhone), (Hall reSSN), (Hall reCC); tauto.
Qed.

(** The low mode is the medium mode: it reports all four kinds as well. *)
Lemma low_mode_is_medium ctx ph i w : pii_Evaluate strictLow ctx ph i w = pii_Evaluate strictMedium ctx ph i w.
Proof. unfold pii_Evaluate. by rewrite !bool_decide_false. Qed.

(** *** The approval gate *)

Context (ToUpper : string → string).

Lemma latest_user_spec l m :
  latest_user (reverse l) = Some m ↔
  ∃ l1 l2, l = l1 ++ m :: l2 ∧ m_Role m = RoleUser ∧ Forall (λ m, m_Role m ≠ RoleUser) l2.
Proof.
  induction l as [|x l IH] using rev_ind; simpl.
  - split; [done|]. by intros ([|? ?] & ? & ? & _).
  - rewrite reverse_snoc. simpl. case_bool_decide as Hx.
    + rewrite IH. split.
      * intros (l1 & l2 & -> & ? & ?). exists l1, (l2 ++ [x]). rewrite <-(assoc_L (++)).
        split_and!; [done..|]. apply Forall_app. split; [done|by repeat constructor].
      * intros (l1 & l2 & Hl & Hr & Hf). destruct l2 as [|y l2 _] using rev_ind.
        { apply app_inj_tail in Hl as [_ ->]. done. }
        rewrite app_comm_cons, (assoc_L (++)) in Hl. apply app_inj_tail in Hl as [-> ->].
        apply Forall_app in Hf as [? _]. eauto.
    + split.
      * intros [= ->]. exists l, []. split_and!; [done|done|constructor].
      * intros (l1 & l2 & Hl & Hr & Hf). destruct l2 as [|y l2 _] using rev_ind.
        { by apply app_inj_tail in Hl as [_ ->]. }
        rewrite app_comm_cons, (assoc_L (++)) in Hl. apply app_inj_tail in Hl as [-> ->].
        apply Forall_app in Hf as [_ Hf]. by inversion Hf.
Qed.

(** the approval gate pauses exactly on a fresh sensitive request: it asks for
    approval when the invocation starts, is not marked approved, and the latest
    user message has a text part with the marker; it allows everything else, also
    when only an earlier message is sensitive. *)
Theorem sensitivity_pauses_iff ctx phase i w :
  ∃ d, sensitivity_Evaluate ToUpper ctx phase i w = (Ok d, w) ∧
    (d_Verdict d = VerdictRequireApproval ∨ d_Verdict d = VerdictAllow) ∧
    (d_Verdict d = VerdictRequireApproval ↔
     phase = PhasePreInvocation ∧ approved_metadata i = false ∧
     ∃ l1 m l2, elems (pi_Messages i) = l1 ++ m :: l2 ∧ m_Role m = RoleUser ∧
       Forall (λ m, m_Role m ≠ RoleUser) l2 ∧
       ∃ s, s ∈ text_parts m ∧ Contains (ToUpper s) "SENSITIVE" = true).
Proof.
  pose proof verdicts_distinct as Hv. rewrite !NoDup_cons, !elem_of_cons, elem_of_nil in Hv.
  assert (Hne : VerdictAllow ≠ VerdictRequireApproval) by intuition congruence.
  assert (Hparts : ∀ m, existsb (part_sensitive ToUpper) (elems (m_Parts m)) = true ↔
    ∃ s, s ∈ text_parts m ∧ Contains (ToUpper s) "SENSITIVE" = true).
  { intros m. rewrite existsb_exists. unfold part_sensitive, text_parts. split.
    - intros (p & Hp%list_elem_of_In & [?%bool_decide_eq_true ?]%andb_true_iff). exists (part_Text p).
      split; [|done]. apply list_elem_of_fmap. exists p. split; [done|]. by apply list_elem_of_filter.
    - intros (s & (p & -> & [? Hp]%list_elem_of_filter)%list_elem_of_fmap & Hs). exists p.
      rewrite bool_decide_true by done. by rewrite <-list_elem_of_In. }
  unfold sensitivity_Evaluate.
  case_bool_decide as Hph; [|destruct (approved_metadata i) eqn:Ha;
    [|destruct (latest_user (reverse (elems (pi_Messages i)))) as [m|] eqn:Hu;
      [destruct (existsb _ _) eqn:He|]]];
    eexists; (split; [done|]); autorewrite with payload; (split; [by auto|]).
  - naive_solver.
  - naive_solver.
  - split; [|done]. intros _. split_and!; [done|done|].
    apply latest_user_spec in Hu as (l1 & l2 & ? & ? & ?). exists l1, m, l2.
    split_and!; [done..|]. by apply Hparts.
  - split; [done|]. intros (_ & _ & l1 & m' & l2 & Hl & Hr & Hf & Hs).
    assert (Some m = Some m') as [= ->] by (rewrite <-Hu; apply latest_user_spec; eauto).
    apply Hparts in Hs. congruence.
  - split; [done|]. intros (_ & _ & l1 & m' & l2 & Hl & Hr & Hf & Hs).
    assert (None = Some m') by (rewrite <-Hu; apply latest_user_spec; eauto). done.
Qed.
End policy_properties.
