(* ===== verification/Leaves.v ===== *)
(** The factories around external services: the default budget profile, the
    environment credential resolver, the HTTP tool, the Ed25519 signer, the slog
    telemetry profile and the Anthropic provider (factories/budgetprofiledefault,
    credresolverenv, toolpackhttpget, identitysignered25519,
    telemetryprofileslog, provideranthropic).

    What they decode and decide is modelled; the services themselves (the
    environment, HTTP, JSON and URL parsing, the signer, the logger, the client)
    are parameters of the section that uses them. *)

From S2P Require Import Prelude GoStrings Errors Values.
From S2P Require Import Types Ids Extends Kernel Registry Budget Payloads.
From stdpp Require Import options.
Open Scope Z_scope.

(** int64 arithmetic wraps around. *)
Definition wrap64 (z : Z) : Z := (z + two63) mod (2 * two63) - two63.

Definition Millisecond : Z := 1000000.
Definition Second : Z := 1000000000.

(** [int(x)] of a float64 outside the int range is the platform's. *)
Section to_int.
Context (int_of_float : SpecFloat.spec_float → Z).

(** The type switch the decoders share; [kind] is the word of its message. *)
Definition toInt (kind : string) (v : any) : res error Z :=
  match v with
  | AInt x => Ok x
  | AInt64 x => Ok x
  | AFloat64 x => Ok (int_of_float x)
  | _ => Err (EText (Sprintf ("want " +:+ kind +:+ ", got %T") [FS (type_name v)]))
  end.
End to_int.

(** ** budgetprofiledefault *)

Section budget_profile.
Context `{K : Kernel} (NullGuard : Guard) (zero_Config : BudgetConfig).

Definition default_ceiling (f : BudgetField) : Z :=
  match f with
  | MaxWallClock => 30 * Second
  | MaxInputTokens => 50000
  | MaxOutputTokens => 10000
  | MaxToolCalls => 24
  | MaxCostMicrodollars => 500000
  end.

Definition default_config : BudgetConfig :=
  foldr (λ f c, cfg_set f (default_ceiling f) c) zero_Config
    [MaxWallClock; MaxInputTokens; MaxOutputTokens; MaxToolCalls; MaxCostMicrodollars].

Definition budgetprofile_NewFactory (id : ID) : Factory KindBudgetProfile :=
  mkFactory (k := KindBudgetProfile) id "default tier-1 budget profile"
    (λ _ _, io_ret (mkBudgetProfile NullGuard default_config)).
End budget_profile.

(** ** credresolverenv *)

Section credentials.
Context `{K : Kernel}.
(** [strings.ToUpper], [os.Getenv], credentials.Credential and the interface
    credentials.Resolver. *)
Context (ToUpper : string → string) (Getenv : string → World → string).
Context {Credential : Type} (mk_Credential : string → Credential).
Context (resolver_of : (context → string → IO Credential) → Resolver).

(** [strings.ReplaceAll(s, old, new)] of one byte by another. *)
Fixpoint replace_byte (old new : ascii) (s : string) : string :=
  match s with
  | "" => ""
  | String c s' => String (if decide (c = old) then new else c) (replace_byte old new s')
  end.

Definition scopeToEnv (scope : string) : string :=
  let s := ToUpper scope in
  let s := replace_byte ":" "_" s in
  let s := replace_byte "-" "_" s in
  "FORGE_CRED_" +:+ s.

Definition resolver_Fetch : context → string → IO Credential := λ _ scope w,
  let envName := scopeToEnv scope in
  let v := Getenv envName w in
  if bool_decide (v = "") then (Err (EText (Sprintf "credresolver.env: %s not set" [FS envName])), w)
  else (Ok (mk_Credential v), w).

Definition credresolver_NewFactory (id : ID) : Factory KindCredentialResolver :=
  mkFactory (k := KindCredentialResolver) id "env-var credential resolver"
    (λ _ _, io_ret (resolver_of resolver_Fetch)).
End credentials.

(** ** The client of net/http

    [client.Do] of a GET request by a client without [CheckRedirect]: a response that
    redirects is followed to whatever host it names, until ten requests were made.
    [RoundTrip] makes one request (within the client's timeout), [redirect] is the
    request a response redirects to, or the error of its location. *)

Section http_client.
Context `{K : Kernel} {Request Response : Type}.
Context (RoundTrip : Z → Request → IO Response).
Context (redirect : Request → Response → option (res error Request)).

Definition stopped : error := EOpaque "stopped after 10 redirects".

(** The requests made, first to last, and the outcome; [more] may follow the first. *)
Fixpoint client_requests (more : nat) (timeout : Z) (req : Request) : World → list Request * (res error Response * World) :=
  λ w, let '(r, w) := RoundTrip timeout req w in
  match r with
  | Err e => ([req], (Err e, w))
  | Ok resp =>
    match redirect req resp with
    | None => ([req], (Ok resp, w))
    | Some (Err e) => ([req], (Err e, w))
    | Some (Ok next) =>
      match more with
      | 0%nat => ([req], (Err stopped, w))
      | S more => let '(reqs, out) := client_requests more timeout next w in (req :: reqs, out)
      end
    end
  end.

Definition max_redirects : nat := 9.
Definition client_Do (timeout : Z) (req : Request) : IO Response := λ w, (client_requests max_redirects timeout req w).2.

(** Each request but the first is where a response to the one before redirects. *)
Definition redirected (q q' : Request) : Prop := ∃ resp, redirect q resp = Some (Ok q').

Fixpoint chained (R : Request → Request → Prop) (q : Request) (l : list Request) : Prop :=
  match l with [] => True | q' :: l' => R q q' ∧ chained R q' l' end.

Lemma client_requests_chained more timeout req w :
  ∃ rest, (client_requests more timeout req w).1 = req :: rest ∧ (length rest ≤ more)%nat ∧
    chained redirected req rest.
Proof.
  revert req w. induction more as [|more IH]; intros req w; simpl; destruct (RoundTrip timeout req w) as [[resp|e] w1];
    try (by exists []; split_and!; [done|simpl; lia|done]);
    destruct (redirect req resp) as [[next|e]|] eqn:Hr; try (by exists []; split_and!; [done|simpl; lia|done]).
  destruct (IH next w1) as (rest & Hreq & Hlen & Hch). destruct (client_requests more timeout next w1) as [reqs out].
  simpl in *. subst reqs. exists (next :: rest). split_and!; [done|simpl; lia|]. split; [by exists resp|done].
Qed.
End http_client.

(** ** toolpackhttpget *)

Record cfgShape := mkCfgShape { AllowedHosts : list string; Timeout : Z }.

(** The loop over [allowedHosts]. *)
Fixpoint host_strings (i : nat) (l : list any) : res error (list string) :=
  match l with
  | [] => Ok []
  | AString s :: l' => hosts ← host_strings (S i) l'; Ok (s :: hosts)
  | h :: _ => Err (EText (Sprintf "allowedHosts[%d]: want string, got %T" [FN i; FS (type_name h)]))
  end.

Section http_get.
Context `{K : Kernel} {L : Payloads}.
Context (int_of_float : SpecFloat.spec_float → Z).

Definition httpget_decode (cfg : config) : res error cfgShape :=
  match map_at cfg "allowedHosts" with
  | None => Err (EText (Sprintf "allowedHosts: required" []))
  | Some (AList (Some (h :: l))) =>
    hosts ← host_strings 0 (h :: l);
    match map_at cfg "timeoutMs" with
    | None => Ok (mkCfgShape hosts (5 * Second))
    | Some raw =>
      n ← map_err (EWrap (Sprintf "timeoutMs: %w" [])) (toInt int_of_float "int" raw);
      Ok (mkCfgShape hosts (wrap64 (n * Millisecond)))
    end
  | Some _ => Err (EText (Sprintf "allowedHosts: must be non-empty list" []))
  end.

(** [json.Unmarshal] into [args], [url.Parse] with its [Host], the error text, and
    the client: [http.NewRequestWithContext], [client.Do] with a timeout, and
    reading the body. *)
Context (Unmarshal_args : string → res error string) (url_Host : string → res error string).
Context (error_text : error → string).
Context {Request Response : Type} (NewRequest : context → string → res error Request).
Context (Do : Z → Request → IO Response) (ReadAll : Response → IO string).
Context (http_get_definition : ToolDefinition).

Definition hostAllowed (allowedHosts : list string) (host : string) : bool :=
  existsb (λ h, bool_decide (host = h)) allowedHosts.

Definition tool_error (content : string) : ToolResult := mk_ToolResult ToolStatusError content.

Definition httpget_Invoke (c : cfgShape) : Invoker := λ ctx _ call,
  match Unmarshal_args (call_ArgumentsJSON call) with
  | Err err => io_ret (tool_error ("invalid args: " +:+ error_text err))
  | Ok URL =>
    match url_Host URL with
    | Err _ => io_ret (tool_error "invalid url")
    | Ok Host =>
      if bool_decide (Host = "") then io_ret (tool_error "invalid url")
      else if negb (hostAllowed (AllowedHosts c) Host)
      then io_ret (tool_error ("host not in allowlist: " +:+ Host))
      else match NewRequest ctx URL with
      | Err err => io_ret (tool_error (error_text err))
      | Ok req => λ w,
        match Do (Timeout c) req w with
        | (Err err, w) => (Ok (tool_error (error_text err)), w)
        | (Ok resp, w) =>
          match ReadAll resp w with
          | (Err err, w) => (Ok (tool_error (error_text err)), w)
          | (Ok body, w) => (Ok (mk_ToolResult ToolStatusSuccess body), w)
          end
        end
      end
    end
  end.

Definition httpget_build (id : ID) (cfg : config) : res error ToolPack :=
  c ← map_err (EWrap (Sprintf "%s: %w" [FS id])) (httpget_decode cfg);
  Ok (mkToolPack (httpget_Invoke c) (Some [http_get_definition])
    (Some [mkToolDescriptor "http_get" "" RiskModerate (Some ["network"; "http"]) None 0 id])).

Definition httpget_NewFactory (id : ID) : Factory KindToolPack :=
  mkFactory (k := KindToolPack) id "single http_get tool with host allowlist"
    (λ _ cfg, io_lift (httpget_build id cfg)).
End http_get.

(** ** identitysignered25519 *)

Record signerConfig := mkSignerConfig { Issuer : string; Lifetime : Z }.

Section signer.
Context `{K : Kernel} (int_of_float : SpecFloat.spec_float → Z).
Context {PrivateKey : Type} (NewEd25519Signer : PrivateKey → string → Z → res error Signer).

Definition signer_toInt (v : any) : res error Z := toInt int_of_float "integer" v.

Definition signer_decode (cfg : config) : res error signerConfig :=
  match at_key cfg "issuer" with
  | AString iss =>
    if bool_decide (iss = "") then Err (EText (Sprintf "issuer: required string" []))
    else
      lifetime ← map_err (EWrap (Sprintf "tokenLifetimeSeconds: %w" []))
                   (signer_toInt (at_key cfg "tokenLifetimeSeconds"));
      if (Z.ltb lifetime 5 || Z.ltb 300 lifetime)%bool then
        Err (EText (Sprintf "tokenLifetimeSeconds: want 5..300, got %d" [FD lifetime]))
      else Ok (mkSignerConfig iss (wrap64 (lifetime * Second)))
  | _ => Err (EText (Sprintf "issuer: required string" []))
  end.

Definition signer_build (id : ID) (priv : PrivateKey) (cfg : config) : res error Signer :=
  c ← map_err (EWrap (Sprintf "%s: %w" [FS id])) (signer_decode cfg);
  map_err (EWrap (Sprintf "%s: %w" [FS id])) (NewEd25519Signer priv (Issuer c) (Lifetime c)).

Definition signer_NewFactory (id : ID) (priv : PrivateKey) : Factory KindIdentitySigner :=
  mkFactory (k := KindIdentitySigner) id "Ed25519 JWT identity signer"
    (λ _ cfg, io_lift (signer_build id priv cfg)).
End signer.

(** ** telemetryprofileslog *)

Section telemetry.
Context `{K : Kernel}.
(** log/slog, the invocation events, [ctx.Value] and the two interfaces. *)
Context {Logger Level Event : Type} (LevelInfo LevelDebug : Level) (ev_Type : Event → string).
Context (slog_Default : Logger).
Context (Log : Logger → context → Level → string → list string → World → World).
Context (ctx_Value : context → string → any).
Context (emitter_of : (context → Event → IO ()) → Emitter).
Context (enricher_of : (context → gomap string) → Enricher).

Definition slog_decode (cfg : config) : res error string :=
  match map_at cfg "level" with
  | None => Ok "info"
  | Some (AString s) =>
    if bool_decide (s ∈ ["debug"; "info"]) then Ok s
    else Err (EText (Sprintf "level: want debug|info, got %q" [FS s]))
  | Some raw => Err (EText (Sprintf "level: want string, got %T" [FS (type_name raw)]))
  end.

Definition emitter_Emit (log : Logger) (level : string) : context → Event → IO () := λ ctx ev w,
  let lvl := if bool_decide (level = "debug") then LevelDebug else LevelInfo in
  (Ok (), Log log ctx lvl "invocation.event" ["type"; ev_Type ev] w).

(** One key of the context, as an attribute. *)
Definition attribute (ctx : context) (key name : string) : list (string * string) :=
  match ctx_Value ctx key with
  | AString v => if bool_decide (v = "") then [] else [(name, v)]
  | _ => []
  end.

Definition enricher_Enrich (ctx : context) : gomap string :=
  match attribute ctx "forge.tenant" "tenant" ++ attribute ctx "forge.user" "user" with
  | [] => None
  | out => Some out
  end.

Definition slog_build (id : ID) (log : Logger) (cfg : config) : res error TelemetryProfile :=
  level ← map_err (EWrap (Sprintf "%s: %w" [FS id])) (slog_decode cfg);
  Ok (mkTelemetryProfile (emitter_of (emitter_Emit log level)) (enricher_of enricher_Enrich)).

(** A nil logger is replaced by the default one. *)
Definition slog_NewFactory (id : ID) (log : option Logger) : Factory KindTelemetryProfile :=
  mkFactory (k := KindTelemetryProfile) id "slog lifecycle emitter + enricher"
    (λ _ cfg, io_lift (slog_build id (default slog_Default log) cfg)).
End telemetry.

(** ** provideranthropic *)

Record providerConfig := mkProviderConfig { Model : string; pc_MaxOutputTokens : Z }.

Section provider.
Context `{K : Kernel} (int_of_float : SpecFloat.spec_float → Z).
Context {Option_ : Type} (WithModel : string → Option_) (WithMaxTokens : Z → Option_).
Context (anthropic_New : string → list Option_ → Provider_).

Definition anthropic_decode (cfg : config) : res error providerConfig :=
  match at_key cfg "model" with
  | AString model =>
    if bool_decide (model = "") then Err (EText (Sprintf "model: required string" []))
    else match map_at cfg "maxOutputTokens" with
    | None => Ok (mkProviderConfig model 0)
    | Some (AInt x) => Ok (mkProviderConfig model x)
    | Some (AInt64 x) => Ok (mkProviderConfig model x)
    | Some (AFloat64 x) => Ok (mkProviderConfig model (int_of_float x))
    | Some raw => Err (EText (Sprintf "maxOutputTokens: want int, got %T" [FS (type_name raw)]))
    end
  | _ => Err (EText (Sprintf "model: required string" []))
  end.

Definition anthropic_build (id : ID) (apiKey : string) (cfg : config) : res error Provider_ :=
  if bool_decide (apiKey = "") then
    Err (EText (Sprintf "%s: api key not set at factory construction" [FS id]))
  else
    c ← map_err (EWrap (Sprintf "%s: %w" [FS id])) (anthropic_decode cfg);
    Ok (anthropic_New apiKey (WithModel (Model c) ::
      if Z.ltb 0 (pc_MaxOutputTokens c) then [WithMaxTokens (pc_MaxOutputTokens c)] else [])).

Definition anthropic_NewFactory (id : ID) (apiKey : string) : Factory KindProvider :=
  mkFactory (k := KindProvider) id "Anthropic Claude provider"
    (λ _ cfg, io_lift (anthropic_build id apiKey cfg)).
End provider.

(** ** Properties *)

Lemma wrap64_id z : - two63 ≤ z < two63 → wrap64 z = z.
Proof. intros H. unfold wrap64. rewrite Z.mod_small; lia. Qed.

Section budget_properties.
Context `{K : Kernel} (zero_Config : BudgetConfig).

Lemma default_config_get f : cfg_get f (default_config zero_Config) = default_ceiling f.
Proof.
  unfold default_config. simpl. destruct f;
    repeat first [rewrite cfg_get_set; done | rewrite cfg_get_set_ne by done].
Qed.

(** with the default budget profile every ceiling stays capped: whatever overrides
    are accepted, no field of the resulting config exceeds the tier-1 ceiling of 30
    seconds, 50000 and 10000 tokens, 24 calls and 500000 microdollars. *)
Theorem default_profile_caps ov out f :
  applyBudgetOverrides (default_config zero_Config) ov = Ok out →
  cfg_get f out ≤ default_ceiling f ∧
  (requested ov f = None → cfg_get f out = default_ceiling f).
Proof.
  intros H. destruct (applyBudgetOverrides_Ok _ _ _ H f) as [Hl ->].
  rewrite default_config_get in *. unfold loosens, applied in *.
  assert (0 < default_ceiling f) by (by destruct f).
  destruct (requested ov f) as [v|]; simpl; split; try done; lia.
Qed.
End budget_properties.

Section credential_properties.
Context `{K : Kernel} (ToUpper : string → string) (Getenv : string → World → string).
Context {Credential : Type} (mk_Credential : string → Credential).

(** The two replacements of [scopeToEnv]. *)
Lemma replace_byte_gone old new s :
  old ≠ new → all_chars (λ c, negb (is_char old c)) (replace_byte old new s) = true.
Proof.
  intros Hne. induction s as [|c s IH]; [done|]. simpl. rewrite IH, andb_true_r.
  unfold is_char. case_decide; by rewrite bool_decide_false by congruence.
Qed.

Lemma replace_byte_length old new s : String.length (replace_byte old new s) = String.length s.
Proof. induction s as [|c s IH]; simpl; by rewrite ?IH. Qed.

(** A credential is the value of one variable, never an empty one; scopes that differ
    only by a colon for a dash read the same variable. *)
Lemma resolver_Fetch_spec ctx scope w :
  match resolver_Fetch ToUpper Getenv mk_Credential ctx scope w with
  | (Ok c, w') => w' = w ∧ ∃ v, v ≠ "" ∧ Getenv (scopeToEnv ToUpper scope) w = v ∧ c = mk_Credential v
  | (Err _, w') => w' = w ∧ Getenv (scopeToEnv ToUpper scope) w = ""
  end.
Proof. unfold resolver_Fetch. case_bool_decide; [done|]. split; [done|]. eauto. Qed.
End credential_properties.

Section http_properties.
Context `{K : Kernel} {L : Payloads}.
Context (Unmarshal_args : string → res error string) (url_Host : string → res error string).
Context (error_text : error → string).
Context {Request Response : Type} (NewRequest : context → string → res error Request).
Context (RoundTrip : Z → Request → IO Response) (redirect : Request → Response → option (res error Request)).
Context (ReadAll : Response → IO string).

Lemma hostAllowed_spec hosts h : hostAllowed hosts h = true ↔ h ∈ hosts.
Proof.
  unfold hostAllowed. rewrite existsb_exists. split.
  - intros (x & Hx%list_elem_of_In & ->%bool_decide_eq_true). done.
  - intros Hh. exists h. split; [by apply list_elem_of_In|]. by apply bool_decide_eq_true.
Qed.

(** C39: the HTTP tool starts only at allow-listed hosts and reports every failure
    in its result: an invocation always returns a result and no Go error, and if it
    touched the network or its status is not an error, the host of the URL in the
    arguments is one of the configured hosts, the first request made is for that URL,
    and the others, at most nine, are each where a server redirected the one before. *)
Theorem httpget_only_allowed c ctx ictx call w :
  ∃ r w',
    httpget_Invoke Unmarshal_args url_Host error_text NewRequest (client_Do RoundTrip redirect) ReadAll
      c ctx ictx call w = (Ok r, w') ∧
    (tr_Status r ≠ ToolStatusError ∨ w' ≠ w →
     ∃ URL Host req rest, Unmarshal_args (call_ArgumentsJSON call) = Ok URL ∧ url_Host URL = Ok Host ∧
       Host ≠ "" ∧ Host ∈ AllowedHosts c ∧ NewRequest ctx URL = Ok req ∧
       (client_requests RoundTrip redirect max_redirects (Timeout c) req w).1 = req :: rest ∧
       (length rest ≤ 9)%nat ∧ chained (redirected redirect) req rest).
Proof.
  assert (Hquiet : ∀ s (P : Prop), ∃ r w', (Ok (E := error) (tool_error s), w) = (Ok r, w') ∧
    (tr_Status r ≠ ToolStatusError ∨ w' ≠ w → P)).
  { intros s P. eexists _, _. split; [done|]. unfold tool_error. autorewrite with payload. by intros [?|?]. }
  unfold httpget_Invoke, io_ret.
  destruct (Unmarshal_args _) as [URL|e]; [|apply Hquiet].
  destruct (url_Host URL) as [Host|e] eqn:Hu; [|apply Hquiet].
  case_bool_decide as Hne; [apply Hquiet|]. destruct (hostAllowed _ _) eqn:Ha; simpl; [|apply Hquiet].
  apply hostAllowed_spec in Ha. destruct (NewRequest ctx URL) as [req|e] eqn:Hreq; [|apply Hquiet].
  destruct (client_requests_chained RoundTrip redirect max_redirects (Timeout c) req w) as (rest & Hr & Hlen & Hch).
  destruct (client_Do _ _ _ req w) as [[resp|e] w1]; [destruct (ReadAll resp w1) as [[body|e] w2]|];
    (eexists _, _; split; [done|]; intros _; by exists URL, Host, req, rest).
Qed.
End http_properties.

(** The redirect of an allow-listed server is followed anywhere: the body of a host
    that is not in the list is returned as a success.  Requests and responses are the
    hosts asked, and [example.org] redirects to [elsewhere.net]. *)
Example redirect_leaves_the_list :
  let redirect (q resp : string) := if bool_decide (q = "example.org") then Some (Ok "elsewhere.net") else None in
  let round_trip (_ : Z) (q : string) := io_ret (K := payload_kernel) q in
  httpget_Invoke (K := payload_kernel) (L := payload_sample) Ok Ok (λ _, "") (λ _, Ok) (client_Do round_trip redirect)
    (λ resp, io_ret ("body of " +:+ resp)) (mkCfgShape ["example.org"] 0)
    Background tt ("http_get", "example.org") [] =
  (Ok (mk_ToolResult (Payloads := payload_sample) ToolStatusSuccess "body of elsewhere.net"), []).
Proof. vm_compute. reflexivity. Qed.

Section signer_properties.
Context (int_of_float : SpecFloat.spec_float → Z).

(** the signer's token lifetime is bounded: a config is accepted only with an issuer
    and a lifetime from 5 to 300 seconds, and the duration is exactly that many
    seconds, without overflow. *)
Theorem signer_lifetime_bounds cfg c :
  signer_decode int_of_float cfg = Ok c →
  at_key cfg "issuer" = AString (Issuer c) ∧ Issuer c ≠ "" ∧
  ∃ n, toInt int_of_float "integer" (at_key cfg "tokenLifetimeSeconds") = Ok n ∧
    5 ≤ n ≤ 300 ∧ Lifetime c = n * Second.
Proof.
  unfold signer_decode. destruct (at_key cfg "issuer"); try done.
  case_bool_decide; [done|]. intros (n & Hn & Hc)%bind_Ok. rewrite map_err_Ok in Hn.
  destruct (Z.ltb_spec n 5), (Z.ltb_spec 300 n); try done. simpl in Hc. injection Hc as <-. simpl.
  split_and!; [done..|]. exists n. split_and!; [done|lia|lia|].
  apply wrap64_id. unfold Second, two63. lia.
Qed.
End signer_properties.

(** The timeout of the HTTP tool has no such bound: a large number of
    milliseconds overflows, here to a negative duration. *)
Example httpget_timeout_wraps :
  httpget_decode (λ _, 0)
    (Some [("allowedHosts", AList (Some [AString "example.org"])); ("timeoutMs", AInt 9223372036855)]) =
  Ok (mkCfgShape ["example.org"] (-9223372036854551616)).
Proof. vm_compute. reflexivity. Qed.

(** The attributes the enricher adds: those of the context that are not empty. *)
Lemma enricher_Enrich_spec (ctx_Value : context → string → any) ctx :
  let out := enricher_Enrich ctx_Value ctx in
  (map_at out "tenant" = Some (default "" (as_string (ctx_Value ctx "forge.tenant"))) ∨
   map_at out "tenant" = None ∧ default "" (as_string (ctx_Value ctx "forge.tenant")) = "") ∧
  (map_at out "user" = Some (default "" (as_string (ctx_Value ctx "forge.user"))) ∨
   map_at out "user" = None ∧ default "" (as_string (ctx_Value ctx "forge.user")) = "") ∧
  out ≠ Some [].
Proof.
  unfold enricher_Enrich, attribute.
  destruct (ctx_Value ctx "forge.tenant"), (ctx_Value ctx "forge.user"); simpl;
    repeat case_bool_decide; subst; simpl; (split_and!; [by auto..|done]).
Qed.

(** The provider is built with the configured model, and a token limit only when it is
    positive. *)
Lemma anthropic_build_Ok `{K : Kernel} int_of_float {O : Type} (WithModel : string → O) WithMaxTokens
    anthropic_New id apiKey cfg p :
  anthropic_build int_of_float WithModel WithMaxTokens anthropic_New id apiKey cfg = Ok p →
  apiKey ≠ "" ∧ ∃ model n, at_key cfg "model" = AString model ∧ model ≠ "" ∧
    p = anthropic_New apiKey (WithModel model :: if Z.ltb 0 n then [WithMaxTokens n] else []).
Proof.
  unfold anthropic_build. case_bool_decide as Hk; [done|]. intros (c & Hc & [= <-])%bind_Ok.
  rewrite map_err_Ok in Hc. split; [done|]. unfold anthropic_decode in Hc.
  destruct (at_key cfg "model"); try done. case_bool_decide; [done|].
  destruct (map_at cfg "maxOutputTokens") as [[]|]; simplify_eq; eauto 10.
Qed.

(** ** Witnesses *)

Example default_profile_caps_witness :
  sample_cfg_get MaxToolCalls (30000000000, 50000, 10000, 10, 500000) ≤ 24.
Proof.
  apply (default_profile_caps (K := payload_kernel) (0, 0, 0, 0, 0) (mkBudgetOverrides "" 0 0 10 0)
    (30000000000, 50000, 10000, 10, 500000) MaxToolCalls).
  vm_compute. reflexivity.
Defined.

Example signer_lifetime_bounds_witness :
  ∃ n, toInt (λ _, 0) "integer" (AInt 60) = Ok n ∧ 5 ≤ n ≤ 300 ∧ 60000000000 = n * Second.
Proof.
  apply (signer_lifetime_bounds (λ _, 0)
    (Some [("issuer", AString "acme"); ("tokenLifetimeSeconds", AInt 60)]) (mkSignerConfig "acme" 60000000000)).
  vm_compute. reflexivity.
Defined.
