(* ===== verification/Sessions.v ===== *)
(** The caller-owned session pattern (examples/session-pattern/session.go): an
    in-memory store of sessions and the [App] that advances them.

    [Load] returns a pointer to the stored record, so what [Turn] writes through
    it is visible to later loads before any [Save]: sessions live in a heap and
    the store maps identifiers to locations.  The methods run
    one after the other here; SharedSessions interleaves them. *)

From S2P Require Import Prelude GoStrings Errors Values.
From S2P Require Import Types Extends Merge Normalize Hash Kernel Registry Payloads.
From S2P Require Import Manifest Build Forge.
From stdpp Require Import options.

(** Errors of praxis and requests of its orchestrator: the snapshot of a paused
    invocation, [errors.As] at ApprovalRequiredError, and the fields the example
    reads and writes. *)
Class Approvals `{K : Kernel} {L : Payloads} {O : Orchestration} := {
  ApprovalSnapshot : Type;
  snap_Model : ApprovalSnapshot → string;
  snap_SystemPrompt : ApprovalSnapshot → string;
  snap_Messages : ApprovalSnapshot → slice Message;
  as_ApprovalRequired : error → option ApprovalSnapshot;
  mk_InvocationRequest : string → string → slice Message → gomap string → InvocationRequest;
  res_Response : InvocationResult → option Message;
}.

Section session.
Context `{K : Kernel} {L : Payloads} {O : Orchestration} {A : Approvals}.

(** The zero [time.Time]. *)
Context (zero_Time : Time).

Record Session := mkSession {
  ses_ID : string; Messages : slice Message; PendingApproval : option ApprovalSnapshot;
  Updated : Time;
}.

(** The heap, the map of the store, and the world. *)
Record state := mkState { heap : gmap nat Session; data : gmap string nat; world : World }.

Definition SM (T : Type) : Type := state → res error T * state.
Definition sm_ret {T} (a : T) : SM T := λ st, (Ok a, st).
Definition sm_fail {T} (e : error) : SM T := λ st, (Err e, st).
Definition sm_bind {T U} (m : SM T) (f : T → SM U) : SM U := λ st,
  match m st with
  | (Ok a, st) => f a st
  | (Err e, st) => (Err e, st)
  end.
Local Notation "x <- m ;; k" := (sm_bind m (λ x, k)) (at level 100, m at next level, right associativity).

(** [*p], [*p = s], a call of the kernel. *)
Definition deref (p : nat) : SM Session := λ st,
  match heap st !! p with
  | Some s => (Ok s, st)
  | None => (Err (EPanic "nil pointer dereference"), st)
  end.
Definition assign (p : nat) (s : Session) : SM () := λ st,
  (Ok (), mkState (<[p := s]> (heap st)) (data st) (world st)).
(** The result of a call that the caller inspects itself. *)
Definition call {T} (m : IO T) : SM (res error T) := λ st,
  let '(r, w) := m (world st) in (Ok r, mkState (heap st) (data st) w).
Definition now : SM Time := λ st,
  let '(t, w) := Now_UTC (world st) in (Ok t, mkState (heap st) (data st) w).

(** ** InMemoryStore *)

Definition Load (id : string) : SM nat := λ st,
  match data st !! id with
  | Some existing => (Ok existing, st)
  | None =>
    let p := fresh (dom (heap st)) in
    (Ok p, mkState (<[p := mkSession id None None zero_Time]> (heap st)) (data st) (world st))
  end.

Definition set_Updated (t : Time) (s : Session) : Session :=
  mkSession (ses_ID s) (Messages s) (PendingApproval s) t.
Definition set_Messages (ms : slice Message) (s : Session) : Session :=
  mkSession (ses_ID s) ms (PendingApproval s) (Updated s).
Definition set_Pending (a : option ApprovalSnapshot) (s : Session) : Session :=
  mkSession (ses_ID s) (Messages s) a (Updated s).

Definition put (id : string) (p : nat) : SM () := λ st,
  (Ok (), mkState (heap st) (<[id := p]> (data st)) (world st)).

Definition Save (sess : nat) : SM () :=
  t <- now ;;
  s <- deref sess ;;
  _ <- assign sess (set_Updated t s) ;;
  put (ses_ID s) sess.

Definition NewInMemoryStore (h : gmap nat Session) (w : World) : state := mkState h ∅ w.

(** ** Store: the interface *)

Record Store := mkStore {
  store_Load : context → string → SM nat;
  store_Save : context → nat → SM ();
}.

(** The in-memory store ignores the context. *)
Definition InMemoryStore : Store := mkStore (λ _, Load) (λ _, Save).

(** ** App *)

Record App := mkApp { Agent : BuiltAgent; app_Store : Store; app_Model : string }.

Definition user_message (userInput : string) : Message :=
  mk_Message RoleUser (Some [TextPart userInput]).

Definition pending_error (id : string) : error :=
  EText (Sprintf "session %s: pending approval; call Resume first" [FS id]).
Definition no_pending_error (id : string) : error :=
  EText (Sprintf "session %s: no pending approval" [FS id]).

Definition wrap_save (what : string) (m : SM ()) : SM () := λ st,
  let '(r, st) := m st in (map_err (EWrap (Sprintf what [])) r, st).

Definition invoke (a : App) (ctx : context) (req : InvocationRequest) : SM (res error InvocationResult) :=
  call (BuiltAgent_Invoke (Agent a) ctx req).

(** [*res.Response]. *)
Definition response (r : InvocationResult) : SM Message :=
  match res_Response r with
  | Some m => sm_ret m
  | None => sm_fail (EPanic "nil pointer dereference")
  end.

(** What a turn does with the result of the invocation. *)
Definition finish_turn (a : App) (ctx : context) (sess : nat) (r : res error InvocationResult) : SM Message :=
  s <- deref sess ;;
  match r with
  | Err err =>
    match as_ApprovalRequired err with
    | Some snap =>
      _ <- assign sess (set_Pending (Some snap) s) ;;
      _ <- wrap_save "persist pending approval: %w" (store_Save (app_Store a) ctx sess) ;;
      sm_fail err
    | None => sm_fail err
    end
  | Ok res =>
    m <- response res ;;
    _ <- assign sess (set_Messages (append_slice (Messages s) [m]) s) ;;
    _ <- wrap_save "persist turn: %w" (store_Save (app_Store a) ctx sess) ;;
    sm_ret m
  end.

Definition Turn (a : App) (ctx : context) (id userInput : string) : SM Message :=
  sess <- store_Load (app_Store a) ctx id ;;
  s <- deref sess ;;
  if bool_decide (is_Some (PendingApproval s)) then sm_fail (pending_error id)
  else
    let msgs := append_slice (Messages s) [user_message userInput] in
    _ <- assign sess (set_Messages msgs s) ;;
    r <- invoke a ctx (mk_InvocationRequest (app_Model a) (BuiltAgent_SystemPrompt (Agent a)) msgs None) ;;
    finish_turn a ctx sess r.

Definition Resume (a : App) (ctx : context) (id : string) (approved : bool) : SM () :=
  sess <- store_Load (app_Store a) ctx id ;;
  s <- deref sess ;;
  match PendingApproval s with
  | None => sm_fail (no_pending_error id)
  | Some snap =>
    if negb approved then
      _ <- assign sess (set_Pending None s) ;;
      store_Save (app_Store a) ctx sess
    else
      r <- invoke a ctx (mk_InvocationRequest (snap_Model snap) (snap_SystemPrompt snap) (snap_Messages snap)
             (Some [("approval_decision", "approved")])) ;;
      s <- deref sess ;;
      match r with
      | Err err => sm_fail err
      | Ok res =>
        m <- response res ;;
        _ <- assign sess (set_Pending None (set_Messages (append_slice (snap_Messages snap) [m]) s)) ;;
        store_Save (app_Store a) ctx sess
      end
  end.

(** ** The specification: conversations

    What the caller can tell of a session: its messages and whether it waits for
    approval. *)
Record conversation := mkConversation {
  c_Messages : slice Message; c_Pending : option ApprovalSnapshot;
}.
Definition conversation_of (s : Session) : conversation := mkConversation (Messages s) (PendingApproval s).

(** The conversation a [Load] of [id] gives. *)
Definition view (st : state) (id : string) : conversation :=
  match data st !! id ≫= λ p, heap st !! p with
  | Some s => conversation_of s
  | None => mkConversation None None
  end.

(** The store holds each session under its own identifier. *)
Definition wf (st : state) : Prop :=
  ∀ id p, data st !! id = Some p → ∃ s, heap st !! p = Some s ∧ ses_ID s = id.

(** *** What one operation does, by the outcome of the invocation *)

Inductive reply :=
| Replied (m : Message) | Paused (snap : ApprovalSnapshot) | Failed.

Definition turn_spec (known : bool) (c : conversation) (userInput : string) (o : reply) : conversation :=
  let msgs := append_slice (c_Messages c) [user_message userInput] in
  match o with
  | Replied m => mkConversation (append_slice msgs [m]) None
  | Paused snap => mkConversation msgs (Some snap)
  | Failed => if known then mkConversation msgs None else c
  end.

Definition outcome (r : res error InvocationResult) : reply :=
  match r with
  | Ok res => match res_Response res with Some m => Replied m | None => Failed end
  | Err e => match as_ApprovalRequired e with Some snap => Paused snap | None => Failed end
  end.
End session.

(** ** Lemmas *)

Section session_lemmas.
Context `{K : Kernel} {L : Payloads} {O : Orchestration} {A : Approvals} (zero_Time : Time).

(** [p] is the record of [id], stored or just made by [Load]. *)
Definition record_at (st : state) (id : string) (p : nat) (s : Session) : Prop :=
  heap st !! p = Some s ∧ ses_ID s = id ∧ (data st !! id = Some p ∨ data st !! id = None).

(** Only the conversation of [id] may differ. *)
Definition others_kept (id : string) (st st' : state) : Prop :=
  ∀ id', id' ≠ id → view st' id' = view st id'.

Lemma view_stored st id p s : data st !! id = Some p → heap st !! p = Some s → view st id = conversation_of s.
Proof. intros Hd Hh. unfold view. rewrite Hd. simpl. by rewrite Hh. Qed.

Lemma view_unknown st id : data st !! id = None → view st id = mkConversation None None.
Proof. intros Hd. unfold view. by rewrite Hd. Qed.

(** Writing a record of the same identifier. *)
Lemma write_spec st id p s s' w :
  wf st → record_at st id p s → ses_ID s' = id →
  let st' := mkState (<[p := s']> (heap st)) (data st) w in
  wf st' ∧ record_at st' id p s' ∧ others_kept id st st' ∧
  view st' id = (if decide (is_Some (data st !! id)) then conversation_of s' else view st id).
Proof.
  intros Hwf (Hh & Hid & Hd) Hid' st'. assert (Hp : ∀ id', data st !! id' = Some p → id' = id).
  { intros id' Hd'. destruct (Hwf _ _ Hd') as (? & ? & ?). congruence. }
  split_and!.
  - intros id' q Hq. destruct (Hwf _ _ Hq) as (t & Ht & Htid). simpl.
    destruct (decide (q = p)) as [->|Hne].
    + exists s'. rewrite lookup_insert_eq. split; [done|]. by rewrite (Hp _ Hq).
    + exists t. by rewrite lookup_insert_ne.
  - split_and!; [simpl; by rewrite lookup_insert_eq|done|done].
  - intros id' Hne. unfold view. simpl. destruct (data st !! id') as [q|] eqn:Hq; [|done]. simpl.
    rewrite lookup_insert_ne; [done|]. intros <-. by apply Hne, Hp.
  - case_decide as Hs.
    + destruct Hd as [Hd|Hd]; [|by rewrite Hd in Hs; destruct Hs].
      eapply view_stored; simpl; [exact Hd|by rewrite lookup_insert_eq].
    + unfold view. simpl. apply eq_None_not_Some in Hs. by rewrite Hs.
Qed.

Lemma Load_spec id st :
  wf st →
  ∃ p s st', Load zero_Time id st = (Ok p, st') ∧ wf st' ∧ record_at st' id p s ∧
    conversation_of s = view st id ∧ (∀ id', view st' id' = view st id') ∧
    data st' = data st ∧ world st' = world st.
Proof.
  intros Hwf. unfold Load, record_at. destruct (data st !! id) as [p|] eqn:Hd.
  - destruct (Hwf _ _ Hd) as (s & Hs & Hid). exists p, s, st.
    split_and!; try done; [by left|]. by rewrite (view_stored _ _ _ _ Hd Hs).
  - set (p := fresh (dom (heap st))). assert (Hp : heap st !! p = None).
    { apply not_elem_of_dom. apply is_fresh. }
    assert (Hne : ∀ id' q, data st !! id' = Some q → q ≠ p).
    { intros id' q Hq ->. destruct (Hwf _ _ Hq) as (? & ? & _). congruence. }
    eexists p, _, _. split; [done|]. split_and!; try done.
    + intros id' q Hq. destruct (Hwf _ _ Hq) as (t & Ht & Htid). exists t. simpl.
      rewrite lookup_insert_ne by (by apply not_eq_sym, Hne with id'). done.
    + simpl. by rewrite lookup_insert_eq.
    + done.
    + simpl. auto.
    + by rewrite view_unknown.
    + intros id'. unfold view. simpl. destruct (data st !! id') as [q|] eqn:Hq; [|done]. simpl.
      by rewrite lookup_insert_ne by (by apply not_eq_sym, Hne with id').
Qed.

(** [Save] stores the record: the conversation of its identifier is the record's. *)
Lemma Save_spec st id p s :
  wf st → record_at st id p s →
  ∃ st', Save p st = (Ok (), st') ∧ wf st' ∧ view st' id = conversation_of s ∧
    others_kept id st st' ∧ world st' = (Now_UTC (world st)).2.
Proof.
  intros Hwf Hr. assert (Hr' := Hr). destruct Hr as (Hh & Hid & Hd).
  unfold Save, now, sm_bind, deref, assign, put. destruct (Now_UTC (world st)) as [t w] eqn:Hn. cbn [heap].
  rewrite Hh. destruct (write_spec st id p s (set_Updated t s) w Hwf Hr' Hid) as (Hwf' & _ & Ho & _).
  eexists. split; [done|]. cbn [heap data world] in *. split_and!.
  - intros id' q. simpl. destruct (decide (id' = ses_ID s)) as [->|Hne].
    + rewrite lookup_insert_eq. intros [= <-]. exists (set_Updated t s). by rewrite lookup_insert_eq.
    + rewrite lookup_insert_ne by done. apply Hwf'.
  - rewrite <-Hid. apply (view_stored _ _ p (set_Updated t s)); simpl; by rewrite lookup_insert_eq.
  - intros id' Hne. rewrite <-(Ho id' Hne). unfold view. simpl.
    by rewrite lookup_insert_ne by (by rewrite Hid).
  - done.
Qed.
(** Running a bound step. *)
Lemma sm_bind_Ok {T U} (m : SM T) (f : T → SM U) st x st' :
  m st = (Ok x, st') → sm_bind m f st = f x st'.
Proof. unfold sm_bind. by intros ->. Qed.

Lemma sm_bind_inv {T U} (m : SM T) (f : T → SM U) st y st' :
  sm_bind m f st = (Ok y, st') → ∃ x st1, m st = (Ok x, st1) ∧ f x st1 = (Ok y, st').
Proof. unfold sm_bind. destruct (m st) as [[x|e] st1]; [eauto|done]. Qed.

Lemma deref_inv p st s st' : deref p st = (Ok s, st') → st' = st ∧ heap st !! p = Some s.
Proof. unfold deref. destruct (heap st !! p) eqn:Hp; [|done]. by intros [= <- <-]. Qed.

Lemma assign_run p s st : assign p s st = (Ok (), mkState (<[p := s]> (heap st)) (data st) (world st)).
Proof. done. Qed.

Lemma sm_ret_run {T} (x : T) st : sm_ret x st = (Ok x, st).
Proof. done. Qed.

Lemma deref_record st id p s : record_at st id p s → deref p st = (Ok s, st).
Proof. intros (Hh & _). unfold deref. by rewrite Hh. Qed.

Lemma invoke_run a ctx req h d w0 r w :
  BuiltAgent_Invoke (Agent a) ctx req w0 = (r, w) →
  invoke a ctx req (mkState h d w0) = (Ok r, mkState h d w).
Proof. intros Hi. unfold invoke, call. simpl. by rewrite Hi. Qed.

Lemma wrap_save_Ok what m st st' : m st = (Ok (), st') → wrap_save what m st = (Ok (), st').
Proof. unfold wrap_save. by intros ->. Qed.

Lemma others_kept_trans id st1 st2 st3 :
  others_kept id st1 st2 → others_kept id st2 st3 → others_kept id st1 st3.
Proof. intros H1 H2 id' Hne. by rewrite H2, H1. Qed.

(** Writing the record and saving it: its conversation is the stored one. *)
Lemma assign_Save st id p s s' :
  wf st → record_at st id p s → ses_ID s' = id →
  ∃ st1 st2, assign p s' st = (Ok (), st1) ∧ Save p st1 = (Ok (), st2) ∧ wf st2 ∧
    view st2 id = conversation_of s' ∧ others_kept id st st2.
Proof.
  intros Hwf Hr Hid.
  destruct (write_spec st id p s s' (world st) Hwf Hr Hid) as (Hwf1 & Hr1 & Ho1 & _).
  destruct (Save_spec _ _ _ _ Hwf1 Hr1) as (st2 & Hs & Hwf2 & Hv & Ho2 & _).
  eexists _, st2. split; [done|]. split_and!; try done. by eapply others_kept_trans.
Qed.
End session_lemmas.

(** ** Properties *)

Section session_properties.
Context `{K : Kernel} {L : Payloads} {O : Orchestration} {A : Approvals} (zero_Time : Time).

(** The app keeps its sessions in memory. *)
Definition in_memory (a : App) : Prop := app_Store a = InMemoryStore zero_Time.

(** The request a turn sends. *)
Definition turn_request (a : App) (c : conversation) (userInput : string) : InvocationRequest :=
  mk_InvocationRequest (app_Model a) (BuiltAgent_SystemPrompt (Agent a))
    (append_slice (c_Messages c) [user_message userInput]) None.
Definition resume_request (snap : ApprovalSnapshot) : InvocationRequest :=
  mk_InvocationRequest (snap_Model snap) (snap_SystemPrompt snap) (snap_Messages snap)
    (Some [("approval_decision", "approved")]).

(** The end of a turn: the record of [id] holds the conversation with the user's
    message, and what is saved follows the outcome of the invocation. *)
Lemma finish_turn_run a ctx id p s1 msgs st2 ir r st' :
  in_memory a → wf st2 → record_at st2 id p s1 → conversation_of s1 = mkConversation msgs None →
  finish_turn a ctx p ir st2 = (r, st') →
  wf st' ∧ others_kept id st2 st' ∧
  match outcome ir with
  | Replied m => r = Ok m ∧ view st' id = mkConversation (append_slice msgs [m]) None
  | Paused sn => (∃ e, ir = Err e ∧ r = Err e) ∧ view st' id = mkConversation msgs (Some sn)
  | Failed => is_ok r = false ∧ st' = st2
  end.
Proof.
  intros Ha0 Hwf Hr [= Hms Hp] H. assert (Hid : ses_ID s1 = id) by apply Hr. unfold finish_turn in H.
  rewrite Ha0 in H. cbn [store_Save InMemoryStore] in H.
  rewrite (sm_bind_Ok _ _ _ _ _ (deref_record _ _ _ _ Hr)) in H. unfold outcome.
  destruct ir as [res|e]; [unfold response in H; destruct (res_Response res) as [m|]|].
  - rewrite (sm_bind_Ok _ _ _ _ _ (sm_ret_run _ _)) in H. set (s2 := set_Messages _ s1) in H.
    destruct (assign_Save st2 id p s1 s2 Hwf Hr Hid) as (st3 & st4 & Ha & Hs & Hwf4 & Hv4 & Ho4).
    rewrite (sm_bind_Ok _ _ _ _ _ Ha), (sm_bind_Ok _ _ _ _ _ (wrap_save_Ok _ _ _ _ Hs)) in H.
    injection H as <- <-. split_and!; [done..|]. rewrite Hv4. unfold conversation_of, s2. simpl. by rewrite Hms, Hp.
  - injection H as <- <-. by split_and!.
  - destruct (as_ApprovalRequired e) as [sn|]; [|by injection H as <- <-].
    set (s2 := set_Pending _ s1) in H.
    destruct (assign_Save st2 id p s1 s2 Hwf Hr Hid) as (st3 & st4 & Ha & Hs & Hwf4 & Hv4 & Ho4).
    rewrite (sm_bind_Ok _ _ _ _ _ Ha), (sm_bind_Ok _ _ _ _ _ (wrap_save_Ok _ _ _ _ Hs)) in H.
    injection H as <- <-. split_and!; [done..|by eexists|]. rewrite Hv4. unfold conversation_of, s2. simpl.
    by rewrite Hms.
Qed.

Lemma turn_run a ctx id userInput st r st' :
  in_memory a → wf st → Turn a ctx id userInput st = (r, st') →
  let c := view st id in
  wf st' ∧ others_kept id st st' ∧
  match c_Pending c with
  | Some _ => r = Err (pending_error id) ∧ view st' id = c ∧ world st' = world st
  | None =>
    let '(ir, w) := BuiltAgent_Invoke (Agent a) ctx (turn_request a c userInput) (world st) in
    view st' id = turn_spec (bool_decide (is_Some (data st !! id))) c userInput (outcome ir) ∧
    match outcome ir with
    | Replied m => r = Ok m
    | Paused _ => ∃ e, ir = Err e ∧ r = Err e
    | Failed => is_ok r = false ∧ world st' = w
    end
  end.
Proof.
  intros Ha0 Hwf H c.
  destruct (Load_spec zero_Time id st Hwf) as (p & s & st1 & Hl & Hwf1 & Hr1 & Hc & Hv & Hd & Hw).
  fold c in Hc. unfold Turn in H. rewrite Ha0 in H. cbn [store_Load InMemoryStore] in H. rewrite (sm_bind_Ok _ _ _ _ _ Hl) in H.
  rewrite (sm_bind_Ok _ _ _ _ _ (deref_record _ _ _ _ Hr1)) in H.
  assert (Hms : Messages s = c_Messages c) by (by rewrite <-Hc).
  assert (Hpend : PendingApproval s = c_Pending c) by (by rewrite <-Hc).
  rewrite Hpend, Hms in H. destruct (c_Pending c) as [sn|] eqn:Hcp.
  { rewrite bool_decide_true in H by done. injection H as <- <-.
    split_and!; [done|by intros id' _|done|by rewrite Hv|done]. }
  rewrite bool_decide_false in H by (by intros [? ?]). fold (turn_request a c userInput) in H.
  destruct (BuiltAgent_Invoke (Agent a) ctx (turn_request a c userInput) (world st)) as [ir w] eqn:Hi.
  rewrite <-Hw in Hi. cbv zeta in H.
  rewrite (sm_bind_Ok _ _ _ _ _ (assign_run _ _ _)) in H. rewrite (sm_bind_Ok _ _ _ _ _ (invoke_run _ _ _ _ _ _ _ _ Hi)) in H.
  set (s1 := set_Messages (append_slice (c_Messages c) [user_message userInput]) s) in *.
  destruct (write_spec st1 id p s s1 w Hwf1 Hr1 (proj1 (proj2 Hr1))) as (Hwf2 & Hr2 & Ho2 & Hv2).
  set (st2 := mkState (<[p := s1]> (heap st1)) (data st1) w) in *.
  change (mkState _ _ w) with st2 in H.
  assert (Ho : others_kept id st st2) by (intros id' Hne; by rewrite <-Hv, <-Ho2).
  assert (Hs1 : conversation_of s1 = mkConversation (append_slice (c_Messages c) [user_message userInput]) None)
    by (unfold conversation_of, s1; simpl; by rewrite Hpend).
  rewrite Hd, Hv in Hv2. destruct (finish_turn_run _ _ _ _ _ _ _ _ _ _ Ha0 Hwf2 Hr2 Hs1 H) as (Hwf' & Ho' & Hout).
  split_and!; [done|by eapply others_kept_trans|..].
  all: destruct (outcome ir) as [m|sn|]; destruct Hout as [Hout1 Hout2]; subst; try done.
  rewrite Hv2, Hs1. unfold turn_spec. by case_decide; [rewrite bool_decide_true|rewrite bool_decide_false].
Qed.

Lemma resume_run a ctx id approved st r st' :
  in_memory a → wf st → Resume a ctx id approved st = (r, st') →
  let c := view st id in
  wf st' ∧ others_kept id st st' ∧
  match c_Pending c with
  | None => r = Err (no_pending_error id) ∧ view st' id = c ∧ world st' = world st
  | Some snap =>
    if approved then
      let '(ir, w) := BuiltAgent_Invoke (Agent a) ctx (resume_request snap) (world st) in
      match outcome ir with
      | Replied m => r = Ok () ∧ view st' id = mkConversation (append_slice (snap_Messages snap) [m]) None
      | _ => is_ok r = false ∧ view st' id = c ∧ world st' = w
      end
    else r = Ok () ∧ view st' id = mkConversation (c_Messages c) None
  end.
Proof.
  intros Ha0 Hwf H c.
  destruct (Load_spec zero_Time id st Hwf) as (p & s & st1 & Hl & Hwf1 & Hr1 & Hc & Hv & Hd & Hw).
  fold c in Hc. unfold Resume in H. rewrite Ha0 in H. cbn [store_Load store_Save InMemoryStore] in H. rewrite (sm_bind_Ok _ _ _ _ _ Hl) in H.
  rewrite (sm_bind_Ok _ _ _ _ _ (deref_record _ _ _ _ Hr1)) in H.
  assert (Hms : Messages s = c_Messages c) by (by rewrite <-Hc).
  assert (Hpend : PendingApproval s = c_Pending c) by (by rewrite <-Hc).
  assert (Hkept : others_kept id st st1) by (by intros id' _).
  rewrite Hpend in H. destruct (c_Pending c) as [snap|] eqn:Hcp; [destruct approved; cbn [negb] in H|].
  - destruct (BuiltAgent_Invoke (Agent a) ctx (resume_request snap) (world st)) as [ir w] eqn:Hi.
    rewrite <-Hw in Hi. fold (resume_request snap) in H.
    assert (Hir : invoke a ctx (resume_request snap) st1 = (Ok ir, mkState (heap st1) (data st1) w))
      by (destruct st1; by apply invoke_run).
    rewrite (sm_bind_Ok _ _ _ _ _ Hir) in H.
    assert (Hr2 : record_at (mkState (heap st1) (data st1) w) id p s) by exact Hr1.
    rewrite (sm_bind_Ok _ _ _ _ _ (deref_record _ _ _ _ Hr2)) in H. unfold outcome.
    destruct ir as [res|e]; [unfold response in H; destruct (res_Response res) as [m|]|].
    + rewrite (sm_bind_Ok _ _ _ _ _ (sm_ret_run _ _)) in H. set (s2 := set_Pending None _) in H.
      destruct (assign_Save (mkState (heap st1) (data st1) w) id p s s2 Hwf1 Hr2 (proj1 (proj2 Hr1))) as (st3 & st4 & Ha & Hs & Hwf4 & Hv4 & Ho4).
      rewrite (sm_bind_Ok _ _ _ _ _ Ha), Hs in H. injection H as <- <-.
      split_and!; [done|by eapply others_kept_trans|done|by rewrite Hv4].
    + injection H as <- <-. split_and!; try done; exact (Hv id).
    + injection H as <- <-. destruct (as_ApprovalRequired e); split_and!; try done; exact (Hv id).
  - destruct (assign_Save _ id p s (set_Pending None s) Hwf1 Hr1 (proj1 (proj2 Hr1)))
      as (st3 & st4 & Ha & Hs & Hwf4 & Hv4 & Ho4).
    rewrite (sm_bind_Ok _ _ _ _ _ Ha), Hs in H. injection H as <- <-.
    split_and!; [done|by eapply others_kept_trans|done|]. rewrite Hv4. unfold conversation_of. simpl. by rewrite Hms.
  - injection H as <- <-. split_and!; try done; exact (Hv id).
Qed.

(** C23: a turn refines the conversation: on a session that is not paused it invokes
    the agent once, on the conversation with the user's message appended, and the
    stored conversation becomes what the specification says of the outcome (reply
    appended, or paused with the snapshot, or failed); a paused session is refused
    without an invocation.  Other sessions keep their conversation, and the store
    stays well formed. *)
Theorem turn_refines a ctx id userInput st :
  in_memory a → wf st →
  let c := view st id in
  let '(r, st') := Turn a ctx id userInput st in
  wf st' ∧ others_kept id st st' ∧
  match c_Pending c with
  | Some _ => r = Err (pending_error id) ∧ view st' id = c ∧ world st' = world st
  | None =>
    let '(ir, w) := BuiltAgent_Invoke (Agent a) ctx (turn_request a c userInput) (world st) in
    view st' id = turn_spec (bool_decide (is_Some (data st !! id))) c userInput (outcome ir) ∧
    match outcome ir with
    | Replied m => r = Ok m
    | Paused _ => ∃ e, ir = Err e ∧ r = Err e
    | Failed => is_ok r = false ∧ world st' = w
    end
  end.
Proof.
  intros Ha Hwf c. destruct (Turn a ctx id userInput st) as [r st'] eqn:H.
  exact (turn_run _ _ _ _ _ _ _ Ha Hwf H).
Qed.

(** a resume refines the conversation: only a paused session can be resumed; a
    denial clears the pause and keeps the messages; an approval invokes the agent
    on the snapshot and, if it replies, the conversation becomes the snapshot's
    messages with the reply, while any failure leaves the session paused. *)
Theorem resume_refines a ctx id approved st :
  in_memory a → wf st →
  let c := view st id in
  let '(r, st') := Resume a ctx id approved st in
  wf st' ∧ others_kept id st st' ∧
  match c_Pending c with
  | None => r = Err (no_pending_error id) ∧ view st' id = c ∧ world st' = world st
  | Some snap =>
    if approved then
      let '(ir, w) := BuiltAgent_Invoke (Agent a) ctx (resume_request snap) (world st) in
      match outcome ir with
      | Replied m => r = Ok () ∧ view st' id = mkConversation (append_slice (snap_Messages snap) [m]) None
      | _ => is_ok r = false ∧ view st' id = c ∧ world st' = w
      end
    else r = Ok () ∧ view st' id = mkConversation (c_Messages c) None
  end.
Proof.
  intros Ha Hwf c. destruct (Resume a ctx id approved st) as [r st'] eqn:H.
  exact (resume_run _ _ _ _ _ _ _ Ha Hwf H).
Qed.

(** a paused session is never stuck: denying the pending action always succeeds,
    and the next turn is then not refused: it reaches the agent, on the messages
    the pause had, and when the agent replies the reply is returned. *)
Theorem pause_can_be_left a ctx id st snap userInput :
  in_memory a → wf st → c_Pending (view st id) = Some snap →
  ∃ st1, Resume a ctx id false st = (Ok (), st1) ∧
    ∀ res m w, BuiltAgent_Invoke (Agent a) ctx (turn_request a (view st id) userInput) (world st1) = (Ok res, w) →
      res_Response res = Some m →
      ∃ st2, Turn a ctx id userInput st1 = (Ok m, st2) ∧ c_Pending (view st2 id) = None.
Proof.
  intros Ha Hwf Hp. destruct (Resume a ctx id false st) as [r st1] eqn:H.
  destruct (resume_run _ _ _ _ _ _ _ Ha Hwf H) as (Hwf1 & _ & H1). rewrite Hp in H1.
  destruct H1 as [-> Hv]. exists st1. split; [done|]. intros res m w Hi Hm.
  destruct (Turn a ctx id userInput st1) as [r st2] eqn:Ht.
  destruct (turn_run _ _ _ _ _ _ _ Ha Hwf1 Ht) as (_ & _ & H2). rewrite Hv in H2. simpl in H2.
  change (turn_request a (mkConversation _ None) userInput) with (turn_request a (view st id) userInput) in H2.
  rewrite Hi in H2. unfold outcome in H2. rewrite Hm in H2. destruct H2 as [Hv2 ->].
  exists st2. by rewrite Hv2.
Qed.

(** C37: sessions round-trip through the store: the record [Load] gives, after any
    change that keeps its identifier, is what every later [Load] of the identifier
    gives once it is saved, except for the time stamp; loading changes no
    conversation, and no other session is touched. *)
Theorem save_load_roundtrip id st s' p st1 st2 st3 :
  wf st → Load zero_Time id st = (Ok p, st1) → ses_ID s' = id →
  assign p s' st1 = (Ok (), st2) → Save p st2 = (Ok (), st3) →
  ∃ q s, Load zero_Time id st3 = (Ok q, st3) ∧ heap st3 !! q = Some s ∧ ses_ID s = id ∧
    conversation_of s = conversation_of s' ∧ others_kept id st st3.
Proof.
  intros Hwf Hl Hid Ha Hs.
  destruct (Load_spec zero_Time id st Hwf) as (p' & s & st1' & Hl' & Hwf1 & Hr1 & _ & Hv & _ & _).
  rewrite Hl in Hl'. injection Hl' as <- <-.
  destruct (assign_Save st1 id p s s' Hwf1 Hr1 Hid) as (st2' & st3' & Ha' & Hs' & Hwf3 & Hv3 & Ho).
  rewrite Ha in Ha'. injection Ha' as <-. rewrite Hs in Hs'. injection Hs' as <-.
  assert (is_Some (data st3 !! id)) as [q Hq].
  { unfold Save, now, sm_bind, deref in Hs. destruct (Now_UTC (world st2)). simpl in Hs.
    rewrite assign_run in Ha. injection Ha as <-. simpl in Hs. rewrite lookup_insert_eq in Hs. simpl in Hs.
    injection Hs as <-. simpl. by rewrite Hid, lookup_insert_eq. }
  destruct (Hwf3 _ _ Hq) as (t & Ht & Htid). exists q, t. unfold Load. rewrite Hq.
  split_and!; try done.
  - by rewrite <-(view_stored _ _ _ _ Hq Ht).
  - intros id' Hne. by rewrite <-Hv, <-Ho.
Qed.

(** What a failed turn leaves depends on the store having seen the session: the
    user's message stays in the conversation of a stored session although nothing
    was saved, since [Load] returned the stored record itself. *)
Lemma failed_turn_keeps_message a ctx id userInput st r st' ir w :
  in_memory a → wf st → is_Some (data st !! id) → c_Pending (view st id) = None →
  BuiltAgent_Invoke (Agent a) ctx (turn_request a (view st id) userInput) (world st) = (ir, w) →
  outcome ir = Failed → Turn a ctx id userInput st = (r, st') →
  is_ok r = false ∧
  c_Messages (view st' id) = append_slice (c_Messages (view st id)) [user_message userInput].
Proof.
  intros Ha Hwf Hd Hp Hi Ho Ht. destruct (turn_run _ _ _ _ _ _ _ Ha Hwf Ht) as (_ & _ & H).
  rewrite Hp, Hi, Ho, bool_decide_true in H by done. destruct H as [-> [? _]]. by split.
Qed.

(** a reply is only returned once it is saved, whatever the store: when Turn
    succeeds with a message, the session loaded was not paused, and the last thing
    done was a successful Save of that session, its messages followed by the user's
    input and by the reply. *)
Theorem reply_is_saved a ctx id userInput st m st' :
  Turn a ctx id userInput st = (Ok m, st') →
  ∃ p st1 s st2,
    store_Load (app_Store a) ctx id st = (Ok p, st1) ∧ heap st1 !! p = Some s ∧ PendingApproval s = None ∧
    heap st2 !! p =
      Some (set_Messages (append_slice (append_slice (Messages s) [user_message userInput]) [m]) s) ∧
    store_Save (app_Store a) ctx p st2 = (Ok (), st').
Proof.
  unfold Turn. intros (p & st1 & Hl & H)%sm_bind_inv.
  apply sm_bind_inv in H as (s & st1' & [-> Hs]%deref_inv & H).
  destruct (PendingApproval s) eqn:Hp; [rewrite bool_decide_true in H by done; discriminate H|].
  rewrite bool_decide_false in H by (by intros []).
  apply sm_bind_inv in H as ([] & st2 & Ha & H). rewrite assign_run in Ha. injection Ha as <-.
  apply sm_bind_inv in H as (ir & st3 & Hi & H). unfold invoke, call in Hi. cbn [world] in Hi.
  destruct (BuiltAgent_Invoke _ _ _ _) as [ir' w]. injection Hi as -> <-.
  unfold finish_turn in H. apply sm_bind_inv in H as (s1 & st3 & [-> Hs1]%deref_inv & H).
  cbn [heap] in Hs1. rewrite lookup_insert_eq in Hs1. injection Hs1 as <-.
  destruct ir as [res|e]; [|destruct (as_ApprovalRequired e); [|done]].
  - apply sm_bind_inv in H as (m' & st3 & Hm & H).
    assert (st3 = mkState (<[p:=set_Messages (append_slice (Messages s) [user_message userInput]) s]> (heap st1))
      (data st1) w) as -> by (unfold response in Hm; by destruct (res_Response res); injection Hm).
    apply sm_bind_inv in H as ([] & st4 & Ha & H). rewrite assign_run in Ha. injection Ha as <-.
    apply sm_bind_inv in H as ([] & st5 & Hsave & H). injection H as <- <-.
    exists p, st1, s. eexists. split_and!; [done..| |].
    2:{ unfold wrap_save in Hsave. destruct (store_Save _ _ _ _) as [[[]|e] st6] eqn:Hs6; [|done].
        injection Hsave as <-. exact Hs6. }
    cbn [heap]. rewrite lookup_insert_eq. done.
  - apply sm_bind_inv in H as (? & ? & _ & H). apply sm_bind_inv in H as (? & ? & _ & H). done.
Qed.
End session_properties.

(** ** Witnesses

    An agent that pauses when the latest message is sensitive and not approved. *)

Definition pausing_invoke (req : slice sample_message * gomap string) : res error (option sample_message) :=
  let texts := last (elems req.1) ≫= λ m, head (elems (sm_parts m)) in
  if (bool_decide (snd <$> texts = Some "SENSITIVE") && bool_decide (req.2 = None))%bool
  then Err (EOpaque "approval required")
  else Ok (Some (mkSampleMessage SAssistant (Some [(true, "done")]))).

Definition pausing_orchestration : @Orchestration payload_kernel :=
  Build_Orchestration payload_kernel unit unit
    (λ _, tt) (λ _, tt) (λ _, tt) (λ _, tt) (λ _, tt) (λ _, tt) (λ _, tt) (λ _, tt) (λ _, tt) (λ _, tt)
    (λ _ _, io_ret tt) (slice sample_message * gomap string) (option sample_message)
    (λ _ _ req, io_lift (pausing_invoke req)).

Definition sensitive_message : sample_message := mkSampleMessage SUser (Some [(true, "SENSITIVE")]).

Definition pausing_approvals : @Approvals payload_kernel payload_sample pausing_orchestration :=
  Build_Approvals payload_kernel payload_sample pausing_orchestration
    string id (λ _, "be kind") (λ _, Some [sensitive_message])
    (λ e, match e with EOpaque n => if bool_decide (n = "approval required") then Some "fake-model" else None | _ => None end)
    (λ _ _ ms md, (ms, md)) id.

#[local] Existing Instance pausing_orchestration.
#[local] Existing Instance pausing_approvals.
#[local] Existing Instance payload_kernel.

Definition zero : @Time payload_kernel := 0.
Definition sample_app : App :=
  mkApp (mkBuiltAgent tt
    (mkManifest "acme.demo" "1.0.0" 0 "" "" (Manifest.mkCapabilities [] None) None None None)
    "be kind" None (mkNormalizedSpec zeroAgentSpec [] [] initialProvenance) fresh_memo)
    (InMemoryStore zero) "fake-model".
Lemma sample_app_memory : in_memory zero sample_app.
Proof. done. Qed.

Definition empty_state : state := mkState ∅ ∅ [].
Lemma empty_wf : wf empty_state.
Proof. intros id p. simpl. by rewrite lookup_empty. Qed.

(** After a sensitive turn the session is paused. *)
Definition paused_state : state := (Turn sample_app Background "demo-1" "SENSITIVE" empty_state).2.
Lemma paused_wf : wf paused_state.
Proof.
  unfold paused_state. destruct (Turn sample_app Background "demo-1" "SENSITIVE" empty_state) as [r st] eqn:H.
  exact (proj1 (turn_run zero _ _ _ _ _ _ _ sample_app_memory empty_wf H)).
Qed.

Example turn_refines_witness :
  view paused_state "demo-1" =
    mkConversation (Some [sensitive_message]) (Some "fake-model").
Proof.
  pose proof (turn_refines zero sample_app Background "demo-1" "SENSITIVE" empty_state
    sample_app_memory empty_wf) as H.
  destruct H as (_ & _ & Hv & _). exact Hv.
Defined.

Example resume_refines_witness :
  view (Resume sample_app Background "demo-1" true paused_state).2 "demo-1" =
    mkConversation (Some [sensitive_message; mkSampleMessage SAssistant (Some [(true, "done")])]) None.
Proof.
  pose proof (resume_refines zero sample_app Background "demo-1" true paused_state
    sample_app_memory paused_wf) as H.
  destruct H as (_ & _ & _ & Hv). exact Hv.
Defined.

Example pause_can_be_left_witness :
  ∃ st1, Resume sample_app Background "demo-1" false paused_state = (Ok (), st1).
Proof.
  destruct (pause_can_be_left zero sample_app Background "demo-1" paused_state "fake-model" "hello"
    sample_app_memory paused_wf eq_refl)
    as (st1 & H & _). exists st1. exact H.
Defined.

Definition edited_session : Session := mkSession "demo-2" (Some [sensitive_message]) None zero.
Definition fresh_location : nat := fresh (dom (heap empty_state)).
Definition loaded_state : state := (Load zero "demo-2" empty_state).2.
Definition edited_state : state := (assign fresh_location edited_session loaded_state).2.
Definition saved_state : state := (Save fresh_location edited_state).2.

Lemma edited_saves : Save fresh_location edited_state = (Ok (), saved_state).
Proof.
  unfold saved_state, Save, now, deref, sm_bind. destruct (Now_UTC _) as [t w]. cbn [heap].
  unfold edited_state, assign. simpl. by rewrite lookup_insert_eq.
Qed.

Example save_load_roundtrip_witness :
  ∃ q s, Load zero "demo-2" saved_state = (Ok q, saved_state) ∧
    heap saved_state !! q = Some s ∧ Messages s = Some [sensitive_message].
Proof.
  destruct (save_load_roundtrip zero "demo-2" empty_state edited_session fresh_location loaded_state edited_state
    saved_state empty_wf) as (q & s & Hl & Hh & _ & Hc & _).
  - unfold loaded_state, Load. change (data empty_state) with (∅ : gmap string nat). by rewrite lookup_empty.
  - reflexivity.
  - reflexivity.
  - exact edited_saves.
  - exists q, s. split; [exact Hl|]. split; [exact Hh|]. exact (f_equal c_Messages Hc).
Defined.

(** A turn that is answered. *)
Example reply_is_saved_witness :
  ∃ st2, heap st2 !! fresh_location =
      Some (mkSession "demo-1" (Some [mkSampleMessage SUser (Some [(true, "hello")]);
                                      mkSampleMessage SAssistant (Some [(true, "done")])]) None zero) ∧
    Save fresh_location st2 = (Ok (), (Turn sample_app Background "demo-1" "hello" empty_state).2).
Proof.
  destruct (reply_is_saved sample_app Background "demo-1" "hello" empty_state
    (mkSampleMessage SAssistant (Some [(true, "done")]))
    (Turn sample_app Background "demo-1" "hello" empty_state).2) as (p & st1 & s & st2 & Hl & Hs & _ & H2 & Hsave).
  - etransitivity; [apply surjective_pairing|]. by f_equal.
  - change (store_Load (app_Store sample_app) Background "demo-1" empty_state) with (Load zero "demo-1" empty_state) in Hl.
    unfold Load in Hl. change (data empty_state) with (∅ : gmap string nat) in Hl. rewrite lookup_empty in Hl.
    injection Hl as <- <-. cbn [heap] in Hs. rewrite lookup_insert_eq in Hs. injection Hs as <-.
    exists st2. split; [exact H2|exact Hsave].
Defined.
