(* ===== verification/SessionCode.v ===== *)
(** The session pattern access by access (examples/session-pattern/session.go).

    [Turn] and [Resume] reach the store, the record [Load] hands out, the clock and
    the agent; [prog] is a method as the tree of these accesses, each field of the
    record read or stored on its own, the mutex of the store taken and released where
    [Load] and [Save] do.  Run alone, the trees are the methods of Sessions. *)

From S2P Require Import Prelude GoStrings Errors Values.
From S2P Require Import Types Extends Kernel Registry Payloads Build Forge Sessions.
From stdpp Require Import options.

Section code.
Context `{K : Kernel} {L : Payloads} {O : Orchestration} {A : Approvals}.
Context (zero_Time : Time).

(** [AcquireMu], [ReleaseMu]: the mutex of the store; [ReadData], [WriteData]: its
    map; [NewSession]: a composite literal; [Field], [SetField]: one field of [*p]. *)
Inductive prog (X : Type) : Type :=
| Done (x : X)
| AcquireMu (k : prog X)
| ReleaseMu (k : prog X)
| ReadData (id : string) (k : option nat → prog X)
| WriteData (id : string) (p : nat) (k : prog X)
| NewSession (s : Session) (k : nat → prog X)
| Field {Y : Type} (p : nat) (get : Session → Y) (k : Y → prog X)
| SetField (p : nat) (set : Session → Session) (k : prog X)
| TimeNow (k : Time → prog X)
| Invoke (ctx : context) (req : InvocationRequest) (k : res error InvocationResult → prog X).
#[global] Arguments Done {X} x.
#[global] Arguments AcquireMu {X} k.
#[global] Arguments ReleaseMu {X} k.
#[global] Arguments ReadData {X} id k.
#[global] Arguments WriteData {X} id p k.
#[global] Arguments NewSession {X} s k.
#[global] Arguments Field {X Y} p get k.
#[global] Arguments SetField {X} p set k.
#[global] Arguments TimeNow {X} k.
#[global] Arguments Invoke {X} ctx req k.

(** ** The methods *)

Definition Load_code {X} (id : string) (k : nat → prog X) : prog X :=
  AcquireMu (ReadData id (λ existing,
    match existing with
    | Some p => ReleaseMu (k p)
    | None => NewSession (mkSession id None None zero_Time) (λ p, ReleaseMu (k p))
    end)).

Definition Save_code {X} (sess : nat) (k : prog X) : prog X :=
  AcquireMu (TimeNow (λ t, SetField sess (set_Updated t) (
    Field sess ses_ID (λ id, WriteData id sess (ReleaseMu k))))).

(** [sess.Messages = append(sess.Messages, m)]. *)
Definition append_message {X} (sess : nat) (m : Message) (k : prog X) : prog X :=
  Field sess Messages (λ ms, SetField sess (set_Messages (append_slice ms [m])) k).

Definition nil_deref : error := EPanic "nil pointer dereference".

Definition Turn_code (a : App) (ctx : context) (id userInput : string) : prog (res error Message) :=
  Load_code id (λ sess, Field sess PendingApproval (λ pending,
    if bool_decide (is_Some pending) then Done (Err (pending_error id))
    else append_message sess (user_message userInput) (Field sess Messages (λ ms,
      Invoke ctx (mk_InvocationRequest (app_Model a) (BuiltAgent_SystemPrompt (Agent a)) ms None) (λ r,
        match r with
        | Err err =>
          match as_ApprovalRequired err with
          | Some snap => SetField sess (set_Pending (Some snap)) (Save_code sess (Done (Err err)))
          | None => Done (Err err)
          end
        | Ok res =>
          match res_Response res with
          | Some m => append_message sess m (Save_code sess (Done (Ok m)))
          | None => Done (Err nil_deref)
          end
        end))))).

Definition Resume_code (a : App) (ctx : context) (id : string) (approved : bool) : prog (res error ()) :=
  Load_code id (λ sess, Field sess PendingApproval (λ pending,
    match pending with
    | None => Done (Err (no_pending_error id))
    | Some snap =>
      if negb approved then SetField sess (set_Pending None) (Save_code sess (Done (Ok ())))
      else Invoke ctx (mk_InvocationRequest (snap_Model snap) (snap_SystemPrompt snap) (snap_Messages snap)
             (Some [("approval_decision", "approved")])) (λ r,
        match r with
        | Err err => Done (Err err)
        | Ok res =>
          match res_Response res with
          | Some m =>
            SetField sess (set_Messages (snap_Messages snap)) (append_message sess m (
              SetField sess (set_Pending None) (Save_code sess (Done (Ok ())))))
          | None => Done (Err nil_deref)
          end
        end)
    end)).

(** ** One access *)

(** The next access of a method, in a store whose mutex is held or not: the call of
    the agent it makes, if it is one.  [None]: it waits, has returned, or follows a
    pointer to nothing. *)
Definition next {X} (a : App) (st : state) (mu : bool) (m : prog X) :
    option (option (InvocationRequest * res error InvocationResult) * state * bool * prog X) :=
  match m with
  | Done _ => None
  | AcquireMu k => if mu then None else Some (None, st, true, k)
  | ReleaseMu k => Some (None, st, false, k)
  | ReadData id k => Some (None, st, mu, k (data st !! id))
  | WriteData id p k => Some (None, mkState (heap st) (<[id := p]> (data st)) (world st), mu, k)
  | NewSession s k =>
    let p := fresh (dom (heap st)) in
    Some (None, mkState (<[p := s]> (heap st)) (data st) (world st), mu, k p)
  | Field p get k => s ← heap st !! p; Some (None, st, mu, k (get s))
  | SetField p set k =>
    s ← heap st !! p; Some (None, mkState (<[p := set s]> (heap st)) (data st) (world st), mu, k)
  | TimeNow k =>
    let '(t, w) := Now_UTC (world st) in Some (None, mkState (heap st) (data st) w, mu, k t)
  | Invoke ctx req k =>
    let '(r, w) := BuiltAgent_Invoke (Agent a) ctx req (world st) in
    Some (Some (req, r), mkState (heap st) (data st) w, mu, k r)
  end.

(** ** Run alone *)

(** The method from its first access to its last, by one goroutine: the mutex is
    always free; a pointer to nothing is a panic. *)
Fixpoint run_alone {T} (a : App) (m : prog (res error T)) : SM T :=
  match m with
  | Done r => λ st, (r, st)
  | AcquireMu k | ReleaseMu k => run_alone a k
  | ReadData id k => λ st, run_alone a (k (data st !! id)) st
  | WriteData id p k => sm_bind (put id p) (λ _, run_alone a k)
  | NewSession s k => λ st, let p := fresh (dom (heap st)) in sm_bind (assign p s) (λ _, run_alone a (k p)) st
  | Field p get k => sm_bind (deref p) (λ s, run_alone a (k (get s)))
  | SetField p set k => sm_bind (deref p) (λ s, sm_bind (assign p (set s)) (λ _, run_alone a k))
  | TimeNow k => sm_bind now (λ t, run_alone a (k t))
  | Invoke ctx req k => sm_bind (invoke a ctx req) (λ r, run_alone a (k r))
  end.
End code.

(** ** The trees are the methods *)

Section alone.
Context `{K : Kernel} {L : Payloads} {O : Orchestration} {A : Approvals} (zero_Time : Time).

Lemma Load_code_alone {T} a id (k : nat → prog (res error T)) st :
  run_alone a (Load_code zero_Time id k) st =
  sm_bind (Load zero_Time id) (λ p, run_alone a (k p)) st.
Proof. unfold Load_code, sm_bind, Load. simpl. by destruct (data st !! id). Qed.

Lemma Save_code_alone {T} a p (k : prog (res error T)) st :
  run_alone a (Save_code p k) st = sm_bind (Save p) (λ _, run_alone a k) st.
Proof.
  unfold Save_code. cbn [run_alone]. unfold Save, sm_bind, now, deref, assign, put.
  destruct (Now_UTC (world st)) as [t w]. simpl. destruct (heap st !! p) as [s|]; simpl; [|done].
  by rewrite lookup_insert_eq.
Qed.

Lemma run_field {T Y} a p (get : Session → Y) (k : Y → prog (res error T)) s h d w :
  run_alone a (Field p get k) (mkState (<[p := s]> h) d w) = run_alone a (k (get s)) (mkState (<[p := s]> h) d w).
Proof. cbn [run_alone]. unfold sm_bind, deref. cbn [heap]. by rewrite lookup_insert_eq. Qed.

Lemma run_set {T} a p set (k : prog (res error T)) s h d w :
  run_alone a (SetField p set k) (mkState (<[p := s]> h) d w) = run_alone a k (mkState (<[p := set s]> h) d w).
Proof.
  cbn [run_alone]. unfold sm_bind, deref, assign. cbn [heap data world].
  rewrite lookup_insert_eq. cbn [heap data world]. by rewrite insert_insert_eq.
Qed.

Lemma deref_insert p s h d w : deref p (mkState (<[p := s]> h) d w) = (Ok s, mkState (<[p := s]> h) d w).
Proof. unfold deref. cbn [heap]. by rewrite lookup_insert_eq. Qed.

Lemma run_append {T} a p m (k : prog (res error T)) s h d w :
  run_alone a (append_message p m k) (mkState (<[p := s]> h) d w) =
  run_alone a k (mkState (<[p := set_Messages (append_slice (Messages s) [m]) s]> h) d w).
Proof. unfold append_message. by rewrite run_field, run_set. Qed.

(** A message stored, then a save of the record it was stored in. *)
Lemma run_save {T} a p (s : Session) (k : prog (res error T)) h d w :
  run_alone a (Save_code p k) (mkState (<[p := s]> h) d w) =
  sm_bind (Save p) (λ _, run_alone a k) (mkState (<[p := s]> h) d w).
Proof. apply Save_code_alone. Qed.

Lemma Save_Ok p s h d w : ∃ st, Save p (mkState (<[p := s]> h) d w) = (Ok (), st).
Proof.
  unfold Save, sm_bind, now, deref. simpl. destruct (Now_UTC w) as [t w']. simpl.
  rewrite lookup_insert_eq. by eexists.
Qed.

(** The two ways to end a method with a save. *)
Lemma save_then {T} a p s h d w (r : res error T) what :
  run_alone a (Save_code p (Done r)) (mkState (<[p := s]> h) d w) =
  sm_bind (wrap_save what (Save p)) (λ _ st, (r, st)) (mkState (<[p := s]> h) d w).
Proof. rewrite run_save. destruct (Save_Ok p s h d w) as [st Hs]. unfold sm_bind, wrap_save. by rewrite Hs. Qed.

Lemma save_last a p s h d w :
  run_alone a (Save_code p (Done (Ok ()))) (mkState (<[p := s]> h) d w) = Save p (mkState (<[p := s]> h) d w).
Proof. rewrite run_save. destruct (Save_Ok p s h d w) as [st Hs]. unfold sm_bind. by rewrite Hs. Qed.

(** The record [Load] hands out is there, or the next access panics. *)
Lemma sm_bind_run {S T} (m : SM S) (f g : S → SM T) st :
  (∀ x st', m st = (Ok x, st') → f x st' = g x st') → sm_bind m f st = sm_bind m g st.
Proof. unfold sm_bind. destruct (m st) as [[x|e] st']; auto. Qed.

Lemma Turn_code_alone a ctx id userInput st :
  in_memory zero_Time a →
  run_alone a (Turn_code zero_Time a ctx id userInput) st = Turn a ctx id userInput st.
Proof.
  intros Ha. unfold Turn_code, Turn, finish_turn. rewrite Load_code_alone, Ha. cbn [store_Load store_Save InMemoryStore].
  apply sm_bind_run. intros p [h d w] _. cbn [run_alone]. apply sm_bind_run.
  intros s st1 [-> Hs]%deref_inv. cbn [heap] in Hs. destruct (bool_decide _); [done|].
  rewrite <-(insert_id h p s Hs). rewrite run_append, run_field.
  cbn [run_alone]. rewrite (sm_bind_Ok _ _ _ _ _ (assign_run _ _ _)). cbn [heap data world].
  rewrite insert_insert_eq. apply sm_bind_run. intros r st2 Hi. unfold invoke, call in Hi. simpl in Hi.
  destruct (BuiltAgent_Invoke _ _ _ _) as [r' w']. injection Hi as <- <-.
  rewrite (sm_bind_Ok _ _ _ _ _ (deref_insert _ _ _ _ _)), ?Ha.
  destruct r' as [res|e]; [unfold response; destruct (res_Response res) as [m|]|].
  - rewrite run_append, (save_then _ _ _ _ _ _ _ "persist turn: %w"), (sm_bind_Ok _ _ _ _ _ (sm_ret_run _ _)).
    rewrite (sm_bind_Ok _ _ _ _ _ (assign_run _ _ _)). cbn [heap data world]. by rewrite insert_insert_eq.
  - done.
  - destruct (as_ApprovalRequired e) as [snap|]; [|done].
    rewrite run_set, (save_then _ _ _ _ _ _ _ "persist pending approval: %w").
    rewrite (sm_bind_Ok _ _ _ _ _ (assign_run _ _ _)). cbn [heap data world]. by rewrite insert_insert_eq.
Qed.

Lemma Resume_code_alone a ctx id approved st :
  in_memory zero_Time a →
  run_alone a (Resume_code zero_Time a ctx id approved) st = Resume a ctx id approved st.
Proof.
  intros Ha. unfold Resume_code, Resume. rewrite Load_code_alone, !Ha. cbn [store_Load store_Save InMemoryStore].
  apply sm_bind_run. intros p [h d w] _. cbn [run_alone]. apply sm_bind_run.
  intros s st1 [-> Hs]%deref_inv. cbn [heap] in Hs. destruct (PendingApproval s) as [snap|]; [|done].
  rewrite <-(insert_id h p s Hs). destruct (negb approved).
  - rewrite run_set, save_last. rewrite (sm_bind_Ok _ _ _ _ _ (assign_run _ _ _)).
    cbn [heap data world]. by rewrite insert_insert_eq.
  - cbn [run_alone]. apply sm_bind_run. intros r st2 Hi. unfold invoke, call in Hi. simpl in Hi.
    destruct (BuiltAgent_Invoke _ _ _ _) as [r' w']. injection Hi as <- <-.
    rewrite (sm_bind_Ok _ _ _ _ _ (deref_insert _ _ _ _ _)).
    destruct r' as [res|e]; [unfold response; destruct (res_Response res) as [m|]|]; [|done..].
    rewrite run_set, run_append, run_set, save_last, (sm_bind_Ok _ _ _ _ _ (sm_ret_run _ _)).
    rewrite (sm_bind_Ok _ _ _ _ _ (assign_run _ _ _)). cbn [heap data world]. by rewrite insert_insert_eq.
Qed.
End alone.
