(* ===== verification/SharedSessions.v ===== *)
(** The session pattern used by several goroutines at once
    (examples/session-pattern/session.go).

    The mutex of the store guards its map, not the records it hands out: what keeps
    two goroutines apart is that a session has one call in flight at a time ([polite]).
    The file gives the interleavings, what a race is, an executable scheduler, and the
    specification that SessionIsolation shows to hold under that discipline:
    independent conversations ([conversation_step]). *)

From S2P Require Import Prelude GoStrings Errors Values.
From S2P Require Import Types Extends Merge Normalize Hash Kernel Registry Payloads.
From S2P Require Import Manifest Build Forge Sync Sessions SessionCode.
From stdpp Require Import options.

Section shared.
Context `{K : Kernel} {L : Payloads} {O : Orchestration} {A : Approvals}.
Context (zero_Time : Time) (a : App).

(** ** Concurrent executions *)

Inductive session_op :=
| OpTurn (ctx : context) (id userInput : string)
| OpResume (ctx : context) (id : string) (approved : bool).

Definition op_session (o : session_op) : string := match o with OpTurn _ id _ | OpResume _ id _ => id end.
Definition op_context (o : session_op) : context := match o with OpTurn c _ _ | OpResume c _ _ => c end.

Inductive session_answer := Turned (r : res error Message) | Resumed (r : res error ()).

Fixpoint prog_map {X Y} (f : X → Y) (m : prog X) : prog Y :=
  match m with
  | Done x => Done (f x)
  | AcquireMu k => AcquireMu (prog_map f k)
  | ReleaseMu k => ReleaseMu (prog_map f k)
  | ReadData id k => ReadData id (λ o, prog_map f (k o))
  | WriteData id p k => WriteData id p (prog_map f k)
  | NewSession s k => NewSession s (λ p, prog_map f (k p))
  | Field p get k => Field p get (λ y, prog_map f (k y))
  | SetField p set k => SetField p set (prog_map f k)
  | TimeNow k => TimeNow (λ t, prog_map f (k t))
  | Invoke ctx req k => Invoke ctx req (λ r, prog_map f (k r))
  end.

Definition op_code (o : session_op) : prog session_answer :=
  match o with
  | OpTurn ctx id userInput => prog_map Turned (Turn_code zero_Time a ctx id userInput)
  | OpResume ctx id approved => prog_map Resumed (Resume_code zero_Time a ctx id approved)
  end.

(** The state all goroutines share, the mutex of the store, and the calls in flight
    with what is left of each. *)
Record sessions := mkSessions {
  current : state; locked : bool; running : gmap nat (session_op * prog session_answer);
}.

Definition sessions_start (st : state) : sessions := mkSessions st false ∅.

(** What the caller and the agent see. *)
Inductive session_event :=
| Called (t : nat) (o : session_op)
| Invoked (t : nat) (req : InvocationRequest) (r : res error InvocationResult)
| Returned (t : nat) (x : session_answer).

Definition invoked_event (t : nat) (e : option (InvocationRequest * res error InvocationResult)) : option session_event :=
  match e with Some (req, r) => Some (Invoked t req r) | None => None end.

Inductive session_step : sessions → option session_event → sessions → Prop :=
| session_call st mu ms t o :
    ms !! t = None →
    session_step (mkSessions st mu ms) (Some (Called t o)) (mkSessions st mu (<[t := (o, op_code o)]> ms))
| session_access st mu ms t o m e st' mu' m' :
    ms !! t = Some (o, m) → next a st mu m = Some (e, st', mu', m') →
    session_step (mkSessions st mu ms) (invoked_event t e) (mkSessions st' mu' (<[t := (o, m')]> ms))
| session_return st mu ms t o x :
    ms !! t = Some (o, Done x) →
    session_step (mkSessions st mu ms) (Some (Returned t x)) (mkSessions st mu (delete t ms)).

(** The discipline of the callers: a call is made only when none is in flight on its
    session. *)
Definition no_call_on (id : string) (c : sessions) : Prop :=
  ∀ t o m, running c !! t = Some (o, m) → op_session o ≠ id.

Definition polite (l : option session_event) (c : sessions) : Prop :=
  match l with Some (Called _ o) => no_call_on (op_session o) c | _ => True end.

Definition emit_session (l : option session_event) : list session_event :=
  match l with Some e => [e] | None => [] end.

(** Executions from [c0] where every step is allowed. *)
Inductive session_execution (allowed : option session_event → sessions → Prop) (c0 : sessions) :
    list session_event → sessions → Prop :=
| sessions_nil : session_execution allowed c0 [] c0
| sessions_snoc tr c l c' :
    session_execution allowed c0 tr c → allowed l c → session_step c l c' →
    session_execution allowed c0 (tr ++ emit_session l) c'.

(** A step that starts no call. *)
Definition session_quiet (c c' : sessions) : Prop :=
  ∃ l, session_step c l c' ∧ ∀ t o, l ≠ Some (Called t o).

(** *** Races *)

(** The next access of a method, when it is to the map of the store or to a record:
    where, and whether it stores. *)
Inductive place := TheMap | TheRecord (p : nat).

Definition next_access {X} (m : prog X) : option (place * bool) :=
  match m with
  | ReadData _ _ => Some (TheMap, false)
  | WriteData _ _ _ => Some (TheMap, true)
  | Field p _ _ => Some (TheRecord p, false)
  | SetField p _ _ => Some (TheRecord p, true)
  | _ => None
  end.

Definition session_race (c : sessions) : Prop :=
  ∃ t o m t' o' m' at_place w w',
    t ≠ t' ∧ running c !! t = Some (o, m) ∧ running c !! t' = Some (o', m') ∧
    next_access m = Some (at_place, w) ∧ next_access m' = Some (at_place, w') ∧ (w || w')%bool = true.

(** ** The specification: independent conversations *)

Definition stored_conversations (st : state) : gmap string conversation :=
  omap (λ p, conversation_of <$> heap st !! p) (data st).

Definition no_conversation : conversation := mkConversation None None.

(** The request a call makes of the agent, if it makes one. *)
Definition op_request (o : session_op) (c : option conversation) : option InvocationRequest :=
  let c := default no_conversation c in
  match o, c_Pending c with
  | OpTurn _ _ userInput, None => Some (turn_request a c userInput)
  | OpResume _ _ true, Some snap => Some (resume_request snap)
  | _, _ => None
  end.

(** The error of a call whose agent did not reply. *)
Definition failure (r : res error InvocationResult) : error :=
  match r with Err e => e | Ok _ => nil_deref end.

(** How a call ends, from what the agent answered it: its answer, and the
    conversation it leaves. *)
Definition turn_ends (id userInput : string) (r : option (res error InvocationResult)) (c : option conversation) :
    option (session_answer * option conversation) :=
  let c0 := default no_conversation c in
  match c_Pending c0, r with
  | Some _, None => Some (Turned (Err (pending_error id)), c)
  | None, Some r =>
    let msgs := append_slice (c_Messages c0) [user_message userInput] in
    Some match outcome r with
    | Replied m => (Turned (Ok m), Some (mkConversation (append_slice msgs [m]) None))
    | Paused snap => (Turned (Err (failure r)), Some (mkConversation msgs (Some snap)))
    | Failed => (Turned (Err (failure r)), (λ _, mkConversation msgs None) <$> c)
    end
  | _, _ => None
  end.

Definition resume_ends (id : string) (approved : bool) (r : option (res error InvocationResult))
    (c : option conversation) : option (session_answer * option conversation) :=
  let c0 := default no_conversation c in
  match c_Pending c0, approved, r with
  | None, _, None => Some (Resumed (Err (no_pending_error id)), c)
  | Some _, false, None => Some (Resumed (Ok ()), Some (mkConversation (c_Messages c0) None))
  | Some snap, true, Some r =>
    Some match outcome r with
    | Replied m => (Resumed (Ok ()), Some (mkConversation (append_slice (snap_Messages snap) [m]) None))
    | _ => (Resumed (Err (failure r)), c)
    end
  | _, _, _ => None
  end.

Definition op_ends (o : session_op) : option (res error InvocationResult) → option conversation →
    option (session_answer * option conversation) :=
  match o with
  | OpTurn _ id userInput => turn_ends id userInput
  | OpResume _ id approved => resume_ends id approved
  end.

(** The agent can answer so. *)
Definition agent_answers (ctx : context) (req : InvocationRequest) (r : res error InvocationResult) : Prop :=
  ∃ w w', BuiltAgent_Invoke (Agent a) ctx req w = (r, w').

(** Each call invokes the agent at most once, on the conversation of its session, and
    takes effect when it returns; nothing else changes a conversation. *)
Record conversations := mkConversations {
  convs : gmap string conversation;
  pending_calls : gmap nat (session_op * option (res error InvocationResult));
}.

Inductive conversation_step : conversations → session_event → conversations → Prop :=
| conversation_call cs fl t o :
    fl !! t = None → (∀ u o' r, fl !! u = Some (o', r) → op_session o' ≠ op_session o) →
    conversation_step (mkConversations cs fl) (Called t o) (mkConversations cs (<[t := (o, None)]> fl))
| conversation_invoked cs fl t o req r :
    fl !! t = Some (o, None) → op_request o (cs !! op_session o) = Some req →
    agent_answers (op_context o) req r →
    conversation_step (mkConversations cs fl) (Invoked t req r) (mkConversations cs (<[t := (o, Some r)]> fl))
| conversation_return cs fl t o r x c :
    fl !! t = Some (o, r) → op_ends o r (cs !! op_session o) = Some (x, c) →
    conversation_step (mkConversations cs fl) (Returned t x)
      (mkConversations (partial_alter (λ _, c) (op_session o) cs) (delete t fl)).

Inductive conversation_run (s0 : conversations) : list session_event → conversations → Prop :=
| conversations_nil : conversation_run s0 [] s0
| conversations_snoc tr s e s' :
    conversation_run s0 tr s → conversation_step s e s' → conversation_run s0 (tr ++ [e]) s'.
End shared.

(** ** An executable scheduler *)

Section scheduler.
Context `{K : Kernel} {L : Payloads} {O : Orchestration} {A : Approvals}.
Context (zero_Time : Time) (a : App).

Inductive session_action := DoTurn (t : nat) (o : session_op) | DoAccess (t : nat).

Definition session_advance (x : session_action) (c : sessions) : option (option session_event * sessions) :=
  let '(mkSessions st mu ms) := c in
  match x with
  | DoTurn t o =>
    match ms !! t with
    | None => Some (Some (Called t o), mkSessions st mu (<[t := (o, op_code zero_Time a o)]> ms))
    | Some _ => None
    end
  | DoAccess t =>
    match ms !! t with
    | Some (o, Done x) => Some (Some (Returned t x), mkSessions st mu (delete t ms))
    | Some (o, m) =>
      '(e, st', mu', m') ← next a st mu m;
      Some (invoked_event t e, mkSessions st' mu' (<[t := (o, m')]> ms))
    | None => None
    end
  end.

Definition politeb (x : session_action) (c : sessions) : bool :=
  match x with
  | DoTurn _ o => forallb (λ p, negb (bool_decide (op_session p.2.1 = op_session o))) (map_to_list (running c))
  | DoAccess _ => true
  end.

(** A schedule; an action that is not possible, or that is impolite when [strict],
    is skipped. *)
Fixpoint session_schedule (strict : bool) (l : list session_action) (tr : list session_event) (c : sessions) :
    list session_event * sessions :=
  match l with
  | [] => (tr, c)
  | x :: l' =>
    match (if (strict && negb (politeb x c))%bool then None else session_advance x c) with
    | Some (e, c') => session_schedule strict l' (tr ++ emit_session e) c'
    | None => session_schedule strict l' tr c
    end
  end.

Lemma session_advance_step x c e c' :
  session_advance x c = Some (e, c') →
  session_step zero_Time a c e c' ∧ match x with DoTurn t o => e = Some (Called t o) | DoAccess _ => ∀ t o, e ≠ Some (Called t o) end.
Proof.
  destruct c as [st mu ms], x as [t o|t]; simpl; destruct (ms !! t) as [[o' m]|] eqn:Ht; try done.
  { intros [= <- <-]. split; [by constructor|done]. }
  intros H. assert (Hm : (∃ x, m = Done x) ∨
    ('(e, st', mu', m') ← next a st mu m; Some (invoked_event t e, mkSessions st' mu' (<[t := (o', m')]> ms))) =
    Some (e, c')) by (destruct m; eauto).
  destruct Hm as [[x ->]|Hm].
  - injection H as <- <-. split; [by econstructor|done].
  - apply bind_Some in Hm as ([[[e1 st'] mu'] m'] & Hn & [= <- <-]).
    split; [by eapply session_access|by destruct e1 as [[]|]].
Qed.

Lemma politeb_no_call o c t : politeb (DoTurn t o) c = true → no_call_on (op_session o) c.
Proof.
  simpl. rewrite forallb_forall. intros H u o' m Hu.
  assert (Hin : In (u, (o', m)) (map_to_list (running c))) by (by apply list_elem_of_In, elem_of_map_to_list).
  specialize (H _ Hin). simpl in H. by case_bool_decide.
Qed.

Lemma session_schedule_execution l c0 tr c :
  session_execution zero_Time a polite c0 tr c →
  session_execution zero_Time a polite c0 (session_schedule true l tr c).1 (session_schedule true l tr c).2.
Proof.
  revert tr c. induction l as [|x l IH]; intros tr c Hx; simpl; [done|].
  destruct (politeb x c) eqn:Hp; simpl; [|by apply IH].
  destruct (session_advance x c) as [[e c']|] eqn:Hx'; [|by apply IH].
  apply IH. apply session_advance_step in Hx' as [Hst He]. eapply sessions_snoc; [done| |done].
  destruct x as [t o|t]; [subst; by eapply politeb_no_call|].
  destruct e as [[]|]; simpl; try done. by destruct (He t0 o).
Qed.

Lemma any_schedule_execution l c0 tr c :
  session_execution zero_Time a (λ _ _, True) c0 tr c →
  session_execution zero_Time a (λ _ _, True) c0 (session_schedule false l tr c).1 (session_schedule false l tr c).2.
Proof.
  revert tr c. induction l as [|x l IH]; intros tr c Hx; simpl; [done|].
  destruct (session_advance x c) as [[e c']|] eqn:Hx'; [|by apply IH].
  apply IH. apply session_advance_step in Hx' as [Hst He]. by eapply sessions_snoc.
Qed.
End scheduler.
