(* ===== verification/SessionIsolation.v ===== *)
(** Sessions used by several goroutines, one call per session at a time, are
    independent conversations (examples/session-pattern/session.go).

    Each goroutine keeps a local state: where its session is stored, the record it
    works on, whether it is inside the store.  [follows] says that the rest of its
    call is safe from there and ends as the specification wants; a step of one
    goroutine keeps it and leaves the local states of the others ([apart]), so that
    the executions of SharedSessions are simulated by the specification. *)

From S2P Require Import Prelude GoStrings Errors Values.
From S2P Require Import Types Extends Merge Normalize Hash Kernel Registry Payloads.
From S2P Require Import Manifest Build Forge Sync Sessions SessionCode SharedSessions.
From stdpp Require Import options.

(** ** One goroutine

    What a goroutine relies on and keeps, for its own session: where the session is
    stored, the record it works on, whether it is inside the store, what the agent
    answered, how many accesses it has left. *)

Section goroutine.
Context `{K : Kernel} {L : Payloads} {O : Orchestration} {A : Approvals}.
Context (zero_Time : Time) (a : App).

Record local := mkLocal {
  l_stored : option nat; l_rec : option (nat * Session); l_holds : bool;
  l_reply : option (res error InvocationResult); l_left : nat;
}.

Definition local_conversation (stored : option nat) (rc : option (nat * Session)) : option conversation :=
  match stored, rc with Some _, Some (_, s) => Some (conversation_of s) | _, _ => None end.

(** The rest [m] of the call [o], made when the conversation of its session was [c],
    is safe from its local state and ends as the specification says. *)
Fixpoint follows (o : session_op) (c : option conversation) (m : prog session_answer) (l : local) : Prop :=
  let '(mkLocal stored rc holds reply accesses_left) := l in
  let spend (P : nat → Prop) := match accesses_left with S n => P n | 0 => False end in
  match m with
  | Done x => holds = false ∧ op_ends o reply c = Some (x, local_conversation stored rc)
  | AcquireMu k => spend (λ n, holds = false ∧ follows o c k (mkLocal stored rc true reply n))
  | ReleaseMu k => spend (λ n, holds = true ∧ follows o c k (mkLocal stored rc false reply n))
  | ReadData id k => spend (λ n, holds = true ∧ id = op_session o ∧ follows o c (k stored) (mkLocal stored rc holds reply n))
  | WriteData id p k => spend (λ n,
    holds = true ∧ id = op_session o ∧ fst <$> rc = Some p ∧ follows o c k (mkLocal (Some p) rc holds reply n))
  | NewSession s k => spend (λ n,
    rc = None ∧ ses_ID s = op_session o ∧ ∀ p, follows o c (k p) (mkLocal stored (Some (p, s)) holds reply n))
  | Field p get k => spend (λ n,
    match rc with
    | Some (q, s) => p = q ∧ follows o c (k (get s)) (mkLocal stored rc holds reply n)
    | None => False
    end)
  | SetField p set k => spend (λ n,
    match rc with
    | Some (q, s) =>
      p = q ∧ ses_ID (set s) = ses_ID s ∧ follows o c k (mkLocal stored (Some (q, set s)) holds reply n)
    | None => False
    end)
  | TimeNow k => spend (λ n, ∀ t, follows o c (k t) (mkLocal stored rc holds reply n))
  | Invoke ctx req k => spend (λ n,
    reply = None ∧ ctx = op_context o ∧ op_request a o c = Some req ∧
    ∀ r, follows o c (k r) (mkLocal stored rc holds (Some r) n))
  end.

(** More accesses than the longest path of a method. *)
Definition session_accesses : nat := 17.

(** The local state a call starts from. *)
Definition local_start (p : option nat) (h : gmap nat Session) : local :=
  mkLocal p (p ≫= λ q, pair q <$> h !! q) false None session_accesses.

(** [Load] ends with the record of the session: the stored one, or a new one whose
    conversation is empty as the unknown session's is. *)
Lemma follows_load {X} (f : X → session_answer) o id k stored rc n :
  id = op_session o →
  (∀ p, stored = Some p → ∃ s, rc = Some (p, s) ∧ ses_ID s = id) → (stored = None → rc = None) →
  (∀ p s n', ses_ID s = id → default no_conversation (local_conversation stored rc) = conversation_of s →
     local_conversation stored (Some (p, s)) = local_conversation stored rc → n ≤ n' →
     follows o (local_conversation stored rc) (prog_map f (k p)) (mkLocal stored (Some (p, s)) false None n')) →
  follows o (local_conversation stored rc) (prog_map f (Load_code zero_Time id k))
    (mkLocal stored rc false None (4 + n)).
Proof.
  intros Hid Hs Hn Hk. destruct stored as [p|].
  - destruct (Hs p eq_refl) as (s & -> & Hsid). cbn. split_and!; try done. apply Hk; [done..|lia].
  - rewrite Hn in * by done. cbn. split_and!; try done. intros p. split_and!; try done. apply Hk; [done..|lia].
Qed.

(** [Save] leaves the conversation of the record, and ends the call. *)
Lemma follows_save {X} (f : X → session_answer) o c p s stored reply x n :
  ses_ID s = op_session o → op_ends o reply c = Some (f x, Some (conversation_of s)) →
  follows o c (prog_map f (Save_code p (Done x))) (mkLocal stored (Some (p, s)) false reply (6 + n)).
Proof. intros Hid Hx. cbn. split_and!; try done. Qed.

(** [sess.Messages = append(sess.Messages, m)]. *)
Lemma follows_append {X} (f : X → session_answer) o c p s m k stored reply holds n :
  follows o c (prog_map f k)
    (mkLocal stored (Some (p, set_Messages (append_slice (Messages s) [m]) s)) holds reply n) →
  follows o c (prog_map f (append_message p m k)) (mkLocal stored (Some (p, s)) holds reply (2 + n)).
Proof. intros Hk. cbn. by split_and!. Qed.

Lemma conversation_set_Messages s ms pend :
  PendingApproval s = pend → conversation_of (set_Messages ms s) = mkConversation ms pend.
Proof. by intros <-. Qed.

Lemma turn_follows ctx id userInput stored rc :
  (∀ p, stored = Some p → ∃ s, rc = Some (p, s) ∧ ses_ID s = id) → (stored = None → rc = None) →
  follows (OpTurn ctx id userInput) (local_conversation stored rc) (op_code zero_Time a (OpTurn ctx id userInput))
    (mkLocal stored rc false None session_accesses).
Proof.
  intros Hs Hn. apply (follows_load Turned (OpTurn ctx id userInput) id _ _ _ 13); [done..|].
  intros p s n Hid Hc Hst Hle. do 13 (destruct n as [|n]; [lia|]). clear Hle.
  set (c := local_conversation stored rc) in *. cbn [prog_map follows]. split; [done|].
  assert (Hends : ∀ r, turn_ends id userInput r c = turn_ends id userInput r c) by done.
  unfold turn_ends in Hends at 2. rewrite Hc in Hends. cbn [c_Pending c_Messages conversation_of] in Hends.
  destruct (PendingApproval s) as [sn|] eqn:Hp.
  { rewrite bool_decide_true by done. cbn. by rewrite Hends, Hst. }
  rewrite bool_decide_false by (by intros []). apply follows_append. cbn [prog_map follows].
  split; [done|]. split_and!; [done..| |].
  { unfold op_request, turn_request. rewrite Hc. cbn [c_Pending c_Messages conversation_of]. by rewrite Hp. }
  intros r. specialize (Hends (Some r)). cbn in Hends. unfold outcome in Hends.
  destruct r as [res|e]; [destruct (res_Response res) as [m|]|destruct (as_ApprovalRequired e) as [sn|]].
  - apply follows_append, (follows_save Turned (OpTurn ctx id userInput) c); [done|].
    simpl. by rewrite Hends, (conversation_set_Messages _ _ None).
  - cbn. split; [done|]. rewrite Hends, <-Hst. by destruct stored; simpl; rewrite ?(conversation_set_Messages _ _ None).
  - cbn [prog_map follows]. split_and!; [done..|].
    by apply (follows_save Turned (OpTurn ctx id userInput) c).
  - cbn. split; [done|]. rewrite Hends, <-Hst. by destruct stored; simpl; rewrite ?(conversation_set_Messages _ _ None).
Qed.

Lemma resume_follows ctx id approved stored rc :
  (∀ p, stored = Some p → ∃ s, rc = Some (p, s) ∧ ses_ID s = id) → (stored = None → rc = None) →
  follows (OpResume ctx id approved) (local_conversation stored rc) (op_code zero_Time a (OpResume ctx id approved))
    (mkLocal stored rc false None session_accesses).
Proof.
  intros Hs Hn. apply (follows_load Resumed (OpResume ctx id approved) id _ _ _ 13); [done..|].
  intros p s n Hid Hc Hst Hle. do 13 (destruct n as [|n]; [lia|]). clear Hle.
  set (c := local_conversation stored rc) in *. cbn [prog_map follows]. split; [done|].
  assert (Hends : ∀ r, resume_ends id approved r c = resume_ends id approved r c) by done.
  unfold resume_ends in Hends at 2. rewrite Hc in Hends. cbn [c_Pending c_Messages conversation_of] in Hends.
  destruct (PendingApproval s) as [sn|] eqn:Hp; [|cbn; by rewrite Hends, Hst].
  destruct approved; cbn [negb].
  - cbn [prog_map follows]. split_and!; [done..| |].
    { unfold op_request. rewrite Hc. cbn [c_Pending conversation_of]. by rewrite Hp. }
    intros r. specialize (Hends (Some r)). cbn in Hends. unfold outcome in Hends.
    destruct r as [res|e]; [destruct (res_Response res) as [m|]|destruct (as_ApprovalRequired e) as [sn'|]];
      try (cbn; by rewrite Hends, <-Hst).
    cbn [prog_map follows]. split_and!; [done..|]. apply follows_append. cbn [prog_map follows].
    split_and!; [done..|]. apply (follows_save Resumed (OpResume ctx id true) c); [done|].
    simpl. by rewrite Hends.
  - cbn [prog_map follows]. split_and!; [done..|]. apply (follows_save Resumed (OpResume ctx id false) c); [done|].
    simpl. by rewrite Hends.
Qed.

Lemma op_follows o st :
  (∀ p, data st !! op_session o = Some p → ∃ s, heap st !! p = Some s ∧ ses_ID s = op_session o) →
  follows o (stored_conversations st !! op_session o) (op_code zero_Time a o)
    (local_start (data st !! op_session o) (heap st)).
Proof.
  intros Hs. unfold local_start, stored_conversations. rewrite lookup_omap.
  assert (Hl : (data st !! op_session o) ≫= (λ p, conversation_of <$> heap st !! p) =
    local_conversation (data st !! op_session o) ((data st !! op_session o) ≫= λ q, pair q <$> heap st !! q)).
  { destruct (data st !! op_session o) as [p|]; simpl; [|done]. by destruct (heap st !! p). }
  rewrite Hl. assert (H1 : ∀ p, data st !! op_session o = Some p →
    ∃ s, ((data st !! op_session o) ≫= λ q, pair q <$> heap st !! q) = Some (p, s) ∧ ses_ID s = op_session o).
  { intros p Hp. destruct (Hs p Hp) as (s & Hh & Hid). exists s. rewrite Hp. simpl. by rewrite Hh. }
  assert (H2 : data st !! op_session o = None → ((data st !! op_session o) ≫= λ q, pair q <$> heap st !! q) = None)
    by (by intros ->).
  destruct o; [by apply turn_follows|by apply resume_follows].
Qed.

(** *** Its local state and the shared one *)

Record local_ok (st : state) (id : string) (l : local) : Prop := {
  lo_stored : data st !! id = l_stored l;
  lo_rec p s : l_rec l = Some (p, s) → heap st !! p = Some s ∧ ses_ID s = id;
  lo_known p : l_stored l = Some p → ∃ s, l_rec l = Some (p, s);
}.

(** A step that touches nothing of the sessions other than [id]. *)
Definition apart (id : string) (st st' : state) : Prop :=
  ∀ id', id' ≠ id → data st' !! id' = data st !! id' ∧
    ∀ p s, heap st !! p = Some s → ses_ID s = id' → heap st' !! p = Some s.

Lemma local_ok_apart id id' st st' l : apart id st st' → id' ≠ id → local_ok st id' l → local_ok st' id' l.
Proof.
  intros Ha Hne [Hs Hr Hk]. destruct (Ha _ Hne) as [Hd Hh]. split; [by rewrite Hd| |done].
  intros p s Hp. destruct (Hr p s Hp) as [? ?]. split; [by apply Hh|done].
Qed.

Lemma wf_apart id st st' l : wf st → apart id st st' → local_ok st' id l → wf st'.
Proof.
  intros Hwf Ha [Hs Hr Hk] id' p Hp. destruct (decide (id' = id)) as [->|Hne].
  - rewrite Hs in Hp. destruct (Hk p Hp) as (s & Hrec). exists s. by apply Hr.
  - destruct (Ha _ Hne) as [Hd Hh]. rewrite Hd in Hp. destruct (Hwf _ _ Hp) as (s & Hps & Hid).
    exists s. split; [by apply Hh|done].
Qed.

Lemma stored_apart id id' st st' :
  wf st → apart id st st' → id' ≠ id → stored_conversations st' !! id' = stored_conversations st !! id'.
Proof.
  intros Hwf Ha Hne. destruct (Ha _ Hne) as [Hd Hh]. unfold stored_conversations. rewrite !lookup_omap, Hd.
  destruct (data st !! id') as [p|] eqn:Hp; [|done]. simpl.
  destruct (Hwf _ _ Hp) as (s & Hs & Hid). by rewrite (Hh _ _ Hs Hid), Hs.
Qed.

(** At the end of a call, the conversation of the goroutine is the stored one. *)
Lemma local_ok_stored st id l :
  local_ok st id l → stored_conversations st !! id = local_conversation (l_stored l) (l_rec l).
Proof.
  intros [Hs Hr Hk]. unfold stored_conversations. rewrite lookup_omap, Hs.
  destruct (l_stored l) as [p|] eqn:Hp; [|done]. simpl. destruct (Hk p eq_refl) as (s & Hrec).
  rewrite Hrec. destruct (Hr _ _ Hrec) as [-> _]. done.
Qed.

Lemma local_start_ok st id : wf st → local_ok st id (local_start (data st !! id) (heap st)).
Proof.
  intros Hwf. split; simpl; [done|..]; destruct (data st !! id) as [q|] eqn:Hq; simpl; try done.
  all: destruct (Hwf _ _ Hq) as (s & Hs & Hid); rewrite Hs; simpl.
  - by intros ? ? [= <- <-].
  - intros ? [= <-]. by eexists.
Qed.

(** *** One access, seen locally *)

Definition replied (o : session_op) (c : option conversation) (l l' : local)
    (e : option (InvocationRequest * res error InvocationResult)) : Prop :=
  match e with
  | None => l_reply l' = l_reply l
  | Some (req, r) =>
    l_reply l = None ∧ op_request a o c = Some req ∧ agent_answers a (op_context o) req r ∧ l_reply l' = Some r
  end.

Lemma set_record_ok st id stored p s s' holds reply n n' w :
  local_ok st id (mkLocal stored (Some (p, s)) holds reply n) → ses_ID s' = ses_ID s →
  let st' := mkState (<[p := s']> (heap st)) (data st) w in
  local_ok st' id (mkLocal stored (Some (p, s')) holds reply n') ∧ apart id st st'.
Proof.
  intros [Hs Hr Hk] Hid st'. destruct (Hr p s eq_refl) as [Hp Hps]. split; [split|].
  - done.
  - intros q t [= <- <-]. simpl. rewrite lookup_insert_eq. by rewrite Hid.
  - intros q Hq. destruct (Hk q Hq) as (t & [= <- <-]). by eexists.
  - intros id' Hne. split; [done|]. intros q t Hq Ht. simpl. rewrite lookup_insert_ne; [done|].
    intros <-. congruence.
Qed.

Lemma new_record_ok st id holds reply s n n' w :
  local_ok st id (mkLocal None None holds reply n) → ses_ID s = id →
  let p := fresh (dom (heap st)) in
  let st' := mkState (<[p := s]> (heap st)) (data st) w in
  local_ok st' id (mkLocal None (Some (p, s)) holds reply n') ∧ apart id st st'.
Proof.
  intros [Hs _ _] Hid p st'. assert (Hp : heap st !! p = None) by apply not_elem_of_dom, is_fresh.
  split; [split|]; [done| |done|].
  - intros q t [= <- <-]. simpl. by rewrite lookup_insert_eq.
  - intros id' Hne. split; [done|]. intros q t Hq Ht. simpl. rewrite lookup_insert_ne; [done|]. congruence.
Qed.

Lemma store_record_ok st id stored p s holds reply n n' w :
  local_ok st id (mkLocal stored (Some (p, s)) holds reply n) →
  let st' := mkState (heap st) (<[id := p]> (data st)) w in
  local_ok st' id (mkLocal (Some p) (Some (p, s)) holds reply n') ∧ apart id st st'.
Proof.
  intros [Hs Hr Hk] st'. split; [split|]; simpl.
  - by rewrite lookup_insert_eq.
  - intros q t Hq. by apply Hr.
  - intros q [= <-]. by eexists.
  - intros id' Hne. simpl. by rewrite lookup_insert_ne.
Qed.

(** The steps that leave the heap and the map. *)
Ltac idle_step l' Hok :=
  exists l'; split_and!; try done; try (by destruct Hok); try (simpl; lia).

Lemma follows_step o c m l st mu e st' mu' m' :
  follows o c m l → local_ok st (op_session o) l → (l_holds l = true → mu = true) →
  next a st mu m = Some (e, st', mu', m') →
  ∃ l', follows o c m' l' ∧ local_ok st' (op_session o) l' ∧ apart (op_session o) st st' ∧
    l_left l' < l_left l ∧ replied o c l l' e ∧ one mu' + one (l_holds l) = one mu + one (l_holds l').
Proof.
  destruct l as [stored rc holds reply [|n]], m as [x|k|k|i k|i p k|s0 k|Y p get k|p set k|k|cx req k]; try done;
    intros Hf Hok Hmu Hn; cbn in Hf, Hmu, Hn.
  - destruct Hf as [-> Hf], mu; [done|]. injection Hn as <- <- <- <-. idle_step (mkLocal stored rc true reply n) Hok.
  - destruct Hf as [-> Hf]. rewrite Hmu in * by done. injection Hn as <- <- <- <-.
    idle_step (mkLocal stored rc false reply n) Hok.
  - destruct Hf as (-> & -> & Hf). injection Hn as <- <- <- <-. rewrite (lo_stored _ _ _ Hok).
    idle_step (mkLocal stored rc true reply n) Hok.
  - destruct Hf as (-> & -> & Hp & Hf). injection Hn as <- <- <- <-. destruct rc as [[q s]|]; [injection Hp as ->|done].
    destruct (store_record_ok st _ stored p s true reply (S n) n (world st) Hok) as [Hok' Ha].
    eexists. split_and!; [exact Hf|exact Hok'|exact Ha|simpl; lia|done|simpl; lia].
  - destruct Hf as (-> & Hid & Hf). injection Hn as <- <- <- <-.
    assert (stored = None) as -> by (destruct stored as [q|]; [destruct (lo_known _ _ _ Hok q eq_refl) as (? & ?)|]; done).
    destruct (new_record_ok st _ holds reply s0 (S n) n (world st) Hok Hid) as [Hok' Ha].
    eexists. split_and!; [apply Hf|exact Hok'|exact Ha|simpl; lia|done|simpl; lia].
  - destruct rc as [[q s]|]; [|done]. destruct Hf as [-> Hf].
    destruct (lo_rec _ _ _ Hok q s eq_refl) as [Hq _]. rewrite Hq in Hn. injection Hn as <- <- <- <-.
    idle_step (mkLocal stored (Some (q, s)) holds reply n) Hok.
  - destruct rc as [[q s]|]; [|done]. destruct Hf as (-> & Hid & Hf).
    destruct (lo_rec _ _ _ Hok q s eq_refl) as [Hq _]. rewrite Hq in Hn. injection Hn as <- <- <- <-.
    destruct (set_record_ok st _ stored q s (set s) holds reply (S n) n (world st) Hok Hid) as [Hok' Ha].
    eexists. split_and!; [exact Hf|exact Hok'|exact Ha|simpl; lia|done|simpl; lia].
  - destruct (Now_UTC (world st)) as [t w]. injection Hn as <- <- <- <-. idle_step (mkLocal stored rc holds reply n) Hok.
  - destruct Hf as (-> & -> & Hreq & Hf). destruct (BuiltAgent_Invoke _ _ _ _) as [r w] eqn:Hi.
    injection Hn as <- <- <- <-. idle_step (mkLocal stored rc holds (Some r) n) Hok.
    split_and!; try done. by eexists _, _.
Qed.

(** A call that has not returned can make its next access, or waits for the mutex. *)
Lemma follows_progress o c m l st mu :
  follows o c m l → local_ok st (op_session o) l →
  (∃ x, m = Done x ∧ l_holds l = false) ∨ (l_holds l = false ∧ mu = true) ∨ is_Some (next a st mu m).
Proof.
  destruct l as [stored rc holds reply [|n]], m as [x|k|k|i k|i p k|s0 k|Y p get k|p set k|k|cx req k]; try done;
    intros Hf Hok; cbn in Hf |- *; eauto; try (by left; destruct Hf; eexists).
  - destruct mu; [|by eauto]. right. left. by destruct Hf.
  - destruct rc as [[q s]|]; [|done]. destruct Hf as [-> _].
    destruct (lo_rec _ _ _ Hok q s eq_refl) as [-> _]. by eauto.
  - destruct rc as [[q s]|]; [|done]. destruct Hf as [-> _].
    destruct (lo_rec _ _ _ Hok q s eq_refl) as [-> _]. by eauto.
  - destruct (Now_UTC (world st)). by eauto.
  - destruct (BuiltAgent_Invoke _ _ _ _). by eauto.
Qed.

(** What the next access touches: the map only inside the store, a record only of
    the goroutine's own session. *)
Lemma follows_access o c m l st at_place w :
  follows o c m l → local_ok st (op_session o) l → next_access m = Some (at_place, w) →
  match at_place with
  | TheMap => l_holds l = true
  | TheRecord p => ∃ s, heap st !! p = Some s ∧ ses_ID s = op_session o
  end.
Proof.
  destruct l as [stored rc holds reply [|n]], m as [x|k|k|i k|i p k|s0 k|Y p get k|p set k|k|cx req k]; try done;
    intros Hf Hok; cbn in Hf |- *; intros [= <- <-]; try by destruct Hf.
  - destruct rc as [[q s]|]; [|done]. destruct Hf as [-> _]. exists s. by apply Hok.
  - destruct rc as [[q s]|]; [|done]. destruct Hf as [-> _]. exists s. by apply Hok.
Qed.
End goroutine.

(** ** All goroutines *)

Section goroutines.
Context `{K : Kernel} {L : Payloads} {O : Orchestration} {A : Approvals}.
Context (zero_Time : Time) (a : App).
Implicit Types (c : sessions) (s : conversations) (ls : gmap nat local).

Record sessions_inv c s ls : Prop := {
  si_wf : wf (current c);
  si_calls t o m : running c !! t = Some (o, m) → ∃ l, ls !! t = Some l ∧
    follows a o (convs s !! op_session o) m l ∧ local_ok (current c) (op_session o) l ∧
    pending_calls s !! t = Some (o, l_reply l);
  si_none t : running c !! t = None → ls !! t = None ∧ pending_calls s !! t = None;
  si_apart t o m t' o' m' : t ≠ t' → running c !! t = Some (o, m) → running c !! t' = Some (o', m') →
    op_session o ≠ op_session o';
  si_rest id : no_call_on id c → stored_conversations (current c) !! id = convs s !! id;
  si_mutex : count l_holds ls = one (locked c);
  si_left t l : ls !! t = Some l → l_left l ≤ session_accesses;
}.

Definition conversations_start (st : state) : conversations := mkConversations (stored_conversations st) ∅.

Lemma sessions_inv_start st : wf st → sessions_inv (sessions_start st) (conversations_start st) ∅.
Proof.
  intros Hwf. split; simpl; try done.
Qed.

Lemma holder_locked c s ls t l : sessions_inv c s ls → ls !! t = Some l → l_holds l = true → locked c = true.
Proof.
  intros Hi Ht Hl. pose proof (count_pos l_holds ls t l Ht Hl) as H. rewrite (si_mutex _ _ _ Hi) in H.
  destruct (locked c); simpl in H; [done|lia].
Qed.

Lemma one_holder c s ls t l t' l' :
  sessions_inv c s ls → ls !! t = Some l → l_holds l = true → ls !! t' = Some l' → l_holds l' = true → t = t'.
Proof.
  intros Hi Ht Hl Ht' Hl'. destruct (decide (t = t')) as [|Hne]; [done|].
  pose proof (count_two l_holds ls t l t' l' Ht Hl Ht' Hl' Hne) as H. rewrite (si_mutex _ _ _ Hi) in H.
  destruct (locked c); simpl in H; lia.
Qed.

Lemma sessions_inv_call st mu ms s ls t o :
  sessions_inv (mkSessions st mu ms) s ls → ms !! t = None → no_call_on (op_session o) (mkSessions st mu ms) →
  sessions_inv (mkSessions st mu (<[t := (o, op_code zero_Time a o)]> ms))
    (mkConversations (convs s) (<[t := (o, None)]> (pending_calls s)))
    (<[t := local_start (data st !! op_session o) (heap st)]> ls).
Proof.
  intros Hi Ht Hno. destruct (si_none _ _ _ Hi t Ht) as [Hls Hfl]. pose proof (si_wf _ _ _ Hi) as Hwf. split; simpl.
  - done.
  - intros t' o' m. destruct (decide (t' = t)) as [->|Hne].
    + rewrite !lookup_insert_eq. intros [= <- <-]. eexists. split_and!; [done| |by apply local_start_ok|done].
      rewrite <-(si_rest _ _ _ Hi _ Hno). apply op_follows. intros p. apply Hwf.
    + rewrite !lookup_insert_ne by done. apply (si_calls _ _ _ Hi).
  - intros t' H. apply lookup_insert_None in H as [H Hne]. rewrite !lookup_insert_ne by done.
    by apply (si_none _ _ _ Hi).
  - intros t1 o1 m1 t2 o2 m2 Hne H1 H2. apply lookup_insert_Some in H1 as [[<- [= <- <-]]|[Hn1 H1]];
      apply lookup_insert_Some in H2 as [[<- [= <- <-]]|[Hn2 H2]]; try done.
    + apply not_eq_sym. by apply (Hno t2 o2 m2).
    + by apply (Hno t1 o1 m1).
    + by apply (si_apart _ _ _ Hi t1 o1 m1 t2 o2 m2).
  - intros id Hid. apply (si_rest _ _ _ Hi). intros t' o' m' H. apply (Hid t' o' m'). simpl.
    rewrite lookup_insert_ne; [done|]. simpl in H. congruence.
  - unfold count. rewrite total_new by done. exact (si_mutex _ _ _ Hi).
  - intros t' l [[<- <-]|[_ H]]%lookup_insert_Some; [simpl; lia|by apply (si_left _ _ _ Hi t')].
Qed.

Lemma sessions_inv_access st mu ms s ls t o m e st' mu' m' :
  sessions_inv (mkSessions st mu ms) s ls → ms !! t = Some (o, m) → next a st mu m = Some (e, st', mu', m') →
  ∃ l l', ls !! t = Some l ∧ l_left l' < l_left l ∧ replied a o (convs s !! op_session o) l l' e ∧
    sessions_inv (mkSessions st' mu' (<[t := (o, m')]> ms))
      (mkConversations (convs s) (<[t := (o, l_reply l')]> (pending_calls s))) (<[t := l']> ls).
Proof.
  intros Hi Ht Hn. destruct (si_calls _ _ _ Hi t o m Ht) as (l & Hl & Hf & Hok & Hfl).
  destruct (follows_step a o _ m l st mu e st' mu' m' Hf Hok) as (l' & Hf' & Hok' & Hap & Hlt & Hre & Hmu);
    [by apply (holder_locked _ _ _ t l Hi)|done|].
  exists l, l'. split_and!; [done..|]. pose proof (si_wf _ _ _ Hi) as Hwf. split; simpl.
  - by eapply wf_apart.
  - intros t' o' m1. destruct (decide (t' = t)) as [->|Hne].
    + rewrite !lookup_insert_eq. intros [= <- <-]. by exists l'.
    + rewrite !lookup_insert_ne by done. intros H. destruct (si_calls _ _ _ Hi t' o' m1 H) as (l1 & ? & ? & ? & ?).
      exists l1. split_and!; try done. eapply local_ok_apart; [exact Hap| |done].
      by apply (si_apart _ _ _ Hi t' o' m1 t o m).
  - intros t' H. apply lookup_insert_None in H as [H Hne]. rewrite !lookup_insert_ne by done.
    by apply (si_none _ _ _ Hi).
  - intros t1 o1 m1 t2 o2 m2 Hne H1 H2. apply lookup_insert_Some in H1 as [[<- [= <- <-]]|[Hn1 H1]];
      apply lookup_insert_Some in H2 as [[<- [= <- <-]]|[Hn2 H2]]; try done.
    + by apply (si_apart _ _ _ Hi t o m t2 o2 m2).
    + by apply (si_apart _ _ _ Hi t1 o1 m1 t o m).
    + by apply (si_apart _ _ _ Hi t1 o1 m1 t2 o2 m2).
  - intros id Hid. rewrite (stored_apart (op_session o) id st st' Hwf Hap).
    + apply (si_rest _ _ _ Hi). intros t' o' m1 H. destruct (decide (t' = t)) as [->|Hne].
      * simpl in H. rewrite Ht in H. injection H as <- <-. apply (Hid t o m'). simpl. by rewrite lookup_insert_eq.
      * apply (Hid t' o' m1). simpl. by rewrite lookup_insert_ne.
    + apply not_eq_sym, (Hid t o m'). simpl. by rewrite lookup_insert_eq.
  - pose proof (total_update (λ x, one (l_holds x)) ls t l l' Hl) as Hc.
    pose proof (si_mutex _ _ _ Hi) as Hm. unfold count in *. simpl in *. lia.
  - pose proof (si_left _ _ _ Hi t l Hl). intros t' l1 [[<- <-]|[_ H1]]%lookup_insert_Some;
      [lia|by apply (si_left _ _ _ Hi t')].
Qed.

Lemma sessions_inv_return st mu ms s ls t o x :
  sessions_inv (mkSessions st mu ms) s ls → ms !! t = Some (o, Done x) →
  ∃ r v, pending_calls s !! t = Some (o, r) ∧ op_ends o r (convs s !! op_session o) = Some (x, v) ∧
    sessions_inv (mkSessions st mu (delete t ms))
      (mkConversations (partial_alter (λ _, v) (op_session o) (convs s)) (delete t (pending_calls s))) (delete t ls).
Proof.
  intros Hi Ht. destruct (si_calls _ _ _ Hi t o _ Ht) as (l & Hl & Hf & Hok & Hfl).
  assert (H : l_holds l = false ∧ op_ends o (l_reply l) (convs s !! op_session o) =
    Some (x, local_conversation (l_stored l) (l_rec l))) by (by destruct l; destruct Hf).
  destruct H as [Hh Hends]. exists (l_reply l), (local_conversation (l_stored l) (l_rec l)).
  split_and!; [done..|]. split; simpl.
  - apply (si_wf _ _ _ Hi).
  - intros t' o' m1 [Hne H]%lookup_delete_Some. destruct (si_calls _ _ _ Hi t' o' m1 H) as (l1 & ? & ? & ? & ?).
    exists l1. rewrite !lookup_delete_ne by done. split_and!; try done.
    rewrite lookup_partial_alter_ne; [done|]. by apply (si_apart _ _ _ Hi t o (Done x) t' o' m1).
  - intros t' [->|H]%lookup_delete_None; [by rewrite !lookup_delete_eq|].
    rewrite !lookup_delete_None. destruct (si_none _ _ _ Hi t' H). auto.
  - intros t1 o1 m1 t2 o2 m2 Hne [_ H1]%lookup_delete_Some [_ H2]%lookup_delete_Some.
    by apply (si_apart _ _ _ Hi t1 o1 m1 t2 o2 m2).
  - intros id Hid. destruct (decide (id = op_session o)) as [->|Hne].
    + rewrite lookup_partial_alter_eq. by apply local_ok_stored.
    + rewrite lookup_partial_alter_ne by done. apply (si_rest _ _ _ Hi). intros t' o' m' H.
      destruct (decide (t = t')) as [<-|Ht']; [simpl in H; congruence|].
      apply (Hid t' o' m'). simpl. by rewrite lookup_delete_ne.
  - pose proof (total_delete (λ x, one (l_holds x)) ls t l Hl) as Hc.
    pose proof (si_mutex _ _ _ Hi) as Hm. unfold count in *. simpl in *. rewrite Hh in Hc. simpl in Hc. lia.
  - intros t' l1 [_ H]%lookup_delete_Some. by apply (si_left _ _ _ Hi t').
Qed.

(** *** Executions *)

Lemma conversations_emit s0 tr s l s' :
  conversation_run a s0 tr s →
  match l with Some e => conversation_step a s e s' | None => s' = s end →
  conversation_run a s0 (tr ++ emit_session l) s'.
Proof.
  intros Hr Hl. destruct l as [e|]; simpl; [by eapply conversations_snoc|].
  rewrite app_nil_r. by subst.
Qed.

Lemma sessions_simulation st tr c :
  wf st → session_execution zero_Time a polite (sessions_start st) tr c →
  ∃ s ls, conversation_run a (conversations_start st) tr s ∧ sessions_inv c s ls.
Proof.
  intros Hwf. induction 1 as [|tr c l c' Hx (s & ls & Hr & Hi) Hp Hst].
  { eexists _, ∅. split; [constructor|by apply sessions_inv_start]. }
  destruct Hst as [st1 mu ms t o Ht|st1 mu ms t o m e st' mu' m' Ht Hn|st1 mu ms t o x Ht].
  - eexists _, _. split; [|by apply sessions_inv_call]. eapply conversations_emit; [done|].
    destruct s as [cs fl]. constructor; [by apply (si_none _ _ _ Hi)|].
    intros u o' r Hu Heq. destruct (ms !! u) as [[o1 m1]|] eqn:Hms.
    + destruct (si_calls _ _ _ Hi u o1 m1 Hms) as (l1 & _ & _ & _ & Hfl). simpl in Hfl, Hu.
      rewrite Hfl in Hu. injection Hu as -> _. by apply (Hp u o' m1).
    + destruct (si_none _ _ _ Hi u Hms). simpl in *. congruence.
  - destruct (sessions_inv_access _ _ _ _ _ _ _ _ _ _ _ _ Hi Ht Hn) as (l1 & l2 & Hl & _ & Hre & Hi').
    destruct (si_calls _ _ _ Hi t o m Ht) as (l3 & Hl3 & _ & _ & Hfl). rewrite Hl in Hl3. injection Hl3 as <-.
    eexists _, _. split; [|exact Hi']. eapply conversations_emit; [done|]. destruct s as [cs fl]; simpl in *.
    destruct e as [[req r]|]; simpl in *.
    + destruct Hre as (Hn1 & Hq & Hans & ->). rewrite Hn1 in Hfl. by econstructor.
    + rewrite Hre, insert_id by done. done.
  - destruct (sessions_inv_return _ _ _ _ _ _ _ _ Hi Ht) as (r & v & Hfl & Hends & Hi').
    eexists _, _. split; [|exact Hi']. eapply conversations_emit; [done|].
    destruct s as [cs fl]. by econstructor.
Qed.

Lemma sessions_not_racy c s ls : sessions_inv c s ls → ¬ session_race c.
Proof.
  intros Hi (t & o & m & t' & o' & m' & q & w & w' & Hne & Ht & Ht' & Hm & Hm' & _).
  destruct (si_calls _ _ _ Hi t o m Ht) as (l & Hl & Hf & Hok & _).
  destruct (si_calls _ _ _ Hi t' o' m' Ht') as (l' & Hl' & Hf' & Hok' & _).
  pose proof (follows_access a _ _ _ _ _ _ _ Hf Hok Hm) as H1.
  pose proof (follows_access a _ _ _ _ _ _ _ Hf' Hok' Hm') as H2. destruct q as [|p].
  - by apply Hne, (one_holder c s ls t l t' l').
  - destruct H1 as (x & Hx & Hid), H2 as (y & Hy & Hid').
    apply (si_apart _ _ _ Hi t o m t' o' m' Hne Ht Ht'). congruence.
Qed.

(** Every quiet step uses up an access of a call in flight, or ends the call. *)
Lemma sessions_quiet_step c s ls c' :
  sessions_inv c s ls → session_quiet zero_Time a c c' →
  ∃ s' ls', sessions_inv c' s' ls' ∧ total (λ l, S (l_left l)) ls' < total (λ l, S (l_left l)) ls.
Proof.
  intros Hi (l & Hst & Hq).
  destruct Hst as [st1 mu ms t o Ht|st1 mu ms t o m e st' mu' m' Ht Hn|st1 mu ms t o x Ht].
  - by destruct (Hq t o).
  - destruct (sessions_inv_access _ _ _ _ _ _ _ _ _ _ _ _ Hi Ht Hn) as (l1 & l2 & Hl & Hlt & _ & Hi').
    eexists _, _. split; [exact Hi'|].
    pose proof (total_update (λ l, S (l_left l)) ls t l1 l2 Hl). simpl in *. lia.
  - destruct (sessions_inv_return _ _ _ _ _ _ _ _ Hi Ht) as (r & v & _ & _ & Hi').
    destruct (si_calls _ _ _ Hi t o _ Ht) as (l1 & Hl & _). eexists _, _. split; [exact Hi'|].
    pose proof (total_delete (λ l, S (l_left l)) ls t l1 Hl). simpl in *. lia.
Qed.

Lemma sessions_progress c s ls : sessions_inv c s ls → running c = ∅ ∨ ∃ c', session_quiet zero_Time a c c'.
Proof.
  intros Hi. destruct (map_choose_or_empty (running c)) as [(t & [o m] & Ht)|Hn]; [right|by left].
  assert (Hgo : ∀ u o1 m1 l, running c !! u = Some (o1, m1) → ls !! u = Some l →
    (l_holds l = false ∧ locked c = true) ∨ ∃ c', session_quiet zero_Time a c c').
  { intros u o1 m1 l Hu Hl. destruct (si_calls _ _ _ Hi u o1 m1 Hu) as (l1 & Hl1 & Hf & Hok & _).
    assert (l1 = l) as -> by congruence. destruct c as [st mu ms]. simpl in *.
    destruct (follows_progress a _ _ _ _ st mu Hf Hok) as [(x & -> & _)|[H|([[[e st'] mu'] m'] & Hnx)]]; [right|by left|right].
    - eexists _, _. split; [by eapply session_return|done].
    - eexists _, _. split; [by eapply session_access|]. by destruct e as [[]|]. }
  destruct (si_calls _ _ _ Hi t o m Ht) as (l & Hl & _).
  destruct (Hgo t o m l Ht Hl) as [[_ Hlk]|]; [|done].
  pose proof (si_mutex _ _ _ Hi) as Hm. rewrite Hlk in Hm.
  destruct (count_some l_holds ls) as (u & lu & Hu & Hh); [rewrite Hm; simpl; lia|].
  destruct (running c !! u) as [[o1 m1]|] eqn:Hru.
  - destruct (Hgo u o1 m1 lu Hru Hu) as [[Hh' _]|]; [congruence|done].
  - destruct (si_none _ _ _ Hi u Hru). congruence.
Qed.

Lemma sessions_complete c s ls n c' :
  sessions_inv c s ls → nsteps (session_quiet zero_Time a) n c c' →
  n ≤ total (λ l, S (l_left l)) ls ∧ (running c' = ∅ ∨ ∃ c'', session_quiet zero_Time a c' c'').
Proof.
  intros Hi Hn. revert s ls Hi. induction Hn as [c|n c1 c2 c3 Hq Hn IH]; intros s ls Hi.
  - split; [lia|by eapply sessions_progress].
  - destruct (sessions_quiet_step _ _ _ _ Hi Hq) as (s' & ls' & Hi' & Hlt).
    destruct (IH s' ls' Hi') as [Hle Hp]. split; [lia|done].
Qed.

Lemma sessions_accesses_left c s ls :
  sessions_inv c s ls → total (λ l, S (l_left l)) ls ≤ S session_accesses * size (running c).
Proof.
  intros Hi. etransitivity; [apply (total_le _ (S session_accesses))|].
  - intros t l Hl. pose proof (si_left _ _ _ Hi t l Hl). lia.
  - apply Nat.mul_le_mono_l. rewrite <-!size_dom. apply subseteq_size. intros t [l Hl]%elem_of_dom.
    apply elem_of_dom. destruct (running c !! t) eqn:Ht; [done|]. destruct (si_none _ _ _ Hi t Ht). congruence.
Qed.
End goroutines.

(** ** Properties *)

Section properties.
Context `{K : Kernel} {L : Payloads} {O : Orchestration} {A : Approvals}.
Context (zero_Time : Time) (a : App).

(** C36: while every session has one call in flight at a time, the app refines a set of
    independent conversations: whatever goroutines call Turn and Resume at once and
    however their accesses interleave, the calls, invocations of the agent and answers
    seen are those of an execution of the specification, where each call invokes the
    agent at most once, on its own conversation, and changes that conversation alone,
    when it returns; and the store holds, for every session at rest, the conversation
    of the specification. *)
Theorem sessions_refine_conversations st tr c :
  wf st → session_execution zero_Time a polite (sessions_start st) tr c →
  ∃ s, conversation_run a (conversations_start st) tr s ∧
    ∀ id, no_call_on id c → stored_conversations (current c) !! id = convs s !! id.
Proof.
  intros Hwf Hx. destruct (sessions_simulation zero_Time a st tr c Hwf Hx) as (s & ls & Hr & Hi).
  exists s. split; [done|]. apply (si_rest _ _ _ _ Hi).
Qed.

(** C32: under the same discipline no two goroutines race, neither on the map of the
    store, which the mutex guards, nor on the records it hands out, which nothing
    guards; and with [n] calls in flight and no new one, every schedule stops after at
    most [18 n] steps, when all the calls have returned. *)
Theorem sessions_race_free_and_return st tr c :
  wf st → session_execution zero_Time a polite (sessions_start st) tr c →
  ¬ session_race c ∧
  ∀ n c', nsteps (session_quiet zero_Time a) n c c' →
    n ≤ 18 * size (running c) ∧ (running c' = ∅ ∨ ∃ c'', session_quiet zero_Time a c' c'').
Proof.
  intros Hwf Hx. destruct (sessions_simulation zero_Time a st tr c Hwf Hx) as (s & ls & _ & Hi).
  split; [by eapply sessions_not_racy|]. intros n c' Hn.
  destruct (sessions_complete zero_Time a c s ls n c' Hi Hn) as [Hle Hp]. split; [|done].
  pose proof (sessions_accesses_left a c s ls Hi). unfold session_accesses in *. lia.
Qed.
End properties.

(** ** Witnesses

    Goroutine 0 says hello on one session while goroutine 1 asks for something to be
    approved on another, their accesses in turns; goroutine 0 then tries the session
    of goroutine 1 and must wait. *)

#[local] Existing Instance pausing_orchestration.
#[local] Existing Instance pausing_approvals.
#[local] Existing Instance payload_kernel.

Definition round_robin (n : nat) : list session_action :=
  concat (repeat [DoAccess 0; DoAccess 1] n).

Definition sample_session_actions : list session_action :=
  [DoTurn 0 (OpTurn Background "demo-1" "hello"); DoTurn 1 (OpTurn Background "demo-2" "SENSITIVE")] ++
  round_robin 9 ++ [DoTurn 2 (OpResume Background "demo-2" true)] ++ round_robin 16 ++
  [DoTurn 2 (OpResume Background "demo-2" true)] ++ repeat (DoAccess 2) 18.

Definition sample_session_run := session_schedule zero sample_app true sample_session_actions [] (sessions_start empty_state).

(** The replies a goroutine got from its turns. *)
Definition turn_replies (t : nat) (tr : list session_event) : list sample_message :=
  omap (λ e, match e with Returned u (Turned (Ok m)) => if (u =? t)%nat then Some m else None | _ => None end) tr.

Definition hello_reply : sample_message := mkSampleMessage SAssistant (Some [(true, "done")]).

Lemma sample_session_execution n :
  let run := session_schedule zero sample_app true (take n sample_session_actions) [] (sessions_start empty_state) in
  session_execution zero sample_app polite (sessions_start empty_state) run.1 run.2.
Proof. apply session_schedule_execution. constructor. Qed.

(** The calls run to their end, and "demo-2" was resumed once its turn had returned. *)
Example sessions_refine_conversations_witness :
  ∃ s, conversation_run sample_app (conversations_start empty_state) sample_session_run.1 s ∧
    turn_replies 0 sample_session_run.1 = [hello_reply] ∧
    c_Messages <$> convs s !! "demo-2" = Some (Some [sensitive_message; hello_reply]).
Proof.
  destruct (sessions_refine_conversations zero sample_app empty_state sample_session_run.1 sample_session_run.2
    empty_wf (sample_session_execution (length sample_session_actions))) as (s & Hr & Hs).
  exists s. split; [exact Hr|]. split; [vm_compute; reflexivity|]. rewrite <-Hs.
  - vm_compute. reflexivity.
  - intros t o m. rewrite (map_size_empty_inv (running sample_session_run.2)); [|vm_compute; reflexivity].
    rewrite lookup_empty. discriminate.
Defined.

(** Half-way, both calls are in flight. *)
Definition sample_session_midway :=
  session_schedule zero sample_app true (take 14 sample_session_actions) [] (sessions_start empty_state).

Example sessions_race_free_and_return_witness :
  size (running sample_session_midway.2) = 2 ∧ ¬ session_race sample_session_midway.2 ∧
  ∀ n c', nsteps (session_quiet zero sample_app) n sample_session_midway.2 c' → n ≤ 36.
Proof.
  destruct (sessions_race_free_and_return zero sample_app empty_state sample_session_midway.1 sample_session_midway.2
    empty_wf (sample_session_execution 14)) as [Hr Hn].
  split; [vm_compute; reflexivity|]. split; [exact Hr|]. intros n c' H. exact (proj1 (Hn n c' H)).
Defined.

(** ** Two calls on one session

    Nothing in the code keeps them apart.  On a stored session both turns work on the
    stored record and race on its messages; on a new one each makes a record of its
    own, both reply, and the exchange saved first is lost. *)

Definition hello : session_op := OpTurn Background "demo-1" "hello".
Definition bye : session_op := OpTurn Background "demo-1" "bye".

Definition stored_state : state := (Turn sample_app Background "demo-1" "hello" empty_state).2.

Definition racing_turns :=
  session_schedule zero sample_app false
    ([DoTurn 0 hello; DoTurn 1 bye] ++ repeat (DoAccess 0) 5 ++ repeat (DoAccess 1) 5) [] (sessions_start stored_state).

(** Both are about to store the messages of the one record. *)
Lemma racing_access t :
  (next_access ∘ snd) <$> running racing_turns.2 !! t = Some (Some (TheRecord fresh_location, true)) →
  ∃ o m, running racing_turns.2 !! t = Some (o, m) ∧ next_access m = Some (TheRecord fresh_location, true).
Proof. destruct (running racing_turns.2 !! t) as [[o m]|]; [|done]. intros [= H]. by eexists _, _. Qed.

Lemma turns_on_one_session_race :
  session_execution zero sample_app (λ _ _, True) (sessions_start stored_state) racing_turns.1 racing_turns.2 ∧
  session_race racing_turns.2.
Proof.
  split; [apply any_schedule_execution; constructor|].
  destruct (racing_access 0) as (o & m & Hm & Ha); [vm_compute; reflexivity|].
  destruct (racing_access 1) as (o' & m' & Hm' & Ha'); [vm_compute; reflexivity|].
  exists 0, o, m, 1, o', m', (TheRecord fresh_location), true, true.
  split; [lia|]. split; [exact Hm|]. split; [exact Hm'|]. split; [exact Ha|]. split; [exact Ha'|]. reflexivity.
Qed.

Definition first_turns :=
  session_schedule zero sample_app false
    ([DoTurn 0 hello; DoTurn 1 bye] ++ repeat (DoAccess 0) 4 ++ repeat (DoAccess 1) 18 ++ repeat (DoAccess 0) 14) []
    (sessions_start empty_state).

Lemma first_turns_lose_an_exchange :
  session_execution zero sample_app (λ _ _, True) (sessions_start empty_state) first_turns.1 first_turns.2 ∧
  turn_replies 0 first_turns.1 = [hello_reply] ∧ turn_replies 1 first_turns.1 = [hello_reply] ∧
  c_Messages <$> stored_conversations (current first_turns.2) !! "demo-1" =
    Some (Some [mkSampleMessage SUser (Some [(true, "hello")]); hello_reply]).
Proof.
  split; [apply any_schedule_execution; constructor|]. split_and!; vm_compute; reflexivity.
Qed.
