(* ===== verification/Programs.v ===== *)
(** What the programs under examples/ share: filling a registry with [must], and
    how a spec without skills, parents and overlays goes through the build. *)

From S2P Require Import Prelude GoStrings Errors Values Types Ids Extends Kernel Registry.
From S2P Require Import Merge Validate Normalize Hash Budget Chains Expand Resolve Manifest Build.
From S2P Require Import Forge Completeness.
From stdpp Require Import options.

(** ** Registration *)

Section register.
Context `{K : Kernel}.

(** One call [r.Register<Kind>(factory)]. *)
Definition registration : Type := { k : RKind & Factory k }.
Definition register (x : registration) : ComponentRegistry → option error * ComponentRegistry :=
  Register (projT1 x) (projT2 x).

(** [log.Fatalf(format, err)], the format with one [%v]: the program ends with this
    message. *)
Definition Fatalf (format : string) (err : error) : error := EText (Sprintf format [FErr err]).

(** [must]: an error ends the program. *)
Definition must (r : option error * ComponentRegistry) : res error ComponentRegistry :=
  match r.1 with Some err => Err err | None => Ok r.2 end.

(** One registration after the other. *)
Definition register_all (l : list registration) : res error ComponentRegistry :=
  foldM (λ r x, must (register x r)) NewComponentRegistry l.
End register.

(** *** Filling a registry *)

Section fill.
Context `{K : Kernel}.

Definition reg_key (x : registration) : RKind * ID := (projT1 x, f_ID (projT2 x)).

Lemma register_new (x : registration) r :
  frozen r = false → factories r (projT1 x) !! f_ID (projT2 x) = None →
  ∃ r', must (register x r) = Ok r' ∧ reg_step r r' ∧ frozen r' = false ∧
    Lookup (projT1 x) (f_ID (projT2 x)) r' = Ok (projT2 x) ∧
    ∀ k id, (k, id) ≠ reg_key x → factories r' k !! id = factories r k !! id.
Proof.
  destruct x as [k f]. simpl. intros Hf Hn.
  exists (Register k f r).2. unfold must, register. simpl. split_and!; [|constructor|..];
    unfold Register; rewrite Hf, Hn; cbn [fst snd]; [done|done|..].
  - apply Lookup_Ok. by rewrite with_map_same, lookup_insert_eq.
  - intros k' id Hne. destruct (decide (k = k')) as [<-|Hk]; [|by rewrite with_map_ne].
    rewrite with_map_same, lookup_insert_ne; [done|]. intros E. apply Hne. unfold reg_key. simpl. congruence.
Qed.

(** Registrations under distinct keys all succeed, and each is found afterwards. *)
Lemma fill l r :
  frozen r = false → NoDup (reg_key <$> l) → (∀ x, x ∈ l → factories r (projT1 x) !! f_ID (projT2 x) = None) →
  ∃ r', foldM (λ r x, must (register x r)) r l = Ok r' ∧ rtc reg_step r r' ∧
    (∀ x, x ∈ l → Lookup (projT1 x) (f_ID (projT2 x)) r' = Ok (projT2 x)) ∧
    ∀ k id, (k, id) ∉ (reg_key <$> l) → factories r' k !! id = factories r k !! id.
Proof.
  revert r. induction l as [|x l IH]; intros r Hf Hnd Hn.
  { exists r. split_and!; [done|done| |done]. by intros ? ?%elem_of_nil. }
  apply NoDup_cons in Hnd as [Hx Hnd].
  destruct (register_new x r Hf (Hn x ltac:(left))) as (r1 & H1 & Hs1 & Hf1 & Hl1 & Ho1).
  destruct (IH r1 Hf1 Hnd) as (r' & Hr' & Hs & Hl & Ho).
  { intros y Hy. rewrite Ho1; [apply Hn; by right|]. intros E. apply Hx.
    apply list_elem_of_fmap. exists y. by split. }
  exists r'. split_and!.
  - cbn [foldM]. rewrite H1. exact Hr'.
  - by eapply rtc_l.
  - intros y [->|Hy]%elem_of_cons; [|by apply Hl].
    apply Lookup_Ok. rewrite Ho by done. by apply Lookup_Ok.
  - intros k id. csimpl. rewrite not_elem_of_cons. intros [Hne Hni]. rewrite Ho, Ho1 by done. done.
Qed.

(** A registry filled from [l]. *)
Definition holds_all (l : list registration) (r : ComponentRegistry) : Prop :=
  reachable r ∧ ∀ x, x ∈ l → Lookup (projT1 x) (f_ID (projT2 x)) r = Ok (projT2 x).

Lemma register_all_fills l :
  NoDup (reg_key <$> l) → ∃ r, register_all l = Ok r ∧ holds_all l r.
Proof.
  intros Hnd. destruct (fill l NewComponentRegistry) as (r & Hr & Hs & Hl & _).
  - reflexivity.
  - exact Hnd.
  - intros. apply lookup_empty.
  - exists r. split; [exact Hr|]. by split.
Qed.

Lemma freeze_holds l r : holds_all l r → holds_all l (Freeze r).
Proof. intros [Hr Hl]. split; [|exact Hl]. eapply rtc_r; [exact Hr|constructor]. Qed.

Section filled.
Context (l : list registration) (r : ComponentRegistry) (Hl : holds_all l r).

Lemma filled_lookup i k f : l !! i = Some (existT k f) → Lookup k (f_ID f) r = Ok f.
Proof using Hl. intros Hi. apply (proj2 Hl (existT k f)). by eapply list_elem_of_lookup_2. Qed.

(** A registered factory that accepts the config, and one that is a function of it. *)
Lemma filled_buildable i k (f : Factory k) ctx ref cfg :
  l !! i = Some (existT k f) → f_ID f = ref → Runs (f_Build f ctx cfg) →
  buildable ctx r (k, mkComponentRef ref cfg).
Proof using Hl. intros Hi <- Hf. exists f. split; [by eapply filled_lookup|done]. Qed.

Lemma filled_gives i k (f : Factory k) ctx ref cfg v :
  l !! i = Some (existT k f) → f_ID f = ref → (∀ w, f_Build f ctx cfg w = (Ok v, w)) →
  gives ctx r k (mkComponentRef ref cfg) v.
Proof using Hl. intros Hi <- Hf. exists f. split; [by eapply filled_lookup|done]. Qed.
End filled.
End fill.

(** ** Building a spec that is taken as it stands *)

(** Each spec is accepted as it stands: normalisation only records where its fields
    come from. *)
Definition normalized (s : AgentSpec) : NormalizedSpec :=
  mkNormalizedSpec (mergeChain [] s).1 [] [] (mergeChain [] s).2.

Section programs.
Context `{K : Kernel} {O : Orchestration}.

(** The spec reaches the pipeline as it stands. *)
Record plain_spec (ctx : context) (s : AgentSpec) : Prop := {
  pl_normalizes : Normalize ctx s [] None = Ok (normalized s);
  pl_spec : ns_Spec (normalized s) = s;
  pl_skills : Skills s = None;
  pl_expands : es_Spec (expansion_start s) = s;
}.

Lemma plain_build ctx s r w c text :
  plain_spec ctx s → reachable r → Forall (buildable ctx r) (parts s) →
  pb_System (Prompt s) = Some c → gives ctx r KindPromptAsset c (text : Product KindPromptAsset) →
  (∀ rsv, resolved_from ctx (Freeze r) s rsv → compatible rsv) →
  (∀ rsv, resolved_from ctx (Freeze r) s rsv → no_nil rsv) →
  (∀ c f w v w', c ∈ elems (MCPImports s) → LookupMCPBinding (cr_Ref c) r = Ok f →
     f_Build f ctx (cr_Config c) w = (Ok v, w') → binding_refers r v) →
  (∀ p opts, Runs (New p opts)) →
  ∃ ba w' rsv, forge_Build ctx s r [] w = ((Ok ba, w'), Freeze r) ∧
    row <$> elems (mf_Resolved (ba_Manifest ba)) = component_rows s ∧ ba_SystemPrompt ba = text ∧
    resolved_from ctx (Freeze r) s rsv ∧
    elems (ba_ToolDefs ba) = elems (g_values (r_toolPacks rsv)) ≫= (λ p, elems (tp_Definitions p)).
Proof.
  intros [Hn Hs Hsk Hx] Hreach Hp Hc Ht Hcomp Hnil Hb Hnew.
  assert (He : ∀ w, expandSkills ctx (ns_Spec (normalized s)) (Freeze r) w = (Ok (expansion_start s), w)).
  { intros w0. rewrite Hs. unfold expandSkills. by rewrite Hsk. }
  assert (H : ∃ ba w', Build ctx (normalized s) fresh_memo r w = ((Ok ba, w'), Freeze r)).
  { pose proof (build_agent_runs ctx (normalized s) fresh_memo (Freeze r) _ w w (He w)) as H. rewrite Hx in H.
    destruct (H ltac:(by rewrite Hc) Hp Hcomp Hb Hnew) as (ba & w' & Hba). exists ba, w'. unfold Build.
    by rewrite Hba. }
  destruct H as (ba & w' & H). assert (Hst := H).
  apply Build_stages in Hst as (es0 & es & rsv & binds & opts & bud & _ & Hst).
  exists ba, w', rsv. split; [unfold forge_Build; simpl; by rewrite Hn|].
  assert (Hrows := λ Hn, stages_rows _ _ _ _ _ _ _ _ _ _ _ _ _ (reachable_freeze_keyed _ Hreach) Hn Hst).
  destruct Hst as [(w1 & He1) (w2 & w3 & Hoc) (w4 & w5 & Hr%resolve_from) _ Htools _ _ _ Hprompt _].
  rewrite He in He1. injection He1 as <- <-. apply resolveOutputContract_Ok in Hoc as (Hs1 & Hs2 & _).
  rewrite Hs1, Hx in Hrows, Hr. specialize (Hrows (Hnil _ Hr)). rewrite Hs2 in Hprompt. split_and!; [done| |done|].
  - rewrite Hprompt. destruct Hr as [_ (c' & Hc' & Hbt) _ _ _ _ _ _ _ _ _ _]. rewrite Hc in Hc'.
    injection Hc' as <-. destruct c as [ref cfg]. exact (gives_built _ _ KindPromptAsset _ _ _ _ Ht Hbt).
  - by apply tool_option_Ok in Htools as [Hd _].
Qed.


(** Without credentials and identity there is nothing that could be nil. *)
Lemma no_nil_absent ctx r s rsv :
  Credentials s = None → Identity s = None → resolved_from ctx r s rsv → no_nil rsv.
Proof.
  intros Hc Hi [_ _ _ _ _ _ _ _ _ _ Hcred Hid]. unfold opt_built in *. rewrite Hc in Hcred.
  rewrite Hi in Hid. inversion Hcred as [|Hx Hv]. inversion Hid as [|Hx' Hv']. by split;
    [rewrite <-Hv|rewrite <-Hv'].
Qed.

Lemma io_bind_run {X Y} (m : IO X) (f : X → IO Y) w x w' : m w = (Ok x, w') → io_bind m f w = f x w'.
Proof. unfold io_bind. by intros ->. Qed.
End programs.
