(* ===== verification/Demo.v ===== *)
(** The demo program (examples/demo/main.go): the registry it fills with the
    factories of the repository, and its run from the command line flags to what
    it prints.  The specs of the three YAML files beside it are written out as
    the YAML decoder gives them, and followed through normalisation, expansion,
    resolution and wiring. *)

From S2P Require Import Prelude GoStrings Errors Values Types Ids Extends Canonical Kernel Registry.
From S2P Require Import Merge Validate Normalize Hash Budget Chains Expand Resolve Manifest Build.
From S2P Require Import Forge McpFactory Factories Payloads Filters Policies Leaves Sessions.
From S2P Require Import Completeness Programs.
From stdpp Require Import options.

(** What the demo takes from outside the repository beyond the kernel: the
    environment, key generation and the services its factories wrap. *)
Class Services `{K : Kernel} {L : Payloads} := {
  int_of_float : SpecFloat.spec_float → Z;
  ToUpper : string → string;
  Getenv : string → World → string;
  (** crypto/ed25519 and praxis identity *)
  PrivateKey : Type;
  GenerateKey : World → PrivateKey * World;               (* its error is ignored *)
  NewEd25519Signer : PrivateKey → string → Z → res error Signer;
  (** praxis budget and credentials *)
  NullGuard : Guard;
  zero_Config : BudgetConfig;
  Credential : Type;
  mk_Credential : string → Credential;
  resolver_of : (context → string → IO Credential) → Resolver;
  (** a value converted to an interface, and a constructor's answer without an error,
      are not nil *)
  resolver_of_set f : Resolver_nil (resolver_of f) = false;
  NewEd25519Signer_set priv issuer lifetime s :
    NewEd25519Signer priv issuer lifetime = Ok s → Signer_nil s = false;
  (** encoding/json, net/url and net/http for the HTTP tool *)
  Unmarshal_args : string → res error string;
  url_Host : string → res error string;
  error_text : error → string;
  Request : Type;
  Response : Type;
  NewRequest : context → string → res error Request;
  Do : Z → Request → IO Response;
  ReadAll : Response → IO string;
  http_get_definition : ToolDefinition;
  http_get_name : def_Name http_get_definition = "http_get";   (* its Name field *)
  (** log/slog and praxis telemetry *)
  Logger : Type;
  Level : Type;
  Event : Type;
  LevelInfo : Level;
  LevelDebug : Level;
  ev_Type : Event → string;
  slog_Default : Logger;
  Log : Logger → context → Level → string → list string → World → World;
  ctx_Value : context → string → any;
  emitter_of : (context → Event → IO ()) → Emitter;
  enricher_of : (context → gomap string) → Enricher;
  (** praxis anthropic *)
  AnthropicOption : Type;
  WithModel : string → AnthropicOption;
  WithMaxTokens : Z → AnthropicOption;
  anthropic_New : string → list AnthropicOption → Provider_;
}.

Section demo.
Context `{K : Kernel} {L : Payloads} {O : Orchestration} {A : Approvals} {V : Services}.
Local Open Scope io_scope.

(** ** The registry *)

Definition demo_registrations (structured mcpDemo : bool) (apiKey : string) (priv : PrivateKey)
    : list registration :=
  [existT KindProvider (anthropic_NewFactory int_of_float WithModel WithMaxTokens anthropic_New
     "provider.anthropic@1.0.0" apiKey);
   existT KindPromptAsset (literal_NewFactory "prompt.demo-system@1.0.0");
   existT KindPromptAsset (literal_NewFactory "prompt.demo-structured-system@1.0.0");
   existT KindToolPack (httpget_NewFactory int_of_float Unmarshal_args url_Host error_text NewRequest Do
     ReadAll http_get_definition "toolpack.http-get@1.0.0");
   existT KindPolicyPack (pii_NewFactory "policypack.pii-redaction@1.0.0");
   existT KindPreLLMFilter (scrubber_NewFactory "filter.secret-scrubber@1.0.0");
   existT KindPreToolFilter (pathescape_NewFactory "filter.path-escape@1.0.0");
   existT KindPostToolFilter (truncate_NewFactory int_of_float "filter.output-truncate@1.0.0");
   existT KindBudgetProfile (budgetprofile_NewFactory NullGuard zero_Config
     "budgetprofile.default-tier1@1.0.0");
   existT KindTelemetryProfile (slog_NewFactory LevelInfo LevelDebug ev_Type slog_Default Log ctx_Value
     emitter_of enricher_of "telemetryprofile.slog@1.0.0" (Some slog_Default));
   existT KindCredentialResolver (credresolver_NewFactory ToUpper Getenv mk_Credential resolver_of
     "credresolver.env@1.0.0");
   existT KindIdentitySigner (signer_NewFactory int_of_float NewEd25519Signer
     "identitysigner.ed25519@1.0.0" priv)] ++
  (if structured then
     [existT KindSkill (structured_NewFactory "skill.structured-output@1.0.0");
      existT KindOutputContract (schema_NewFactory "outputcontract.json-schema@1.0.0")]
   else []) ++
  (if mcpDemo then [existT KindMCPBinding (mcp_NewFactory "mcp.binding@1.0.0")] else []).

Definition demo_registry (structured mcpDemo : bool) (apiKey : string) (priv : PrivateKey)
    : res error ComponentRegistry :=
  register_all (demo_registrations structured mcpDemo apiKey priv).

(** ** The run *)

(** The text parts of the response, the number of manifest entries, and the expanded
    hash of the structured demo; or the MCP entries of the manifest. *)
Inductive printed :=
| PrintedBindings (l : list ResolvedComponent)
| PrintedResponse (texts : list string) (components : nat) (hash : option string).

Definition specPath (structured mcpDemo : bool) : string :=
  if structured then "examples/demo/agent-structured.yaml"
  else if mcpDemo then "examples/demo/agent-mcp.yaml"
  else "examples/demo/agent.yaml".

Definition quoted (s : string) : string := str1 dquote +:+ s +:+ str1 dquote.
Definition demo_prompt (structured : bool) : string :=
  if structured then
    "Summarize the praxis-forge README in one paragraph (≤80 words). Respond with JSON {" +:+
    quoted "summary" +:+ ": string, " +:+ quoted "url" +:+ ": string} matching the output schema."
  else "Fetch https://raw.githubusercontent.com/praxis-os/praxis-forge/main/README.md" +:+
       " and summarize what praxis-forge does.".

Definition demo_request (structured : bool) (system : string) : InvocationRequest :=
  mk_InvocationRequest "claude-sonnet-4-5" system
    (Some [mk_Message RoleUser (Some [TextPart (demo_prompt structured)])]) None.

Definition text_of_part (p : MessagePart) : option string :=
  if bool_decide (part_Type p = PartTypeText) then Some (part_Text p) else None.
Definition response_texts (res : InvocationResult) : list string :=
  match res_Response res with
  | Some m => omap text_of_part (elems (m_Parts m))
  | None => []
  end.

Context (os_Open : string → IO string) (yaml_AgentSpec : string → res error AgentSpec).

Definition demo_main (structured mcpDemo : bool) : IO printed := λ w,
  let apiKey := Getenv "ANTHROPIC_API_KEY" w in
  if bool_decide (apiKey = "") then (Err (EText (Sprintf "ANTHROPIC_API_KEY not set" [])), w)
  else
    let '(priv, w) := GenerateKey w in
    (r <- io_lift (demo_registry structured mcpDemo apiKey priv) ;;
     s <- io_wrap (LoadSpec os_Open yaml_AgentSpec (specPath structured mcpDemo))
            (Fatalf "load spec: %v") ;;
     b <- io_wrap (λ w, (forge_Build Background s r [] w).1) (Fatalf "build: %v") ;;
     let resolved := elems (mf_Resolved (BuiltAgent_Manifest b)) in
     if mcpDemo then
       io_ret (PrintedBindings (filter (λ rc, mr_Kind rc = "mcp_binding") resolved))
     else
       res <- io_wrap (BuiltAgent_Invoke b Background (demo_request structured (BuiltAgent_SystemPrompt b)))
                (Fatalf "invoke: %v") ;;
       io_ret (PrintedResponse (response_texts res) (length resolved)
         (if structured then Some (mf_ExpandedHash (BuiltAgent_Manifest b)) else None))) w.
End demo.

(** ** The three specs, as the YAML decoder gives them *)

Definition lf : string := str1 (byte 10).

Definition demo_provider (tokens_key : string) (tokens : Z) : ComponentRef :=
  mkComponentRef "provider.anthropic@1.0.0"
    (Some [("model", AString "claude-sonnet-4-5"); (tokens_key, AInt tokens)]).
Definition demo_pii : ComponentRef :=
  mkComponentRef "policypack.pii-redaction@1.0.0" (Some [("strictness", AString "medium")]).

Definition agent_text : string :=
  "You are a careful research assistant. Use the http_get tool to" +:+ lf +:+
  "fetch the URL the user names, then summarize its content in" +:+ lf +:+
  "2-3 sentences. Do not fetch other URLs." +:+ lf.

Definition agent_yaml : AgentSpec :=
  mkAgentSpec "forge.praxis-os.dev/v0" "AgentSpec"
    (mkMetadata "forge.examples.demo" "0.1.0" "Forge demo agent" "" None None)
    (demo_provider "maxOutputTokens" 512)
    (mkPromptBlock (Some (mkComponentRef "prompt.demo-system@1.0.0"
       (Some [("text", AString agent_text)]))) None)
    (Some [mkComponentRef "toolpack.http-get@1.0.0"
       (Some [("allowedHosts", AList (Some [AString "raw.githubusercontent.com"])); ("timeoutMs", AInt 5000)])])
    (Some [demo_pii])
    (mkFilterBlock (Some [mkComponentRef "filter.secret-scrubber@1.0.0" None])
       (Some [mkComponentRef "filter.path-escape@1.0.0" None])
       (Some [mkComponentRef "filter.output-truncate@1.0.0" (Some [("maxBytes", AInt 16384)])]))
    (Some (mkBudgetRef "budgetprofile.default-tier1@1.0.0" (mkBudgetOverrides "20s" 0 0 4 0)))
    (Some (mkComponentRef "telemetryprofile.slog@1.0.0" (Some [("level", AString "info")])))
    (Some (mkCredRef "credresolver.env@1.0.0" None))
    (Some (mkComponentRef "identitysigner.ed25519@1.0.0"
       (Some [("issuer", AString "forge-demo"); ("tokenLifetimeSeconds", AInt 60)])))
    None None None None.

Definition agent_mcp_text : string :=
  "You are a helpful assistant with access to filesystem tools via MCP." +:+ lf.

Definition strings (l : list string) : any := AList (Some (AString <$> l)).

Definition agent_mcp_binding : ComponentRef :=
  mkComponentRef "mcp.binding@1.0.0" (Some
    [("id", AString "fs");
     ("connection", AMap (Some [("transport", AString "stdio");
        ("command", strings ["npx"; "-y"; "@modelcontextprotocol/server-filesystem"; "/tmp/demo"])]));
     ("allow", strings ["read_*"; "list_*"]); ("deny", strings ["write_*"]);
     ("policies", strings ["policypack.pii-redaction@1.0.0"]);
     ("trust", AMap (Some [("tier", AString "medium"); ("owner", AString "demo")]));
     ("onNewTool", AString "block")]).

Definition agent_mcp_yaml : AgentSpec :=
  mkAgentSpec "forge.praxis-os.dev/v0" "AgentSpec"
    (mkMetadata "demo.mcp" "0.1.0" "mcp-binding demo" "" None None)
    (demo_provider "maxTokens" 1024)
    (mkPromptBlock (Some (mkComponentRef "prompt.demo-system@1.0.0"
       (Some [("text", AString agent_mcp_text)]))) None)
    None (Some [demo_pii]) (mkFilterBlock None None None) None None None None None None
    (Some [agent_mcp_binding]) None.

Definition demo_schema : any :=
  AMap (Some [("$schema", AString "https://json-schema.org/draft/2020-12/schema");
    ("type", AString "object");
    ("properties", AMap (Some [("summary", AMap (Some [("type", AString "string")]));
                               ("url", AMap (Some [("type", AString "string")]))]));
    ("required", strings ["summary"])]).

Definition agent_structured_yaml : AgentSpec :=
  mkAgentSpec "forge.praxis-os.dev/v0" "AgentSpec"
    (mkMetadata "demo.structured" "0.1.0" "structured-output demo" "" None None)
    (demo_provider "maxTokens" 1024)
    (mkPromptBlock (Some (mkComponentRef "prompt.demo-structured-system@1.0.0" None)) None)
    None (Some [demo_pii]) (mkFilterBlock None None None)
    (Some (mkBudgetRef "budgetprofile.default-tier1@1.0.0" (mkBudgetOverrides "" 0 0 0 0)))
    (Some (mkComponentRef "telemetryprofile.slog@1.0.0" None)) None None None
    (Some [mkComponentRef "skill.structured-output@1.0.0" None]) None
    (Some (mkComponentRef "outputcontract.json-schema@1.0.0" (Some [("schema", demo_schema)]))).

(** ** Properties *)

(** *** The demo registry *)

Section demo_properties.
Context `{K : Kernel} {L : Payloads} {O : Orchestration} {V : Services}.

Lemma demo_registry_filled structured mcpDemo apiKey priv :
  ∃ r, demo_registry structured mcpDemo apiKey priv = Ok r ∧
    holds_all (demo_registrations structured mcpDemo apiKey priv) r.
Proof.
  apply register_all_fills, (bool_decide_unpack _). destruct structured, mcpDemo; vm_compute; exact I.
Qed.

(** *** Building a demo spec *)

Section run.
Context (structured mcpDemo : bool) (apiKey : string) (priv : PrivateKey) (r : ComponentRegistry).
Hypothesis key_set : apiKey ≠ "".
Hypothesis registry_filled : holds_all (demo_registrations structured mcpDemo apiKey priv) r.
(** The signer accepts an issuer and the lifetimes its factory lets through, and the
    kernel accepts every wiring. *)
Hypothesis signer_accepts : ∀ issuer lifetime,
  issuer ≠ "" → (5 * Second ≤ lifetime ≤ 300 * Second)%Z → is_ok (NewEd25519Signer priv issuer lifetime) = true.
Hypothesis kernel_accepts : ∀ p opts, Runs (New p opts).

Ltac demo_part i :=
  eapply (filled_buildable _ _ registry_filled i); [reflexivity|reflexivity|intros w; eexists _, _; reflexivity].

Lemma demo_provider_builds ctx key n :
  key ∈ ["maxTokens"; "maxOutputTokens"] → buildable ctx r (KindProvider, demo_provider key n).
Proof using registry_filled key_set.
  intros Hk. eapply (filled_buildable _ _ registry_filled 0); [reflexivity|reflexivity|]. intros w. simpl.
  unfold io_lift, anthropic_build. rewrite bool_decide_false by done.
  repeat (apply elem_of_cons in Hk as [->|Hk]; [eexists _, _; reflexivity|]). by apply elem_of_nil in Hk.
Qed.

Lemma demo_signer_builds ctx :
  buildable ctx r (KindIdentitySigner, mkComponentRef "identitysigner.ed25519@1.0.0"
    (Some [("issuer", AString "forge-demo"); ("tokenLifetimeSeconds", AInt 60)])).
Proof using registry_filled signer_accepts.
  eapply (filled_buildable _ _ registry_filled 11); [reflexivity|reflexivity|]. intros w. simpl. unfold io_lift, signer_build.
  assert (Hd : signer_decode int_of_float (Some [("issuer", AString "forge-demo");
    ("tokenLifetimeSeconds", AInt 60)]) = Ok (mkSignerConfig "forge-demo" (60 * Second))) by reflexivity.
  rewrite Hd. simpl. specialize (signer_accepts "forge-demo" (60 * Second)).
  destruct (NewEd25519Signer _ _ _); [eexists _, _; reflexivity|].
  discriminate signer_accepts; [done|unfold Second; lia].
Qed.

Lemma agent_parts ctx : Forall (buildable ctx r) (parts agent_yaml).
Proof using registry_filled key_set signer_accepts.
  unfold parts. simpl. repeat apply Forall_cons_2; [..|apply Forall_nil_2].
  - apply demo_provider_builds. rewrite !elem_of_cons. auto.
  - demo_part 1%nat.
  - demo_part 3%nat.
  - demo_part 4%nat.
  - demo_part 5%nat.
  - demo_part 6%nat.
  - demo_part 7%nat.
  - demo_part 8%nat.
  - demo_part 9%nat.
  - demo_part 10%nat.
  - apply demo_signer_builds.
Qed.
Lemma agent_mcp_parts ctx : mcpDemo = true → Forall (buildable ctx r) (parts agent_mcp_yaml).
Proof using registry_filled key_set.
  intros Hm. unfold parts. simpl. repeat apply Forall_cons_2; [..|apply Forall_nil_2].
  - apply demo_provider_builds. rewrite !elem_of_cons. auto.
  - demo_part 1%nat.
  - demo_part 4%nat.
  - eapply (filled_buildable _ _ registry_filled (if structured then 14 else 12)%nat); [rewrite Hm; by destruct structured|reflexivity|].
    intros w. eexists _, _. reflexivity.
Qed.

(** The only tool pack of the demo. *)
Lemma agent_packs ctx rsv :
  resolved_from ctx r agent_yaml rsv →
  elems (g_values (r_toolPacks rsv)) ≫= (λ p, elems (tp_Definitions p)) = [http_get_definition] ∧
  entry_name <$> all_entries (elems (g_values (r_toolPacks rsv))) = ["http_get"].
Proof using registry_filled.
  intros [_ _ Ht _ _ _ _ _ _ _ _ _].
  eapply (gives_group ctx r KindToolPack) in Ht; cycle 1.
  { repeat apply Forall2_cons_2; [|apply Forall2_nil_2].
    eapply (filled_gives _ _ registry_filled 3%nat); [reflexivity|reflexivity|intros w; reflexivity]. }
  assert (Hp : ∀ l : list (Product KindToolPack), elems (g_values (r_toolPacks rsv)) = l →
    l ≫= (λ p, elems (tp_Definitions p)) = [http_get_definition] ∧ entry_name <$> all_entries l = ["http_get"] →
    elems (g_values (r_toolPacks rsv)) ≫= (λ p, elems (tp_Definitions p)) = [http_get_definition] ∧
    entry_name <$> all_entries (elems (g_values (r_toolPacks rsv))) = ["http_get"]) by (by intros l ->).
  apply (Hp _ Ht). split; [reflexivity|]. by rewrite <-http_get_name.
Qed.

Lemma agent_overrides :
  is_ok (applyBudgetOverrides (default_config zero_Config) (mkBudgetOverrides "20s" 0 0 4 0)) = true.
Proof.
  unfold applyBudgetOverrides, applyWallClock.
  assert (Hd : ParseDuration "20s" = Ok (20 * Second)%Z) by (vm_compute; reflexivity).
  cbn [bo_MaxWallClock]. rewrite bool_decide_false by done. rewrite Hd, !default_config_get. reflexivity.
Qed.

Lemma agent_compatible ctx rsv : resolved_from ctx r agent_yaml rsv → compatible rsv.
Proof using registry_filled.
  intros Hr. destruct (agent_packs _ _ Hr) as [_ Hn]. split.
  - rewrite Hn. apply NoDup_singleton.
  - rewrite <-(Forall_fmap entry_name (λ n, ¬ reserved n)), Hn. by apply Forall_singleton.
  - intros b Hb. destruct Hr as [_ _ _ _ _ _ _ Hbud Hov _ _ _]. rewrite Hov.
    rewrite Hb in Hbud. inversion Hbud as [? ? Hbt|]; subst.
    assert (Hv : sg_value b = mkBudgetProfile NullGuard (default_config zero_Config)).
    { refine (gives_built ctx r KindBudgetProfile _ _ _ b _ Hbt). by eapply (filled_gives _ _ registry_filled 8%nat). }
    rewrite Hv. exact agent_overrides.
Qed.

Lemma agent_no_nil ctx rsv : resolved_from ctx r agent_yaml rsv → no_nil rsv.
Proof using registry_filled.
  intros [_ _ _ _ _ _ _ _ _ _ Hcred Hid]. split.
  - inversion Hcred as [x v (f & w & w' & Hf & Hb & _) Hx Hv|]; subst x. apply unless_nil_keep.
    assert (Hf' := filled_lookup _ _ registry_filled 10%nat KindCredentialResolver _ eq_refl).
    simpl in Hf, Hf'. rewrite Hf' in Hf. injection Hf as <-. injection Hb as <- _.
    apply resolver_of_set.
  - inversion Hid as [x v (f & w & w' & Hf & Hb & _) Hx Hv|]; subst x. apply unless_nil_keep.
    assert (Hf' := filled_lookup _ _ registry_filled 11%nat KindIdentitySigner _ eq_refl).
    simpl in Hf, Hf'. rewrite Hf' in Hf. injection Hf as <-.
    simpl in Hb. unfold io_lift, signer_build in Hb. injection Hb as Hb _.
    apply map_err_Ok in Hb. by eapply NewEd25519Signer_set.
Qed.
End run.

(** The three specs pass normalisation. *)
Lemma agent_plain ctx : plain_spec ctx agent_yaml.
Proof. split; reflexivity. Qed.
Lemma agent_mcp_plain ctx : plain_spec ctx agent_mcp_yaml.
Proof. split; reflexivity. Qed.

(** What the MCP binding of the demo refers to. *)
Lemma agent_mcp_refers v :
  mcp_decode "mcp.binding@1.0.0" (cr_Config agent_mcp_binding) = Ok v →
  elems (mb_Policies v) = ["policypack.pii-redaction@1.0.0"] ∧ mb_Auth v = None.
Proof.
  intros H.
  assert (Hd : match mcp_decode "mcp.binding@1.0.0" (cr_Config agent_mcp_binding) with
    | Ok v => elems (mb_Policies v) = ["policypack.pii-redaction@1.0.0"] ∧ mb_Auth v = None
    | Err _ => False end) by (vm_compute; split; reflexivity).
  by rewrite H in Hd.
Qed.

Lemma agent_structured_diverges ctx r w :
  LookupSkill "skill.structured-output@1.0.0" r = Ok (structured_NewFactory "skill.structured-output@1.0.0") →
  expandSkills ctx agent_structured_yaml (Freeze r) w =
    (Err (contract_config_conflict false "skill.structured-output@1.0.0"
       (mkRequiredComponent "outputcontract.json-schema@1.0.0" None)), w).
Proof.
  intros Hl. assert (He : ∀ rs, rs_Value rs = structured_skill → rs_ID rs = "skill.structured-output@1.0.0" →
    inject_skill (expansion_start agent_structured_yaml) rs = Err (contract_config_conflict false
      "skill.structured-output@1.0.0" (mkRequiredComponent "outputcontract.json-schema@1.0.0" None))).
  { intros [id cfg v] Hv Hi. simpl in Hv, Hi. subst. vm_compute. reflexivity. }
  assert (Hrs : resolve_skill ctx (Freeze r) 0 (mkComponentRef "skill.structured-output@1.0.0" None) w =
    (Ok (mkResolvedSkill "skill.structured-output@1.0.0" None structured_skill), w)).
  { unfold resolve_skill, io_bind, io_lift, io_wrap.
    change (LookupSkill _ (Freeze r)) with (LookupSkill "skill.structured-output@1.0.0" r). by rewrite Hl. }
  change (expandSkills ctx agent_structured_yaml (Freeze r)) with
    (io_bind (io_bind (resolve_skill ctx (Freeze r) 0 (mkComponentRef "skill.structured-output@1.0.0" None))
       (λ rs, io_lift (inject_skill (expansion_start agent_structured_yaml) rs))) io_ret).
  unfold io_bind. rewrite Hrs. unfold io_lift. by rewrite He.
Qed.

(** The prompt asset of the demo. *)
Definition demo_prompt_ref (text : string) : ComponentRef :=
  mkComponentRef "prompt.demo-system@1.0.0" (Some [("text", AString text)]).

(** What building a demo spec gives: an agent whose manifest lists the components of
    the spec, with the text of its prompt asset and the given tools. *)
Definition builds_demo (s : AgentSpec) (text : string) (tools : list ToolDefinition) (ctx : context)
    (r : ComponentRegistry) : Prop :=
  ∀ w, ∃ ba w', forge_Build ctx s r [] w = ((Ok ba, w'), Freeze r) ∧
    row <$> elems (mf_Resolved (ba_Manifest ba)) = component_rows s ∧
    ba_SystemPrompt ba = text ∧ elems (ba_ToolDefs ba) = tools.

Section builds.
Context (ctx : context) (structured mcpDemo : bool) (apiKey : string) (priv : PrivateKey) (r : ComponentRegistry).
Hypothesis key_set : apiKey ≠ "".
Hypothesis signer_accepts : ∀ issuer lifetime,
  issuer ≠ "" → (5 * Second ≤ lifetime ≤ 300 * Second)%Z → is_ok (NewEd25519Signer priv issuer lifetime) = true.
Hypothesis kernel_accepts : ∀ p opts, Runs (New p opts).
Hypothesis registry_filled : holds_all (demo_registrations structured mcpDemo apiKey priv) r.

Lemma agent_builds : builds_demo agent_yaml agent_text [http_get_definition] ctx r.
Proof using key_set signer_accepts kernel_accepts registry_filled.
  intros w. destruct (plain_build ctx agent_yaml r w (demo_prompt_ref agent_text) agent_text (agent_plain ctx)
    (proj1 registry_filled)) as (ba & w' & rsv & Hb & Hrows & Ht & Hres & Hd); [..|done|].
  - by eapply agent_parts.
  - done.
  - by eapply (filled_gives _ _ registry_filled 1%nat).
  - intros rsv. by eapply (agent_compatible structured mcpDemo apiKey priv _ (freeze_holds _ _ registry_filled)).
  - intros rsv. by eapply (agent_no_nil structured mcpDemo apiKey priv _ (freeze_holds _ _ registry_filled)).
  - intros c ? ? ? ? Hc. by apply (elem_of_nil c) in Hc.
  - exists ba, w'. rewrite Hd. split_and!; [done..|]. 
    exact (proj1 (agent_packs structured mcpDemo apiKey priv (Freeze r) (freeze_holds _ _ registry_filled) ctx rsv Hres)).
Qed.

(** No tool packs and no budget. *)
Lemma agent_mcp_unbudgeted rsv :
  resolved_from ctx (Freeze r) agent_mcp_yaml rsv → elems (g_values (r_toolPacks rsv)) = [] ∧ r_budget rsv = None.
Proof.
  intros [_ _ (l & -> & Hl) _ _ _ _ Hb _ _ _ _]. rewrite g_values_of. split; [|by inversion Hb].
  apply Forall2_nil_inv_l in Hl as ->. done.
Qed.

Lemma agent_mcp_builds : mcpDemo = true → builds_demo agent_mcp_yaml agent_mcp_text [] ctx r.
Proof using key_set signer_accepts kernel_accepts registry_filled.
  intros Hm w. destruct (plain_build ctx agent_mcp_yaml r w (demo_prompt_ref agent_mcp_text) agent_mcp_text
    (agent_mcp_plain ctx) (proj1 registry_filled)) as (ba & w' & rsv & Hb & Hrows & Ht & Hres & Hd); [..|done|].
  - by eapply agent_mcp_parts.
  - done.
  - by eapply (filled_gives _ _ registry_filled 1%nat).
  - intros rsv [Hp Hb]%agent_mcp_unbudgeted. split; rewrite ?Hp; [constructor|constructor|]. congruence.
  - intros rsv. by apply no_nil_absent.
  - intros c f w0 v w1 Hc%list_elem_of_singleton Hf Hv. subst c.
    assert (Hf' : LookupMCPBinding "mcp.binding@1.0.0" r = Ok (mcp_NewFactory "mcp.binding@1.0.0")).
    { apply (filled_lookup _ _ registry_filled (if structured then 14 else 12)%nat
        KindMCPBinding (mcp_NewFactory "mcp.binding@1.0.0")). rewrite Hm. by destruct structured. }
    change (LookupMCPBinding "mcp.binding@1.0.0" r = Ok f) in Hf. rewrite Hf' in Hf. injection Hf as <-.
    destruct (agent_mcp_refers v (f_equal fst Hv)) as [Hp Ha]. split; [|congruence]. rewrite Hp.
    apply Forall_singleton. exists (pii_NewFactory "policypack.pii-redaction@1.0.0").
    apply (proj1 (Lookup_Ok KindPolicyPack _ _ _)).
    by apply (filled_lookup _ _ registry_filled 4%nat KindPolicyPack
      (pii_NewFactory "policypack.pii-redaction@1.0.0")).
  - exists ba, w'. rewrite Hd. destruct (agent_mcp_unbudgeted _ Hres) as [-> _]. by split_and!.
Qed.
End builds.

(** The three specs against the registry the demo fills, whatever its flags. *)
Lemma demo_specs ctx structured mcpDemo apiKey priv :
  apiKey ≠ "" →
  (∀ issuer lifetime, issuer ≠ "" → (5 * Second ≤ lifetime ≤ 300 * Second)%Z →
     is_ok (NewEd25519Signer priv issuer lifetime) = true) →
  (∀ p opts, Runs (New p opts)) →
  ∃ r, demo_registry structured mcpDemo apiKey priv = Ok r ∧
    builds_demo agent_yaml agent_text [http_get_definition] ctx r ∧
    (mcpDemo = true → builds_demo agent_mcp_yaml agent_mcp_text [] ctx r) ∧
    (structured = true → ∀ w, forge_Build ctx agent_structured_yaml r [] w =
       ((Err (contract_config_conflict false "skill.structured-output@1.0.0"
                (mkRequiredComponent "outputcontract.json-schema@1.0.0" None)), w), Freeze r)).
Proof.
  intros Hk Hsign Hnew. destruct (demo_registry_filled structured mcpDemo apiKey priv) as (r & Hr & Hl).
  exists r. split; [done|]. split_and!.
  - by eapply agent_builds.
  - by eapply agent_mcp_builds.
  - intros -> w. unfold forge_Build. cbn [run_options fold_left o_overlays o_store].
    assert (Hn : Normalize ctx agent_structured_yaml [] None = Ok (normalized agent_structured_yaml)) by reflexivity.
    assert (Hs : LookupSkill "skill.structured-output@1.0.0" r =
      Ok (structured_NewFactory "skill.structured-output@1.0.0")).
    { by apply (filled_lookup _ _ Hl 12%nat KindSkill
        (structured_NewFactory "skill.structured-output@1.0.0")). }
    rewrite Hn. unfold Build, build_agent, io_bind.
    change (ns_Spec (normalized agent_structured_yaml)) with agent_structured_yaml.
    by rewrite (agent_structured_diverges _ _ _ Hs).
Qed.
End demo_properties.

(** *** The program *)

Section main_properties.
Context `{K : Kernel} {L : Payloads} {O : Orchestration} {A : Approvals} {V : Services}.
Context (os_Open : string → IO string) (yaml_AgentSpec : string → res error AgentSpec).

Lemma list_filter_fmap_swap {X Y} (f : X → Y) (P : Y → Prop) `{!∀ y, Decision (P y)} (l : list X) :
  filter P (f <$> l) = f <$> filter (λ x, P (f x)) l.
Proof.
  induction l as [|x l IH]; [done|]. csimpl. rewrite !filter_cons. destruct (decide (P (f x))); csimpl; by rewrite IH.
Qed.

(** The spec in the file the flags select. *)
Definition demo_file (structured mcpDemo : bool) : AgentSpec :=
  if structured then agent_structured_yaml else if mcpDemo then agent_mcp_yaml else agent_yaml.

(** C40: what the demo prints, when its key is set, its file holds the spec and neither the
    signer nor the kernel refuses: by default the texts of the agent's answer to one
    request with the system prompt of agent.yaml, and a count of eleven components; with
    -mcp the one binding entry of the manifest, invoking nothing; with -structured
    nothing, since the build of its spec fails on the schema the skill conflicts with. *)
Theorem demo_main_outcome structured mcpDemo w priv w1 w2 :
  Getenv "ANTHROPIC_API_KEY" w ≠ "" → GenerateKey w = (priv, w1) →
  (∀ issuer lifetime, issuer ≠ "" → (5 * Second ≤ lifetime ≤ 300 * Second)%Z →
     is_ok (NewEd25519Signer priv issuer lifetime) = true) →
  (∀ p opts, Runs (New p opts)) →
  LoadSpec os_Open yaml_AgentSpec (specPath structured mcpDemo) w1 = (Ok (demo_file structured mcpDemo), w2) →
  let run := demo_main os_Open yaml_AgentSpec structured mcpDemo w in
  if structured then
    run = (Err (Fatalf "build: %v" (contract_config_conflict false "skill.structured-output@1.0.0"
             (mkRequiredComponent "outputcontract.json-schema@1.0.0" None))), w2)
  else if mcpDemo then
    ∃ rc w', run = (Ok (PrintedBindings [rc]), w') ∧
      row rc = ("mcp_binding", "mcp.binding@1.0.0", cr_Config agent_mcp_binding)
  else
    ∃ ba w3, let '(r, w4) := BuiltAgent_Invoke ba Background (demo_request false agent_text) w3 in
      run = match r with
            | Ok res => (Ok (PrintedResponse (response_texts res) 11 None), w4)
            | Err e => (Err (Fatalf "invoke: %v" e), w4)
            end.
Proof.
  intros Hk Hg Hsign Hnew Hload run.
  destruct (demo_specs Background structured mcpDemo (Getenv "ANTHROPIC_API_KEY" w) priv Hk Hsign Hnew)
    as (r & Hr & Hagent & Hmcp & Hstr).
  unfold run, demo_main. rewrite bool_decide_false by done. rewrite Hg.
  rewrite (io_bind_run _ _ _ r w1) by (unfold io_lift; by rewrite Hr).
  rewrite (io_bind_run _ _ _ (demo_file structured mcpDemo) w2) by (by apply io_wrap_Ok).
  unfold demo_file. destruct structured; [|destruct mcpDemo].
  - unfold io_bind, io_wrap. by rewrite (Hstr eq_refl).
  - destruct (Hmcp eq_refl w2) as (ba & w' & Hb & Hrows & _).
    rewrite (io_bind_run _ _ _ ba w') by (apply io_wrap_Ok; by rewrite Hb).
    assert (Hf : row <$> filter (λ rc, mr_Kind rc = "mcp_binding") (elems (mf_Resolved (ba_Manifest ba))) =
      [("mcp_binding", "mcp.binding@1.0.0", cr_Config agent_mcp_binding)]).
    { etransitivity; [|exact (f_equal (filter (λ t, t.1.1 = "mcp_binding")) Hrows)].
      symmetry. exact (list_filter_fmap_swap row (λ t, t.1.1 = "mcp_binding") _). }
    apply fmap_cons_inv in Hf as (rc & l & Hrc & Hl & Hf).
    symmetry in Hl. apply fmap_nil_inv in Hl as ->. exists rc, w'. split; [|done].
    unfold io_ret, BuiltAgent_Manifest. by rewrite <-Hf.
  - destruct (Hagent w2) as (ba & w' & Hb & Hrows & Ht & _). exists ba, w'.
    rewrite (io_bind_run _ _ _ ba w') by (apply io_wrap_Ok; by rewrite Hb).
    unfold BuiltAgent_SystemPrompt, BuiltAgent_Manifest, io_bind, io_wrap, io_ret. rewrite Ht.
    destruct (BuiltAgent_Invoke _ _ _ _) as [[res|e] w4]; simpl; [|done].
    apply (f_equal length) in Hrows. rewrite length_fmap in Hrows. by rewrite Hrows.
Qed.
End main_properties.

(** ** Witness: services that answer *)

#[local] Existing Instance payload_kernel.
#[local] Existing Instance pausing_orchestration.
#[local] Existing Instance pausing_approvals.

Definition sample_services : @Services payload_kernel payload_sample.
Proof.
  refine (Build_Services payload_kernel payload_sample
    (λ _, 0%Z) id (λ _ _, "sk-test")
    unit (λ w, (tt, w)) (λ _ issuer lifetime, Ok (issuer, lifetime))
    tt (0, 0, 0, 0, 0)%Z string id (λ _, id)
    (λ _, eq_refl) (λ _ _ _ _ _, eq_refl)
    Ok Ok (λ _, "error") string string (λ _, Ok) (λ _ req, io_ret req) io_ret "http_get" eq_refl
    unit unit string tt tt id tt (λ _ _ _ _ _ w, w) (λ _ _, ANil) (λ _, tt) (λ _, tt)
    string id (λ _, "max") (λ key _, key)).
Defined.
#[local] Existing Instance sample_services.

Definition demo_files (path : string) : res error AgentSpec :=
  if bool_decide (path = specPath false false) then Ok agent_yaml else Err (EOpaque "no such file").

Definition quiet : @World payload_kernel := [].

Example demo_main_outcome_witness :
  ∃ w', demo_main io_ret demo_files false false quiet = (Ok (PrintedResponse ["done"] 11 None), w').
Proof.
  destruct (@demo_main_outcome payload_kernel payload_sample pausing_orchestration pausing_approvals
    sample_services io_ret demo_files false false quiet tt quiet quiet) as (ba & w3 & H).
  - discriminate.
  - reflexivity.
  - reflexivity.
  - intros p opts. apply Runs_ret.
  - vm_compute. reflexivity.
  - eexists. exact H.
Defined.
