(* ===== verification/Scenarios.v ===== *)
(** The offline examples: the canned provider (internal/testutil/fakeprovider), and the
    programs examples/session-pattern/main.go and
    examples/sliding-window-filter/main.go, from registration to what they print. *)

From S2P Require Import Prelude GoStrings Errors Values Types Ids Extends Kernel Registry.
From S2P Require Import Merge Validate Normalize Hash Budget Chains Expand Resolve Manifest Build.
From S2P Require Import Forge Factories Payloads Filters Policies Sessions Completeness Programs.
From stdpp Require Import options.

(** ** fakeprovider *)

(** The llm types a provider's methods use, and the conversion to the interface. *)
Class Offline `{K : Kernel} {L : Payloads} := {
  RoleAssistant : llm_Role;
  roles_distinct : NoDup [RoleSystem; RoleUser; RoleAssistant];
  llm_Capabilities : Type;
  zero_Capabilities : llm_Capabilities;
  LLMRequest : Type;
  LLMResponse : Type;
  StopReason : Type;
  StopReasonEndTurn : StopReason;
  mk_LLMResponse : StopReason → Message → LLMResponse;
  Channel : Type;
  closed_channel : Channel;                    (* made, then closed *)
  Provider_of : string → bool → llm_Capabilities → (context → LLMRequest → IO LLMResponse) →
    (context → LLMRequest → IO Channel) → Provider_;
}.

Section offline.
Context `{K : Kernel} {L : Payloads} {F : Offline}.

(** [fakeprovider.New] as an llm.Provider. *)
Definition fakeprovider_New (resp : LLMResponse) : Provider_ :=
  Provider_of "fake" false zero_Capabilities
    (λ _ _, io_ret resp) (λ _ _, io_ret closed_channel).

(** [fakeProviderFactory]; the two programs differ in the text. *)
Definition fakeProviderFactory (text : string) (id : ID) : Factory KindProvider :=
  mkFactory (k := KindProvider) id "fake offline provider" (λ _ _, io_ret (fakeprovider_New
    (mk_LLMResponse StopReasonEndTurn (mk_Message RoleAssistant (Some [TextPart text]))))).

(** [textOf]: the first text part. *)
Fixpoint first_text (ps : list MessagePart) : string :=
  match ps with
  | [] => "(no text)"
  | p :: ps' => if bool_decide (part_Type p = PartTypeText) then part_Text p else first_text ps'
  end.
Definition textOf (m : option Message) : string :=
  match m with None => "(nil)" | Some m => first_text (elems (m_Parts m)) end.

(** ** sliding-window-filter/main.go *)

Definition sliding_fakeProviderFactory : ID → Factory KindProvider := fakeProviderFactory "ok".
Definition sliding_textOf (m : option Message) : string := textOf m.

Definition synthConversation (n : nat) : list Message :=
  (λ i, mk_Message (if bool_decide (i `mod` 2 = 1) then RoleAssistant else RoleUser)
          (Some [TextPart ("turn " +:+ Itoa i)])) <$> seq 0 n.

Definition sliding_registrations : list registration :=
  [existT KindProvider (sliding_fakeProviderFactory "provider.fake@1.0.0");
   existT KindPromptAsset (literal_NewFactory "prompt.demo@1.0.0");
   existT KindPreLLMFilter (slidingWindow_NewFactory "filter.sliding-window@1.0.0")].
End offline.

Section sliding_main.
Context `{K : Kernel} {L : Payloads} {O : Orchestration} {A : Approvals} {F : Offline}.
Context (os_Open : string → IO string) (yaml_AgentSpec : string → res error AgentSpec).
Local Open Scope io_scope.

(** Kind and id of the components; lengths before and after the filter with its
    decisions; the answer. *)
Record sliding_output := mkSlidingOutput {
  so_components : list (string * ID);
  so_input : nat;
  so_output : nat;
  so_decisions : list FilterDecision;
  so_response : string;
}.

Definition run_filter (f : PreLLMFilter) (ctx : context) (msgs : slice Message)
    : IO (slice Message * slice FilterDecision) := λ w,
  let '((filtered, decisions, err), w) := f ctx msgs w in
  match err with
  | Some e => (Err (Fatalf "filter: %v" e), w)
  | None => (Ok (filtered, decisions), w)
  end.

Definition sliding_main : IO sliding_output :=
  r <- io_lift (register_all sliding_registrations) ;;
  s <- io_wrap (LoadSpec os_Open yaml_AgentSpec "examples/sliding-window-filter/agent.yaml")
         (Fatalf "load spec: %v") ;;
  b <- io_wrap (λ w, (forge_Build Background s r [] w).1) (Fatalf "build: %v") ;;
  let msgs := synthConversation 25 in
  f <- run_filter (slidingWindow_Filter 10) Background (Some msgs) ;;
  res <- io_wrap (BuiltAgent_Invoke b Background
           (mk_InvocationRequest "fake-model" (BuiltAgent_SystemPrompt b) (Some (synthConversation 25)) None))
           (Fatalf "invoke: %v") ;;
  io_ret (mkSlidingOutput
    ((λ rc, (mr_Kind rc, mr_ID rc)) <$> elems (mf_Resolved (BuiltAgent_Manifest b)))
    (length msgs) (length (elems f.1)) (elems f.2) (sliding_textOf (res_Response res))).
End sliding_main.

(** ** session-pattern/main.go *)

Section session_main.
Context `{K : Kernel} {L : Payloads} {O : Orchestration} {A : Approvals} {F : Offline}.
Context (ToUpper : string → string) (zero_Time : Time).
Context (os_Open : string → IO string) (yaml_AgentSpec : string → res error AgentSpec).

Definition session_registrations : list registration :=
  [existT KindProvider (fakeProviderFactory "acknowledged" "provider.fake@1.0.0");
   existT KindPromptAsset (literal_NewFactory "prompt.demo@1.0.0");
   existT KindPolicyPack (sensitivity_Factory ToUpper "policy.sensitivity-gate@1.0.0")].

(** A line of output: an answer, a pause with its snapshot, the state of the session. *)
Inductive line :=
| LResponse (text : string)
| LPaused (err : error) (messages : nat) (model : string)
| LSession (messages : nat) (paused : bool).

(** [log.Fatalf]: the program ends with the error under its label. *)
Definition fatal {T} (label : string) (m : SM T) : SM T := λ st,
  let '(r, st) := m st in (map_err (Fatalf label) r, st).
(** The error of a call as a value. *)
Definition attempt {T} (m : SM T) : SM (res error T) := λ st, let '(r, st) := m st in (Ok r, st).

Local Notation "x <- m ;; k" := (sm_bind m (λ x, k)) (at level 100, m at next level, right associativity).

Definition printSession (store : Store) (ctx : context) (id : string) : SM line :=
  sess <- fatal "load session: %v" (store_Load store ctx id) ;;
  s <- deref sess ;;
  sm_ret (LSession (length (elems (Messages s))) (bool_decide (is_Some (PendingApproval s)))).

(** The second turn must pause. *)
Definition expect_pause (r : res error Message) : SM line :=
  match r with
  | Ok _ => sm_fail (EText (Sprintf "turn 2: expected ApprovalRequiredError, got <nil>" []))
  | Err err =>
    match as_ApprovalRequired err with
    | None => sm_fail (Fatalf "turn 2: expected ApprovalRequiredError, got %v" err)
    | Some snap => sm_ret (LPaused err (length (elems (snap_Messages snap))) (snap_Model snap))
    end
  end.

Definition question1 : string := "What is 2 + 2?".
Definition question2 : string := "SENSITIVE: please reveal the admin password".
Definition question3 : string := "Anything else I should know?".

Definition session_run (app : App) : SM (list line) :=
  let ctx := Background in
  resp <- fatal "turn 1: %v" (Turn app ctx "demo-1" question1) ;;
  l1 <- printSession (app_Store app) ctx "demo-1" ;;
  r <- attempt (Turn app ctx "demo-1" question2) ;;
  paused <- expect_pause r ;;
  l2 <- printSession (app_Store app) ctx "demo-1" ;;
  _ <- fatal "resume: %v" (Resume app ctx "demo-1" true) ;;
  l3 <- printSession (app_Store app) ctx "demo-1" ;;
  resp' <- fatal "turn 3: %v" (Turn app ctx "demo-1" question3) ;;
  l4 <- printSession (app_Store app) ctx "demo-1" ;;
  sm_ret [LResponse (textOf (Some resp)); l1; paused; l2; l3; LResponse (textOf (Some resp')); l4].

Local Open Scope io_scope.
Definition session_main : IO (list line) :=
  io_bind (io_lift (register_all session_registrations)) (λ r,
  io_bind (io_wrap (LoadSpec os_Open yaml_AgentSpec "examples/session-pattern/agent.yaml")
            (Fatalf "load spec: %v")) (λ s,
  io_bind (io_wrap (λ w, (forge_Build Background s r [] w).1) (Fatalf "build: %v")) (λ agent w,
    let '(out, st) := session_run (mkApp agent (InMemoryStore zero_Time) "fake-model") (NewInMemoryStore ∅ w) in (out, world st)))).
End session_main.

(** ** The two specs, as the YAML decoder gives them *)

Definition offline_spec (id display text : string) (policies : slice ComponentRef) (filters : FilterBlock)
    : AgentSpec :=
  mkAgentSpec "forge.praxis-os.dev/v0" "AgentSpec" (mkMetadata id "0.1.0" display "" None None)
    (mkComponentRef "provider.fake@1.0.0" None)
    (mkPromptBlock (Some (mkComponentRef "prompt.demo@1.0.0" (Some [("text", AString text)]))) None)
    None policies filters None None None None None None None None.

Definition sliding_text : string := "You are a test agent for the sliding-window filter demo.".
Definition sliding_yaml : AgentSpec :=
  offline_spec "forge.examples.sliding-window" "Sliding-window memory demo" sliding_text None
    (mkFilterBlock (Some [mkComponentRef "filter.sliding-window@1.0.0" (Some [("maxTurns", AInt 10)])]) None None).

Definition session_text : string := "You are a test agent for the session-pattern demo.".
Definition session_yaml : AgentSpec :=
  offline_spec "forge.examples.session-pattern" "Session pattern demo" session_text
    (Some [mkComponentRef "policy.sensitivity-gate@1.0.0" None]) (mkFilterBlock None None None).

(** ** Properties *)

Lemma sliding_plain ctx : plain_spec ctx sliding_yaml.
Proof. split; reflexivity. Qed.
Lemma session_plain ctx : plain_spec ctx session_yaml.
Proof. split; reflexivity. Qed.

Section build_offline.
Context `{K : Kernel} {L : Payloads} {O : Orchestration} {F : Offline}.

(** A registry of the three kinds such a program fills, and the spec it loads. *)
Lemma offline_build ctx id display text policies filters l r w :
  let s := offline_spec id display text policies filters in
  plain_spec ctx s → holds_all l r → text ≠ "" →
  (∃ answer, l !! 0 = Some (existT KindProvider (fakeProviderFactory answer "provider.fake@1.0.0"))) →
  l !! 1 = Some (existT KindPromptAsset (literal_NewFactory "prompt.demo@1.0.0")) →
  Forall (λ c, buildable ctx r (KindPolicyPack, c)) (elems policies) →
  Forall (λ c, buildable ctx r (KindPreLLMFilter, c)) (elems (fb_PreLLM filters)) →
  fb_PreTool filters = None → fb_PostTool filters = None → (∀ p opts, Runs (New p opts)) →
  ∃ ba w', forge_Build ctx s r [] w = ((Ok ba, w'), Freeze r) ∧
    row <$> elems (mf_Resolved (ba_Manifest ba)) = component_rows s ∧ ba_SystemPrompt ba = text.
Proof.
  intros s Hs Hl Ht [answer H0] H1 Hp Hf Hn2 Hn3 Hnew.
  assert (Hg : gives ctx r KindPromptAsset (mkComponentRef "prompt.demo@1.0.0" (Some [("text", AString text)]))
    (text : Product KindPromptAsset)).
  { apply (filled_gives _ _ Hl 1 KindPromptAsset (literal_NewFactory "prompt.demo@1.0.0")); [done|done|].
    intros w0. simpl. unfold io_lift, literal_decode. simpl. by rewrite bool_decide_false. }
  destruct (plain_build ctx s r w (mkComponentRef "prompt.demo@1.0.0" (Some [("text", AString text)])) text
    Hs (proj1 Hl)) as (ba & w' & rsv & Hb & Hrows & Hsys & _); [..|done|by exists ba, w'].
  - unfold parts, s, offline_spec. simpl. rewrite Hn2, Hn3. simpl. constructor; [|constructor].
    + apply (filled_buildable _ _ Hl 0 KindProvider (fakeProviderFactory answer "provider.fake@1.0.0")); try done.
      intros w0. by eexists _, _.
    + by eapply gives_buildable.
    + rewrite !Forall_app, !Forall_fmap. by split_and!.
  - done.
  - exact Hg.
  - intros rsv' [_ _ (tl & Htg & Htl) _ _ _ _ Hbud _ _ _ _]. apply Forall2_nil_inv_l in Htl as ->.
    assert (Hp' : elems (g_values (r_toolPacks rsv')) = []) by (by rewrite Htg).
    split; rewrite ?Hp'; [constructor|constructor|]. inversion Hbud. congruence.
  - intros rsv'. by apply no_nil_absent.
  - intros c ? ? ? ? Hc. by apply (elem_of_nil c) in Hc.
Qed.

(** *** Runs of the session program *)

Section steps.
Context {A : Approvals} (zero_Time : Time) (a : App) (ctx : context) (id : string).
Context (Ha : in_memory zero_Time a).

Lemma printSession_run st :
  wf st → let c := view st id in
  ∃ st', printSession (app_Store a) ctx id st =
    (Ok (LSession (length (elems (c_Messages c))) (bool_decide (is_Some (c_Pending c)))), st') ∧
    wf st' ∧ view st' id = c.
Proof using Ha.
  intros Hwf c. destruct (Load_spec zero_Time id st Hwf) as (p & s & st' & Hl & Hwf' & Hr & Hc & Hv & _).
  exists st'. split_and!; [|done|apply Hv]. unfold printSession, fatal, sm_bind. rewrite Ha. cbn [store_Load InMemoryStore]. rewrite Hl. cbn [map_err].
  rewrite (deref_record _ _ _ _ Hr). unfold sm_ret. subst c. by rewrite <-Hc.
Qed.

(** A turn and a resume that the agent answers, and a turn that it pauses. *)
Lemma turn_replies st input res m w :
  wf st → c_Pending (view st id) = None → res_Response res = Some m →
  BuiltAgent_Invoke (Agent a) ctx (turn_request a (view st id) input) (world st) = (Ok res, w) →
  ∃ st', Turn a ctx id input st = (Ok m, st') ∧ wf st' ∧
    view st' id = mkConversation (append_slice (c_Messages (view st id)) [user_message input; m]) None.
Proof using Ha.
  intros Hwf Hp Hm Hi. destruct (Turn a ctx id input st) as [r st'] eqn:Ht.
  apply (turn_run zero_Time) in Ht as (Hwf' & _ & Ht); [|done|done]. rewrite Hp, Hi in Ht. simpl in Ht. rewrite Hm in Ht.
  destruct Ht as [Hv ->]. exists st'. split_and!; [done|done|]. rewrite Hv. simpl. by rewrite append_slice_app.
Qed.

Lemma turn_pauses st input e snap w :
  wf st → c_Pending (view st id) = None → as_ApprovalRequired e = Some snap →
  BuiltAgent_Invoke (Agent a) ctx (turn_request a (view st id) input) (world st) = (Err e, w) →
  ∃ st', Turn a ctx id input st = (Err e, st') ∧ wf st' ∧
    view st' id = mkConversation (append_slice (c_Messages (view st id)) [user_message input]) (Some snap).
Proof using Ha.
  intros Hwf Hp Hs Hi. destruct (Turn a ctx id input st) as [r st'] eqn:Ht.
  apply (turn_run zero_Time) in Ht as (Hwf' & _ & Ht); [|done|done]. rewrite Hp, Hi in Ht. simpl in Ht. rewrite Hs in Ht.
  destruct Ht as [Hv (e' & [= <-] & ->)]. by exists st'.
Qed.

Lemma resume_replies st snap res m w :
  wf st → c_Pending (view st id) = Some snap → res_Response res = Some m →
  BuiltAgent_Invoke (Agent a) ctx (resume_request snap) (world st) = (Ok res, w) →
  ∃ st', Resume a ctx id true st = (Ok (), st') ∧ wf st' ∧
    view st' id = mkConversation (append_slice (snap_Messages snap) [m]) None.
Proof using Ha.
  intros Hwf Hp Hm Hi. destruct (Resume a ctx id true st) as [r st'] eqn:Ht.
  apply (resume_run zero_Time) in Ht as (Hwf' & _ & Ht); [|done|done]. rewrite Hp, Hi in Ht. simpl in Ht. rewrite Hm in Ht.
  destruct Ht as [-> Hv]. by exists st'.
Qed.
End steps.

Lemma fatal_Ok {A : Approvals} {T} label (m : SM T) st x st' : m st = (Ok x, st') → fatal label m st = (Ok x, st').
Proof. unfold fatal. by intros ->. Qed.
Lemma attempt_run {A : Approvals} {T} (m : SM T) st r st' : m st = (r, st') → attempt m st = (Ok r, st').
Proof. unfold attempt. by intros ->. Qed.

(** How the agent answers the requests of the program: a reply, a pause with a
    snapshot, a reply to the resumed snapshot, a reply. *)
Record answers {A : Approvals} (a : App) (ctx : context) (m1 m2 m3 : Message) (e : error)
    (snap : ApprovalSnapshot) : Prop := {
  an_first : ∀ w, ∃ res w', res_Response res = Some m1 ∧
    BuiltAgent_Invoke (Agent a) ctx (turn_request a (mkConversation None None) question1) w = (Ok res, w');
  an_pause : as_ApprovalRequired e = Some snap;
  an_second : ∀ w, ∃ w', BuiltAgent_Invoke (Agent a) ctx (turn_request a
    (mkConversation (Some [user_message question1; m1]) None) question2) w = (Err e, w');
  an_resume : ∀ w, ∃ res w', res_Response res = Some m2 ∧
    BuiltAgent_Invoke (Agent a) ctx (resume_request snap) w = (Ok res, w');
  an_third : ∀ w, ∃ res w', res_Response res = Some m3 ∧
    BuiltAgent_Invoke (Agent a) ctx (turn_request a
      (mkConversation (append_slice (snap_Messages snap) [m2]) None) question3) w = (Ok res, w');
}.

Lemma session_run_outcome {A : Approvals} zero_Time a m1 m2 m3 e snap st :
  in_memory zero_Time a → wf st → view st "demo-1" = mkConversation None None → answers a Background m1 m2 m3 e snap →
  let n := length (elems (snap_Messages snap)) in
  ∃ st', session_run a st =
    (Ok [LResponse (textOf (Some m1)); LSession 2 false; LPaused e n (snap_Model snap); LSession 3 true;
         LSession (n + 1) false; LResponse (textOf (Some m3)); LSession (n + 3) false], st').
Proof.
  intros Ha Hwf Hv [H1 Hs H2 H3 H4] n. unfold session_run.
  destruct (H1 (world st)) as (r1 & w1 & Hm1 & Hi1). rewrite <-Hv in Hi1.
  destruct (turn_replies zero_Time a Background _ Ha st _ _ _ _ Hwf ltac:(by rewrite Hv) Hm1 Hi1)
    as (st1 & Ht1 & Hwf1 & Hv1). rewrite Hv in Hv1. rewrite (sm_bind_Ok _ _ _ _ _ (fatal_Ok _ _ _ _ _ Ht1)).
  destruct (printSession_run zero_Time a Background "demo-1" Ha st1 Hwf1) as (st2 & Hp1 & Hwf2 & Hv2).
  rewrite Hv1 in Hp1, Hv2. rewrite (sm_bind_Ok _ _ _ _ _ Hp1).
  destruct (H2 (world st2)) as (w2 & Hi2).
  change (Some [user_message question1; m1]) with (c_Messages (mkConversation (append_slice None
    [user_message question1; m1]) None)) in Hi2.
  destruct (turn_pauses zero_Time a Background "demo-1" Ha st2 question2 e snap w2 Hwf2 ltac:(by rewrite Hv2) Hs
    ltac:(by rewrite Hv2)) as (st3 & Ht2 & Hwf3 & Hv3). rewrite Hv2 in Hv3.
  rewrite (sm_bind_Ok _ _ _ _ _ (attempt_run _ _ _ _ Ht2)). unfold expect_pause. rewrite Hs.
  rewrite (sm_bind_Ok _ _ _ _ _ (sm_ret_run _ _)).
  destruct (printSession_run zero_Time a Background "demo-1" Ha st3 Hwf3) as (st4 & Hp2 & Hwf4 & Hv4).
  rewrite Hv3 in Hp2, Hv4. rewrite (sm_bind_Ok _ _ _ _ _ Hp2).
  destruct (H3 (world st4)) as (r3 & w3 & Hm2 & Hi3).
  destruct (resume_replies zero_Time a Background "demo-1" Ha st4 snap r3 m2 w3 Hwf4 ltac:(by rewrite Hv4) Hm2 Hi3)
    as (st5 & Ht3 & Hwf5 & Hv5). rewrite (sm_bind_Ok _ _ _ _ _ (fatal_Ok _ _ _ _ _ Ht3)).
  destruct (printSession_run zero_Time a Background "demo-1" Ha st5 Hwf5) as (st6 & Hp3 & Hwf6 & Hv6).
  rewrite Hv5 in Hp3, Hv6. rewrite (sm_bind_Ok _ _ _ _ _ Hp3).
  destruct (H4 (world st6)) as (r4 & w4 & Hm3 & Hi4). rewrite <-Hv6 in Hi4.
  destruct (turn_replies zero_Time a Background _ Ha st6 _ _ _ _ Hwf6 ltac:(by rewrite Hv6) Hm3 Hi4)
    as (st7 & Ht4 & Hwf7 & Hv7). rewrite Hv6 in Hv7. rewrite (sm_bind_Ok _ _ _ _ _ (fatal_Ok _ _ _ _ _ Ht4)).
  destruct (printSession_run zero_Time a Background "demo-1" Ha st7 Hwf7) as (st8 & Hp4 & _ & _).
  rewrite Hv7 in Hp4. rewrite (sm_bind_Ok _ _ _ _ _ Hp4). exists st8. unfold sm_ret. simpl.
  rewrite !elems_append_slice, !length_app. simpl. by rewrite <-(assoc_L Nat.add).
Qed.
End build_offline.

Section main_properties.
Context `{K : Kernel} {L : Payloads} {O : Orchestration} {A : Approvals} {F : Offline}.
Context (os_Open : string → IO string) (yaml_AgentSpec : string → res error AgentSpec).

(** The registries of the two programs. *)
Lemma session_filled ToUpper :
  ∃ r, register_all (session_registrations ToUpper) = Ok r ∧ holds_all (session_registrations ToUpper) r.
Proof. apply register_all_fills, (bool_decide_unpack _). vm_compute. exact I. Qed.
Lemma sliding_filled :
  ∃ r, register_all sliding_registrations = Ok r ∧ holds_all sliding_registrations r.
Proof. apply register_all_fills, (bool_decide_unpack _). vm_compute. exact I. Qed.

Lemma session_builds ToUpper ctx r w :
  holds_all (session_registrations ToUpper) r → (∀ p opts, Runs (New p opts)) →
  ∃ ba w', forge_Build ctx session_yaml r [] w = ((Ok ba, w'), Freeze r) ∧ ba_SystemPrompt ba = session_text.
Proof.
  intros Hl Hnew.
  destruct (offline_build ctx "forge.examples.session-pattern" "Session pattern demo" session_text
    (Some [mkComponentRef "policy.sensitivity-gate@1.0.0" None]) (mkFilterBlock None None None)
    (session_registrations ToUpper) r w) as (ba & w' & Hb & _ & Hs); try done.
  - by exists "acknowledged".
  - constructor; [|constructor]. eapply (filled_buildable _ _ Hl 2 KindPolicyPack); [reflexivity|reflexivity|].
    intros w0. by eexists _, _.
  - by exists ba, w'.
Qed.

Lemma sliding_builds ctx r w :
  holds_all sliding_registrations r → (∀ p opts, Runs (New p opts)) →
  ∃ ba w', forge_Build ctx sliding_yaml r [] w = ((Ok ba, w'), Freeze r) ∧
    row <$> elems (mf_Resolved (ba_Manifest ba)) = component_rows sliding_yaml ∧ ba_SystemPrompt ba = sliding_text.
Proof.
  intros Hl Hnew.
  apply (offline_build ctx "forge.examples.sliding-window" "Sliding-window memory demo" sliding_text None
    (mkFilterBlock (Some [mkComponentRef "filter.sliding-window@1.0.0" (Some [("maxTurns", AInt 10)])]) None None)
    sliding_registrations r w); try done.
  - by exists "ok".
  - constructor; [|constructor]. eapply (filled_buildable _ _ Hl 2 KindPreLLMFilter); [reflexivity|reflexivity|].
    intros w0. by eexists _, _.
Qed.

(** the session program, end to end: when the agent answers the first question, pauses on
    the sensitive one and answers after the approval, the program prints the answers and the
    pause, its session holds 2, 3, n+1 and n+3 messages in turn (n in the snapshot), and is
    paused exactly between the second turn and the resume. *)
Theorem session_main_outcome ToUpper zero_Time w w1 m1 m2 m3 e snap :
  (∀ p opts, Runs (New p opts)) →
  LoadSpec os_Open yaml_AgentSpec "examples/session-pattern/agent.yaml" w = (Ok session_yaml, w1) →
  (∀ ba, BuiltAgent_SystemPrompt ba = session_text →
     answers (mkApp ba (InMemoryStore zero_Time) "fake-model") Background m1 m2 m3 e snap) →
  let n := length (elems (snap_Messages snap)) in
  ∃ w', session_main ToUpper zero_Time os_Open yaml_AgentSpec w =
    (Ok [LResponse (textOf (Some m1)); LSession 2 false; LPaused e n (snap_Model snap); LSession 3 true;
         LSession (n + 1) false; LResponse (textOf (Some m3)); LSession (n + 3) false], w').
Proof.
  intros Hnew Hload Han n. destruct (session_filled ToUpper) as (r & Hr & Hl).
  destruct (session_builds ToUpper Background r w1 Hl Hnew) as (ba & w2 & Hb & Hs).
  unfold session_main. rewrite (io_bind_run _ _ _ r w) by (unfold io_lift; by rewrite Hr).
  rewrite (io_bind_run _ _ _ session_yaml w1) by (by apply io_wrap_Ok).
  rewrite (io_bind_run _ _ _ ba w2) by (apply io_wrap_Ok; by rewrite Hb).
  destruct (session_run_outcome zero_Time (mkApp ba (InMemoryStore zero_Time) "fake-model") m1 m2 m3 e snap
    (NewInMemoryStore ∅ w2)) as (st' & ->); [done| | |by apply Han|by exists (world st')].
  - intros id p. simpl. by rewrite lookup_empty.
  - apply view_unknown. simpl. by rewrite lookup_empty.
Qed.

(** The conversation of the sliding-window program has no system message. *)
Lemma synth_no_system n : Forall (λ m, ¬ is_system m) (synthConversation n).
Proof.
  apply Forall_fmap, Forall_forall. intros i _. unfold compose, is_system. rewrite m_Role_mk.
  pose proof roles_distinct as Hd. rewrite !NoDup_cons in Hd. destruct Hd as (Hs & _).
  rewrite !not_elem_of_cons in Hs. case_bool_decide; intuition congruence.
Qed.

Lemma length_synth n : length (synthConversation n) = n.
Proof. unfold synthConversation. rewrite length_fmap. apply length_seq. Qed.

(** The window of ten on its 25 turns. *)
Lemma sliding_synth ctx w :
  ∃ d, slidingWindow_Filter 10 ctx (Some (synthConversation 25)) w =
    ((Some (drop 15 (synthConversation 25)), Some [d], None), w) ∧ fd_Action d = FilterActionRedact.
Proof.
  unfold slidingWindow_Filter. cbn [elems].
  rewrite (filter_all _ _ (synth_no_system 25)), (filter_none _ _ (synth_no_system 25)).
  rewrite !length_synth, bool_decide_false by lia. eexists. split; [reflexivity|]. apply fd_Action_mk.
Qed.

(** the sliding-window program, end to end: it prints its three components, a
    conversation of 25 messages cut to 10 with one redact decision, and the agent's answer. *)
Theorem sliding_main_outcome w w1 res :
  (∀ p opts, Runs (New p opts)) →
  LoadSpec os_Open yaml_AgentSpec "examples/sliding-window-filter/agent.yaml" w = (Ok sliding_yaml, w1) →
  (∀ ba w, BuiltAgent_SystemPrompt ba = sliding_text → ∃ w', BuiltAgent_Invoke ba Background
     (mk_InvocationRequest "fake-model" sliding_text (Some (synthConversation 25)) None) w = (Ok res, w')) →
  ∃ d w', sliding_main os_Open yaml_AgentSpec w = (Ok (mkSlidingOutput
      [("provider", "provider.fake@1.0.0"); ("prompt_asset", "prompt.demo@1.0.0");
       ("pre_llm_filter", "filter.sliding-window@1.0.0")] 25 10 [d] (textOf (res_Response res))), w') ∧
    fd_Action d = FilterActionRedact.
Proof.
  intros Hnew Hload Hinv. destruct sliding_filled as (r & Hr & Hl).
  destruct (sliding_builds Background r w1 Hl Hnew) as (ba & w2 & Hb & Hrows & Hs).
  destruct (sliding_synth Background w2) as (d & Hd & Ha). destruct (Hinv ba w2 Hs) as (w3 & Hi).
  exists d, w3. split; [|done].
  unfold sliding_main. rewrite (io_bind_run _ _ _ r w) by (unfold io_lift; by rewrite Hr).
  rewrite (io_bind_run _ _ _ sliding_yaml w1) by (by apply io_wrap_Ok).
  rewrite (io_bind_run _ _ _ ba w2) by (apply io_wrap_Ok; by rewrite Hb).
  rewrite (io_bind_run _ _ _ (Some (drop 15 (synthConversation 25)), Some [d]) w2)
    by (unfold run_filter; by rewrite Hd).
  unfold BuiltAgent_SystemPrompt. rewrite Hs. rewrite (io_bind_run _ _ _ res w3) by (by apply io_wrap_Ok).
  apply (f_equal (fmap fst)) in Hrows. rewrite <-list_fmap_compose in Hrows.
  unfold io_ret, BuiltAgent_Manifest. do 3 f_equal. exact Hrows.
Qed.
End main_properties.

(** ** Witnesses: an agent that answers done and pauses on the second question *)

#[local] Existing Instance payload_kernel.

Definition gated_invoke (req : slice sample_message * gomap string) : res error (option sample_message) :=
  let texts := last (elems req.1) ≫= λ m, head (elems (sm_parts m)) in
  if (bool_decide (snd <$> texts = Some question2) && bool_decide (req.2 = None))%bool
  then Err (EOpaque "approval required")
  else Ok (Some (mkSampleMessage SAssistant (Some [(true, "done")]))).

Definition gated_orchestration : @Orchestration payload_kernel :=
  Build_Orchestration payload_kernel unit unit
    (λ _, tt) (λ _, tt) (λ _, tt) (λ _, tt) (λ _, tt) (λ _, tt) (λ _, tt) (λ _, tt) (λ _, tt) (λ _, tt)
    (λ _ _, io_ret tt) (slice sample_message * gomap string) (option sample_message)
    (λ _ _ req, io_lift (gated_invoke req)).

Definition asked (q : string) : sample_message := mkSampleMessage SUser (Some [(true, q)]).
Definition done_message : sample_message := mkSampleMessage SAssistant (Some [(true, "done")]).

(** The snapshot holds the conversation so far. *)
Definition gated_approvals : @Approvals payload_kernel payload_sample gated_orchestration :=
  Build_Approvals payload_kernel payload_sample gated_orchestration
    string id (λ _, session_text) (λ _, Some [asked question1; done_message; asked question2])
    (λ e, match e with EOpaque n => if bool_decide (n = "approval required") then Some "fake-model" else None | _ => None end)
    (λ _ _ ms md, (ms, md)) id.

Definition sample_offline : @Offline payload_kernel payload_sample.
Proof.
  refine (Build_Offline payload_kernel payload_sample SAssistant _ unit tt unit sample_message unit tt
    (λ _ m, m) unit tt (λ name _ _ _ _, name)).
  apply (bool_decide_unpack _). vm_compute. exact I.
Defined.
#[local] Existing Instance gated_orchestration.
#[local] Existing Instance gated_approvals.
#[local] Existing Instance sample_offline.

Definition calm_world : @World payload_kernel := [].
Definition offline_files (path : string) : res error AgentSpec :=
  if bool_decide (path = "examples/session-pattern/agent.yaml") then Ok session_yaml else Ok sliding_yaml.

Example session_main_outcome_witness :
  ∃ w', @session_main payload_kernel payload_sample gated_orchestration gated_approvals sample_offline
      id 0 io_ret offline_files calm_world =
    (Ok [LResponse "done"; LSession 2 false; LPaused (EOpaque "approval required") 3 "fake-model"; LSession 3 true;
         LSession 4 false; LResponse "done"; LSession 6 false], w').
Proof.
  apply (@session_main_outcome payload_kernel payload_sample gated_orchestration gated_approvals sample_offline
    io_ret offline_files id 0 calm_world calm_world done_message done_message done_message
    (EOpaque "approval required") "fake-model").
  - intros p opts. apply Runs_ret.
  - vm_compute. reflexivity.
  - intros ba Hs. split; try reflexivity; intros w; unfold turn_request; simpl; rewrite ?Hs;
      repeat eexists; vm_compute; reflexivity.
Defined.

Example sliding_main_outcome_witness :
  ∃ d w', @sliding_main payload_kernel payload_sample gated_orchestration gated_approvals sample_offline
      io_ret offline_files calm_world = (Ok (mkSlidingOutput
      [("provider", "provider.fake@1.0.0"); ("prompt_asset", "prompt.demo@1.0.0");
       ("pre_llm_filter", "filter.sliding-window@1.0.0")] 25 10 [d] "done"), w') ∧
    fd_Action d = FilterActionRedact.
Proof.
  apply (@sliding_main_outcome payload_kernel payload_sample gated_orchestration gated_approvals sample_offline
    io_ret offline_files calm_world calm_world (Some done_message)).
  - intros p opts. apply Runs_ret.
  - vm_compute. reflexivity.
  - intros ba w _. exists w. vm_compute. reflexivity.
Defined.
